(** * mcut tutorials: mesh readers, mesh writer and seam-sequence decoding

    A shallow embedding of the I/O code of
    [tutorials/QuerySeamVerticesSorted/QuerySeamVerticesSorted.cpp]:
    [readOBJ], [getline], [readLine], [readOFF], [writeOFF] and the loop of
    [main] that splits the seam-vertex array returned by the engine into one
    array per sequence.

    Conventions of the embedding.
    - A [char] is an [ascii]; a C string inside a buffer ends at the first
      [NUL].  Files are byte sequences ([list ascii]).
    - [uint32_t] values are [Z] reduced modulo [2^32]; [int] values are [Z]
      in [[-2^31, 2^31)], and an [int] operation whose result leaves that
      range is undefined behaviour.
    - [double] is IEEE binary64, as [spec_float] with precision 53 and
      [emax] 1024; text <-> double conversions are correctly rounded.
    - Every function returns an [outcome]: a normal return, a fatal error
      (message on [stderr], then [exit]/[abort]), undefined behaviour, or
      divergence.
    - Memory allocation succeeds, and so do the file operations other
      than [fopen] and the [fseek] of [readOFF], whose failure
      [readOFF_on] has. *)

From Stdlib Require Import ZArith Ascii String Bool List Lia.
From Stdlib Require Import Floats.SpecFloat.
Import ListNotations.

Local Open Scope Z_scope.

(** ** Outcomes *)

Inductive outcome (A : Type) : Type :=
| Ok (a : A)            (* normal return *)
| Fatal (msg : string)  (* error message, then [exit] or [abort] *)
| Undefined             (* undefined behaviour of C++ *)
| Diverges              (* a loop that never ends *)
| Unmodelled.           (* a numeral notation left out of [scan_lf], or a NaN to write *)

Arguments Ok {A} a.
Arguments Fatal {A} msg.
Arguments Undefined {A}.
Arguments Diverges {A}.
Arguments Unmodelled {A}.

Definition bind {A B : Type} (m : outcome A) (k : A -> outcome B) : outcome B :=
  match m with
  | Ok a => k a
  | Fatal msg => Fatal msg
  | Undefined => Undefined
  | Diverges => Diverges
  | Unmodelled => Unmodelled
  end.

Declare Scope outcome_scope.
Delimit Scope outcome_scope with outcome.
Notation "x <- m ;; k" := (bind m (fun x => k))
  (at level 61, m at next level, right associativity) : outcome_scope.
Notation "' pat <- m ;; k" := (bind m (fun x => match x with pat => k end))
  (at level 61, pat pattern, m at next level, right associativity) : outcome_scope.
Local Open Scope outcome_scope.

(** The process was terminated with an error report. *)
Definition is_fatal {A : Type} (m : outcome A) : Prop := exists msg, m = Fatal msg.

(** ** Machine integers *)

Definition UINT32_MOD : Z := 2 ^ 32.
Definition INT_MIN : Z := - 2 ^ 31.
Definition INT_MAX : Z := 2 ^ 31 - 1.

(** Conversion to [uint32_t]. *)
Definition u32 (z : Z) : Z := z mod UINT32_MOD.

(** Conversion of a [uint32_t] to [int] (two's complement). *)
Definition to_int (z : Z) : Z :=
  let w := u32 z in if w <=? INT_MAX then w else w - UINT32_MOD.

Definition in_int (z : Z) : bool := (INT_MIN <=? z) && (z <=? INT_MAX).

(** An [int] result: undefined behaviour on overflow. *)
Definition int_val (z : Z) : outcome Z := if in_int z then Ok z else Undefined.

(** ** Arrays *)

(** [a[i]] for an array (or [std::vector]) of [length a] initialised
    elements: unchecked in C++, hence undefined outside the array. *)
Definition index {A : Type} (a : list A) (i : Z) : outcome A :=
  if i <? 0 then Undefined
  else match nth_error a (Z.to_nat i) with
       | Some x => Ok x
       | None => Undefined
       end.

(** [memcpy(dst.data(), a + off, n * sizeof *a)] into a vector [dst] that
    has just been resized from empty to [n] elements.  For [n = 0] the
    vector is still empty and [data()] is a null pointer, which [memcpy]
    must not be given, whatever the size: undefined behaviour. *)
Definition memcpy {A : Type} (a : list A) (off n : Z) : outcome (list A) :=
  if (0 <=? off) && (0 <? n) && (off + n <=? Z.of_nat (length a))
  then Ok (firstn (Z.to_nat n) (skipn (Z.to_nat off) a))
  else Undefined.

(** ** Seam vertex sequences ([main], the loop over [numSeamVertexSequences]) *)

Module Seam.

(** Modelled from the spec: [McUint32] and [McBool] are declared in
    [mcut/mcut.h], which is not part of these sources; the array is one of
    unsigned 32-bit elements and the flag is 0 or 1, so both are taken as
    unsigned 32-bit integers.
    [std::pair<std::vector<McUint32>, McBool>]: the indices of a sequence
    and its loop flag, the flag kept as the array element it was read from. *)
Definition sequence : Type := (list Z * Z)%type.

(** One iteration per sequence: length, loop flag, then the indices;
    [runningOffset] is a [uint32_t]. *)
Fixpoint sequences_from (n : nat) (arr : list Z) (runningOffset : Z)
  : outcome (list sequence * Z) :=
  match n with
  | O => Ok ([], runningOffset)
  | S n' =>
      size <- index arr runningOffset ;;
      let runningOffset := u32 (runningOffset + 1) in
      isLoop <- index arr runningOffset ;;
      let runningOffset := u32 (runningOffset + 1) in
      indices <- memcpy arr runningOffset size ;;
      let runningOffset := u32 (runningOffset + size) in
      '(rest, final) <- sequences_from n' arr runningOffset ;;
      Ok ((indices, isLoop) :: rest, final)
  end.

(** The value of [seamVertexSequences] and of [runningOffset] after the loop,
    for [seamVertexSequenceArrayFromMCUT = arr]. *)
Definition seamVertexSequences (arr : list Z) : outcome (list sequence * Z) :=
  numSeamVertexSequences <- index arr 0 ;;
  sequences_from (Z.to_nat numSeamVertexSequences) arr (u32 (0 + 1)).

(** The array layout documented in [main]:
    [<num-total-sequences>, <num-vertices-in-1st-sequence>,
     <1st-sequence-is-loop-flag>, <vertex-indices-of-1st-sequence>, ...]. *)
Definition layout_sequence (s : sequence) : list Z :=
  Z.of_nat (length (fst s)) :: snd s :: fst s.

Definition layout (seqs : list sequence) : list Z :=
  Z.of_nat (length seqs) :: flat_map layout_sequence seqs.

(** Number of array elements of the groups of [seqs]. *)
Definition groups_size (seqs : list sequence) : Z :=
  fold_right (fun s acc => 2 + Z.of_nat (length (fst s)) + acc) 0 seqs.

End Seam.

(** ** Characters and C strings *)

Definition NUL : ascii := "000"%char.
Definition LF : ascii := "010"%char.
Definition CR : ascii := "013"%char.

(** [isspace] in the "C" locale. *)
Definition isspace (c : ascii) : bool :=
  let n := Z.of_N (N_of_ascii c) in (n =? 32) || ((9 <=? n) && (n <=? 13)).

Definition digit_val (c : ascii) : option Z :=
  let n := Z.of_N (N_of_ascii c) in
  if (48 <=? n) && (n <=? 57) then Some (n - 48) else None.

Definition digit_char (d : Z) : ascii := ascii_of_N (Z.to_N (48 + d)).

(** The C string that starts at the beginning of [buf]: the characters
    before the first [NUL].  The bytes of [buf] are the initialised bytes
    of the buffer; running over them without meeting a [NUL] is undefined. *)
Fixpoint cstr (buf : list ascii) : outcome (list ascii) :=
  match buf with
  | [] => Undefined
  | c :: buf' => if Ascii.eqb c NUL then Ok [] else (s <- cstr buf' ;; Ok (c :: s))
  end.

Fixpoint prefixb (p s : list ascii) : bool :=
  match p, s with
  | [], _ => true
  | a :: p', b :: s' => Ascii.eqb a b && prefixb p' s'
  | _ :: _, [] => false
  end.

(** [strstr(s, needle)]: the suffix of [s] at the first occurrence of
    [needle], [None] for a null pointer. *)
Fixpoint strstr (s needle : list ascii) : option (list ascii) :=
  if prefixb needle s then Some s
  else match s with
       | [] => None
       | _ :: s' => strstr s' needle
       end.

(** ** Formatted input *)

Fixpoint skip_space (s : list ascii) : list ascii :=
  match s with
  | c :: s' => if isspace c then skip_space s' else s
  | [] => []
  end.

(** The longest run of decimal digits at the head of [s]: accumulated
    value, number of digits, and what follows. *)
Fixpoint scan_digits (s : list ascii) (acc : Z) (count : nat) : Z * nat * list ascii :=
  match s with
  | c :: s' =>
      match digit_val c with
      | Some d => scan_digits s' (acc * 10 + d) (S count)
      | None => (acc, count, s)
      end
  | [] => (acc, count, [])
  end.

Definition scan_sign (s : list ascii) : bool * list ascii :=
  match s with
  | "-"%char :: s' => (true, s')
  | "+"%char :: s' => (false, s')
  | _ => (false, s)
  end.

(** Result of one conversion specification of [sscanf]. *)
Inductive conversion (A : Type) : Type :=
| Converted (v : A) (rest : list ascii)
| InputFailure       (* end of the string before any character of the item *)
| MatchingFailure
| Unrepresentable    (* the value does not fit the object: undefined *)
| NotModelled.       (* notation left out of the embedding *)

Arguments Converted {A} v rest.
Arguments InputFailure {A}.
Arguments MatchingFailure {A}.
Arguments Unrepresentable {A}.
Arguments NotModelled {A}.

(** [%d] into an [int]. *)
Definition scan_d (s : list ascii) : conversion Z :=
  match skip_space s with
  | [] => InputFailure
  | s0 =>
      let '(neg, s1) := scan_sign s0 in
      let '(v, n, rest) := scan_digits s1 0 0 in
      if (n =? 0)%nat then MatchingFailure
      else let v := if neg then - v else v in
           if in_int v then Converted v rest else Unrepresentable
  end.

(** *** binary64 *)

Definition prec : Z := 53.
Definition emax : Z := 1024.
Definition double : Type := spec_float.

(** The double nearest to [m * 10^k] (ties to even), [m >= 0], with sign
    [neg]: the value [strtod] and [%lf] give to a decimal numeral. *)
Definition double_of_decimal (neg : bool) (m k : Z) : double :=
  if m <=? 0 then S754_zero neg
  else if 0 <=? k then binary_round prec emax neg (Z.to_pos (m * 10 ^ k)) 0
  else let '(q, e, l) := SFdiv_core_binary prec emax m 0 (10 ^ (- k)) 0 in
       binary_round_aux prec emax neg q e l.

(** [0.0] and [1.0]. *)
Definition zero : double := S754_zero false.
Definition one : double := S754_finite false 4503599627370496 (-52).

Definition is_letter_in (cs : list ascii) (s : list ascii) : bool :=
  match s with
  | c :: _ => existsb (Ascii.eqb c) cs
  | [] => false
  end.

(** [inf] in any case, when no [i] follows: what is left of the input. *)
Definition scan_inf (s : list ascii) : option (list ascii) :=
  match s with
  | c1 :: c2 :: c3 :: rest =>
      if is_letter_in ["i"; "I"]%char [c1] && is_letter_in ["n"; "N"]%char [c2]
         && is_letter_in ["f"; "F"]%char [c3] && negb (is_letter_in ["i"; "I"]%char rest)
      then Some rest
      else None
  | _ => None
  end.

(** What follows the sign: [inf], or the digits of a decimal numeral,
    [digits [. digits] [e [sign] digits]]. *)
Definition scan_decimal (neg : bool) (s1 : list ascii) : conversion double :=
  match scan_inf s1 with
  | Some rest => Converted (S754_infinity neg) rest
  | None =>
      if is_letter_in ["i"; "I"; "n"; "N"]%char s1 then NotModelled
      else
        let '(m1, n1, r1) := scan_digits s1 0 0 in
        if is_letter_in ["x"; "X"]%char r1 then NotModelled
        else
          let '(m, n2, r2) :=
            match r1 with
            | "."%char :: r1' => scan_digits r1' m1 0
            | _ => (m1, O, r1)
            end in
          if (n1 + n2 =? 0)%nat then MatchingFailure
          else if is_letter_in ["e"; "E"]%char r2 then
            let '(eneg, r3) := scan_sign (tl r2) in
            let '(ev, en, r4) := scan_digits r3 0 0 in
            if (en =? 0)%nat then NotModelled
            else Converted
                   (double_of_decimal neg m ((if eneg then - ev else ev) - Z.of_nat n2)) r4
          else Converted (double_of_decimal neg m (- Z.of_nat n2)) r2
  end.

(** [%lf] into a [double], for [[sign] inf] and for decimal numerals
    [[sign] digits [. digits] [e [sign] digits]].  Left out: [infinity]
    and every other text that starts with [i], the spellings of NaN,
    hexadecimal numerals, and an [e] that no exponent digit follows. *)
Definition scan_lf (s : list ascii) : conversion double :=
  match skip_space s with
  | [] => InputFailure
  | s0 => let '(neg, s1) := scan_sign s0 in scan_decimal neg s1
  end.

(** [sscanf(s, "%lf %lf ... %lf", ...)] with [n] conversions: the values
    assigned, in order.  Fewer than [n] values: the conversion after them
    failed.  The return value of [sscanf] is their number, or [EOF] when
    the string ended before the first one. *)
Fixpoint sscanf_lf (n : nat) (s : list ascii) : outcome (Z * list double) :=
  match n with
  | O => Ok (0, [])
  | S n' =>
      match scan_lf s with
      | Converted v rest =>
          '(_, vs) <- sscanf_lf n' rest ;; Ok (1 + Z.of_nat (length vs), v :: vs)
      | InputFailure => Ok (-1, [])
      | MatchingFailure => Ok (0, [])
      | Unrepresentable => Undefined
      | NotModelled => Unmodelled
      end
  end.

(** A single [%d] whose target was not initialised: using the target after
    a failed conversion reads an indeterminate value. *)
Definition sscanf_d (s : list ascii) : outcome (Z * list ascii) :=
  match scan_d s with
  | Converted v rest => Ok (v, rest)
  | InputFailure | MatchingFailure | Unrepresentable => Undefined
  | NotModelled => Unmodelled
  end.

(** ** Formatted output *)

(** Decimal digits of [n >= 0], least significant first. *)
Fixpoint digits_rev (fuel : nat) (n : Z) : list ascii :=
  match fuel with
  | O => []
  | S fuel' =>
      digit_char (n mod 10) :: (if n / 10 =? 0 then [] else digits_rev fuel' (n / 10))
  end.

(** [%u] of a non-negative integer; [Z.log2 n + 1] digits always suffice. *)
Definition print_u (n : Z) : list ascii := rev (digits_rev (S (Z.to_nat (Z.log2 n))) n).

(** [%d] of an [int]. *)
Definition print_d (z : Z) : list ascii :=
  if z <? 0 then "-"%char :: print_u (- z) else print_u z.

(** [width] decimal digits of [n], most significant first, zero padded. *)
Fixpoint print_fixed (width : nat) (n : Z) : list ascii :=
  match width with
  | O => []
  | S w => print_fixed w (n / 10) ++ [digit_char (n mod 10)]
  end.

(** [m * 2^e * 10^6] rounded to the nearest integer, ties to even. *)
Definition scaled6 (m e : Z) : Z :=
  if 0 <=? e then m * 2 ^ e * 10 ^ 6
  else
    let num := m * 10 ^ 6 in
    let den := 2 ^ (- e) in
    let q := num / den in
    let r := num mod den in
    if 2 * r <? den then q
    else if den <? 2 * r then q + 1
    else if Z.even q then q else q + 1.

Definition print_sign (neg : bool) : list ascii := if neg then ["-"%char] else [].

Definition is_nan (x : double) : bool :=
  match x with
  | S754_nan => true
  | _ => false
  end.

(** The text that [%f] writes for a number: six digits after the point,
    and [inf] or [-inf] for an infinity (of the two styles the C standard
    allows, [inf] and [infinity], the one of the usual C libraries).
    A NaN has no text here, see [fprintf_f]. *)
Definition print_f (x : double) : list ascii :=
  match x with
  | S754_zero s => print_sign s ++ list_ascii_of_string "0.000000"
  | S754_infinity s => print_sign s ++ list_ascii_of_string "inf"
  | S754_nan => []
  | S754_finite s m e =>
      let n := scaled6 (Zpos m) e in
      print_sign s ++ print_u (n / 10 ^ 6) ++ "."%char :: print_fixed 6 (n mod 10 ^ 6)
  end.

(** [fprintf(file, "%f", x)].  The style in which a NaN is written is
    implementation-defined and shows the sign of the NaN ([nan], [-nan]),
    which the doubles of the embedding do not carry: writing a NaN is not
    modelled. *)
Definition fprintf_f (x : double) : outcome (list ascii) :=
  if is_nan x then Unmodelled else Ok (print_f x).

(** ** Heap arrays *)

(** A [malloc]ed array: an element is [None] until it is first written. *)
Definition array (A : Type) : Type := list (option A).

Definition malloc {A : Type} (n : Z) : array A := repeat None (Z.to_nat n).

Fixpoint set_nth {A : Type} (a : list A) (i : nat) (v : A) : option (list A) :=
  match a, i with
  | [], _ => None
  | _ :: a', O => Some (v :: a')
  | x :: a', S i' => option_map (cons x) (set_nth a' i' v)
  end.

(** [a[i] = v]; undefined outside the array. *)
Definition store {A : Type} (a : array A) (i : Z) (v : A) : outcome (array A) :=
  if i <? 0 then Undefined
  else match set_nth a (Z.to_nat i) (Some v) with
       | Some a' => Ok a'
       | None => Undefined
       end.

(** ** Files and lines *)

(** A stream open for reading, as the lines still to be read: each line
    ends with its [LF], except possibly the last one of the file.  The
    readers move through a file by [getline] only, so that every position
    they save or restore is the start of a line. *)
Definition FILE : Type := list (list ascii).

Fixpoint split_lines (bytes : list ascii) : FILE :=
  match bytes with
  | [] => []
  | c :: bytes' =>
      if Ascii.eqb c LF then [c] :: split_lines bytes'
      else match split_lines bytes' with
           | [] => [[c]]
           | l :: ls => (c :: l) :: ls
           end
  end.

(** The bytes of a string literal, and of a text file given by its lines,
    each followed by a [LF]. *)
Definition text (s : string) : list ascii := list_ascii_of_string s.

Definition unlines (ls : list string) : list ascii :=
  flat_map (fun l => text l ++ [LF]) ls.

(** [fopen(fpath, "rb")] on a file that holds [bytes]. *)
Definition fopen (bytes : list ascii) : FILE := split_lines bytes.

(** The line buffer [*lineptr]: [None] for a null pointer, otherwise the
    bytes written into the buffer so far. *)
Definition linebuf : Type := option (list ascii).

(** [getline(&lineptr, &n, stream)]: the next line, with its [LF], is stored
    at the start of the buffer and followed by a [NUL]; the bytes behind
    that stay what they were.  At end of file the result is [-1] and the
    buffer is left alone. *)
Definition getline (lineptr : linebuf) (stream : FILE) : Z * linebuf * FILE :=
  match stream with
  | [] => (-1, lineptr, [])
  | l :: stream' =>
      let old := match lineptr with Some b => b | None => [] end in
      (Z.of_nat (length l), Some (l ++ NUL :: skipn (S (length l)) old), stream')
  end.

(** [readLine]: the loop runs as long as [getline] returns non-zero, and
    [-1] is non-zero.  At end of file nothing changes any more, so a
    rejected buffer is rejected forever. *)
Fixpoint readLine (file : FILE) (line : linebuf) {struct file}
  : outcome (bool * linebuf * FILE) :=
  let '(ret, line', file') := getline line file in
  if ret =? 0 then Ok (false, line', file')
  else
    match line' with
    | None => Undefined
    | Some buf =>
        s <- cstr buf ;;
        if (1 <? Z.of_nat (length s)) && negb (Ascii.eqb (hd NUL s) "#"%char)
        then Ok (true, line', file')
        else match file with
             | [] => Diverges
             | _ :: rest => readLine rest line'
             end
    end.

(** The C string in the line buffer after a successful [readLine]. *)
Definition line_string (line : linebuf) : outcome (list ascii) :=
  match line with
  | None => Undefined
  | Some buf => cstr buf
  end.

(** ** readOFF *)

Module OFF.

Record mesh : Type := Mesh {
  pVertices : array double;
  pFaceVertexIndices : array Z;
  pFaceSizes : array Z;
  numVertices : Z;
  numFaces : Z
}.

(** [sscanf(line, "%d %d %d", numVertices, numFaces, &nedges)]: the targets
    of the first two conversions are the caller's [unsigned int]s, which
    keep their value when the conversion fails; [nedges] is never used. *)
Definition sscanf_counts (s : list ascii) (numVertices numFaces : Z) : outcome (Z * Z) :=
  match scan_d s with
  | Converted v r1 =>
      match scan_d r1 with
      | Converted f r2 =>
          match scan_d r2 with
          | Unrepresentable => Undefined
          | _ => Ok (u32 v, u32 f)
          end
      | Unrepresentable => Undefined
      | _ => Ok (u32 v, numFaces)
      end
  | Unrepresentable => Undefined
  | _ => Ok (numVertices, numFaces)
  end.

(** The vertex loop, [count] iterations from index [i]. *)
Fixpoint read_vertices (count : nat) (i : Z) (file : FILE) (line : linebuf)
    (pVertices : array double) : outcome (FILE * linebuf * array double) :=
  match count with
  | O => Ok (file, line, pVertices)
  | S count' =>
      '(lineOk, line, file) <- readLine file line ;;
      if negb lineOk then Fatal "error: .off vertex not found"
      else
        s <- line_string line ;;
        '(_, xyz) <- sscanf_lf 3 s ;;
        match xyz with
        | [x; y; z] =>
            i3 <- int_val (i * 3) ;;
            i0 <- int_val (i3 + 0) ;;
            pVertices <- store pVertices i0 x ;;
            i1 <- int_val (i3 + 1) ;;
            pVertices <- store pVertices i1 y ;;
            i2 <- int_val (i3 + 2) ;;
            pVertices <- store pVertices i2 z ;;
            i <- int_val (i + 1) ;;
            read_vertices count' i file line pVertices
        | _ => Undefined
        end
  end.

(** The first loop over the faces: sizes only. *)
Fixpoint read_face_sizes (count : nat) (i : Z) (file : FILE) (line : linebuf)
    (pFaceSizes : array Z) (numFaceIndices : Z)
  : outcome (FILE * linebuf * array Z * Z) :=
  match count with
  | O => Ok (file, line, pFaceSizes, numFaceIndices)
  | S count' =>
      '(lineOk, line, file) <- readLine file line ;;
      if negb lineOk then Fatal "error: .off file face not found"
      else
        s <- line_string line ;;
        '(n, _) <- sscanf_d s ;;
        if n <? 3 then Fatal "error: invalid vertex count in file"
        else
          pFaceSizes <- store pFaceSizes i (u32 n) ;;
          numFaceIndices <- int_val (numFaceIndices + n) ;;
          i <- int_val (i + 1) ;;
          read_face_sizes count' i file line pFaceSizes numFaceIndices
  end.

(** [while (j < n)]: the numbers that follow the size on a face line. *)
Fixpoint read_face_indices (count : nat) (j : Z) (lineBufShifted : list ascii)
    (indexOffset : Z) (pFaceVertexIndices : array Z) : outcome (array Z) :=
  match count with
  | O => Ok pFaceVertexIndices
  | S count' =>
      match strstr lineBufShifted [" "%char] with
      | None => Undefined
      | Some found =>
          let lineBufShifted := tl found in
          '(val, _) <- sscanf_d lineBufShifted ;;
          k <- int_val (indexOffset + j) ;;
          pFaceVertexIndices <- store pFaceVertexIndices k (u32 val) ;;
          read_face_indices count' (j + 1) lineBufShifted indexOffset pFaceVertexIndices
      end
  end.

(** The second loop over the faces. *)
Fixpoint read_faces (count : nat) (i : Z) (file : FILE) (line : linebuf)
    (indexOffset : Z) (pFaceVertexIndices : array Z)
  : outcome (FILE * linebuf * array Z) :=
  match count with
  | O => Ok (file, line, pFaceVertexIndices)
  | S count' =>
      '(lineOk, line, file) <- readLine file line ;;
      if negb lineOk then Fatal "error: .off file face not found"
      else
        s <- line_string line ;;
        '(n, _) <- sscanf_d s ;;
        pFaceVertexIndices <- read_face_indices (Z.to_nat n) 0 s indexOffset pFaceVertexIndices ;;
        indexOffset <- int_val (indexOffset + n) ;;
        i <- int_val (i + 1) ;;
        read_faces count' i file line indexOffset pFaceVertexIndices
  end.

(** [readOFF]: [contents] is what [fpath] holds, [None] when it cannot be
    opened; [numVertices0] and [numFaces0] are the values of [*numVertices]
    and [*numFaces] on entry.  [seek_ok] tells whether the stream can be
    moved back to the position that [ftell] gave before the first loop
    over the faces: whether [fseek] returns zero. *)
Definition readOFF_on (seek_ok : bool) (contents : option (list ascii))
    (numVertices0 numFaces0 : Z) : outcome mesh :=
  match contents with
  | None => Fatal "error: failed to open"
  | Some bytes =>
      let file := fopen bytes in
      let line : linebuf := None in
      (* file header *)
      '(lineOk, line, file) <- readLine file line ;;
      if negb lineOk then Fatal "error: .off file header not found"
      else
        s <- line_string line ;;
        match strstr s (list_ascii_of_string "OFF") with
        | None => Fatal "error: unrecognised .off file header"
        | Some _ =>
            (* #vertices, #faces, #edges *)
            '(lineOk, line, file) <- readLine file line ;;
            if negb lineOk then Fatal "error: .off element count not found"
            else
              s <- line_string line ;;
              '(numVertices, numFaces) <- sscanf_counts s numVertices0 numFaces0 ;;
              let pVertices := malloc (numVertices * 3) in
              let pFaceSizes := malloc numFaces in
              (* vertices *)
              '(file, line, pVertices) <-
                 read_vertices (Z.to_nat numVertices) 0 file line pVertices ;;
              let facesStartOffset := file in
              (* faces *)
              '(file, line, pFaceSizes, numFaceIndices) <-
                 read_face_sizes (Z.to_nat (to_int numFaces)) 0 file line pFaceSizes 0 ;;
              let pFaceVertexIndices := malloc numFaceIndices in
              if negb seek_ok then Fatal "error: fseek failed"
              else
                let file := facesStartOffset in
                '(file, line, pFaceVertexIndices) <-
                   read_faces (Z.to_nat (to_int numFaces)) 0 file line 0
                     pFaceVertexIndices ;;
                Ok (Mesh pVertices pFaceVertexIndices pFaceSizes numVertices numFaces)
        end
  end.

(** [readOFF] on a regular file, where [fseek] succeeds. *)
Definition readOFF (contents : option (list ascii)) (numVertices0 numFaces0 : Z)
  : outcome mesh :=
  readOFF_on true contents numVertices0 numFaces0.

(** ** writeOFF *)

(** The vertex lines, [count] of them from index [i]. *)
Fixpoint write_vertices (count : nat) (i : Z) (pVertices : list double)
  : outcome (list ascii) :=
  match count with
  | O => Ok []
  | S count' =>
      off <- int_val (i * 3) ;;
      x <- index pVertices (off + 0) ;;
      y <- index pVertices (off + 1) ;;
      z <- index pVertices (off + 2) ;;
      tx <- fprintf_f x ;;
      ty <- fprintf_f y ;;
      tz <- fprintf_f z ;;
      rest <- write_vertices count' (i + 1) pVertices ;;
      Ok (tx ++ " "%char :: ty ++ " "%char :: tz ++ LF :: rest)
  end.

(** The indices of one face: [" %d"] for each. *)
Fixpoint write_face_indices (count : nat) (j : Z) (pFaceVertexIndices : list Z)
    (faceBaseOffset : Z) : outcome (list ascii) :=
  match count with
  | O => Ok []
  | S count' =>
      v <- index pFaceVertexIndices (faceBaseOffset + j) ;;
      rest <- write_face_indices count' (j + 1) pFaceVertexIndices faceBaseOffset ;;
      Ok (" "%char :: print_d (to_int v) ++ rest)
  end.

(** The face lines; without [pFaceSizes] every face has three vertices. *)
Fixpoint write_faces (count : nat) (i : Z) (pFaceVertexIndices : list Z)
    (pFaceSizes : option (list Z)) (faceBaseOffset : Z) : outcome (list ascii) :=
  match count with
  | O => Ok []
  | S count' =>
      faceVertexCount <-
        match pFaceSizes with
        | Some sizes => index sizes i
        | None => Ok 3
        end ;;
      indices <- write_face_indices (Z.to_nat (to_int faceVertexCount)) 0
                   pFaceVertexIndices faceBaseOffset ;;
      let faceBaseOffset := to_int (faceBaseOffset + faceVertexCount) in
      rest <- write_faces count' (i + 1) pFaceVertexIndices pFaceSizes faceBaseOffset ;;
      Ok (print_d (to_int faceVertexCount) ++ indices ++ LF :: rest)
  end.

(** The edge lines: ["%u %u\n"]. *)
Fixpoint write_edges (count : nat) (i : Z) (pEdges : list Z) : outcome (list ascii) :=
  match count with
  | O => Ok []
  | S count' =>
      off <- int_val (i * 2) ;;
      a <- index pEdges (off + 0) ;;
      b <- index pEdges (off + 1) ;;
      rest <- write_edges count' (i + 1) pEdges ;;
      Ok (print_u a ++ " "%char :: print_u b ++ LF :: rest)
  end.

(** [writeOFF]: the bytes written to [fpath]; [writable] tells whether the
    file can be opened for writing.  A null [pFaceSizes] is [None]; the
    other arrays are given by their elements. *)
Definition writeOFF (writable : bool) (pVertices : list double)
    (pFaceVertexIndices : list Z) (pFaceSizes : option (list Z)) (pEdges : list Z)
    (numVertices numFaces numEdges : Z) : outcome (list ascii) :=
  if negb writable then Fatal "error: failed to open"
  else
    vertices <- write_vertices (Z.to_nat (to_int numVertices)) 0 pVertices ;;
    faces <- write_faces (Z.to_nat (to_int numFaces)) 0 pFaceVertexIndices pFaceSizes 0 ;;
    edges <- write_edges (Z.to_nat (to_int numEdges)) 0 pEdges ;;
    Ok (text "OFF" ++ LF ::
        print_d (to_int numVertices) ++ " "%char :: print_d (to_int numFaces)
          ++ " "%char :: print_d (to_int numEdges) ++ LF ::
        vertices ++ faces ++ edges).

End OFF.

(** ** C strings inside a buffer *)

(** [strcspn(s, reject)]: length of the initial part of the C string [s]
    without any character of [reject]. *)
Fixpoint strcspn (s : list ascii) (reject : list ascii) : outcome nat :=
  match s with
  | [] => Undefined
  | c :: s' =>
      if Ascii.eqb c NUL || existsb (Ascii.eqb c) reject then Ok O
      else (n <- strcspn s' reject ;; Ok (S n))
  end.

(** [strspn(s, delim)] for a single delimiter. *)
Fixpoint strspn (s : list ascii) (delim : ascii) : outcome nat :=
  match s with
  | [] => Undefined
  | c :: s' =>
      if Ascii.eqb c delim && negb (Ascii.eqb c NUL)
      then (n <- strspn s' delim ;; Ok (S n))
      else Ok O
  end.

(** [buf[i] = c]. *)
Definition poke (buf : list ascii) (i : nat) (c : ascii) : outcome (list ascii) :=
  match set_nth buf i c with
  | Some buf' => Ok buf'
  | None => Undefined
  end.

(** [strtok(buf + start, delim)] with one delimiter character: the buffer
    after the call, the token as offset and length ([None] for a null
    result), and the offset at which a call [strtok(NULL, delim)] resumes. *)
Definition strtok (buf : list ascii) (start : nat) (delim : ascii)
  : outcome (list ascii * option (nat * nat) * nat) :=
  k <- strspn (skipn start buf) delim ;;
  let tok := (start + k)%nat in
  n <- strcspn (skipn tok buf) [delim] ;;
  if (n =? 0)%nat then Ok (buf, None, tok)
  else
    let e := (tok + n)%nat in
    if Ascii.eqb (nth e buf NUL) NUL then Ok (buf, Some (tok, n), e)
    else (buf' <- poke buf e NUL ;; Ok (buf', Some (tok, n), S e)).

(** ** readOBJ *)

Module OBJ.

Inductive ObjFileCmdType : Type := VERTEX | NORMAL | TEXCOORD | FACE | UNKNOWN.

(** The variables of [readOBJ]: the line buffer, the counters, and the
    caller's output arguments.  An output pointer that has not been
    assigned an array is [None]. *)
Record state : Type := State {
  lineBuf : linebuf;
  nFaceIndices : Z;
  nVertices : Z;
  nNormals : Z;
  nTexCoords : Z;
  nFaces : Z;
  faceIndicesCounter : Z;
  pVertices : option (array double);
  pNormals : option (array double);
  pTexCoords : option (array double);
  pFaceSizes : option (array Z);
  pFaceVertexIndices : option (array Z);
  pFaceVertexTexCoordIndices : option (array Z);
  pFaceVertexNormalIndices : option (array Z);
  numVertices : Z;
  numNormals : Z;
  numTexcoords : Z;
  numFaces : Z
}.

Definition with_lineBuf (b : linebuf) (st : state) : state :=
  State b (nFaceIndices st) (nVertices st) (nNormals st) (nTexCoords st) (nFaces st)
    (faceIndicesCounter st) (pVertices st) (pNormals st) (pTexCoords st) (pFaceSizes st)
    (pFaceVertexIndices st) (pFaceVertexTexCoordIndices st) (pFaceVertexNormalIndices st)
    (numVertices st) (numNormals st) (numTexcoords st) (numFaces st).

Definition with_nFaceIndices (n : Z) (st : state) : state :=
  State (lineBuf st) n (nVertices st) (nNormals st) (nTexCoords st) (nFaces st)
    (faceIndicesCounter st) (pVertices st) (pNormals st) (pTexCoords st) (pFaceSizes st)
    (pFaceVertexIndices st) (pFaceVertexTexCoordIndices st) (pFaceVertexNormalIndices st)
    (numVertices st) (numNormals st) (numTexcoords st) (numFaces st).

Definition with_nVertices (n : Z) (st : state) : state :=
  State (lineBuf st) (nFaceIndices st) n (nNormals st) (nTexCoords st) (nFaces st)
    (faceIndicesCounter st) (pVertices st) (pNormals st) (pTexCoords st) (pFaceSizes st)
    (pFaceVertexIndices st) (pFaceVertexTexCoordIndices st) (pFaceVertexNormalIndices st)
    (numVertices st) (numNormals st) (numTexcoords st) (numFaces st).

Definition with_nNormals (n : Z) (st : state) : state :=
  State (lineBuf st) (nFaceIndices st) (nVertices st) n (nTexCoords st) (nFaces st)
    (faceIndicesCounter st) (pVertices st) (pNormals st) (pTexCoords st) (pFaceSizes st)
    (pFaceVertexIndices st) (pFaceVertexTexCoordIndices st) (pFaceVertexNormalIndices st)
    (numVertices st) (numNormals st) (numTexcoords st) (numFaces st).

Definition with_nTexCoords (n : Z) (st : state) : state :=
  State (lineBuf st) (nFaceIndices st) (nVertices st) (nNormals st) n (nFaces st)
    (faceIndicesCounter st) (pVertices st) (pNormals st) (pTexCoords st) (pFaceSizes st)
    (pFaceVertexIndices st) (pFaceVertexTexCoordIndices st) (pFaceVertexNormalIndices st)
    (numVertices st) (numNormals st) (numTexcoords st) (numFaces st).

Definition with_nFaces (n : Z) (st : state) : state :=
  State (lineBuf st) (nFaceIndices st) (nVertices st) (nNormals st) (nTexCoords st) n
    (faceIndicesCounter st) (pVertices st) (pNormals st) (pTexCoords st) (pFaceSizes st)
    (pFaceVertexIndices st) (pFaceVertexTexCoordIndices st) (pFaceVertexNormalIndices st)
    (numVertices st) (numNormals st) (numTexcoords st) (numFaces st).

Definition with_faceIndicesCounter (n : Z) (st : state) : state :=
  State (lineBuf st) (nFaceIndices st) (nVertices st) (nNormals st) (nTexCoords st)
    (nFaces st) n (pVertices st) (pNormals st) (pTexCoords st) (pFaceSizes st)
    (pFaceVertexIndices st) (pFaceVertexTexCoordIndices st) (pFaceVertexNormalIndices st)
    (numVertices st) (numNormals st) (numTexcoords st) (numFaces st).

Definition with_pVertices (a : option (array double)) (st : state) : state :=
  State (lineBuf st) (nFaceIndices st) (nVertices st) (nNormals st) (nTexCoords st)
    (nFaces st) (faceIndicesCounter st) a (pNormals st) (pTexCoords st) (pFaceSizes st)
    (pFaceVertexIndices st) (pFaceVertexTexCoordIndices st) (pFaceVertexNormalIndices st)
    (numVertices st) (numNormals st) (numTexcoords st) (numFaces st).

Definition with_pNormals (a : option (array double)) (st : state) : state :=
  State (lineBuf st) (nFaceIndices st) (nVertices st) (nNormals st) (nTexCoords st)
    (nFaces st) (faceIndicesCounter st) (pVertices st) a (pTexCoords st) (pFaceSizes st)
    (pFaceVertexIndices st) (pFaceVertexTexCoordIndices st) (pFaceVertexNormalIndices st)
    (numVertices st) (numNormals st) (numTexcoords st) (numFaces st).

Definition with_pTexCoords (a : option (array double)) (st : state) : state :=
  State (lineBuf st) (nFaceIndices st) (nVertices st) (nNormals st) (nTexCoords st)
    (nFaces st) (faceIndicesCounter st) (pVertices st) (pNormals st) a (pFaceSizes st)
    (pFaceVertexIndices st) (pFaceVertexTexCoordIndices st) (pFaceVertexNormalIndices st)
    (numVertices st) (numNormals st) (numTexcoords st) (numFaces st).

Definition with_pFaceSizes (a : option (array Z)) (st : state) : state :=
  State (lineBuf st) (nFaceIndices st) (nVertices st) (nNormals st) (nTexCoords st)
    (nFaces st) (faceIndicesCounter st) (pVertices st) (pNormals st) (pTexCoords st) a
    (pFaceVertexIndices st) (pFaceVertexTexCoordIndices st) (pFaceVertexNormalIndices st)
    (numVertices st) (numNormals st) (numTexcoords st) (numFaces st).

Definition with_pFaceVertexIndices (a : option (array Z)) (st : state) : state :=
  State (lineBuf st) (nFaceIndices st) (nVertices st) (nNormals st) (nTexCoords st)
    (nFaces st) (faceIndicesCounter st) (pVertices st) (pNormals st) (pTexCoords st)
    (pFaceSizes st) a (pFaceVertexTexCoordIndices st) (pFaceVertexNormalIndices st)
    (numVertices st) (numNormals st) (numTexcoords st) (numFaces st).

Definition with_pFaceVertexTexCoordIndices (a : option (array Z)) (st : state) : state :=
  State (lineBuf st) (nFaceIndices st) (nVertices st) (nNormals st) (nTexCoords st)
    (nFaces st) (faceIndicesCounter st) (pVertices st) (pNormals st) (pTexCoords st)
    (pFaceSizes st) (pFaceVertexIndices st) a (pFaceVertexNormalIndices st)
    (numVertices st) (numNormals st) (numTexcoords st) (numFaces st).

Definition with_pFaceVertexNormalIndices (a : option (array Z)) (st : state) : state :=
  State (lineBuf st) (nFaceIndices st) (nVertices st) (nNormals st) (nTexCoords st)
    (nFaces st) (faceIndicesCounter st) (pVertices st) (pNormals st) (pTexCoords st)
    (pFaceSizes st) (pFaceVertexIndices st) (pFaceVertexTexCoordIndices st) a
    (numVertices st) (numNormals st) (numTexcoords st) (numFaces st).

Definition with_counts (v n t f : Z) (st : state) : state :=
  State (lineBuf st) (nFaceIndices st) (nVertices st) (nNormals st) (nTexCoords st)
    (nFaces st) (faceIndicesCounter st) (pVertices st) (pNormals st) (pTexCoords st)
    (pFaceSizes st) (pFaceVertexIndices st) (pFaceVertexTexCoordIndices st)
    (pFaceVertexNormalIndices st) v n t f.

(** An assignment to element [i] of the array behind an output pointer. *)
Definition store_at {A : Type} (p : option (array A)) (i : Z) (v : A)
  : outcome (option (array A)) :=
  match p with
  | None => Undefined
  | Some a => (a' <- store a i v ;; Ok (Some a'))
  end.

(** The value of element [i] of the array behind an output pointer: the
    element must have been written. *)
Definition load_at {A : Type} (p : option (array A)) (i : Z) : outcome A :=
  match p with
  | None => Undefined
  | Some a => (x <- index a i ;; match x with Some v => Ok v | None => Undefined end)
  end.


(** The command of a line, from [lineBuf[0]], [lineBuf[1]], [lineBuf[2]]. *)
Definition command (s : list ascii) : ObjFileCmdType :=
  let c0 := nth 0 s NUL in
  let c1 := nth 1 s NUL in
  let c2 := nth 2 s NUL in
  if Ascii.eqb c0 "v" && Ascii.eqb c1 " " then VERTEX
  else if Ascii.eqb c0 "v" && Ascii.eqb c1 "n" && Ascii.eqb c2 " " then NORMAL
  else if Ascii.eqb c0 "v" && Ascii.eqb c1 "t" && Ascii.eqb c2 " " then TEXCOORD
  else if Ascii.eqb c0 "f" && Ascii.eqb c1 " " then FACE
  else UNKNOWN.

(** Second pass, face line: [strtok(lineBuf + 2, " ")], then
    [strtok(NULL, " ")] until it returns null.  [fuel] bounds the number of
    calls; each call resumes behind the previous token, so the length of
    the buffer is never exceeded. *)
Fixpoint count_face_vertices (fuel : nat) (buf : list ascii) (start : nat)
    (faceVertexCount : Z) : outcome (list ascii * Z) :=
  match fuel with
  | O => Diverges
  | S fuel' =>
      '(buf, pch, save) <- strtok buf start " " ;;
      match pch with
      | None => Ok (buf, faceVertexCount)
      | Some _ => count_face_vertices fuel' buf save (u32 (faceVertexCount + 1))
      end
  end.

(** The body of the loop over the data elements of a face vertex, for the
    element counted by [faceVertexDataIt]; [token] is the C string at
    [token], which [sscanf] reads for every element. *)
Definition face_vertex_datum (faceVertexDataIt : Z) (token : list ascii) (st : state)
  : outcome (Z * state) :=
  let haveTexCoords := 0 <? nTexCoords st in
  let faceVertexDataIt :=
    if (faceVertexDataIt =? 1) && negb haveTexCoords then 2 else faceVertexDataIt in
  st <-
    (if faceVertexDataIt =? 0 then
       '(val, _) <- sscanf_d token ;;
       v <- int_val (val - 1) ;;
       a <- store_at (pFaceVertexIndices st) (faceIndicesCounter st) (u32 v) ;;
       Ok (with_pFaceVertexIndices a st)
     else if faceVertexDataIt =? 1 then
       '(val, _) <- sscanf_d token ;;
       v <- int_val (val - 1) ;;
       a <- store_at (pFaceVertexTexCoordIndices st) (faceIndicesCounter st) (u32 v) ;;
       Ok (with_pFaceVertexTexCoordIndices a st)
     else if faceVertexDataIt =? 2 then
       '(val, _) <- sscanf_d token ;;
       v <- int_val (val - 1) ;;
       a <- store_at (pFaceVertexNormalIndices st) (faceIndicesCounter st) (u32 v) ;;
       Ok (with_pFaceVertexNormalIndices a st)
     else
       match scan_d token with
       | Unrepresentable => Undefined
       | _ => Ok st
       end) ;;
  Ok (faceVertexDataIt + 1, st).

(** [for (tokenElem = strtok(buf, "/"); tokenElem != NULL;
         tokenElem = strtok(tokenElem + strlen(tokenElem) + 1, "/"))]
    over the copy [buf] of the token. *)
Fixpoint face_vertex_data (fuel : nat) (buf : list ascii) (start : nat)
    (faceVertexDataIt : Z) (token : list ascii) (st : state) : outcome state :=
  match fuel with
  | O => Diverges
  | S fuel' =>
      '(buf, tokenElem, _) <- strtok buf start "/" ;;
      match tokenElem with
      | None => Ok st
      | Some (off, len) =>
          '(faceVertexDataIt, st) <- face_vertex_datum faceVertexDataIt token st ;;
          face_vertex_data fuel' buf (off + len + 1) faceVertexDataIt token st
      end
  end.

(** [strncpy(buf, token, sizeof(buf))] for [char buf[512]]. *)
Definition strncpy_512 (token : list ascii) : list ascii :=
  firstn 512 (token ++ repeat NUL 512).

(** Third pass, face line:
    [for (token = strtok(lineBuf, " "); token != NULL;
          token = strtok(token + strlen(token) + 1, " "))]. *)
Fixpoint face_vertices (fuel : nat) (buf : list ascii) (start : nat) (iter : Z)
    (st : state) : outcome (list ascii * Z * state) :=
  match fuel with
  | O => Diverges
  | S fuel' =>
      '(buf, token, _) <- strtok buf start " " ;;
      match token with
      | None => Ok (buf, iter, st)
      | Some (off, len) =>
          let tok := firstn len (skipn off buf) in
          let copy := strncpy_512 tok in
          if Ascii.eqb (hd NUL copy) "f" then
            face_vertices fuel' buf (off + len + 1) iter st
          else
            iter <- int_val (iter + 1) ;;
            st <- face_vertex_data 513 copy 0 0 tok st ;;
            c <- int_val (faceIndicesCounter st + 1) ;;
            face_vertices fuel' buf (off + len + 1) iter (with_faceIndicesCounter c st)
      end
  end.

(** The assignments of the components [vals] (zero where none was read)
    to the elements [base + i], [base + i + 1], ... of an array. *)
Fixpoint store_components (k : nat) (base i : Z) (vals : list double)
    (p : option (array double)) : outcome (option (array double)) :=
  match k with
  | O => Ok p
  | S k' =>
      j <- int_val (base + i) ;;
      p <- store_at p j (nth (Z.to_nat i) vals zero) ;;
      store_components k' base (i + 1) vals p
  end.

(** A [v], [vn] or [vt] line in the second pass: [width] components read
    from [lineBuf + 2] and stored from index [id * width], then the check
    of the number of components read. *)
Definition read_components (width : nat) (s : list ascii) (id : Z)
    (p : option (array double)) (msg : string) : outcome (option (array double)) :=
  '(nread, vals) <- sscanf_lf width (skipn 2 s) ;;
  base <- int_val (id * Z.of_nat width) ;;
  p <- store_components width base 0 vals p ;;
  if nread =? Z.of_nat width then Ok p else Fatal msg.

(** The body of the loop over the lines behind the tests for blank lines
    and comments: [s] is the C string in the line buffer [buf]. *)
Definition parse_command (passIterator : Z) (buf s : list ascii) (st : state)
  : outcome state :=
    match command s with
    | UNKNOWN => Ok st
    | VERTEX =>
        let vertexId := nVertices st in
        n <- int_val (nVertices st + 1) ;;
        let st := with_nVertices n st in
        if passIterator =? 1 then
          p <- read_components 3 s vertexId (pVertices st) "error: have components for v" ;;
          Ok (with_pVertices p st)
        else Ok st
    | NORMAL =>
        let normalId := nNormals st in
        n <- int_val (nNormals st + 1) ;;
        let st := with_nNormals n st in
        if passIterator =? 1 then
          p <- read_components 3 s normalId (pNormals st) "error: have components for vn" ;;
          Ok (with_pNormals p st)
        else Ok st
    | TEXCOORD =>
        let texCoordId := nTexCoords st in
        n <- int_val (nTexCoords st + 1) ;;
        let st := with_nTexCoords n st in
        if passIterator =? 1 then
          p <- read_components 2 s texCoordId (pTexCoords st) "error: have components for vt" ;;
          Ok (with_pTexCoords p st)
        else Ok st
    | FACE =>
        let faceId := nFaces st in
        n <- int_val (nFaces st + 1) ;;
        let st := with_nFaces n st in
        if passIterator =? 1 then
          (* count the number of vertices in face *)
          '(buf, faceVertexCount) <- count_face_vertices (S (length buf)) buf 2 0 ;;
          p <- store_at (pFaceSizes st) faceId faceVertexCount ;;
          Ok (with_lineBuf (Some buf)
                (with_pFaceSizes p
                   (with_nFaceIndices (to_int (nFaceIndices st + faceVertexCount)) st)))
        else if passIterator =? 2 then
          faceVertexCount <- load_at (pFaceSizes st) faceId ;;
          '(buf, iter, st) <- face_vertices (S (length buf)) buf 0 0 st ;;
          let st := with_lineBuf (Some buf) st in
          if iter =? to_int faceVertexCount then Ok st
          else Fatal "error: have vertices when there should be"
        else Ok st
    end.

(** The body of the loop over the lines, once [getline] has filled the
    buffer. *)
Definition parse_line (passIterator : Z) (buf : list ascii) (st : state)
  : outcome state :=
  (* strip newline and carriage return *)
  n <- strcspn buf [CR; LF] ;;
  buf <- poke buf n NUL ;;
  s <- cstr buf ;;
  let st := with_lineBuf (Some buf) st in
  if (length s =? 0)%nat then Ok st
  else if Ascii.eqb (hd NUL s) "#" then Ok st
  else parse_command passIterator buf s st.

(** [while (getline(&lineBuf, &lineBufLen, file) != -1)]: one pass over
    the file. *)
Fixpoint parse_pass (passIterator : Z) (file : FILE) (st : state) {struct file}
  : outcome state :=
  match file with
  | [] => Ok st
  | _ :: file' =>
      match getline (lineBuf st) file with
      | (_, Some buf, _) =>
          st <- parse_line passIterator buf st ;;
          parse_pass passIterator file' st
      | (_, None, _) => Undefined
      end
  end.

(** The counters that each pass starts from zero. *)
Definition reset_counters (st : state) : state :=
  with_nVertices 0 (with_nNormals 0 (with_nTexCoords 0 (with_nFaces 0
    (with_faceIndicesCounter 0 st)))).

(** After the first pass: the arrays whose sizes are now known. *)
Definition after_first_pass (st : state) : state :=
  let st := if 0 <? nVertices st
            then with_pVertices (Some (malloc (nVertices st * 3))) st else st in
  let st := if 0 <? nNormals st
            then with_pNormals (Some (malloc (nNormals st * 3))) st else st in
  let st := if 0 <? nTexCoords st
            then with_pTexCoords (Some (malloc (nTexCoords st * 2))) st else st in
  let st := if 0 <? nFaces st
            then with_pFaceSizes (Some (malloc (nFaces st))) st else st in
  with_counts (u32 (nVertices st)) (u32 (nNormals st)) (u32 (nTexCoords st))
    (u32 (nFaces st)) st.

(** After the second pass: the arrays of face-vertex indices. *)
Definition after_second_pass (st : state) : outcome state :=
  if nFaceIndices st =? 0 then Fatal "error: invalid face index count"
  else
    let st := with_pFaceVertexIndices (Some (malloc (nFaceIndices st))) st in
    let st := if 0 <? nTexCoords st
              then with_pFaceVertexTexCoordIndices (Some (malloc (nFaceIndices st))) st
              else st in
    let st := if 0 <? nNormals st
              then with_pFaceVertexNormalIndices (Some (malloc (nFaceIndices st))) st
              else st in
    Ok st.

Definition initial_state : state :=
  State None 0 0 0 0 0 0 None None None None None None None 0 0 0 0.

(** [readOBJ]: [contents] is what [fpath] holds, [None] when it cannot be
    opened.  The result is the state after the third pass: the output
    arguments together with the counters of that pass. *)
Definition readOBJ (contents : option (list ascii)) : outcome state :=
  match contents with
  | None => Fatal "error: failed to open file"
  | Some bytes =>
      let file := fopen bytes in
      st <- parse_pass 0 file (reset_counters initial_state) ;;
      let st := after_first_pass st in
      st <- parse_pass 1 file (reset_counters st) ;;
      st <- after_second_pass st ;;
      parse_pass 2 file (reset_counters st)
  end.

End OBJ.

(** ** Seam files and fragment files ([main], behind the decoding loop) *)

Module SeamFile.

(** [v[j] = x] for a [std::vector]: unchecked, hence undefined outside
    the vector. *)
Definition assign {A : Type} (v : list A) (j : Z) (x : A) : outcome (list A) :=
  if j <? 0 then Undefined
  else match set_nth v (Z.to_nat j) x with
       | Some v' => Ok v'
       | None => Undefined
       end.

(** ["_isLOOP"] or ["_isOPEN"], by the comparison of the flag with
    [MC_TRUE].  [MC_TRUE] is declared in [mcut/mcut.h], which is not part
    of these sources: it is an argument of the embedding. *)
Definition loop_suffix (MC_TRUE : Z) (isLoop : Z) : list ascii :=
  if isLoop =? MC_TRUE then text "_isLOOP" else text "_isOPEN".

(** [for (uint32_t j = 0; j < seamVertexSequences.size(); ++j)]: the
    sequences still to visit, [j], and the three objects the loop fills.
    [std::to_string(j)] writes the [unsigned] [j] in decimal. *)
Fixpoint stub_loop (MC_TRUE : Z) (seamVertexSequences : list Seam.sequence) (j : Z)
    (faceSizesArrayStub faceIndicesArrayStub : list Z) (flags_str : list ascii)
  : outcome (list Z * list Z * list ascii) :=
  match seamVertexSequences with
  | [] => Ok (faceSizesArrayStub, faceIndicesArrayStub, flags_str)
  | s :: rest =>
      faceSizesArrayStub <- assign faceSizesArrayStub j (u32 (Z.of_nat (length (fst s)))) ;;
      let faceIndicesArrayStub := faceIndicesArrayStub ++ fst s in
      let flags_str :=
        flags_str ++ text "-id" ++ print_u j ++ loop_suffix MC_TRUE (snd s) in
      stub_loop MC_TRUE rest (u32 (j + 1)) faceSizesArrayStub faceIndicesArrayStub flags_str
  end.

(** [sprintf(buf, ...)] into [char buf[size]], for the text [s] that the
    format produces: the text and its [NUL] must fit. *)
Definition sprintf_into (size : Z) (s : list ascii) : outcome (list ascii) :=
  if Z.of_nat (length s) <? size then Ok s else Undefined.

(** The seam file of connected component [i]: its name and its bytes.
    [writeOFF] is given null pointers for the vertices and the edges,
    with counts of zero. *)
Definition seam_file (MC_TRUE : Z) (writable : bool) (i : Z)
    (seamVertexSequences : list Seam.sequence) : outcome (list ascii * list ascii) :=
  let numFacesStub := u32 (Z.of_nat (length seamVertexSequences)) in
  let faceSizesArrayStub := repeat 0 (Z.to_nat numFacesStub) in
  '(faceSizesArrayStub, faceIndicesArrayStub, flags_str) <-
     stub_loop MC_TRUE seamVertexSequences 0 faceSizesArrayStub [] [] ;;
  seamFnameBuf <-
    sprintf_into 1024
      (text "frag-" ++ print_d i ++ text "-seam-vertices" ++ flags_str ++ text ".txt") ;;
  bytes <- OFF.writeOFF writable [] faceIndicesArrayStub (Some faceSizesArrayStub) []
             0 (u32 (Z.of_nat (length faceSizesArrayStub))) 0 ;;
  Ok (seamFnameBuf, bytes).

(** From the array returned by the engine to the seam file. *)
Definition seam_file_of_array (MC_TRUE : Z) (writable : bool) (i : Z)
    (seamVertexSequenceArrayFromMCUT : list Z) : outcome (list ascii * list ascii) :=
  '(seamVertexSequences, _) <- Seam.seamVertexSequences seamVertexSequenceArrayFromMCUT ;;
  seam_file MC_TRUE writable i seamVertexSequences.

(** The fragment file of connected component [i]: [vertices] and
    [triangleIndices] as the engine filled them; [pFaceSizes] and [pEdges]
    are null. *)
Definition fragment_file (writable : bool) (i : Z) (vertices : list double)
    (triangleIndices : list Z) (numberOfVertices numberOfTriangles : Z)
  : outcome (list ascii * list ascii) :=
  fnameBuf <- sprintf_into 32 (text "frag-" ++ print_d i ++ text ".off") ;;
  bytes <- OFF.writeOFF writable vertices triangleIndices None []
             numberOfVertices numberOfTriangles 0 ;;
  Ok (fnameBuf, bytes).

End SeamFile.

(** ** getline, byte by byte *)

Module Stream.

(** [size_t] has 64 bits. *)
Definition SIZE_MOD : Z := 2 ^ 64.

(** [realloc(p, new_size)]: the old bytes, as far as they fit, then
    bytes that have not been written. *)
Definition realloc {A : Type} (p : array A) (new_size : Z) : array A :=
  firstn (Z.to_nat new_size) p ++ repeat None (Z.to_nat new_size - length p).

(** [if (pos + 1 >= *n)]: the buffer and [*n] behind the test. *)
Definition grow (lineptr : array ascii) (n pos : Z) : array ascii * Z :=
  if n <=? (pos + 1) mod SIZE_MOD then
    let new_size := (n + Z.shiftr n 2) mod SIZE_MOD in
    let new_size := if new_size <? 128 then 128 else new_size in
    (realloc lineptr new_size, new_size)
  else (lineptr, n).

(** [while (c != EOF)]: [c] is the character [getc] returned last, [stream]
    what follows it; [n] is [*n] and [pos] the next position to write. *)
Fixpoint fill (c : ascii) (stream : list ascii) (lineptr : array ascii) (n pos : Z)
  : outcome (array ascii * Z * Z * list ascii) :=
  let '(lineptr, n) := grow lineptr n pos in
  lineptr <- store lineptr pos c ;;
  let pos := (pos + 1) mod SIZE_MOD in
  if Ascii.eqb c LF then Ok (lineptr, n, pos, stream)
  else match stream with
       | [] => Ok (lineptr, n, pos, [])
       | c' :: stream' => fill c' stream' lineptr n pos
       end.

(** [getline(&lineptr, &n, stream)] as the source defines it: the return
    value, [*lineptr] ([None] for a null pointer), [*n], and the stream
    behind the line.  The three pointer arguments are not null. *)
Definition getline (lineptr : option (array ascii)) (n : Z) (stream : list ascii)
  : outcome (Z * option (array ascii) * Z * list ascii) :=
  match stream with
  | [] => Ok (-1, lineptr, n, [])
  | c :: stream' =>
      let '(buf, n) :=
        match lineptr with
        | None => (malloc 128, 128)
        | Some buf => (buf, n)
        end in
      '(buf, n, pos, rest) <- fill c stream' buf n 0 ;;
      buf <- store buf pos NUL ;;
      Ok (pos, Some buf, n, rest)
  end.

End Stream.

(** ** Character classes of the written text *)

Definition is_digit (c : ascii) : bool :=
  match digit_val c with Some _ => true | None => false end.

(** Characters of a number written by [%d] or [%f]: the digits, the sign,
    the point and the letters of [inf]. *)
Definition is_num_char (c : ascii) : bool :=
  is_digit c || Ascii.eqb c "-" || Ascii.eqb c "."
  || Ascii.eqb c "i" || Ascii.eqb c "n" || Ascii.eqb c "f".

(** What may follow a written number: a space or the end of the line. *)
Definition is_sep (c : ascii) : bool := Ascii.eqb c " " || Ascii.eqb c LF.

(** A line that [readLine] returns: longer than one character, not a
    comment, and without [NUL]. *)
Definition accepted (l : list ascii) : bool :=
  forallb (fun c => negb (Ascii.eqb c NUL)) l
  && (1 <? Z.of_nat (length l))
  && negb (Ascii.eqb (hd NUL l) "#").

(** Characters of a written line before its [LF]. *)
Definition is_body_char (c : ascii) : bool := is_num_char c || Ascii.eqb c " ".

(** A line of a file: it ends with the only [LF] it holds. *)
Fixpoint ends_line (l : list ascii) : bool :=
  match l with
  | [] => false
  | c :: l' =>
      match l' with
      | [] => Ascii.eqb c LF
      | _ => negb (Ascii.eqb c LF) && ends_line l'
      end
  end.

(** ** Notions used to state the properties *)

Definition sumZ (l : list Z) : Z := fold_right Z.add 0 l.

(** The error reports of a computation all satisfy [P]. *)
Definition fatal_in {A : Type} (P : string -> Prop) (m : outcome A) : Prop :=
  forall msg, m = Fatal msg -> P msg.

(** Two computations end the same way, with results related by [R]. *)
Definition lift {A B : Type} (R : A -> B -> Prop) (m1 : outcome A) (m2 : outcome B) : Prop :=
  match m1, m2 with
  | Ok a, Ok b => R a b
  | Fatal x, Fatal y => x = y
  | Undefined, Undefined => True
  | Diverges, Diverges => True
  | Unmodelled, Unmodelled => True
  | _, _ => False
  end.

Module OFFSpec.

Definition is_finite (x : double) : bool :=
  match x with
  | S754_zero _ | S754_finite _ _ _ => true
  | _ => false
  end.

(** The double that [%lf] reads from the text [%f] writes for [x]: the one
    nearest to [x] rounded to six decimals. *)
Definition reread (x : double) : double :=
  match x with
  | S754_finite s m e => double_of_decimal s (scaled6 (Zpos m) e) (-6)
  | _ => x
  end.

(** A line that [readLine] passes over: a blank line or a comment, without
    [NUL]. *)
Definition ignored (l : list ascii) : bool :=
  match l with
  | [] => false
  | c :: _ =>
      forallb (fun c => negb (Ascii.eqb c NUL)) l
      && negb ((1 <? Z.of_nat (length l)) && negb (Ascii.eqb c "#"))
  end.

(** [padded f1 f2]: the lines of [f2] are those of [f1] with blank lines
    and comments put in between, each of them before some line of [f1]. *)
Inductive padded : FILE -> FILE -> Prop :=
| padded_nil : padded [] []
| padded_cons (l : list ascii) (f1 f2 : FILE) :
    padded f1 f2 -> padded (l :: f1) (l :: f2)
| padded_skip (c : list ascii) (f1 f2 : FILE) :
    ignored c = true -> f1 <> [] -> padded f1 f2 -> padded f1 (c :: f2).

(** Two line buffers hold the same C string. *)
Definition same_text (l1 l2 : linebuf) : Prop := line_string l1 = line_string l2.

(** A line that the vertex loop reads as the three coordinates [t]. *)
Definition vertex_text (l : list ascii) (t : list double) : Prop :=
  accepted l = true /\ length t = 3%nat /\ exists n, sscanf_lf 3 l = Ok (n, t).

(** A line that the face loops read as a face of [n] vertices. *)
Definition face_text (l : list ascii) (n : Z) : Prop :=
  accepted l = true /\ exists rest, scan_d l = Converted n rest.

(** The line of a vertex. *)
Definition vertex_line (v : double * double * double) : list ascii :=
  let '(x, y, z) := v in
  print_f x ++ " "%char :: print_f y ++ " "%char :: print_f z ++ [LF].

(** The coordinates of a vertex, as they lie in the vertex array. *)
Definition coords (v : double * double * double) : list double :=
  let '(x, y, z) := v in [x; y; z].

Definition finite_vertex (v : double * double * double) : bool :=
  forallb is_finite (coords v).

(** A vertex none of whose coordinates is a NaN. *)
Definition number_vertex (v : double * double * double) : bool :=
  forallb (fun x => negb (is_nan x)) (coords v).

(** The indices of the faces, cut from the array of face-vertex indices in
    face order. *)
Fixpoint chunks (sizes : list Z) (indices : list Z) : list (list Z) :=
  match sizes with
  | [] => []
  | s :: sizes' =>
      firstn (Z.to_nat s) indices :: chunks sizes' (skipn (Z.to_nat s) indices)
  end.

(** The text of the indices of a face: a space before each index. *)
Definition index_fields (f : list Z) : list ascii :=
  flat_map (fun v => " "%char :: print_d (to_int v)) f.

(** The line of a face: its number of vertices, then its indices. *)
Definition face_line (f : list Z) : list ascii :=
  print_d (Z.of_nat (length f)) ++ index_fields f ++ [LF].

(** The line of an edge: its two ends. *)
Definition edge_line (e : Z * Z) : list ascii :=
  print_u (fst e) ++ " "%char :: print_u (snd e) ++ [LF].

(** The ends of an edge, as they lie in the edge array. *)
Definition ends (e : Z * Z) : list Z := [fst e; snd e].

End OFFSpec.

Module StreamSpec.

(** A buffer that starts with the bytes [w], goes on with what is left of
    its older contents [old], and ends with [k] bytes never written. *)
Definition buffer (w old : list ascii) (k : nat) : array ascii :=
  map Some (w ++ skipn (length w) old) ++ repeat None k.

End StreamSpec.

Module SeamFileSpec.
Import SeamFile.

(** The part of a seam file name that describes sequence [j]. *)
Definition flag_text (MC_TRUE : Z) (j : nat) (s : Seam.sequence) : list ascii :=
  text "-id" ++ print_u (Z.of_nat j) ++ loop_suffix MC_TRUE (snd s).

Fixpoint flags_from (MC_TRUE : Z) (j : nat) (seqs : list Seam.sequence) : list ascii :=
  match seqs with
  | [] => []
  | s :: rest => flag_text MC_TRUE j s ++ flags_from MC_TRUE (S j) rest
  end.

(** The name of the seam file of connected component [i]. *)
Definition seam_file_name (MC_TRUE : Z) (i : Z) (seqs : list Seam.sequence) : list ascii :=
  text "frag-" ++ print_d i ++ text "-seam-vertices" ++ flags_from MC_TRUE 0 seqs
    ++ text ".txt".

End SeamFileSpec.

Module OBJSpec.
Import OBJ.

(** The text of a line as the passes see it: up to the first carriage
    return, line feed or [NUL]. *)
Fixpoint content (l : list ascii) : list ascii :=
  match l with
  | [] => []
  | c :: l' =>
      if Ascii.eqb c NUL || existsb (Ascii.eqb c) [CR; LF] then [] else c :: content l'
  end.

(** The command of a line of the file; blank lines and comments have none. *)
Definition line_command (l : list ascii) : ObjFileCmdType :=
  let s := content l in
  if (length s =? 0)%nat then UNKNOWN
  else if Ascii.eqb (hd NUL s) "#" then UNKNOWN
  else command s.

Definition is_face (l : list ascii) : bool :=
  match line_command l with FACE => true | _ => false end.

Definition is_texcoord (l : list ascii) : bool :=
  match line_command l with TEXCOORD => true | _ => false end.

(** Number of face lines of a file. *)
Definition count_faces (file : FILE) : Z := Z.of_nat (length (filter is_face file)).

(** A subfield of a face vertex: not empty, without [/] and without [NUL]. *)
Definition subfield (a : list ascii) : bool :=
  match a with
  | [] => false
  | _ => forallb (fun c => negb (Ascii.eqb c "/") && negb (Ascii.eqb c NUL)) a
  end.

(** The tokens that [strtok] cuts from [s] for the delimiter [d]: the
    maximal runs, not empty, of characters other than [d]. *)
Fixpoint tokens (d : ascii) (s : list ascii) : list (list ascii) :=
  match s with
  | [] => []
  | c :: s' =>
      if Ascii.eqb c d then tokens d s'
      else match s' with
           | [] => [[c]]
           | c' :: _ =>
               if Ascii.eqb c' d then [c] :: tokens d s'
               else match tokens d s' with
                    | t :: ts => (c :: t) :: ts
                    | [] => [[c]]
                    end
           end
  end.

(** A text without [NUL]. *)
Definition no_nul (s : list ascii) : bool := forallb (fun c => negb (Ascii.eqb c NUL)) s.

(** The number of vertices that the second pass counts on a face line:
    the tokens behind the command. *)
Definition face_size (l : list ascii) : Z :=
  u32 (Z.of_nat (length (tokens " " (skipn 2 (content l))))).

(** [n] executions of the body of the loop over the data elements of a
    face vertex. *)
Fixpoint data_loop (n : nat) (faceVertexDataIt : Z) (token : list ascii) (st : state)
  : outcome state :=
  match n with
  | O => Ok st
  | S n' =>
      '(faceVertexDataIt, st) <- face_vertex_datum faceVertexDataIt token st ;;
      data_loop n' faceVertexDataIt token st
  end.

Definition cmd_eqb (a b : ObjFileCmdType) : bool :=
  match a, b with
  | VERTEX, VERTEX | NORMAL, NORMAL | TEXCOORD, TEXCOORD | FACE, FACE
  | UNKNOWN, UNKNOWN => true
  | _, _ => false
  end.

(** The lines of a file with a given command, and their number. *)
Definition has_command (c : ObjFileCmdType) (l : list ascii) : bool :=
  cmd_eqb (line_command l) c.

Definition count_lines (c : ObjFileCmdType) (file : FILE) : Z :=
  Z.of_nat (length (filter (has_command c) file)).

(** The numbers that the second pass reads behind the command of a [v],
    [vn] or [vt] line. *)
Definition components (width : nat) (l : list ascii) : list double :=
  match sscanf_lf width (skipn 2 (content l)) with
  | Ok (_, vals) => vals
  | _ => []
  end.

(** The variables that the handling of the vertices of a face leaves
    alone: everything but the line buffer, the three arrays of face-vertex
    indices and the running offset into them. *)
Definition same_geometry (st st' : state) : Prop :=
  nVertices st' = nVertices st /\ nNormals st' = nNormals st
  /\ nTexCoords st' = nTexCoords st /\ nFaces st' = nFaces st
  /\ nFaceIndices st' = nFaceIndices st
  /\ pVertices st' = pVertices st /\ pNormals st' = pNormals st
  /\ pTexCoords st' = pTexCoords st /\ pFaceSizes st' = pFaceSizes st
  /\ numVertices st' = numVertices st /\ numNormals st' = numNormals st
  /\ numTexcoords st' = numTexcoords st /\ numFaces st' = numFaces st.

(** The variables that the handling of one face vertex leaves alone. *)
Definition same_face_state (st st' : state) : Prop :=
  nFaces st' = nFaces st
  /\ nFaceIndices st' = nFaceIndices st
  /\ pFaceSizes st' = pFaceSizes st
  /\ nTexCoords st' = nTexCoords st.

(** The face vertices of a face line in the third pass: the tokens behind
    the command, without those that start with [f], which the loop over
    the face vertices passes over. *)
Definition face_vertex_tokens (l : list ascii) : list (list ascii) :=
  filter (fun t => negb (Ascii.eqb (hd NUL t) "f")) (tokens " " (skipn 2 (content l))).

(** What the third pass leaves in the array of vertex indices for a face
    vertex: the number at its start, less one, as [uint32_t]; nothing
    when the face vertex does not start with a number. *)
Definition vertex_slot (token : list ascii) : option Z :=
  match sscanf_d token with
  | Ok (val, _) => Some (u32 (val - 1))
  | _ => None
  end.

Definition face_slots (l : list ascii) : list (option Z) :=
  map vertex_slot (face_vertex_tokens l).

(** The assignments [p[i] = v], [p[i + 1] = v'], ... for the elements of
    [slots] that hold a value. *)
Fixpoint puts (p : option (array Z)) (i : Z) (slots : list (option Z))
  : outcome (option (array Z)) :=
  match slots with
  | [] => Ok p
  | slot :: slots' =>
      p <- match slot with
           | Some v => store_at p i v
           | None => Ok p
           end ;;
      puts p (i + 1) slots'
  end.

End OBJSpec.


(** * Properties *)

(** ** Outcomes and arrays *)

Lemma bind_Ok_inv {A B : Type} (m : outcome A) (k : A -> outcome B) (b : B) :
  bind m k = Ok b -> exists a, m = Ok a /\ k a = Ok b.
Proof. destruct m; simpl; intros H; try discriminate. eauto. Qed.

Lemma bind_Fatal_inv {A B : Type} (m : outcome A) (k : A -> outcome B) msg :
  bind m k = Fatal msg -> m = Fatal msg \/ exists a, m = Ok a /\ k a = Fatal msg.
Proof. destruct m; simpl; intros H; try discriminate; eauto. left. congruence. Qed.

Ltac conjs := repeat match goal with |- _ /\ _ => split end.

Ltac ulia := unfold UINT32_MOD, INT_MAX, INT_MIN in *; lia.

Lemma u32_small (z : Z) : 0 <= z < UINT32_MOD -> u32 z = z.
Proof. intros H. unfold u32. now apply Z.mod_small. Qed.

Lemma index_not_fatal {A : Type} (a : list A) (i : Z) : ~ is_fatal (index a i).
Proof.
  unfold index, is_fatal. intros [msg H].
  destruct (i <? 0); [discriminate|].
  destruct (nth_error a (Z.to_nat i)); discriminate.
Qed.

Lemma memcpy_not_fatal {A : Type} (a : list A) (off n : Z) : ~ is_fatal (memcpy a off n).
Proof.
  unfold memcpy, is_fatal. intros [msg H].
  destruct ((0 <=? off) && (0 <? n) && (off + n <=? Z.of_nat (length a))); discriminate.
Qed.

Lemma index_app_here {A : Type} (pre post : list A) (x : A) :
  index (pre ++ x :: post) (Z.of_nat (length pre)) = Ok x.
Proof.
  unfold index. destruct (Z.ltb_spec (Z.of_nat (length pre)) 0) as [H|H]; [lia|].
  rewrite Nat2Z.id, nth_error_app2 by lia. now rewrite Nat.sub_diag.
Qed.

Lemma index_past_end {A : Type} (a : list A) (i : Z) :
  Z.of_nat (length a) <= i -> index a i = Undefined.
Proof.
  intros H. unfold index. destruct (Z.ltb_spec i 0) as [H0|H0]; [reflexivity|].
  destruct (nth_error a (Z.to_nat i)) eqn:E; [|reflexivity].
  assert (nth_error a (Z.to_nat i) <> None) as Hn by congruence.
  apply nth_error_Some in Hn. lia.
Qed.

Lemma memcpy_app_here {A : Type} (pre mid post : list A) :
  mid <> [] ->
  memcpy (pre ++ mid ++ post) (Z.of_nat (length pre)) (Z.of_nat (length mid)) = Ok mid.
Proof.
  intros Hmid. unfold memcpy.
  assert (0 < Z.of_nat (length mid)) as Hpos
    by (destruct mid; [congruence|cbn [length]; lia]).
  assert (Z.of_nat (length pre) + Z.of_nat (length mid)
          <= Z.of_nat (length (pre ++ mid ++ post))) as Hle
    by (rewrite !length_app; lia).
  destruct (Z.leb_spec 0 (Z.of_nat (length pre))); [|lia].
  destruct (Z.ltb_spec 0 (Z.of_nat (length mid))); [|lia].
  destruct (Z.leb_spec (Z.of_nat (length pre) + Z.of_nat (length mid))
              (Z.of_nat (length (pre ++ mid ++ post)))); [|lia].
  simpl. rewrite !Nat2Z.id.
  rewrite skipn_app, skipn_all, Nat.sub_diag. simpl.
  rewrite firstn_app, firstn_all, Nat.sub_diag. simpl. now rewrite app_nil_r.
Qed.

Lemma memcpy_past_end {A : Type} (a : list A) (off n : Z) :
  Z.of_nat (length a) < off + n -> memcpy a off n = Undefined.
Proof.
  intros H. unfold memcpy.
  destruct (Z.leb_spec (off + n) (Z.of_nat (length a))); [lia|].
  now rewrite andb_false_r.
Qed.

(** ** Machine integers *)

Lemma u32_range (z : Z) : 0 <= u32 z < UINT32_MOD.
Proof. unfold u32. apply Z.mod_pos_bound. ulia. Qed.

Lemma to_int_range (z : Z) : INT_MIN <= to_int z <= INT_MAX.
Proof.
  unfold to_int. pose proof (u32_range z) as Hz.
  destruct (Z.leb_spec (u32 z) INT_MAX); ulia.
Qed.

Lemma u32_to_int (z : Z) : u32 (to_int z) = u32 z.
Proof.
  unfold to_int. destruct (Z.leb_spec (u32 z) INT_MAX).
  - unfold u32. apply Z.mod_mod. ulia.
  - unfold u32. replace (z mod UINT32_MOD - UINT32_MOD)
      with (z mod UINT32_MOD + (-1) * UINT32_MOD) by lia.
    rewrite Z.mod_add by ulia. apply Z.mod_mod. ulia.
Qed.

Lemma u32_add_l (a b : Z) : u32 (u32 a + b) = u32 (a + b).
Proof. unfold u32. apply Zplus_mod_idemp_l. Qed.

Lemma to_int_small (z : Z) : 0 <= z <= INT_MAX -> to_int z = z.
Proof.
  intros H. unfold to_int. rewrite u32_small by ulia.
  destruct (Z.leb_spec z INT_MAX); lia.
Qed.

Lemma to_int_nonneg_inv (z : Z) :
  0 <= z < UINT32_MOD -> 0 <= to_int z -> z <= INT_MAX /\ to_int z = z.
Proof.
  intros Hz H. unfold to_int in *. rewrite u32_small in * by assumption.
  destruct (Z.leb_spec z INT_MAX); ulia.
Qed.

Lemma int_eq_of_u32 (a b : Z) :
  INT_MIN <= a <= INT_MAX -> INT_MIN <= b <= INT_MAX -> u32 a = u32 b -> a = b.
Proof.
  intros Ha Hb H. unfold u32 in H.
  assert ((a - b) mod UINT32_MOD = 0) as H0.
  { rewrite Zminus_mod, H, Z.sub_diag. apply Z.mod_0_l. ulia. }
  apply Z.mod_divide in H0; [|ulia]. destruct H0 as [k Hk]. ulia.
Qed.

Lemma int_val_Ok (z v : Z) : int_val z = Ok v -> v = z /\ INT_MIN <= z <= INT_MAX.
Proof.
  unfold int_val, in_int. intros H.
  destruct (Z.leb_spec INT_MIN z), (Z.leb_spec z INT_MAX); cbn in H;
    try discriminate. injection H as <-. lia.
Qed.

(** ** Heap arrays *)

Lemma set_nth_app_here {A : Type} (pre post : list A) (x v : A) :
  set_nth (pre ++ x :: post) (length pre) v = Some (pre ++ v :: post).
Proof.
  induction pre as [|y pre IH]; cbn [app length set_nth]; [reflexivity|].
  now rewrite IH.
Qed.

Lemma set_nth_past_end {A : Type} (a : list A) : forall (i : nat) (v : A),
  (length a <= i)%nat -> set_nth a i v = None.
Proof.
  induction a as [|y a IH]; intros i v H; [reflexivity|].
  destruct i as [|i]; cbn [length] in H; [lia|].
  cbn [set_nth]. rewrite IH by lia. reflexivity.
Qed.

Lemma store_next {A : Type} (done : list A) (r : nat) (v : A) (a' : array A) :
  store (map Some done ++ repeat None r) (Z.of_nat (length done)) v = Ok a' ->
  exists r', r = S r' /\ a' = map Some (done ++ [v]) ++ repeat None r'.
Proof.
  unfold store. destruct (Z.ltb_spec (Z.of_nat (length done)) 0); [lia|].
  rewrite Nat2Z.id. destruct r as [|r'].
  - rewrite set_nth_past_end; [discriminate|].
    rewrite length_app, length_map. cbn. lia.
  - cbn [repeat]. rewrite <- (length_map Some done), set_nth_app_here.
    intros Hs. injection Hs as <-. exists r'. split; [reflexivity|].
    rewrite map_app, <- app_assoc. reflexivity.
Qed.

Lemma store_next_Ok {A : Type} (done : list A) (r : nat) (v : A) :
  store (map Some done ++ repeat None (S r)) (Z.of_nat (length done)) v
  = Ok (map Some (done ++ [v]) ++ repeat None r).
Proof.
  unfold store. destruct (Z.ltb_spec (Z.of_nat (length done)) 0); [lia|].
  rewrite Nat2Z.id. cbn [repeat].
  rewrite <- (length_map Some done), set_nth_app_here.
  rewrite map_app, <- app_assoc. reflexivity.
Qed.

Lemma index_filled {A : Type} (done todo : list A) (x : option A) :
  index (map Some (done ++ todo)) (Z.of_nat (length done)) = Ok x ->
  exists v todo', x = Some v /\ todo = v :: todo'.
Proof.
  destruct todo as [|v todo'].
  - rewrite index_past_end; [discriminate|].
    rewrite length_map, app_nil_r. lia.
  - rewrite map_app. cbn [map]. rewrite <- (length_map Some done), index_app_here.
    intros Hx. injection Hx as <-. eauto.
Qed.

Lemma sumZ_app (l1 l2 : list Z) : sumZ (l1 ++ l2) = sumZ l1 + sumZ l2.
Proof. unfold sumZ. induction l1 as [|x l1 IH]; cbn [app fold_right]; lia. Qed.

Lemma Forall_repeat {A : Type} (P : A -> Prop) (x : A) (n : nat) : P x -> Forall P (repeat x n).
Proof. intros H. induction n; cbn [repeat]; constructor; assumption. Qed.


(** ** Seam vertex sequences *)

Module SeamFacts.
Import Seam.

Lemma sequences_from_not_fatal (n : nat) (arr : list Z) (off : Z) :
  ~ is_fatal (sequences_from n arr off).
Proof.
  revert off. induction n as [|n IH]; intros off [msg H]; simpl in H.
  - discriminate.
  - apply bind_Fatal_inv in H as [H|(size & _ & H)].
    { eapply index_not_fatal. eexists; eauto. }
    apply bind_Fatal_inv in H as [H|(isLoop & _ & H)].
    { eapply index_not_fatal. eexists; eauto. }
    apply bind_Fatal_inv in H as [H|(indices & _ & H)].
    { eapply memcpy_not_fatal. eexists; eauto. }
    apply bind_Fatal_inv in H as [H|([rest final] & _ & H)].
    { eapply IH. eexists; eauto. }
    discriminate.
Qed.

Lemma seamVertexSequences_not_fatal (arr : list Z) : ~ is_fatal (seamVertexSequences arr).
Proof.
  intros [msg H]. unfold seamVertexSequences in H.
  apply bind_Fatal_inv in H as [H|(n & _ & H)].
  - eapply index_not_fatal. eexists; eauto.
  - eapply sequences_from_not_fatal. eexists; eauto.
Qed.

Lemma length_groups (seqs : list sequence) :
  Z.of_nat (length (flat_map layout_sequence seqs)) = groups_size seqs.
Proof.
  induction seqs as [|s seqs IH]; [reflexivity|].
  cbn [flat_map groups_size fold_right]. fold (groups_size seqs).
  rewrite length_app, <- IH. unfold layout_sequence. cbn [length]. lia.
Qed.

Lemma length_layout (seqs : list sequence) :
  Z.of_nat (length (layout seqs)) = 1 + groups_size seqs.
Proof. unfold layout. cbn [length]. rewrite <- length_groups. lia. Qed.

Lemma groups_size_nonneg (seqs : list sequence) : 0 <= groups_size seqs.
Proof. rewrite <- length_groups. lia. Qed.

(** One iteration of the loop on an array that holds a complete group at
    the running offset. *)
Lemma sequences_from_step (n : nat) (arr pre indices tail : list Z) (isLoop off : Z) :
  arr = pre ++ Z.of_nat (length indices) :: isLoop :: indices ++ tail ->
  off = Z.of_nat (length pre) ->
  off + 2 + Z.of_nat (length indices) < UINT32_MOD ->
  indices <> [] ->
  sequences_from (S n) arr off
  = ('(rest, final) <- sequences_from n arr (off + 2 + Z.of_nat (length indices)) ;;
     Ok ((indices, isLoop) :: rest, final)).
Proof.
  intros Harr Hoff Hlt Hne. cbn [sequences_from].
  set (size := Z.of_nat (length indices)) in *.
  assert (index arr off = Ok size) as ->.
  { subst arr off. apply index_app_here. }
  cbn [bind]. rewrite (u32_small (off + 1)) by ulia.
  assert (index arr (off + 1) = Ok isLoop) as ->.
  { subst arr off.
    replace (pre ++ size :: isLoop :: indices ++ tail)
      with ((pre ++ [size]) ++ isLoop :: indices ++ tail)
      by (now rewrite <- app_assoc).
    replace (Z.of_nat (length pre) + 1) with (Z.of_nat (length (pre ++ [size])))
      by (rewrite length_app; cbn [length]; lia).
    apply index_app_here. }
  cbn [bind]. rewrite (u32_small (off + 1 + 1)) by ulia.
  assert (memcpy arr (off + 1 + 1) size = Ok indices) as ->.
  { subst arr off.
    replace (pre ++ size :: isLoop :: indices ++ tail)
      with ((pre ++ [size; isLoop]) ++ indices ++ tail)
      by (now rewrite <- app_assoc).
    replace (Z.of_nat (length pre) + 1 + 1)
      with (Z.of_nat (length (pre ++ [size; isLoop])))
      by (rewrite length_app; cbn [length]; lia).
    apply memcpy_app_here. exact Hne. }
  cbn [bind]. rewrite (u32_small (off + 1 + 1 + size)) by ulia.
  replace (off + 1 + 1 + size) with (off + 2 + size) by lia.
  reflexivity.
Qed.

(** The loop on complete groups: every group is returned and the offset
    ends right behind the last one, whatever follows in the array. *)
Lemma sequences_from_groups (seqs : list sequence) :
  forall (pre post : list Z),
    Forall (fun s => fst s <> []) seqs ->
    Z.of_nat (length pre) + groups_size seqs < UINT32_MOD ->
    sequences_from (length seqs) (pre ++ flat_map layout_sequence seqs ++ post)
      (Z.of_nat (length pre))
    = Ok (seqs, Z.of_nat (length pre) + groups_size seqs).
Proof.
  induction seqs as [|[indices isLoop] seqs IH]; intros pre post Hall Hlt.
  - cbn. now rewrite Z.add_0_r.
  - pose proof (groups_size_nonneg seqs) as Hnn.
    inversion Hall as [|? ? Hne Hall']; subst. cbn [fst] in Hne.
    cbn [groups_size fold_right fst] in *. fold (groups_size seqs) in *.
    cbn [length].
    set (grp := pre ++ Z.of_nat (length indices) :: isLoop :: indices).
    match goal with
    | |- sequences_from _ ?a _ = _ =>
        assert (a = grp ++ flat_map layout_sequence seqs ++ post) as ->
    end.
    { unfold grp. cbn [flat_map]. unfold layout_sequence at 1. cbn [fst snd].
      rewrite <- !app_assoc. reflexivity. }
    rewrite (sequences_from_step _ _ pre indices
               (flat_map layout_sequence seqs ++ post) isLoop);
      [ | unfold grp; now rewrite <- app_assoc | reflexivity | lia | exact Hne ].
    replace (Z.of_nat (length pre) + 2 + Z.of_nat (length indices))
      with (Z.of_nat (length grp))
      by (unfold grp; rewrite length_app; cbn [length]; lia).
    rewrite IH; [|exact Hall'|unfold grp; rewrite length_app; cbn [length]; lia].
    cbn [bind]. apply f_equal, f_equal. unfold grp. rewrite length_app. cbn [length]. lia.
Qed.

Lemma seamVertexSequences_layout_app (seqs : list sequence) (extra : list Z) :
  Forall (fun s => fst s <> []) seqs ->
  Z.of_nat (length (layout seqs)) < UINT32_MOD ->
  seamVertexSequences (layout seqs ++ extra)
  = Ok (seqs, Z.of_nat (length (layout seqs))).
Proof.
  intros Hall Hlt. rewrite length_layout in *.
  pose proof (groups_size_nonneg seqs) as Hnn.
  unfold seamVertexSequences, layout. cbn [app].
  unfold index at 1. cbn [Z.ltb Z.compare Z.to_nat nth_error bind].
  rewrite Nat2Z.id. rewrite (u32_small (0 + 1)) by ulia.
  pose proof (sequences_from_groups seqs [Z.of_nat (length seqs)] extra) as H.
  cbn [length app] in H. change (Z.of_nat 1) with (0 + 1) in H.
  rewrite H; [|exact Hall|ulia]. apply f_equal, f_equal. lia.
Qed.

Lemma app_eq_split {A : Type} (l1 l2 b rest : list A) :
  l1 ++ l2 = b ++ rest -> (length l1 <= length b)%nat ->
  exists tl, b = l1 ++ tl /\ l2 = tl ++ rest.
Proof.
  revert b. induction l1 as [|x l1 IH]; intros b Heq Hle.
  - exists b. now split.
  - destruct b as [|y b]; [cbn in Hle; lia|].
    cbn in Heq. injection Heq as -> Heq.
    destruct (IH b Heq) as (tl & -> & ->); [cbn in Hle; lia|].
    exists tl. now split.
Qed.

Lemma memcpy_nothing {A : Type} (a : list A) (off : Z) : memcpy a off 0 = Undefined.
Proof. unfold memcpy. cbn [Z.ltb Z.compare]. now rewrite andb_false_r. Qed.

(** The loop on an array that ends inside the groups of [seqs]. *)
Lemma sequences_from_truncated (seqs : list sequence) :
  forall (pre b rest : list Z),
    Z.of_nat (length b) < UINT32_MOD ->
    pre ++ flat_map layout_sequence seqs = b ++ rest ->
    rest <> [] ->
    (length pre <= length b)%nat ->
    sequences_from (length seqs) b (Z.of_nat (length pre)) = Undefined.
Proof.
  induction seqs as [|[indices isLoop] seqs IH]; intros pre b rest Hlt Heq Hrest Hpre.
  - exfalso. cbn in Heq. rewrite app_nil_r in Heq.
    apply (f_equal (@length Z)) in Heq. rewrite length_app in Heq.
    destruct rest; [congruence|]. cbn [length] in Heq. lia.
  - cbn [flat_map] in Heq. unfold layout_sequence at 1 in Heq.
    cbn [fst snd] in Heq. rewrite <- app_comm_cons in Heq.
    destruct (app_eq_split _ _ _ _ Heq Hpre) as (tl & -> & Htl).
    cbn [length].
    destruct tl as [|x0 tl].
    { cbn [sequences_from]. rewrite index_past_end by (rewrite app_nil_r; lia).
      reflexivity. }
    cbn [app] in Htl. injection Htl as <- Htl.
    rewrite length_app in Hlt. cbn [length] in Hlt.
    destruct tl as [|x1 tl].
    { cbn [sequences_from]. rewrite index_app_here. cbn [bind].
      rewrite index_past_end; [reflexivity|].
      rewrite u32_small by ulia. rewrite length_app. cbn [length]. lia. }
    cbn [app] in Htl. injection Htl as <- Htl. cbn [length] in Hlt.
    destruct (Nat.le_gt_cases (length indices) (length tl)) as [Hlong|Hshort];
      [destruct indices as [|i0 indices]|].
    + (* a complete group without indices *)
      cbn [sequences_from]. rewrite index_app_here. cbn [bind].
      rewrite (u32_small (Z.of_nat (length pre) + 1)) by ulia.
      replace (pre ++ Z.of_nat (length (@nil Z)) :: isLoop :: tl)
        with ((pre ++ [Z.of_nat (length (@nil Z))]) ++ isLoop :: tl)
        by (now rewrite <- app_assoc).
      replace (Z.of_nat (length pre) + 1)
        with (Z.of_nat (length (pre ++ [Z.of_nat (length (@nil Z))])))
        by (rewrite length_app; cbn [length]; lia).
      rewrite index_app_here. cbn [bind].
      change (Z.of_nat (length (@nil Z))) with 0. rewrite memcpy_nothing. reflexivity.
    + destruct (app_eq_split _ _ _ _ Htl Hlong) as (tl' & -> & Hgroups).
      rewrite length_app in Hlt.
      rewrite (sequences_from_step _ _ pre (i0 :: indices) tl' isLoop);
        [ | reflexivity | reflexivity | lia | discriminate ].
      replace (pre ++ Z.of_nat (length (i0 :: indices)) :: isLoop :: (i0 :: indices) ++ tl')
        with ((pre ++ Z.of_nat (length (i0 :: indices)) :: isLoop :: i0 :: indices) ++ tl')
        by (now rewrite <- app_assoc).
      replace (Z.of_nat (length pre) + 2 + Z.of_nat (length (i0 :: indices)))
        with (Z.of_nat (length (pre ++ Z.of_nat (length (i0 :: indices))
                                  :: isLoop :: i0 :: indices)))
        by (rewrite length_app; cbn [length]; lia).
      rewrite (IH _ _ rest); try assumption.
      * reflexivity.
      * rewrite !length_app. cbn [length] in Hlt |- *. lia.
      * rewrite Hgroups. now rewrite <- !app_assoc.
      * rewrite !length_app. lia.
    + cbn [sequences_from]. rewrite index_app_here. cbn [bind].
      rewrite (u32_small (Z.of_nat (length pre) + 1)) by ulia.
      replace (pre ++ Z.of_nat (length indices) :: isLoop :: tl)
        with ((pre ++ [Z.of_nat (length indices)]) ++ isLoop :: tl)
        by (now rewrite <- app_assoc).
      replace (Z.of_nat (length pre) + 1)
        with (Z.of_nat (length (pre ++ [Z.of_nat (length indices)])))
        by (rewrite length_app; cbn [length]; lia).
      rewrite index_app_here. cbn [bind].
      rewrite memcpy_past_end; [reflexivity|].
      rewrite u32_small by (rewrite length_app; cbn [length]; ulia).
      rewrite !length_app. cbn [length]. lia.
Qed.

(** A group without indices stops the loop: [memcpy] is given the null
    [data()] of the empty vector. *)
Lemma sequences_from_empty_group (isLoop : Z) (more : list sequence) :
  forall (done : list sequence) (pre post : list Z),
    Forall (fun s => fst s <> []) done ->
    Z.of_nat (length pre) + groups_size done + 2 < UINT32_MOD ->
    sequences_from (length (done ++ ([], isLoop) :: more))
      (pre ++ flat_map layout_sequence (done ++ ([], isLoop) :: more) ++ post)
      (Z.of_nat (length pre))
    = Undefined.
Proof.
  induction done as [|[indices flag] done IH]; intros pre post Hall Hlt.
  - cbn [app length flat_map layout_sequence fst snd sequences_from].
    rewrite index_app_here. cbn [bind].
    rewrite (u32_small (Z.of_nat (length pre) + 1))
      by (cbn [groups_size fold_right] in Hlt; ulia).
    replace (pre ++ Z.of_nat 0 :: isLoop :: flat_map layout_sequence more ++ post)
      with ((pre ++ [Z.of_nat 0]) ++ isLoop :: flat_map layout_sequence more ++ post)
      by (now rewrite <- app_assoc).
    replace (Z.of_nat (length pre) + 1) with (Z.of_nat (length (pre ++ [Z.of_nat 0])))
      by (rewrite length_app; cbn [length]; lia).
    rewrite index_app_here. cbn [bind].
    change (Z.of_nat 0) with 0. rewrite memcpy_nothing. reflexivity.
  - pose proof (groups_size_nonneg done) as Hnn.
    inversion Hall as [|? ? Hne Hall']; subst. cbn [fst] in Hne.
    cbn [groups_size fold_right fst] in Hlt. fold (groups_size done) in Hlt.
    cbn [app length].
    set (grp := pre ++ Z.of_nat (length indices) :: flag :: indices).
    match goal with
    | |- sequences_from _ ?a _ = _ =>
        assert (a = grp ++ flat_map layout_sequence (done ++ ([], isLoop) :: more) ++ post)
          as ->
    end.
    { unfold grp. cbn [flat_map]. unfold layout_sequence at 1. cbn [fst snd].
      rewrite <- !app_assoc. reflexivity. }
    rewrite (sequences_from_step _ _ pre indices
               (flat_map layout_sequence (done ++ ([], isLoop) :: more) ++ post) flag);
      [ | unfold grp; now rewrite <- app_assoc | reflexivity | lia | exact Hne ].
    replace (Z.of_nat (length pre) + 2 + Z.of_nat (length indices))
      with (Z.of_nat (length grp))
      by (unfold grp; rewrite length_app; cbn [length]; lia).
    rewrite IH; [reflexivity|exact Hall'|].
    unfold grp. rewrite length_app. cbn [length]. lia.
Qed.

(** C10, as the code has it.  For a well-formed array of fewer than
    [2^32] elements (the count followed by that many complete
    length/flag/indices groups) whose sequences all have at least one
    index, the loop reads exactly [1 + sum (2 + len_k)] elements and
    returns the sequences of the array; elements appended after the last
    group change neither the result nor the final offset. *)
Theorem seam_trailing_elements_ignored (seqs : list sequence) (extra : list Z) :
  Forall (fun s => fst s <> []) seqs ->
  Z.of_nat (length (layout seqs)) < UINT32_MOD ->
  seamVertexSequences (layout seqs ++ extra) = Ok (seqs, 1 + groups_size seqs)
  /\ seamVertexSequences (layout seqs ++ extra) = seamVertexSequences (layout seqs).
Proof.
  intros Hall Hlt.
  pose proof (seamVertexSequences_layout_app seqs extra Hall Hlt) as H1.
  pose proof (seamVertexSequences_layout_app seqs [] Hall Hlt) as H2.
  rewrite app_nil_r in H2. rewrite length_layout in H1.
  split; [exact H1|]. rewrite H2, H1. now rewrite length_layout.
Qed.

Lemma seam_trailing_elements_ignored_witness :
  seamVertexSequences ([2; 2; 1; 7; 8; 1; 0; 4] ++ [99; 100])
  = Ok ([([7; 8], 1); ([4], 0)], 8)
  /\ seamVertexSequences ([2; 2; 1; 7; 8; 1; 0; 4] ++ [99; 100])
     = seamVertexSequences [2; 2; 1; 7; 8; 1; 0; 4].
Proof.
  apply (seam_trailing_elements_ignored [([7; 8], 1); ([4], 0)] [99; 100]).
  - repeat constructor; discriminate.
  - vm_compute. reflexivity.
Defined.

(** A well-formed array with a sequence of length 0: the loop does not
    get past that sequence, with or without elements behind the array. *)
Lemma seam_empty_sequence (done more : list sequence) (isLoop : Z) (extra : list Z) :
  Forall (fun s => fst s <> []) done ->
  1 + groups_size done + 2 < UINT32_MOD ->
  seamVertexSequences (layout (done ++ ([], isLoop) :: more) ++ extra) = Undefined.
Proof.
  intros Hall Hlt. unfold seamVertexSequences, layout. cbn [app].
  unfold index at 1. cbn [Z.ltb Z.compare Z.to_nat nth_error bind].
  rewrite Nat2Z.id. rewrite (u32_small (0 + 1)) by ulia.
  pose proof (sequences_from_empty_group isLoop more done
                [Z.of_nat (length (done ++ ([], isLoop) :: more))] extra Hall) as H.
  cbn [length app] in H. change (Z.of_nat 1) with (0 + 1) in H.
  apply H. lia.
Qed.

(** C10 as stated fails: the array [1; 0; 0] is well formed, with one
    complete group for a sequence of length 0, and the loop does not
    return its sequences, with or without an element behind the group:
    [memcpy] is given the null [data()] of the vector that is still
    empty. *)
Lemma seam_trailing_counterexample :
  layout [([], 0)] = [1; 0; 0]
  /\ seamVertexSequences [1; 0; 0] = Undefined
  /\ seamVertexSequences ([1; 0; 0] ++ [7]) = Undefined.
Proof. repeat split. Qed.

(** C2, as the code has it.  The loop performs no bounds check: on an array
    of fewer than [2^32] elements that stops before the end of the groups
    it declares (a proper prefix of a well-formed array), no error is
    reported and the behaviour is undefined: an element is read past the
    end of the array, unless a sequence of length 0 has stopped the loop
    before. *)
Theorem seam_truncated_reads_past_end (seqs : list sequence) (b rest : list Z) :
  layout seqs = b ++ rest ->
  rest <> [] ->
  Z.of_nat (length b) < UINT32_MOD ->
  seamVertexSequences b = Undefined /\ ~ is_fatal (seamVertexSequences b).
Proof.
  intros Heq Hrest Hlt. split; [|apply seamVertexSequences_not_fatal].
  unfold layout in Heq. destruct b as [|n b].
  - reflexivity.
  - cbn [app] in Heq. injection Heq as <- Heq.
    unfold seamVertexSequences, index at 1.
    cbn [Z.ltb Z.compare Z.to_nat nth_error bind]. rewrite Nat2Z.id.
    rewrite (u32_small (0 + 1)) by ulia.
    apply (sequences_from_truncated seqs [Z.of_nat (length seqs)]
             (Z.of_nat (length seqs) :: b) rest).
    + exact Hlt.
    + cbn [app]. now rewrite Heq.
    + exact Hrest.
    + cbn [length]. lia.
Qed.

Lemma seam_truncated_reads_past_end_witness :
  seamVertexSequences [1; 5; 0; 7] = Undefined
  /\ ~ is_fatal (seamVertexSequences [1; 5; 0; 7]).
Proof.
  apply (seam_truncated_reads_past_end [([7; 8; 9; 10; 11], 0)] [1; 5; 0; 7] [8; 9; 10; 11]).
  - reflexivity.
  - discriminate.
  - vm_compute. reflexivity.
Defined.

(** C2 as stated fails: the array [1; 5; 0; 7] declares one sequence of
    five indices and holds a single one, and the loop reports no error. *)
Lemma seam_truncated_counterexample :
  layout [([7; 8; 9; 10; 11], 0)] = [1; 5; 0; 7] ++ [8; 9; 10; 11]
  /\ ~ is_fatal (seamVertexSequences [1; 5; 0; 7]).
Proof.
  split; [reflexivity|].
  intros [msg H]. vm_compute in H. discriminate.
Qed.

End SeamFacts.

(** ** C strings *)

Lemma strcspn_stop (a rest : list ascii) (c d : ascii) :
  forallb (fun x => negb (Ascii.eqb x d) && negb (Ascii.eqb x NUL)) a = true ->
  c = NUL \/ c = d ->
  strcspn (a ++ c :: rest) [d] = Ok (length a).
Proof.
  intros Ha Hc. induction a as [|x a IH].
  - cbn [app strcspn existsb length].
    destruct Hc as [-> | ->].
    + reflexivity.
    + rewrite Ascii.eqb_refl. now rewrite !orb_true_r.
  - cbn [forallb] in Ha. apply andb_true_iff in Ha as [Hx Ha].
    apply andb_true_iff in Hx as [Hxd Hx0].
    apply negb_true_iff in Hxd, Hx0.
    cbn [app strcspn existsb length]. rewrite Hxd, Hx0. cbn [orb].
    rewrite (IH Ha). reflexivity.
Qed.

Lemma strspn_none (c d : ascii) (rest : list ascii) :
  Ascii.eqb c d && negb (Ascii.eqb c NUL) = false ->
  strspn (c :: rest) d = Ok O.
Proof. intros H. cbn [strspn]. now rewrite H. Qed.

Lemma skipn_app_length {A : Type} (l1 l2 : list A) : skipn (length l1) (l1 ++ l2) = l2.
Proof. rewrite skipn_app, skipn_all, Nat.sub_diag. reflexivity. Qed.

Lemma nth_app_length {A : Type} (l1 l2 : list A) (x d : A) :
  nth (length l1) (l1 ++ x :: l2) d = x.
Proof. rewrite app_nth2 by lia. now rewrite Nat.sub_diag. Qed.

Lemma poke_app_here (pre post : list ascii) (x c : ascii) :
  poke (pre ++ x :: post) (length pre) c = Ok (pre ++ c :: post).
Proof. unfold poke. now rewrite set_nth_app_here. Qed.

(** [strtok] on a token that a delimiter ends. *)
Lemma strtok_delimited (pre a post : list ascii) (d : ascii) :
  a <> [] ->
  forallb (fun x => negb (Ascii.eqb x d) && negb (Ascii.eqb x NUL)) a = true ->
  d <> NUL ->
  strtok (pre ++ a ++ d :: post) (length pre) d
  = Ok (pre ++ a ++ NUL :: post, Some (length pre, length a), S (length pre + length a)).
Proof.
  intros Hne Ha Hd. unfold strtok.
  rewrite skipn_app_length.
  destruct a as [|x a]; [congruence|].
  assert (Ascii.eqb x d && negb (Ascii.eqb x NUL) = false) as Hx.
  { cbn [forallb] in Ha. apply andb_true_iff in Ha as [Hx _].
    apply andb_true_iff in Hx as [Hx _]. apply negb_true_iff in Hx. now rewrite Hx. }
  cbn [app]. rewrite (strspn_none _ _ _ Hx). cbn [bind].
  rewrite Nat.add_0_r, skipn_app_length.
  change (x :: a ++ d :: post) with ((x :: a) ++ d :: post).
  rewrite (strcspn_stop (x :: a) post d d Ha) by (now right).
  cbn [bind length Nat.eqb].
  replace (pre ++ (x :: a) ++ d :: post) with ((pre ++ x :: a) ++ d :: post)
    by (now rewrite <- app_assoc).
  replace (length pre + S (length a))%nat with (length (pre ++ x :: a))
    by (rewrite length_app; reflexivity).
  rewrite nth_app_length.
  destruct (Ascii.eqb_spec d NUL) as [E|_]; [contradiction|].
  rewrite poke_app_here. cbn [bind]. rewrite <- app_assoc. reflexivity.
Qed.

(** [strtok] on a token that the end of the string ends. *)
Lemma strtok_last (pre a post : list ascii) (d : ascii) :
  a <> [] ->
  forallb (fun x => negb (Ascii.eqb x d) && negb (Ascii.eqb x NUL)) a = true ->
  strtok (pre ++ a ++ NUL :: post) (length pre) d
  = Ok (pre ++ a ++ NUL :: post, Some (length pre, length a), (length pre + length a)%nat).
Proof.
  intros Hne Ha. unfold strtok.
  rewrite skipn_app_length.
  destruct a as [|x a]; [congruence|].
  assert (Ascii.eqb x d && negb (Ascii.eqb x NUL) = false) as Hx.
  { cbn [forallb] in Ha. apply andb_true_iff in Ha as [Hx _].
    apply andb_true_iff in Hx as [Hx _]. apply negb_true_iff in Hx. now rewrite Hx. }
  cbn [app]. rewrite (strspn_none _ _ _ Hx). cbn [bind].
  rewrite Nat.add_0_r, skipn_app_length.
  change (x :: a ++ NUL :: post) with ((x :: a) ++ NUL :: post).
  rewrite (strcspn_stop (x :: a) post NUL d Ha) by (now left).
  cbn [bind length Nat.eqb].
  replace (pre ++ (x :: a) ++ NUL :: post) with ((pre ++ x :: a) ++ NUL :: post)
    by (now rewrite <- app_assoc).
  replace (length pre + S (length a))%nat with (length (pre ++ x :: a))
    by (rewrite length_app; reflexivity).
  rewrite nth_app_length. cbn [Ascii.eqb]. rewrite Ascii.eqb_refl. reflexivity.
Qed.

(** [strtok] at the end of the string. *)
Lemma strtok_end (pre post : list ascii) (d : ascii) :
  strtok (pre ++ NUL :: post) (length pre) d = Ok (pre ++ NUL :: post, None, length pre).
Proof.
  unfold strtok. rewrite skipn_app_length.
  rewrite strspn_none by (cbn; now rewrite andb_false_r).
  cbn [bind]. rewrite Nat.add_0_r, skipn_app_length. reflexivity.
Qed.

(** ** Written numbers read back *)

Lemma digit_val_digit_char (d : Z) : 0 <= d < 10 -> digit_val (digit_char d) = Some d.
Proof.
  intros H.
  assert (d = 0 \/ d = 1 \/ d = 2 \/ d = 3 \/ d = 4 \/ d = 5 \/ d = 6 \/ d = 7
          \/ d = 8 \/ d = 9) as Hd by lia.
  repeat (destruct Hd as [-> | Hd]; [reflexivity|]). subst d. reflexivity.
Qed.

Lemma is_digit_digit_char (d : Z) : 0 <= d < 10 -> is_digit (digit_char d) = true.
Proof. intros H. unfold is_digit. now rewrite digit_val_digit_char. Qed.

(** Facts about a digit, by cases on the character. *)
Lemma is_digit_class (c : ascii) :
  is_digit c = true ->
  isspace c = false
  /\ (forall s, scan_sign (c :: s) = (false, c :: s))
  /\ is_num_char c = true
  /\ is_sep c = false
  /\ is_letter_in ["i"; "I"; "n"; "N"]%char [c] = false.
Proof.
  destruct c as [[] [] [] [] [] [] [] []]; intros H; try discriminate H;
    repeat split.
Qed.

Lemma scan_inf_digit (d : ascii) (s : list ascii) :
  is_digit d = true -> scan_inf (d :: s) = None.
Proof.
  intros H. assert (Hi : is_letter_in ["i"; "I"]%char [d] = false).
  { destruct d as [[] [] [] [] [] [] [] []]; try discriminate H; reflexivity. }
  unfold scan_inf. destruct s as [|c2 [|c3 rest]]; [reflexivity..|].
  rewrite Hi. reflexivity.
Qed.

Lemma is_num_char_class (c : ascii) :
  is_num_char c = true ->
  Ascii.eqb c NUL = false /\ Ascii.eqb c LF = false /\ Ascii.eqb c " " = false
  /\ Ascii.eqb c "#" = false /\ isspace c = false /\ is_digit c || is_num_char c = true.
Proof.
  destruct c as [[] [] [] [] [] [] [] []]; intros H; try discriminate H;
    repeat split.
Qed.

Lemma is_sep_class (c : ascii) :
  is_sep c = true ->
  digit_val c = None
  /\ (forall s, is_letter_in ["x"; "X"]%char (c :: s) = false)
  /\ (forall s, is_letter_in ["e"; "E"]%char (c :: s) = false)
  /\ Ascii.eqb c "." = false
  /\ Ascii.eqb c NUL = false.
Proof.
  destruct c as [[] [] [] [] [] [] [] []]; intros H; try discriminate H;
    repeat split.
Qed.

Lemma scan_digits_stop (c : ascii) (rest : list ascii) (acc : Z) (cnt : nat) :
  digit_val c = None -> scan_digits (c :: rest) acc cnt = (acc, cnt, c :: rest).
Proof. intros H. cbn [scan_digits]. now rewrite H. Qed.

(** The digits written for [n], least significant first, are digits. *)
Lemma digits_rev_digits (fuel : nat) : forall n,
  0 <= n -> Forall (fun c => is_digit c = true) (digits_rev fuel n).
Proof.
  induction fuel as [|fuel IH]; intros n Hn; cbn [digits_rev]; [constructor|].
  constructor.
  - apply is_digit_digit_char. apply Z.mod_pos_bound. lia.
  - destruct (n / 10 =? 0); [constructor|]. apply IH. apply Z.div_pos; lia.
Qed.

(** Reading back the digits written for [n]. *)
Lemma scan_digits_rev (fuel : nat) : forall n acc cnt rest,
  0 <= n < 10 ^ Z.of_nat fuel ->
  exists len,
    length (digits_rev fuel n) = len
    /\ (fuel <> O -> len <> O)
    /\ scan_digits (rev (digits_rev fuel n) ++ rest) acc cnt
       = scan_digits rest (acc * 10 ^ Z.of_nat len + n) (cnt + len).
Proof.
  induction fuel as [|fuel IH]; intros n acc cnt rest Hn.
  - exists O. cbn [digits_rev rev app length]. split; [reflexivity|].
    split; [congruence|]. cbn in Hn. assert (n = 0) as -> by lia.
    rewrite Z.pow_0_r, Z.mul_1_r, Z.add_0_r, Nat.add_0_r. reflexivity.
  - cbn [digits_rev].
    assert (0 <= n mod 10 < 10) as Hd by (apply Z.mod_pos_bound; lia).
    pose proof (Z.div_mod n 10 ltac:(lia)) as Hdm.
    destruct (Z.eqb_spec (n / 10) 0) as [Hz|Hnz].
    + exists 1%nat. split; [reflexivity|]. split; [congruence|].
      cbn [rev app scan_digits]. rewrite digit_val_digit_char by exact Hd.
      f_equal; [|lia]. change (10 ^ Z.of_nat 1) with 10. lia.
    + assert (0 <= n / 10 < 10 ^ Z.of_nat fuel) as Hq.
      { split; [apply Z.div_pos; lia|].
        apply Z.div_lt_upper_bound; [lia|].
        rewrite Nat2Z.inj_succ, Z.pow_succ_r in Hn by lia. lia. }
      destruct (IH (n / 10) acc cnt (digit_char (n mod 10) :: rest) Hq)
        as (len & Hlen & _ & Hscan).
      exists (S len). split; [cbn [length]; now rewrite Hlen|].
      split; [congruence|].
      cbn [rev]. rewrite <- app_assoc. cbn [app]. rewrite Hscan.
      cbn [scan_digits]. rewrite digit_val_digit_char by exact Hd.
      f_equal; [|lia]. rewrite Nat2Z.inj_succ, Z.pow_succ_r by lia. lia.
Qed.

Lemma print_u_fuel (n : Z) : 0 <= n -> n < 10 ^ Z.of_nat (S (Z.to_nat (Z.log2 n))).
Proof.
  intros Hn. rewrite Nat2Z.inj_succ, Z2Nat.id by apply Z.log2_nonneg.
  destruct (Z.eq_dec n 0) as [->|Hnz]; [reflexivity|].
  pose proof (Z.log2_spec n ltac:(lia)) as [_ Hlt].
  eapply Z.lt_le_trans; [exact Hlt|].
  apply Z.pow_le_mono_l. pose proof (Z.log2_nonneg n). lia.
Qed.

Lemma print_u_digits (n : Z) :
  0 <= n ->
  Forall (fun c => is_digit c = true) (print_u n)
  /\ exists c tl, print_u n = c :: tl.
Proof.
  intros Hn. unfold print_u. split.
  - apply Forall_rev. now apply digits_rev_digits.
  - cbn [digits_rev rev].
    destruct (rev (if n / 10 =? 0 then [] else digits_rev (Z.to_nat (Z.log2 n)) (n / 10))
                ++ [digit_char (n mod 10)]) as [|c tl] eqn:E.
    + apply (f_equal (@length ascii)) in E. rewrite length_app in E. cbn in E. lia.
    + eauto.
Qed.

Lemma scan_digits_print_u (n acc : Z) (cnt : nat) (rest : list ascii) :
  0 <= n ->
  exists len,
    len <> O
    /\ scan_digits (print_u n ++ rest) acc cnt
       = scan_digits rest (acc * 10 ^ Z.of_nat len + n) (cnt + len).
Proof.
  intros Hn. unfold print_u.
  destruct (scan_digits_rev (S (Z.to_nat (Z.log2 n))) n acc cnt rest)
    as (len & _ & Hne & Hscan).
  { split; [exact Hn|now apply print_u_fuel]. }
  exists len. split; [apply Hne; congruence|exact Hscan].
Qed.

Lemma scan_digits_print_fixed (w : nat) : forall n acc cnt rest,
  0 <= n < 10 ^ Z.of_nat w ->
  scan_digits (print_fixed w n ++ rest) acc cnt
  = scan_digits rest (acc * 10 ^ Z.of_nat w + n) (cnt + w).
Proof.
  induction w as [|w IH]; intros n acc cnt rest Hn.
  - cbn in Hn. assert (n = 0) as -> by lia. cbn [print_fixed app].
    rewrite Z.pow_0_r, Z.mul_1_r, Z.add_0_r, Nat.add_0_r. reflexivity.
  - cbn [print_fixed]. rewrite <- app_assoc. cbn [app].
    assert (0 <= n mod 10 < 10) as Hd by (apply Z.mod_pos_bound; lia).
    pose proof (Z.div_mod n 10 ltac:(lia)) as Hdm.
    rewrite Nat2Z.inj_succ, Z.pow_succ_r in Hn by lia.
    rewrite IH.
    + cbn [scan_digits]. rewrite digit_val_digit_char by exact Hd.
      f_equal; [|lia]. rewrite Nat2Z.inj_succ, Z.pow_succ_r by lia. lia.
    + split; [apply Z.div_pos; lia|]. apply Z.div_lt_upper_bound; lia.
Qed.

Lemma print_fixed_digits (w : nat) : forall n,
  Forall (fun c => is_digit c = true) (print_fixed w n).
Proof.
  induction w as [|w IH]; intros n; cbn [print_fixed]; [constructor|].
  apply Forall_app. split; [apply IH|].
  constructor; [|constructor]. apply is_digit_digit_char. apply Z.mod_pos_bound. lia.
Qed.

(** [%d] reads back what [%d] has written. *)
Lemma scan_d_print_d (z : Z) (c : ascii) (rest : list ascii) :
  in_int z = true ->
  digit_val c = None ->
  scan_d (print_d z ++ c :: rest) = Converted z (c :: rest).
Proof.
  intros Hz Hc. unfold scan_d, print_d.
  destruct (Z.ltb_spec z 0) as [Hneg|Hpos].
  - cbn [app skip_space]. change (isspace "-") with false. cbv iota.
    cbn [scan_sign].
    destruct (scan_digits_print_u (- z) 0 0 (c :: rest)) as (len & Hne & Hscan); [lia|].
    rewrite Hscan, scan_digits_stop by exact Hc.
    destruct (0 + len =? 0)%nat eqn:E; [apply Nat.eqb_eq in E; lia|].
    replace (- (0 * 10 ^ Z.of_nat len + - z)) with z by lia.
    now rewrite Hz.
  - destruct (print_u_digits z Hpos) as [Hall (d & tl & E)].
    rewrite E in Hall. inversion Hall as [|? ? Hd _]; subst.
    destruct (is_digit_class d Hd) as (Hsp & Hsign & _).
    destruct (scan_digits_print_u z 0 0 (c :: rest)) as (len & Hne & Hscan); [lia|].
    rewrite E in *. cbn [app skip_space]. rewrite Hsp, Hsign.
    cbn [app] in Hscan. rewrite Hscan, scan_digits_stop by exact Hc.
    destruct (0 + len =? 0)%nat eqn:E'; [apply Nat.eqb_eq in E'; lia|].
    replace (0 * 10 ^ Z.of_nat len + z) with z by lia.
    now rewrite Hz.
Qed.

Lemma print_d_chars (z : Z) :
  Forall (fun c => is_num_char c = true) (print_d z)
  /\ exists c tl, print_d z = c :: tl.
Proof.
  unfold print_d. destruct (Z.ltb_spec z 0) as [Hneg|Hpos].
  - split; [|eauto]. constructor; [reflexivity|].
    destruct (print_u_digits (- z)) as [Hall _]; [lia|].
    eapply Forall_impl; [|exact Hall]. intros c Hc. now apply is_digit_class in Hc.
  - destruct (print_u_digits z) as [Hall E]; [lia|]. split; [|exact E].
    eapply Forall_impl; [|exact Hall]. intros c Hc. now apply is_digit_class in Hc.
Qed.

Lemma scaled6_nonneg (m : positive) (e : Z) : 0 <= scaled6 (Zpos m) e.
Proof.
  unfold scaled6. change (10 ^ 6) with 1000000.
  destruct (Z.leb_spec 0 e) as [He|He].
  - apply Z.mul_nonneg_nonneg; [|lia].
    apply Z.mul_nonneg_nonneg; [lia|]. apply Z.pow_nonneg. lia.
  - assert (0 <= Z.pos m * 1000000 / 2 ^ (- e)) as Hq.
    { apply Z.div_pos; [lia|]. apply Z.pow_pos_nonneg; lia. }
    cbv zeta.
    repeat match goal with |- context [if ?b then _ else _] => destruct b end; lia.
Qed.

(** The text of a decimal with six digits after the point, read by [%lf]. *)
Lemma scan_decimal_fixed6 (neg : bool) (n : Z) (c : ascii) (rest : list ascii) :
  0 <= n ->
  is_sep c = true ->
  scan_decimal neg (print_u (n / 10 ^ 6) ++ "."%char
                      :: print_fixed 6 (n mod 10 ^ 6) ++ c :: rest)
  = Converted (double_of_decimal neg n (-6)) (c :: rest).
Proof.
  intros Hn Hc.
  destruct (is_sep_class c Hc) as (Hcd & Hcx & Hce & _).
  assert (0 <= n / 10 ^ 6) as Hi by (apply Z.div_pos; lia).
  assert (0 <= n mod 10 ^ 6 < 10 ^ 6) as Hf by (apply Z.mod_pos_bound; lia).
  destruct (print_u_digits (n / 10 ^ 6) Hi) as [Hall (d & tl0 & E)].
  assert (is_digit d = true) as Hd.
  { rewrite E in Hall. now inversion Hall. }
  destruct (is_digit_class d Hd) as (_ & _ & _ & _ & Hinf).
  set (frac := print_fixed 6 (n mod 10 ^ 6)) in *.
  unfold scan_decimal.
  assert (scan_inf (print_u (n / 10 ^ 6) ++ "."%char :: frac ++ c :: rest) = None) as ->.
  { rewrite E. cbn [app]. apply scan_inf_digit, Hd. }
  assert (is_letter_in ["i"; "I"; "n"; "N"]%char
            (print_u (n / 10 ^ 6) ++ "."%char :: frac ++ c :: rest) = false) as ->.
  { rewrite E. cbn [app]. unfold is_letter_in in *. exact Hinf. }
  destruct (scan_digits_print_u (n / 10 ^ 6) 0 0 ("."%char :: frac ++ c :: rest) Hi)
    as (len & Hne & Hscan).
  rewrite Hscan. rewrite scan_digits_stop by reflexivity.
  change (is_letter_in ["x"; "X"]%char ("."%char :: frac ++ c :: rest)) with false.
  cbv iota. unfold frac. rewrite scan_digits_print_fixed by exact Hf.
  rewrite scan_digits_stop by exact Hcd. rewrite Hce.
  destruct (0 + len + (0 + 6) =? 0)%nat eqn:E0; [apply Nat.eqb_eq in E0; lia|].
  f_equal. f_equal.
  pose proof (Z.div_mod n (10 ^ 6) ltac:(lia)). lia.
Qed.

Lemma scan_lf_fixed6 (s : bool) (n : Z) (c : ascii) (rest : list ascii) :
  0 <= n ->
  is_sep c = true ->
  scan_lf (print_sign s ++ print_u (n / 10 ^ 6) ++ "."%char
             :: print_fixed 6 (n mod 10 ^ 6) ++ c :: rest)
  = Converted (double_of_decimal s n (-6)) (c :: rest).
Proof.
  intros Hn Hc.
  pose proof (scan_decimal_fixed6 s n c rest Hn Hc) as Hbody.
  assert (0 <= n / 10 ^ 6) as Hi by (apply Z.div_pos; lia).
  destruct (print_u_digits (n / 10 ^ 6) Hi) as [Hall (d & tl0 & E)].
  assert (is_digit d = true) as Hd.
  { rewrite E in Hall. now inversion Hall. }
  destruct (is_digit_class d Hd) as (Hsp & Hsign & _).
  unfold scan_lf. destruct s; cbn [print_sign app].
  - cbn [skip_space]. change (isspace "-") with false. cbv iota.
    cbn [scan_sign]. exact Hbody.
  - rewrite E in Hbody |- *. cbn [app] in Hbody |- *. cbn [skip_space].
    rewrite Hsp, Hsign. exact Hbody.
Qed.

Lemma scan_lf_print_f (x : double) (c : ascii) (rest : list ascii) :
  is_nan x = false ->
  is_sep c = true ->
  scan_lf (print_f x ++ c :: rest) = Converted (OFFSpec.reread x) (c :: rest).
Proof.
  intros Hx Hc. destruct x as [s|s| |s m e]; try discriminate Hx.
  - pose proof (scan_lf_fixed6 s 0 c rest ltac:(lia) Hc) as H.
    destruct s; exact H.
  - assert (Hi : is_letter_in ["i"; "I"]%char (c :: rest) = false).
    { unfold is_sep in Hc. apply orb_true_iff in Hc as [Hc|Hc];
        apply Ascii.eqb_eq in Hc; subst c; reflexivity. }
    destruct s; cbn [print_f print_sign app list_ascii_of_string OFFSpec.reread];
      unfold scan_lf; cbn [skip_space];
      [change (isspace "-") with false|change (isspace "i") with false];
      cbv iota; cbn [scan_sign]; unfold scan_decimal, scan_inf; rewrite Hi; reflexivity.
  - cbn [print_f OFFSpec.reread].
    pose proof (scan_lf_fixed6 s (scaled6 (Zpos m) e) c rest (scaled6_nonneg m e) Hc) as H.
    rewrite <- !app_assoc. cbn [app]. exact H.
Qed.

Lemma print_f_chars (x : double) :
  is_nan x = false ->
  Forall (fun c => is_num_char c = true) (print_f x)
  /\ exists c tl, print_f x = c :: tl.
Proof.
  intros Hx. destruct x as [s|s| |s m e]; try discriminate Hx.
  - destruct s; (split; [repeat constructor|cbn; eauto]).
  - destruct s; (split; [repeat constructor|cbn; eauto]).
  - cbn [print_f].
    assert (0 <= scaled6 (Z.pos m) e / 10 ^ 6) as Hi
      by (apply Z.div_pos; [apply scaled6_nonneg|lia]).
    destruct (print_u_digits _ Hi) as [Hall (d & tl & E)].
    assert (Forall (fun c => is_num_char c = true)
              (print_u (scaled6 (Z.pos m) e / 10 ^ 6) ++ "."%char
                 :: print_fixed 6 (scaled6 (Z.pos m) e mod 10 ^ 6))) as Hnum.
    { apply Forall_app. split.
      - eapply Forall_impl; [|exact Hall]. intros c Hc. now apply is_digit_class in Hc.
      - constructor; [reflexivity|].
        eapply Forall_impl; [|apply print_fixed_digits].
        intros c Hc. now apply is_digit_class in Hc. }
    split.
    + destruct s; cbn [print_sign app]; [constructor; [reflexivity|]|]; exact Hnum.
    + destruct s; cbn [print_sign app]; [eauto|]. rewrite E. cbn [app]. eauto.
Qed.

(** ** Written lines *)

Lemma is_body_char_class (c : ascii) :
  is_body_char c = true -> Ascii.eqb c NUL = false /\ Ascii.eqb c LF = false.
Proof.
  destruct c as [[] [] [] [] [] [] [] []]; intros H; try discriminate H; split; reflexivity.
Qed.

Lemma num_chars_body (l : list ascii) :
  Forall (fun c => is_num_char c = true) l -> Forall (fun c => is_body_char c = true) l.
Proof.
  apply Forall_impl. intros c H. unfold is_body_char. now rewrite H.
Qed.

Lemma ends_line_body (body : list ascii) :
  Forall (fun c => is_body_char c = true) body -> ends_line (body ++ [LF]) = true.
Proof.
  induction 1 as [|c body Hc _ IH]; [reflexivity|].
  cbn [app ends_line]. destruct (body ++ [LF]) eqn:E.
  - destruct body; discriminate E.
  - apply is_body_char_class in Hc as [_ Hc]. rewrite Hc. exact IH.
Qed.

Lemma no_nul_body (body : list ascii) :
  Forall (fun c => is_body_char c = true) body ->
  forallb (fun c => negb (Ascii.eqb c NUL)) (body ++ [LF]) = true.
Proof.
  induction 1 as [|c body Hc _ IH]; [reflexivity|].
  cbn [app forallb]. apply is_body_char_class in Hc as [Hc _]. now rewrite Hc, IH.
Qed.

(** A written line is a line of the file and [readLine] accepts it. *)
Lemma written_line (c : ascii) (body : list ascii) :
  is_num_char c = true ->
  Forall (fun x => is_body_char x = true) body ->
  accepted (c :: body ++ [LF]) = true /\ ends_line (c :: body ++ [LF]) = true.
Proof.
  intros Hc Hbody.
  assert (Forall (fun x => is_body_char x = true) (c :: body)) as Hall.
  { constructor; [unfold is_body_char; now rewrite Hc|exact Hbody]. }
  split; [|exact (ends_line_body (c :: body) Hall)].
  unfold accepted. change (c :: body ++ [LF]) with ((c :: body) ++ [LF]).
  rewrite (no_nul_body (c :: body) Hall).
  apply is_num_char_class in Hc as (_ & _ & _ & Hc & _).
  cbn [hd app length]. rewrite Hc. cbn [negb andb].
  rewrite length_app. cbn [length]. rewrite andb_true_r. apply Z.ltb_lt. lia.
Qed.

Lemma split_lines_line (l rest : list ascii) :
  ends_line l = true -> split_lines (l ++ rest) = l :: split_lines rest.
Proof.
  induction l as [|c l IH]; intros H; [discriminate|].
  cbn [ends_line] in H. destruct l as [|c' l'].
  - cbn [app split_lines]. now rewrite H.
  - apply andb_true_iff in H as [Hc H]. apply negb_true_iff in Hc.
    cbn [app split_lines] in *. rewrite Hc. rewrite (IH H). reflexivity.
Qed.

Lemma split_lines_lines {A : Type} (f : A -> list ascii) (xs : list A) (rest : list ascii) :
  (forall x, In x xs -> ends_line (f x) = true) ->
  split_lines (flat_map f xs ++ rest) = map f xs ++ split_lines rest.
Proof.
  induction xs as [|x xs IH]; intros H; [reflexivity|].
  cbn [flat_map map app]. rewrite <- app_assoc.
  rewrite split_lines_line by (apply H; now left).
  rewrite IH by (intros y Hy; apply H; now right). reflexivity.
Qed.

Lemma scan_d_space (s : list ascii) : scan_d (" "%char :: s) = scan_d s.
Proof. reflexivity. Qed.

Lemma scan_lf_space (s : list ascii) : scan_lf (" "%char :: s) = scan_lf s.
Proof. reflexivity. Qed.

Lemma strstr_space (a rest : list ascii) :
  Forall (fun c => is_num_char c = true) a ->
  strstr (a ++ " "%char :: rest) [" "%char] = Some (" "%char :: rest).
Proof.
  induction 1 as [|c a Hc _ IH]; [reflexivity|].
  cbn [app strstr prefixb]. apply is_num_char_class in Hc as (_ & _ & Hc & _).
  rewrite Ascii.eqb_sym, Hc. cbn [andb]. exact IH.
Qed.

(** ** readOBJ *)

Module OBJFacts.
Import OBJ OBJSpec.

Ltac ok_inv H :=
  repeat match type of H with
    | bind _ _ = Ok _ =>
        let x := fresh "x" in
        let E := fresh "E" in
        apply bind_Ok_inv in H as (x & E & H)
    | match ?p with (_, _) => _ end = Ok _ => destruct p
    | (if ?b then _ else _) = Ok _ => destruct b eqn:?
    | Ok _ = Ok _ => injection H as H; subst
    | Fatal _ = Ok _ => discriminate H
    | Undefined = Ok _ => discriminate H
    | Diverges = Ok _ => discriminate H
    | Unmodelled = Ok _ => discriminate H
    end.

Ltac fields :=
  cbn [lineBuf nFaceIndices nVertices nNormals nTexCoords nFaces faceIndicesCounter
       pVertices pNormals pTexCoords pFaceSizes pFaceVertexIndices
       pFaceVertexTexCoordIndices pFaceVertexNormalIndices
       numVertices numNormals numTexcoords numFaces
       with_lineBuf with_nFaceIndices with_nVertices with_nNormals with_nTexCoords
       with_nFaces with_faceIndicesCounter with_pVertices with_pNormals
       with_pTexCoords with_pFaceSizes with_pFaceVertexIndices
       with_pFaceVertexTexCoordIndices with_pFaceVertexNormalIndices with_counts] in *.

Lemma same_face_state_refl st : same_face_state st st.
Proof. unfold same_face_state. tauto. Qed.

Lemma same_face_state_trans st1 st2 st3 :
  same_face_state st1 st2 -> same_face_state st2 st3 -> same_face_state st1 st3.
Proof. unfold same_face_state. intuition congruence. Qed.

Lemma face_vertex_datum_frame it token st it' st' :
  face_vertex_datum it token st = Ok (it', st') ->
  same_face_state st st' /\ faceIndicesCounter st' = faceIndicesCounter st.
Proof.
  unfold face_vertex_datum. intros H.
  apply bind_Ok_inv in H as (st1 & E & H). injection H as <- <-.
  repeat match type of E with
         | (if ?b then _ else _) = Ok _ => destruct b
         end;
    try (ok_inv E; subst; unfold same_face_state; cbn; tauto).
  destruct (scan_d token); try discriminate; injection E as <-;
    unfold same_face_state; tauto.
Qed.

Lemma face_vertex_data_frame fuel : forall buf start it token st st',
  face_vertex_data fuel buf start it token st = Ok st' ->
  same_face_state st st' /\ faceIndicesCounter st' = faceIndicesCounter st.
Proof.
  induction fuel as [|fuel IH]; intros buf start it token st st' H; [discriminate|].
  cbn [face_vertex_data] in H.
  apply bind_Ok_inv in H as ([[buf' tokenElem] save] & _ & H).
  destruct tokenElem as [[off len]|].
  - apply bind_Ok_inv in H as ([it1 st1] & E & H).
    apply face_vertex_datum_frame in E as [F1 C1].
    apply IH in H as [F2 C2]. split; [eapply same_face_state_trans; eauto|congruence].
  - injection H as <-. split; [apply same_face_state_refl|reflexivity].
Qed.

(** The loop over the face vertices counts in [iter] exactly the slots it
    moves [faceIndicesCounter] by. *)
Lemma face_vertices_frame fuel : forall buf start iter st buf' iter' st',
  face_vertices fuel buf start iter st = Ok (buf', iter', st') ->
  same_face_state st st'
  /\ faceIndicesCounter st' - faceIndicesCounter st = iter' - iter
  /\ iter <= iter'
  /\ (INT_MIN <= faceIndicesCounter st <= INT_MAX ->
      INT_MIN <= faceIndicesCounter st' <= INT_MAX).
Proof.
  induction fuel as [|fuel IH]; intros buf start iter st buf' iter' st' H; [discriminate|].
  cbn [face_vertices] in H.
  apply bind_Ok_inv in H as ([[buf1 token] save] & _ & H).
  destruct token as [[off len]|].
  - destruct (Ascii.eqb _ _).
    + apply IH in H. exact H.
    + apply bind_Ok_inv in H as (iter1 & Ei & H).
      apply bind_Ok_inv in H as (st1 & Ed & H).
      apply bind_Ok_inv in H as (c & Ec & H).
      apply face_vertex_data_frame in Ed as [F1 C1].
      apply IH in H as (F2 & C2 & L2 & R2).
      apply int_val_Ok in Ei as [-> _]. apply int_val_Ok in Ec as [-> Rc].
      fields. split; [|split; [lia|split; [lia|]]].
      * eapply same_face_state_trans; [exact F1|].
        unfold same_face_state in *. fields. exact F2.
      * intros _. apply R2. lia.
  - injection H as <- <- <-. split; [apply same_face_state_refl|].
    split; [lia|split; [lia|tauto]].
Qed.

(** *** What a pass sees of a line *)

Lemma strip_line (l tail : list ascii) :
  exists buf1,
    strcspn (l ++ NUL :: tail) [CR; LF] = Ok (length (content l))
    /\ poke (l ++ NUL :: tail) (length (content l)) NUL = Ok buf1
    /\ cstr buf1 = Ok (content l).
Proof.
  induction l as [|c l IH].
  - exists (NUL :: tail). cbn. repeat split.
  - destruct IH as (buf1 & Hn & Hp & Hs).
    cbn [app content strcspn].
    destruct (Ascii.eqb c NUL || existsb (Ascii.eqb c) [CR; LF]) eqn:Hc.
    + exists (NUL :: l ++ NUL :: tail). cbn. repeat split.
    + exists (c :: buf1). rewrite Hn. cbn [bind length].
      apply orb_false_iff in Hc as [Hc _].
      unfold poke in *. cbn [set_nth].
      destruct (set_nth (l ++ NUL :: tail) (length (content l)) NUL) as [b|];
        [|discriminate].
      injection Hp as ->. cbn [option_map cstr]. rewrite Hc, Hs. repeat split.
Qed.

Lemma parse_line_stripped (p : Z) (l tail : list ascii) (st : state) :
  exists buf1,
    parse_line p (l ++ NUL :: tail) st
    = match line_command l with
      | UNKNOWN => Ok (with_lineBuf (Some buf1) st)
      | _ => parse_command p buf1 (content l) (with_lineBuf (Some buf1) st)
      end.
Proof.
  destruct (strip_line l tail) as (buf1 & Hn & Hp & Hs).
  exists buf1. unfold parse_line, line_command.
  rewrite Hn. cbn [bind]. rewrite Hp. cbn [bind]. rewrite Hs. cbn [bind].
  destruct (length (content l) =? 0)%nat; [reflexivity|].
  destruct (Ascii.eqb (hd NUL (content l)) "#"); [reflexivity|].
  unfold parse_command. destruct (command (content l)); reflexivity.
Qed.

(** *** One line, by command and pass *)

Lemma parse_command_other p buf s st st' :
  command s <> FACE ->
  parse_command p buf s st = Ok st' ->
  nFaces st' = nFaces st /\ nFaceIndices st' = nFaceIndices st
  /\ pFaceSizes st' = pFaceSizes st /\ faceIndicesCounter st' = faceIndicesCounter st.
Proof.
  intros Hc H. unfold parse_command in H.
  destruct (command s); try congruence; ok_inv H; cbn; tauto.
Qed.

Lemma parse_command_face_count p buf s st st' :
  command s = FACE -> p <> 1 -> p <> 2 ->
  parse_command p buf s st = Ok st' ->
  nFaces st' = nFaces st + 1 /\ nFaceIndices st' = nFaceIndices st
  /\ pFaceSizes st' = pFaceSizes st /\ faceIndicesCounter st' = faceIndicesCounter st.
Proof.
  intros Hc H1 H2 H. unfold parse_command in H. rewrite Hc in H.
  apply bind_Ok_inv in H as (n & En & H). apply int_val_Ok in En as [-> _].
  destruct (Z.eqb_spec p 1); [contradiction|].
  destruct (Z.eqb_spec p 2); [contradiction|].
  injection H as <-. cbn. tauto.
Qed.

Lemma count_face_vertices_range fuel : forall buf start c buf' c',
  count_face_vertices fuel buf start c = Ok (buf', c') ->
  0 <= c < UINT32_MOD -> 0 <= c' < UINT32_MOD.
Proof.
  induction fuel as [|fuel IH]; intros buf start c buf' c' H Hc; [discriminate|].
  cbn [count_face_vertices] in H.
  apply bind_Ok_inv in H as ([[buf1 pch] save] & _ & H).
  destruct pch.
  - apply IH in H; [exact H|]. unfold u32. apply Z.mod_pos_bound. ulia.
  - injection H as <- <-. exact Hc.
Qed.

Lemma parse_command_face_sizes buf s st st' :
  command s = FACE ->
  parse_command 1 buf s st = Ok st' ->
  exists faceVertexCount,
    0 <= faceVertexCount < UINT32_MOD
    /\ store_at (pFaceSizes st) (nFaces st) faceVertexCount = Ok (pFaceSizes st')
    /\ nFaceIndices st' = to_int (nFaceIndices st + faceVertexCount)
    /\ nFaces st' = nFaces st + 1
    /\ faceIndicesCounter st' = faceIndicesCounter st.
Proof.
  intros Hc H. unfold parse_command in H. rewrite Hc in H.
  apply bind_Ok_inv in H as (n & En & H). apply int_val_Ok in En as [-> _].
  cbn [Z.eqb Pos.eqb] in H.
  apply bind_Ok_inv in H as ([buf1 fvc] & Ecount & H).
  apply bind_Ok_inv in H as (a & Estore & H). injection H as <-.
  exists fvc. apply count_face_vertices_range in Ecount; [|ulia].
  fields. conjs; try tauto; try lia.
Qed.

Lemma parse_command_face_fill buf s st st' :
  command s = FACE ->
  parse_command 2 buf s st = Ok st' ->
  exists size,
    load_at (pFaceSizes st) (nFaces st) = Ok size
    /\ faceIndicesCounter st' = faceIndicesCounter st + to_int size
    /\ 0 <= to_int size
    /\ nFaces st' = nFaces st + 1
    /\ pFaceSizes st' = pFaceSizes st
    /\ nFaceIndices st' = nFaceIndices st
    /\ (INT_MIN <= faceIndicesCounter st <= INT_MAX ->
        INT_MIN <= faceIndicesCounter st' <= INT_MAX).
Proof.
  intros Hc H. unfold parse_command in H. rewrite Hc in H.
  apply bind_Ok_inv in H as (n & En & H). apply int_val_Ok in En as [-> _].
  cbn [Z.eqb Pos.eqb] in H.
  apply bind_Ok_inv in H as (size & Eload & H).
  apply bind_Ok_inv in H as ([[buf1 iter] st1] & Efill & H).
  apply face_vertices_frame in Efill as ((F1 & F2 & F3 & _) & C & L & R).
  destruct (Z.eqb_spec iter (to_int size)) as [Heq|]; [|discriminate].
  injection H as <-. exists size. fields.
  conjs; try assumption; try lia.
Qed.

Lemma line_command_face (l : list ascii) :
  is_face l = true -> line_command l = FACE /\ command (content l) = FACE.
Proof.
  unfold is_face. destruct (line_command l) eqn:E; try discriminate.
  intros _. split; [reflexivity|].
  unfold line_command in E.
  destruct (length (content l) =? 0)%nat; [discriminate|].
  destruct (Ascii.eqb (hd NUL (content l)) "#"); [discriminate|]. exact E.
Qed.

Lemma line_command_not_face (l : list ascii) :
  is_face l = false ->
  line_command l = UNKNOWN \/ (line_command l = command (content l)
                               /\ command (content l) <> FACE).
Proof.
  unfold is_face. intros H. unfold line_command in *.
  destruct (length (content l) =? 0)%nat; [now left|].
  destruct (Ascii.eqb (hd NUL (content l)) "#"); [now left|].
  right. split; [reflexivity|]. intros E. rewrite E in H. discriminate.
Qed.

Lemma parse_line_not_face p l tail st st' :
  is_face l = false ->
  parse_line p (l ++ NUL :: tail) st = Ok st' ->
  nFaces st' = nFaces st /\ nFaceIndices st' = nFaceIndices st
  /\ pFaceSizes st' = pFaceSizes st /\ faceIndicesCounter st' = faceIndicesCounter st.
Proof.
  intros Hf H. destruct (parse_line_stripped p l tail st) as (buf1 & E).
  rewrite E in H. clear E.
  destruct (line_command_not_face l Hf) as [Hu|[Hc Hn]].
  - rewrite Hu in H. injection H as <-. fields. tauto.
  - assert (parse_command p buf1 (content l) (with_lineBuf (Some buf1) st) = Ok st'
            \/ Ok (with_lineBuf (Some buf1) st) = Ok st') as [H'|H'].
    { destruct (line_command l); auto. }
    + apply parse_command_other in H'; [|exact Hn]. fields. exact H'.
    + injection H' as <-. fields. tauto.
Qed.

Lemma parse_line_face p l tail st st' :
  is_face l = true ->
  parse_line p (l ++ NUL :: tail) st = Ok st' ->
  exists buf1, parse_command p buf1 (content l) (with_lineBuf (Some buf1) st) = Ok st'
               /\ command (content l) = FACE.
Proof.
  intros Hf H. destruct (parse_line_stripped p l tail st) as (buf1 & E).
  rewrite E in H. clear E. destruct (line_command_face l Hf) as [Hl Hc].
  rewrite Hl in H. eauto.
Qed.

Lemma parse_pass_cons p l file st :
  exists tail,
    parse_pass p (l :: file) st
    = (st1 <- parse_line p (l ++ NUL :: tail) st ;; parse_pass p file st1).
Proof. eexists. cbn [parse_pass getline]. reflexivity. Qed.

Lemma count_faces_cons (l : list ascii) (file : FILE) :
  count_faces (l :: file) = (if is_face l then 1 else 0) + count_faces file.
Proof.
  unfold count_faces. cbn [filter]. destruct (is_face l); cbn [length]; lia.
Qed.

Lemma count_faces_nonneg (file : FILE) : 0 <= count_faces file.
Proof. unfold count_faces. lia. Qed.

(** *** The passes *)

(** A pass that neither sizes nor fills the faces counts them. *)
Lemma parse_pass_counts p : p <> 1 -> p <> 2 -> forall file st st',
  parse_pass p file st = Ok st' ->
  nFaces st' = nFaces st + count_faces file
  /\ nFaceIndices st' = nFaceIndices st
  /\ pFaceSizes st' = pFaceSizes st.
Proof.
  intros H1 H2. induction file as [|l file IH]; intros st st' H.
  - injection H as <-. unfold count_faces. cbn. repeat split. lia.
  - destruct (parse_pass_cons p l file st) as (tail & E). rewrite E in H. clear E.
    apply bind_Ok_inv in H as (st1 & Hl & H). apply IH in H as (Hn & Hi & Hp).
    rewrite count_faces_cons. destruct (is_face l) eqn:Hf.
    + apply parse_line_face in Hl as (buf1 & Hl & Hc); [|exact Hf].
      apply parse_command_face_count in Hl as (A & B & C & _); try assumption.
      fields. repeat split; [lia|congruence|congruence].
    + apply parse_line_not_face in Hl as (A & B & C & _); [|exact Hf].
      repeat split; [lia|congruence|congruence].
Qed.

(** The second pass records one size per face line and accumulates their
    sum, modulo [2^32], in [nFaceIndices]. *)
Lemma parse_pass_sizes : forall file st st' done r,
  parse_pass 1 file st = Ok st' ->
  pFaceSizes st = Some (map Some done ++ repeat None r) ->
  nFaces st = Z.of_nat (length done) ->
  exists new r',
    pFaceSizes st' = Some (map Some (done ++ new) ++ repeat None r')
    /\ r = (length new + r')%nat
    /\ Z.of_nat (length new) = count_faces file
    /\ Forall (fun s => 0 <= s < UINT32_MOD) new
    /\ u32 (nFaceIndices st') = u32 (nFaceIndices st + sumZ new)
    /\ nFaces st' = Z.of_nat (length (done ++ new))
    /\ (INT_MIN <= nFaceIndices st <= INT_MAX ->
        INT_MIN <= nFaceIndices st' <= INT_MAX).
Proof.
  induction file as [|l file IH]; intros st st' done r H Ha Hn.
  - injection H as <-. exists [], r. rewrite app_nil_r.
    split; [exact Ha|]. split; [reflexivity|]. split; [reflexivity|].
    split; [constructor|]. split; [|split; [exact Hn|tauto]].
    unfold sumZ. cbn [fold_right]. now rewrite Z.add_0_r.
  - destruct (parse_pass_cons 1 l file st) as (tail & E). rewrite E in H. clear E.
    apply bind_Ok_inv in H as (st1 & Hl & H).
    rewrite count_faces_cons. destruct (is_face l) eqn:Hf.
    + apply parse_line_face in Hl as (buf1 & Hl & Hc); [|exact Hf].
      apply parse_command_face_sizes in Hl as (fvc & Hr & Hs & Hi & Hn1 & _);
        [|exact Hc].
      fields. rewrite Ha, Hn in Hs. unfold store_at in Hs.
      apply bind_Ok_inv in Hs as (a' & Hs & Hs').
      apply store_next in Hs as (r1 & -> & ->). injection Hs' as Hs'.
      destruct (IH st1 st' (done ++ [fvc]) r1 H)
        as (new & r' & A & B & C & D & F & G & R).
      { now rewrite <- Hs'. }
      { rewrite Hn1, Hn, length_app. cbn [length]. lia. }
      exists (fvc :: new), r'. rewrite <- app_assoc in A, G. cbn [app] in A, G.
      split; [exact A|]. split; [cbn [length]; lia|]. split; [cbn [length]; lia|].
      split; [constructor; assumption|]. split; [|split; [exact G|]].
      * rewrite F, Hi, <- u32_add_l, u32_to_int, u32_add_l.
        f_equal. unfold sumZ. cbn [fold_right]. lia.
      * intros _. apply R. rewrite Hi. apply to_int_range.
    + apply parse_line_not_face in Hl as (A1 & B1 & C1 & _); [|exact Hf].
      destruct (IH st1 st' done r H) as (new & r' & A & B & C & D & F & G & R).
      { now rewrite C1. }
      { now rewrite A1. }
      exists new, r'. split; [exact A|]. split; [exact B|]. split; [lia|].
      split; [exact D|]. split; [now rewrite F, B1|]. split; [exact G|].
      intros Hr. apply R. rewrite B1. exact Hr.
Qed.

(** Without an array of face sizes the second pass cannot get past a face
    line. *)
Lemma parse_pass_no_sizes : forall file st st',
  parse_pass 1 file st = Ok st' ->
  pFaceSizes st = None ->
  nFaceIndices st' = nFaceIndices st.
Proof.
  induction file as [|l file IH]; intros st st' H Ha.
  - now injection H as <-.
  - destruct (parse_pass_cons 1 l file st) as (tail & E). rewrite E in H. clear E.
    apply bind_Ok_inv in H as (st1 & Hl & H).
    destruct (is_face l) eqn:Hf.
    + apply parse_line_face in Hl as (buf1 & Hl & Hc); [|exact Hf].
      apply parse_command_face_sizes in Hl as (fvc & _ & Hs & _); [|exact Hc].
      fields. rewrite Ha in Hs. discriminate.
    + apply parse_line_not_face in Hl as (A1 & B1 & C1 & _); [|exact Hf].
      rewrite (IH st1 st' H); congruence.
Qed.

(** The third pass moves [faceIndicesCounter] by the recorded size of each
    face line it accepts. *)
Lemma parse_pass_fill : forall file st st' done todo,
  parse_pass 2 file st = Ok st' ->
  pFaceSizes st = Some (map Some (done ++ todo)) ->
  nFaces st = Z.of_nat (length done) ->
  Forall (fun s => 0 <= s < UINT32_MOD) todo ->
  exists new todo',
    todo = new ++ todo'
    /\ Z.of_nat (length new) = count_faces file
    /\ faceIndicesCounter st' = faceIndicesCounter st + sumZ new
    /\ Forall (fun s => 0 <= s <= INT_MAX) new
    /\ pFaceSizes st' = pFaceSizes st
    /\ nFaceIndices st' = nFaceIndices st
    /\ (INT_MIN <= faceIndicesCounter st <= INT_MAX ->
        INT_MIN <= faceIndicesCounter st' <= INT_MAX).
Proof.
  induction file as [|l file IH]; intros st st' done todo H Ha Hn Hr.
  - injection H as <-. exists [], todo. unfold sumZ, count_faces.
    cbn [fold_right app length filter].
    split; [reflexivity|]. split; [reflexivity|]. split; [lia|].
    split; [constructor|]. tauto.
  - destruct (parse_pass_cons 2 l file st) as (tail & E). rewrite E in H. clear E.
    apply bind_Ok_inv in H as (st1 & Hl & H).
    rewrite count_faces_cons. destruct (is_face l) eqn:Hf.
    + apply parse_line_face in Hl as (buf1 & Hl & Hc); [|exact Hf].
      apply parse_command_face_fill in Hl
        as (size & Hload & Hc1 & Hpos & Hn1 & Hp1 & Hi1 & Hr1');
        [|exact Hc].
      fields. rewrite Ha, Hn in Hload. unfold load_at in Hload.
      apply bind_Ok_inv in Hload as (x & Hx & Hload).
      apply index_filled in Hx as (v & todo1 & -> & ->). injection Hload as ->.
      inversion Hr as [|? ? Hsize Hr1]; subst.
      destruct (to_int_nonneg_inv size Hsize Hpos) as [Hmax Hto].
      destruct (IH st1 st' (done ++ [size]) todo1 H)
        as (new & todo' & A & B & C & D & F & G & R).
      { rewrite Hp1, Ha, <- app_assoc. reflexivity. }
      { rewrite Hn1, Hn, length_app. cbn [length]. lia. }
      { exact Hr1. }
      exists (size :: new), todo'.
      split; [cbn [app]; now rewrite A|]. split; [cbn [length]; lia|].
      split; [rewrite C, Hc1, Hto; unfold sumZ; cbn [fold_right]; lia|].
      split; [constructor; [lia|assumption]|].
      split; [congruence|]. split; [congruence|].
      intros Hr0. apply R, Hr1', Hr0.
    + apply parse_line_not_face in Hl as (A1 & B1 & C1 & D1); [|exact Hf].
      destruct (IH st1 st' done todo H) as (new & todo' & A & B & C & D & F & G & R).
      { now rewrite C1. }
      { now rewrite A1. }
      { exact Hr. }
      exists new, todo'.
      split; [exact A|]. split; [lia|]. split; [congruence|].
      split; [exact D|]. split; [congruence|]. split; [congruence|].
      intros Hr0. apply R. rewrite D1. exact Hr0.
Qed.

(** *** Between the passes *)

Lemma after_first_pass_faces st :
  pFaceSizes (after_first_pass st)
  = (if 0 <? nFaces st then Some (malloc (nFaces st)) else pFaceSizes st)
  /\ nFaceIndices (after_first_pass st) = nFaceIndices st.
Proof.
  unfold after_first_pass. cbv zeta.
  destruct (0 <? nVertices st); fields;
    destruct (0 <? nNormals st); fields;
    destruct (0 <? nTexCoords st); fields;
    destruct (0 <? nFaces st); fields; split; reflexivity.
Qed.

Lemma after_second_pass_faces st st' :
  after_second_pass st = Ok st' ->
  nFaceIndices st <> 0 /\ pFaceSizes st' = pFaceSizes st
  /\ nFaceIndices st' = nFaceIndices st.
Proof.
  unfold after_second_pass. destruct (Z.eqb_spec (nFaceIndices st) 0); [discriminate|].
  intros H. injection H as <-. fields.
  destruct (0 <? nTexCoords st); fields;
    destruct (0 <? nNormals st); fields; tauto.
Qed.

(** The sizes recorded by the second pass and the two totals of an
    accepted file. *)
Lemma readOBJ_totals contents st :
  readOBJ contents = Ok st ->
  exists sizes,
    pFaceSizes st = Some (map Some sizes)
    /\ Forall (fun s => 0 <= s <= INT_MAX) sizes
    /\ nFaceIndices st = sumZ sizes
    /\ faceIndicesCounter st = sumZ sizes.
Proof.
  unfold readOBJ. destruct contents as [bytes|]; [|discriminate].
  set (file := fopen bytes). intros H.
  apply bind_Ok_inv in H as (st0 & H0 & H).
  apply bind_Ok_inv in H as (st2 & H1 & H).
  apply bind_Ok_inv in H as (st3 & H2 & H3).
  apply parse_pass_counts in H0 as (N0 & I0 & P0); [|lia|lia].
  unfold reset_counters, initial_state in N0, I0, P0. fields.
  destruct (after_first_pass_faces st0) as [P1 I1].
  rewrite N0, P0 in P1. rewrite I0 in I1. cbn [Z.add] in P1.
  apply after_second_pass_faces in H2 as (Hne & P3 & I3).
  pose proof (count_faces_nonneg file) as Hnn.
  destruct (Z.ltb_spec 0 (count_faces file)) as [Hpos|Hzero].
  - (* at least one face line *)
    destruct (parse_pass_sizes file _ st2 [] (Z.to_nat (count_faces file)) H1)
      as (sizes & r' & A & B & C & D & F & G & R).
    { unfold reset_counters. fields. rewrite P1. reflexivity. }
    { unfold reset_counters. fields. reflexivity. }
    unfold reset_counters in F, R. fields. rewrite I1 in F, R.
    assert (r' = O) as -> by lia. cbn [app repeat] in A. rewrite app_nil_r in A.
    destruct (parse_pass_fill file _ st [] sizes H3)
      as (new & todo' & A' & B' & C' & D' & F' & G' & R').
    { unfold reset_counters. fields. rewrite P3, A. reflexivity. }
    { unfold reset_counters. fields. reflexivity. }
    { exact D. }
    unfold reset_counters in C', F', G', R'. fields.
    assert (todo' = []) as ->.
    { apply (f_equal (@length Z)) in A'. rewrite length_app in A'.
      destruct todo'; [reflexivity|]. cbn [length] in A'. lia. }
    rewrite app_nil_r in A'. subst new.
    exists sizes. split; [rewrite F', P3; exact A|]. split; [exact D'|].
    assert (faceIndicesCounter st = sumZ sizes) as Hc by lia.
    split; [|exact Hc].
    rewrite G', I3. apply int_eq_of_u32.
    + apply R. ulia.
    + rewrite <- Hc. apply R'. ulia.
    + rewrite F. f_equal.
  - (* no face line: the second pass leaves [nFaceIndices] at zero *)
    exfalso. apply Hne.
    rewrite (parse_pass_no_sizes file _ st2 H1).
    + unfold reset_counters. fields. exact I1.
    + unfold reset_counters. fields. rewrite P1.
      destruct (Z.ltb_spec 0 (count_faces file)); [lia|reflexivity].
Qed.

(** *** The count of texture coordinates *)

Lemma parse_command_nTexCoords p buf s st st' :
  command s <> TEXCOORD ->
  parse_command p buf s st = Ok st' ->
  nTexCoords st' = nTexCoords st.
Proof.
  intros Hc H. unfold parse_command in H.
  destruct (command s); try congruence.
  - ok_inv H; reflexivity.
  - ok_inv H; reflexivity.
  - apply bind_Ok_inv in H as (n & _ & H).
    destruct (p =? 1).
    + ok_inv H. reflexivity.
    + destruct (p =? 2); [|now injection H as <-].
      apply bind_Ok_inv in H as (size & _ & H).
      apply bind_Ok_inv in H as ([[buf1 iter] st1] & Efill & H).
      apply face_vertices_frame in Efill as ((_ & _ & _ & F) & _).
      destruct (iter =? to_int size); [|discriminate].
      injection H as <-. fields. exact F.
Qed.

Lemma parse_line_nTexCoords p l tail st st' :
  is_texcoord l = false ->
  parse_line p (l ++ NUL :: tail) st = Ok st' ->
  nTexCoords st' = nTexCoords st.
Proof.
  intros Ht H. destruct (parse_line_stripped p l tail st) as (buf1 & E).
  rewrite E in H. clear E. unfold is_texcoord in Ht.
  assert (line_command l = UNKNOWN
          \/ (command (content l) <> TEXCOORD
              /\ parse_command p buf1 (content l) (with_lineBuf (Some buf1) st) = Ok st'))
    as [Hu|[Hc Hp]].
  { unfold line_command in *.
    destruct (length (content l) =? 0)%nat; [now left|].
    destruct (Ascii.eqb (hd NUL (content l)) "#"); [now left|].
    destruct (command (content l)) eqn:Ec; try discriminate Ht;
      try (right; split; [congruence|exact H]). now left. }
  - rewrite Hu in H. now injection H as <-.
  - apply parse_command_nTexCoords in Hp; [|exact Hc]. exact Hp.
Qed.

(** A pass over a file without [vt] lines leaves [nTexCoords] as it was. *)
Lemma parse_pass_nTexCoords p : forall file st st',
  forallb (fun l => negb (is_texcoord l)) file = true ->
  parse_pass p file st = Ok st' ->
  nTexCoords st' = nTexCoords st.
Proof.
  induction file as [|l file IH]; intros st st' Hf H.
  - now injection H as <-.
  - cbn [forallb] in Hf. apply andb_true_iff in Hf as [Hl Hf].
    apply negb_true_iff in Hl.
    destruct (parse_pass_cons p l file st) as (tail & E). rewrite E in H. clear E.
    apply bind_Ok_inv in H as (st1 & H1 & H).
    apply parse_line_nTexCoords in H1; [|exact Hl].
    rewrite (IH st1 st' Hf H). exact H1.
Qed.

(** *** The elements of a face vertex *)

Lemma firstn_repeat_le {A : Type} (x : A) (n m : nat) :
  (n <= m)%nat -> firstn n (repeat x m) = repeat x n.
Proof.
  revert m. induction n as [|n IH]; intros m H; [reflexivity|].
  destruct m as [|m]; [lia|]. cbn [repeat firstn]. rewrite IH by lia. reflexivity.
Qed.

Lemma strncpy_512_short (token : list ascii) :
  (length token <= 510)%nat ->
  strncpy_512 token = token ++ NUL :: NUL :: repeat NUL (510 - length token).
Proof.
  intros H. unfold strncpy_512.
  rewrite firstn_app, firstn_all2 by lia.
  rewrite firstn_repeat_le by lia.
  replace (512 - length token)%nat with (S (S (510 - length token))) by lia.
  reflexivity.
Qed.

Lemma subfield_chars (a : list ascii) :
  subfield a = true ->
  a <> []
  /\ forallb (fun c => negb (Ascii.eqb c "/") && negb (Ascii.eqb c NUL)) a = true.
Proof.
  destruct a as [|c a]; [discriminate|]. intros H. split; [discriminate|exact H].
Qed.

Lemma face_vertex_data_step fuel buf start it token st :
  face_vertex_data (S fuel) buf start it token st
  = ('(buf, tokenElem, _) <- strtok buf start "/" ;;
     match tokenElem with
     | None => Ok st
     | Some (off, len) =>
         '(it, st) <- face_vertex_datum it token st ;;
         face_vertex_data fuel buf (off + len + 1) it token st
     end).
Proof. reflexivity. Qed.

(** A face vertex [a/b] read while [nTexCoords] is zero. *)
Lemma face_vertex_two_subfields (a b : list ascii) (st : state)
    (val : Z) (rest : list ascii) (vi ni : option (array Z)) :
  let token := a ++ "/"%char :: b in
  subfield a = true ->
  subfield b = true ->
  (length token <= 510)%nat ->
  nTexCoords st = 0 ->
  sscanf_d token = Ok (val, rest) ->
  INT_MIN <= val - 1 ->
  store_at (pFaceVertexIndices st) (faceIndicesCounter st) (u32 (val - 1)) = Ok vi ->
  store_at (pFaceVertexNormalIndices st) (faceIndicesCounter st) (u32 (val - 1)) = Ok ni ->
  exists st',
    face_vertex_data 513 (strncpy_512 token) 0 0 token st = Ok st'
    /\ pFaceVertexIndices st' = vi
    /\ pFaceVertexNormalIndices st' = ni
    /\ pFaceVertexTexCoordIndices st' = pFaceVertexTexCoordIndices st.
Proof.
  intros token Ha Hb Hlen Htex Hscan Hmin Hvi Hni.
  apply subfield_chars in Ha as [Ha0 Ha]. apply subfield_chars in Hb as [Hb0 Hb].
  assert (int_val (val - 1) = Ok (val - 1)) as Hval.
  { unfold sscanf_d in Hscan. destruct (scan_d token) as [v r| | | |] eqn:E;
      try discriminate. injection Hscan as -> ->.
    unfold scan_d in E. destruct (skip_space token); [discriminate|].
    destruct (scan_sign _) as [neg s1]. destruct (scan_digits s1 0 0) as [[v n] r].
    destruct (n =? 0)%nat; [discriminate|].
    destruct (in_int (if neg then - v else v)) eqn:Hin; [|discriminate].
    injection E as <- _. unfold int_val, in_int in *.
    apply andb_true_iff in Hin as [_ Hmax]. apply Z.leb_le in Hmax.
    destruct (Z.leb_spec INT_MIN ((if neg then - v else v) - 1)); [|lia].
    destruct (Z.leb_spec ((if neg then - v else v) - 1) INT_MAX); [reflexivity|lia]. }
  exists (with_pFaceVertexNormalIndices ni (with_pFaceVertexIndices vi st)).
  split; [|fields; auto].
  rewrite (strncpy_512_short token Hlen).
  set (pad := repeat NUL (510 - length token)).
  change 513%nat with (S (S (S 510))).
  (* the element [a] *)
  rewrite face_vertex_data_step. unfold token at 1. rewrite <- app_assoc. cbn [app].
  pose proof (strtok_delimited [] a (b ++ NUL :: NUL :: pad) "/"%char Ha0 Ha) as T1.
  cbn [app length] in T1. rewrite T1 by discriminate. clear T1. cbn [bind].
  unfold face_vertex_datum at 1. rewrite Htex. cbn [Z.ltb Z.compare negb Z.eqb andb].
  rewrite Hscan. cbn [bind]. rewrite Hval. cbn [bind]. rewrite Hvi. cbn [bind].
  (* the element [b] *)
  rewrite face_vertex_data_step.
  pose proof (strtok_last (a ++ [NUL]) b (NUL :: pad) "/"%char Hb0 Hb) as T2.
  rewrite <- !app_assoc in T2. cbn [app] in T2.
  rewrite length_app in T2. cbn [length] in T2.
  replace (0 + length a + 1)%nat with (length a + 1)%nat by lia.
  rewrite T2. clear T2. cbn [bind].
  unfold face_vertex_datum at 1. fields. rewrite Htex.
  cbn [Z.add Z.ltb Z.compare negb Z.eqb Pos.eqb andb].
  rewrite Hscan. cbn [bind]. rewrite Hval. cbn [bind]. rewrite Hni. cbn [bind].
  (* the end of the token *)
  rewrite face_vertex_data_step.
  pose proof (strtok_end (a ++ NUL :: b ++ [NUL]) pad "/"%char) as T3.
  rewrite <- !app_assoc in T3. cbn [app] in T3. rewrite <- app_assoc in T3.
  cbn [app] in T3. rewrite length_app in T3. cbn [length] in T3.
  rewrite length_app in T3. cbn [length] in T3.
  replace (length a + 1 + length b + 1)%nat
    with (length a + S (length b + 1))%nat by lia.
  rewrite T3. reflexivity.
Qed.

End OBJFacts.

(** ** The loops of readOBJ end *)

Module OBJTotal.
Import OBJ.

Lemma bind_not_Diverges {A B : Type} (m : outcome A) (k : A -> outcome B) :
  m <> Diverges -> (forall a, m = Ok a -> k a <> Diverges) -> bind m k <> Diverges.
Proof.
  intros Hm Hk. destruct m; cbn [bind]; try discriminate; try congruence.
  now apply Hk.
Qed.

Lemma int_val_not_Diverges (z : Z) : int_val z <> Diverges.
Proof. unfold int_val. destruct (in_int z); discriminate. Qed.

Lemma store_not_Diverges {A : Type} (a : array A) (i : Z) (v : A) : store a i v <> Diverges.
Proof.
  unfold store. destruct (i <? 0); [discriminate|].
  destruct (set_nth a (Z.to_nat i) (Some v)); discriminate.
Qed.

Lemma store_at_not_Diverges {A : Type} (p : option (array A)) (i : Z) (v : A) :
  store_at p i v <> Diverges.
Proof.
  unfold store_at. destruct p as [a|]; [|discriminate].
  apply bind_not_Diverges; [apply store_not_Diverges|discriminate].
Qed.

Lemma sscanf_d_not_Diverges (s : list ascii) : sscanf_d s <> Diverges.
Proof. unfold sscanf_d. destruct (scan_d s); discriminate. Qed.

Lemma strcspn_bound (reject : list ascii) : forall (s : list ascii) (n : nat),
  strcspn s reject = Ok n -> (n < length s)%nat.
Proof.
  induction s as [|c s IH]; intros n H; [discriminate|].
  cbn [strcspn] in H. destruct (_ || _).
  - injection H as <-. cbn [length]. lia.
  - destruct (strcspn s reject) as [k| | | |] eqn:E; try discriminate.
    injection H as <-. specialize (IH k eq_refl). cbn [length]. lia.
Qed.

Lemma strspn_bound (delim : ascii) : forall (s : list ascii) (n : nat),
  strspn s delim = Ok n -> (n < length s)%nat.
Proof.
  induction s as [|c s IH]; intros n H; [discriminate|].
  cbn [strspn] in H. destruct (_ && _).
  - destruct (strspn s delim) as [k| | | |] eqn:E; try discriminate.
    injection H as <-. specialize (IH k eq_refl). cbn [length]. lia.
  - injection H as <-. cbn [length]. lia.
Qed.

Lemma strspn_not_Diverges (delim : ascii) (s : list ascii) : strspn s delim <> Diverges.
Proof.
  induction s as [|c s IH]; cbn [strspn]; [discriminate|].
  destruct (_ && _); [|discriminate].
  destruct (strspn s delim); cbn [bind]; congruence.
Qed.

Lemma strcspn_not_Diverges (reject s : list ascii) : strcspn s reject <> Diverges.
Proof.
  induction s as [|c s IH]; cbn [strcspn]; [discriminate|].
  destruct (_ || _); [discriminate|].
  destruct (strcspn s reject); cbn [bind]; congruence.
Qed.

Lemma set_nth_length {A : Type} (a : list A) : forall (i : nat) (v : A) (a' : list A),
  set_nth a i v = Some a' -> length a' = length a.
Proof.
  induction a as [|x a IH]; intros i v a' H; [discriminate|].
  destruct i as [|i]; cbn [set_nth] in H.
  - now injection H as <-.
  - destruct (set_nth a i v) as [b|] eqn:E; [|discriminate].
    cbn [option_map] in H. injection H as <-. cbn [length]. f_equal. eapply IH, E.
Qed.

Lemma strtok_not_Diverges (buf : list ascii) (start : nat) (delim : ascii) :
  strtok buf start delim <> Diverges.
Proof.
  unfold strtok.
  apply bind_not_Diverges; [apply strspn_not_Diverges|]. intros k _.
  apply bind_not_Diverges; [apply strcspn_not_Diverges|]. intros n _.
  destruct (n =? 0)%nat; [discriminate|].
  destruct (Ascii.eqb _ _); [discriminate|].
  unfold poke. destruct (set_nth _ _ _); discriminate.
Qed.

(** A token lies behind the start offset and inside the buffer, whose
    length [strtok] keeps. *)
Lemma strtok_token (buf : list ascii) (start : nat) (delim : ascii)
    (buf' : list ascii) (off len save : nat) :
  strtok buf start delim = Ok (buf', Some (off, len), save) ->
  (start <= off)%nat /\ (0 < len)%nat /\ (off + len < length buf)%nat
  /\ length buf' = length buf /\ (off + len <= save)%nat.
Proof.
  unfold strtok. intros H.
  apply bind_Ok_inv in H as (k & Hk & H).
  apply bind_Ok_inv in H as (n & Hn & H).
  apply strcspn_bound in Hn. rewrite length_skipn in Hn.
  destruct (Nat.eqb_spec n 0) as [->|Hne]; [discriminate|].
  destruct (Ascii.eqb _ _).
  - injection H as <- <- <- <-. lia.
  - unfold poke in H. destruct (set_nth buf (start + k + n) NUL) as [b|] eqn:E;
      [|discriminate].
    cbn [bind] in H. injection H as <- <- <- <-.
    apply set_nth_length in E. lia.
Qed.

Lemma strtok_none_length (buf : list ascii) (start : nat) (delim : ascii)
    (buf' : list ascii) (save : nat) (tok : option (nat * nat)) :
  strtok buf start delim = Ok (buf', tok, save) -> length buf' = length buf.
Proof.
  unfold strtok. intros H.
  apply bind_Ok_inv in H as (k & Hk & H).
  apply bind_Ok_inv in H as (n & Hn & H).
  destruct (n =? 0)%nat; [now injection H as <- _ _|].
  destruct (Ascii.eqb _ _); [now injection H as <- _ _|].
  unfold poke in H. destruct (set_nth buf (start + k + n) NUL) as [b|] eqn:E;
    [|discriminate].
  cbn [bind] in H. injection H as <- _ _. now apply set_nth_length in E.
Qed.

Lemma count_face_vertices_ends (fuel : nat) : forall buf start c,
  (length buf - start < fuel)%nat ->
  count_face_vertices fuel buf start c <> Diverges.
Proof.
  induction fuel as [|fuel IH]; intros buf start c Hfuel; [lia|].
  cbn [count_face_vertices].
  apply bind_not_Diverges; [apply strtok_not_Diverges|].
  intros [[buf' pch] save] Htok. destruct pch as [[off len]|]; [|discriminate].
  apply strtok_token in Htok as (H1 & H2 & H3 & H4 & H5).
  apply IH. lia.
Qed.

Lemma face_vertex_datum_not_Diverges it token st :
  face_vertex_datum it token st <> Diverges.
Proof.
  unfold face_vertex_datum.
  apply bind_not_Diverges; [|discriminate].
  repeat match goal with
         | |- (if ?b then _ else _) <> Diverges => destruct b
         end;
    try (apply bind_not_Diverges; [apply sscanf_d_not_Diverges|];
         intros [val rest] _;
         apply bind_not_Diverges; [apply int_val_not_Diverges|]; intros v _;
         apply bind_not_Diverges; [apply store_at_not_Diverges|]; discriminate).
  destruct (scan_d token); discriminate.
Qed.

Lemma face_vertex_data_ends (fuel : nat) : forall buf start it token st,
  (length buf - start < fuel)%nat ->
  face_vertex_data fuel buf start it token st <> Diverges.
Proof.
  induction fuel as [|fuel IH]; intros buf start it token st Hfuel; [lia|].
  cbn [face_vertex_data].
  apply bind_not_Diverges; [apply strtok_not_Diverges|].
  intros [[buf' tokenElem] save] Htok. destruct tokenElem as [[off len]|]; [|discriminate].
  apply strtok_token in Htok as (H1 & H2 & H3 & H4 & H5).
  apply bind_not_Diverges; [apply face_vertex_datum_not_Diverges|].
  intros [it' st'] _. apply IH. lia.
Qed.

Lemma length_strncpy_512 (token : list ascii) : length (strncpy_512 token) = 512%nat.
Proof.
  unfold strncpy_512. rewrite length_firstn, length_app, repeat_length. lia.
Qed.

Lemma face_vertices_ends (fuel : nat) : forall buf start iter st,
  (length buf - start < fuel)%nat ->
  face_vertices fuel buf start iter st <> Diverges.
Proof.
  induction fuel as [|fuel IH]; intros buf start iter st Hfuel; [lia|].
  cbn [face_vertices].
  apply bind_not_Diverges; [apply strtok_not_Diverges|].
  intros [[buf' token] save] Htok. destruct token as [[off len]|]; [|discriminate].
  apply strtok_token in Htok as (H1 & H2 & H3 & H4 & H5).
  destruct (Ascii.eqb _ _); [apply IH; lia|].
  apply bind_not_Diverges; [apply int_val_not_Diverges|]. intros iter' _.
  apply bind_not_Diverges.
  { apply face_vertex_data_ends. rewrite length_strncpy_512. lia. }
  intros st' _.
  apply bind_not_Diverges; [apply int_val_not_Diverges|]. intros c _.
  apply IH. lia.
Qed.

Lemma sscanf_lf_not_Diverges (n : nat) : forall s, sscanf_lf n s <> Diverges.
Proof.
  induction n as [|n IH]; intros s; cbn [sscanf_lf]; [discriminate|].
  destruct (scan_lf s); try discriminate.
  apply bind_not_Diverges; [apply IH|]. intros [k vs] _. discriminate.
Qed.

Lemma store_components_not_Diverges (k : nat) : forall base i vals p,
  store_components k base i vals p <> Diverges.
Proof.
  induction k as [|k IH]; intros base i vals p; cbn [store_components]; [discriminate|].
  apply bind_not_Diverges; [apply int_val_not_Diverges|]. intros j _.
  apply bind_not_Diverges; [apply store_at_not_Diverges|]. intros q _. apply IH.
Qed.

Lemma read_components_not_Diverges width s id p msg :
  read_components width s id p msg <> Diverges.
Proof.
  unfold read_components.
  apply bind_not_Diverges; [apply sscanf_lf_not_Diverges|]. intros [nread vals] _.
  apply bind_not_Diverges; [apply int_val_not_Diverges|]. intros base _.
  apply bind_not_Diverges; [apply store_components_not_Diverges|].
  intros q _. destruct (_ =? _); discriminate.
Qed.

Lemma index_not_Diverges {A : Type} (a : list A) (i : Z) : index a i <> Diverges.
Proof.
  unfold index. destruct (i <? 0); [discriminate|].
  destruct (nth_error a (Z.to_nat i)); discriminate.
Qed.

Lemma load_at_not_Diverges {A : Type} (p : option (array A)) (i : Z) :
  load_at p i <> Diverges.
Proof.
  unfold load_at. destruct p as [a|]; [|discriminate].
  apply bind_not_Diverges; [apply index_not_Diverges|]. intros [v|] _; discriminate.
Qed.

Lemma cstr_not_Diverges (buf : list ascii) : cstr buf <> Diverges.
Proof.
  induction buf as [|c buf IH]; cbn [cstr]; [discriminate|].
  destruct (Ascii.eqb c NUL); [discriminate|].
  destruct (cstr buf); cbn [bind]; congruence.
Qed.

Lemma parse_command_not_Diverges p buf s st : parse_command p buf s st <> Diverges.
Proof.
  unfold parse_command. destruct (command s).
  - apply bind_not_Diverges; [apply int_val_not_Diverges|]. intros n _.
    destruct (p =? 1); [|discriminate].
    apply bind_not_Diverges; [apply read_components_not_Diverges|]. discriminate.
  - apply bind_not_Diverges; [apply int_val_not_Diverges|]. intros n _.
    destruct (p =? 1); [|discriminate].
    apply bind_not_Diverges; [apply read_components_not_Diverges|]. discriminate.
  - apply bind_not_Diverges; [apply int_val_not_Diverges|]. intros n _.
    destruct (p =? 1); [|discriminate].
    apply bind_not_Diverges; [apply read_components_not_Diverges|]. discriminate.
  - apply bind_not_Diverges; [apply int_val_not_Diverges|]. intros n _.
    destruct (p =? 1).
    + apply bind_not_Diverges; [apply count_face_vertices_ends; lia|].
      intros [buf' fvc] _.
      apply bind_not_Diverges; [apply store_at_not_Diverges|]. discriminate.
    + destruct (p =? 2); [|discriminate].
      apply bind_not_Diverges; [apply load_at_not_Diverges|]. intros size _.
      apply bind_not_Diverges; [apply face_vertices_ends; lia|].
      intros [[buf' iter] st'] _. destruct (_ =? _); discriminate.
  - discriminate.
Qed.

Lemma parse_line_not_Diverges p buf st : parse_line p buf st <> Diverges.
Proof.
  unfold parse_line.
  apply bind_not_Diverges; [apply strcspn_not_Diverges|]. intros n _.
  apply bind_not_Diverges.
  { unfold poke. destruct (set_nth buf n NUL); discriminate. }
  intros buf' _.
  apply bind_not_Diverges; [apply cstr_not_Diverges|]. intros s _.
  destruct (_ =? _)%nat; [discriminate|].
  destruct (Ascii.eqb _ _); [discriminate|].
  apply parse_command_not_Diverges.
Qed.

Lemma parse_pass_not_Diverges p : forall file st, parse_pass p file st <> Diverges.
Proof.
  induction file as [|l file IH]; intros st; cbn [parse_pass getline]; [discriminate|].
  apply bind_not_Diverges; [apply parse_line_not_Diverges|]. intros st' _. apply IH.
Qed.

(** X17: [readOBJ] always comes to an end: the bounds given to its token loops
    are never reached. *)
Lemma readOBJ_ends (contents : option (list ascii)) : readOBJ contents <> Diverges.
Proof.
  unfold readOBJ. destruct contents as [bytes|]; [|discriminate].
  apply bind_not_Diverges; [apply parse_pass_not_Diverges|]. intros st0 _.
  apply bind_not_Diverges; [apply parse_pass_not_Diverges|]. intros st1 _.
  apply bind_not_Diverges.
  { unfold after_second_pass. destruct (_ =? _); discriminate. }
  intros st2 _. apply parse_pass_not_Diverges.
Qed.

End OBJTotal.

(** ** writeOFF *)

Module WriteFacts.
Import OFF OFFSpec.

Lemma index_skipn {A : Type} (l : list A) (i : nat) (x : A) (rest : list A) :
  skipn i l = x :: rest -> index l (Z.of_nat i) = Ok x.
Proof.
  intros H. unfold index. destruct (Z.ltb_spec (Z.of_nat i) 0); [lia|].
  rewrite Nat2Z.id.
  assert (nth_error l i = Some x) as ->; [|reflexivity].
  rewrite <- (firstn_skipn i l), H.
  assert (length (firstn i l) = i) as Hl.
  { apply firstn_length_le.
    destruct (Nat.le_gt_cases i (length l)) as [Hle|Hgt]; [exact Hle|].
    rewrite skipn_all2 in H by lia. discriminate. }
  rewrite nth_error_app2 by lia. rewrite Hl, Nat.sub_diag. reflexivity.
Qed.

Lemma skipn_S_tail {A : Type} (l : list A) (i : nat) (x : A) (rest : list A) :
  skipn i l = x :: rest -> skipn (S i) l = rest.
Proof.
  revert l. induction i as [|i IH]; intros l H.
  - cbn in H. subst l. reflexivity.
  - destruct l as [|y l]; [discriminate|]. cbn [skipn] in *. now apply IH.
Qed.

(** The indices of one face are those at the base offset, in order. *)
Lemma write_face_indices_fields (indices : list Z) (base : nat) :
  forall (count j : nat),
    (base + j + count <= length indices)%nat ->
    write_face_indices count (Z.of_nat j) indices (Z.of_nat base)
    = Ok (index_fields (firstn count (skipn (base + j) indices))).
Proof.
  induction count as [|count IH]; intros j H.
  - reflexivity.
  - cbn [write_face_indices].
    destruct (skipn (base + j) indices) as [|x rest] eqn:E.
    { apply (f_equal (@length Z)) in E. rewrite length_skipn in E. cbn in E. lia. }
    replace (Z.of_nat base + Z.of_nat j) with (Z.of_nat (base + j)) by lia.
    rewrite (index_skipn _ _ _ _ E). cbn [bind].
    replace (Z.of_nat j + 1) with (Z.of_nat (S j)) by lia.
    rewrite IH by lia. cbn [bind].
    replace (base + S j)%nat with (S (base + j)) by lia.
    rewrite (skipn_S_tail _ _ _ _ E). reflexivity.
Qed.

Lemma skipn_skipn_add {A : Type} (l : list A) (n m : nat) :
  skipn n (skipn m l) = skipn (m + n) l.
Proof.
  revert l. induction m as [|m IH]; intros l; [reflexivity|].
  destruct l as [|x l]; [now rewrite !skipn_nil|]. cbn [skipn Nat.add]. apply IH.
Qed.

(** The face loop from face [i] on, when the sizes of the faces still to be
    written are [sizes]. *)
Lemma write_faces_lines (indices : list Z) (pFaceSizes : option (list Z)) :
  forall (sizes : list Z) (i : nat) (base : nat),
    (forall k, (k < length sizes)%nat ->
               match pFaceSizes with
               | Some all => index all (Z.of_nat (i + k))
               | None => Ok 3
               end = Ok (nth k sizes 0)) ->
    Forall (fun s => 0 <= s) sizes ->
    Z.of_nat base + sumZ sizes <= Z.of_nat (length indices) ->
    Z.of_nat base + sumZ sizes <= INT_MAX ->
    write_faces (length sizes) (Z.of_nat i) indices pFaceSizes (Z.of_nat base)
    = Ok (flat_map face_line (chunks sizes (skipn base indices))).
Proof.
  induction sizes as [|s sizes IH]; intros i base Hsz Hpos Hlen Hmax.
  - reflexivity.
  - inversion Hpos as [|? ? Hs Hpos']; subst.
    assert (0 <= sumZ sizes) as Hsum.
    { clear -Hpos'. induction Hpos'; unfold sumZ in *; cbn [fold_right]; lia. }
    unfold sumZ in Hlen, Hmax. cbn [fold_right] in Hlen, Hmax. fold (sumZ sizes) in Hlen, Hmax.
    cbn [length write_faces].
    pose proof (Hsz O ltac:(cbn [length]; lia)) as H0.
    rewrite Nat.add_0_r in H0. cbn [nth] in H0.
    assert (faceVertexCount_eq :
              match pFaceSizes with
              | Some sizes0 => index sizes0 (Z.of_nat i)
              | None => Ok 3
              end = Ok s) by exact H0.
    rewrite faceVertexCount_eq. cbn [bind].
    rewrite (to_int_small s) by lia.
    pose proof (write_face_indices_fields indices base (Z.to_nat s) 0) as Hw.
    rewrite Nat.add_0_r in Hw. cbn [Z.of_nat] in Hw. rewrite Hw by lia. clear Hw.
    cbn [bind]. rewrite (to_int_small (Z.of_nat base + s)) by lia.
    replace (Z.of_nat base + s) with (Z.of_nat (base + Z.to_nat s)) by lia.
    replace (Z.of_nat i + 1) with (Z.of_nat (S i)) by lia.
    rewrite IH; try assumption.
    + cbn [bind chunks flat_map]. rewrite skipn_skipn_add.
      unfold face_line at 2. rewrite length_firstn, length_skipn.
      replace (Z.of_nat (Nat.min (Z.to_nat s) (length indices - base))) with s by lia.
      rewrite <- !app_assoc. reflexivity.
    + intros k Hk. specialize (Hsz (S k) ltac:(cbn [length]; lia)).
      replace (i + S k)%nat with (S i + k)%nat in Hsz by lia. exact Hsz.
    + lia.
    + lia.
Qed.

Lemma chunks_lengths : forall (sizes indices : list Z),
  Forall (fun s => 0 <= s) sizes ->
  sumZ sizes <= Z.of_nat (length indices) ->
  Forall2 (fun s f => Z.of_nat (length f) = s) sizes (chunks sizes indices)
  /\ concat (chunks sizes indices) = firstn (Z.to_nat (sumZ sizes)) indices.
Proof.
  induction sizes as [|s sizes IH]; intros indices Hpos Hlen.
  - split; [constructor|reflexivity].
  - inversion Hpos as [|? ? Hs Hpos']; subst.
    assert (0 <= sumZ sizes) as Hsum.
    { clear -Hpos'. induction Hpos'; unfold sumZ in *; cbn [fold_right]; lia. }
    unfold sumZ in Hlen |- *. cbn [fold_right] in Hlen |- *. fold (sumZ sizes) in Hlen |- *.
    destruct (IH (skipn (Z.to_nat s) indices) Hpos') as [IH1 IH2].
    { rewrite length_skipn. lia. }
    cbn [chunks concat]. split.
    + constructor; [|exact IH1]. rewrite length_firstn. lia.
    + rewrite IH2. rewrite Z2Nat.inj_add by lia.
      rewrite <- (firstn_skipn (Z.to_nat s) indices) at 3.
      rewrite firstn_app, length_firstn.
      replace (Nat.min (Z.to_nat s) (length indices)) with (Z.to_nat s) by lia.
      rewrite firstn_firstn.
      replace (Nat.min (Z.to_nat s + Z.to_nat (sumZ sizes)) (Z.to_nat s))
        with (Z.to_nat s) by lia.
      f_equal. f_equal. lia.
Qed.

Lemma sumZ_repeat (s : Z) (n : nat) : sumZ (repeat s n) = Z.of_nat n * s.
Proof.
  unfold sumZ. induction n as [|n IH]; [reflexivity|].
  cbn [repeat fold_right]. rewrite IH. lia.
Qed.

Lemma nth_repeat_lt {A : Type} (x d : A) (n k : nat) : (k < n)%nat -> nth k (repeat x n) d = x.
Proof.
  revert k. induction n as [|n IH]; intros k H; [lia|].
  destruct k as [|k]; [reflexivity|]. cbn [repeat nth]. apply IH. lia.
Qed.

Lemma index_nth (l : list Z) (k : nat) :
  (k < length l)%nat -> index l (Z.of_nat k) = Ok (nth k l 0).
Proof.
  intros H. unfold index. destruct (Z.ltb_spec (Z.of_nat k) 0); [lia|].
  rewrite Nat2Z.id. now rewrite (nth_error_nth' l 0 H).
Qed.

(** C8. The face lines of [writeOFF].  Without a face-size array
    ([pFaceSizes] null) every face line is the count 3 followed by three
    indices, and the faces take the array of indices three entries at a
    time, in order.  With a face-size array, the line of face [i] is its
    size followed by that many indices, taken from the array in order.
    The counts are those an [int] holds and the array of indices is long
    enough for the faces. *)
Theorem writeOFF_face_lines :
  (forall pVertices indices pEdges numVertices numFaces numEdges vs es,
      0 <= numFaces ->
      3 * numFaces <= Z.of_nat (length indices) ->
      3 * numFaces <= INT_MAX ->
      write_vertices (Z.to_nat (to_int numVertices)) 0 pVertices = Ok vs ->
      write_edges (Z.to_nat (to_int numEdges)) 0 pEdges = Ok es ->
      let faces := chunks (repeat 3 (Z.to_nat numFaces)) indices in
      writeOFF true pVertices indices None pEdges numVertices numFaces numEdges
      = Ok (text "OFF" ++ LF ::
            print_d (to_int numVertices) ++ " "%char :: print_d (to_int numFaces)
              ++ " "%char :: print_d (to_int numEdges) ++ LF ::
            vs ++ flat_map face_line faces ++ es)
      /\ Forall (fun f => length f = 3%nat) faces
      /\ concat faces = firstn (3 * Z.to_nat numFaces) indices)
  /\ (forall pVertices indices sizes pEdges numVertices numEdges vs es,
        Forall (fun s => 0 <= s) sizes ->
        sumZ sizes <= Z.of_nat (length indices) ->
        sumZ sizes <= INT_MAX ->
        Z.of_nat (length sizes) <= INT_MAX ->
        write_vertices (Z.to_nat (to_int numVertices)) 0 pVertices = Ok vs ->
        write_edges (Z.to_nat (to_int numEdges)) 0 pEdges = Ok es ->
        let numFaces := Z.of_nat (length sizes) in
        let faces := chunks sizes indices in
        writeOFF true pVertices indices (Some sizes) pEdges numVertices numFaces numEdges
        = Ok (text "OFF" ++ LF ::
              print_d (to_int numVertices) ++ " "%char :: print_d (to_int numFaces)
                ++ " "%char :: print_d (to_int numEdges) ++ LF ::
              vs ++ flat_map face_line faces ++ es)
        /\ Forall2 (fun s f => Z.of_nat (length f) = s) sizes faces
        /\ concat faces = firstn (Z.to_nat (sumZ sizes)) indices).
Proof.
  split.
  - intros pVertices indices pEdges numVertices numFaces numEdges vs es
      Hn Hlen Hmax Hvs Hes faces.
    assert (Forall (fun s => 0 <= s) (repeat 3 (Z.to_nat numFaces))) as Hpos
      by (apply Forall_repeat; lia).
    assert (sumZ (repeat 3 (Z.to_nat numFaces)) = 3 * numFaces) as Hsum
      by (rewrite sumZ_repeat; lia).
    destruct (chunks_lengths (repeat 3 (Z.to_nat numFaces)) indices Hpos) as [L1 L2];
      [lia|].
    split; [|split].
    + unfold writeOFF. cbn [negb]. rewrite Hvs. cbn [bind].
      rewrite (to_int_small numFaces) by ulia.
      pose proof (write_faces_lines indices None (repeat 3 (Z.to_nat numFaces)) O O) as W.
      rewrite repeat_length in W. cbn [Z.of_nat skipn] in W. rewrite W; clear W.
      * cbn [bind]. rewrite Hes. reflexivity.
      * intros k Hk. now rewrite nth_repeat_lt.
      * exact Hpos.
      * lia.
      * lia.
    + fold faces in L1. clear -L1. remember (repeat 3 (Z.to_nat numFaces)) as sizes eqn:E.
      assert (Forall (fun s => s = 3) sizes) as H3.
      { subst sizes. apply Forall_repeat. reflexivity. }
      clear E. induction L1 as [|s f sizes fs Hsf _ IH]; constructor.
      * inversion H3; subst. lia.
      * apply IH. now inversion H3.
    + fold faces in L2. rewrite L2, Hsum. f_equal. lia.
  - intros pVertices indices sizes pEdges numVertices numEdges vs es
      Hpos Hlen Hmax Hcount Hvs Hes numFaces faces.
    destruct (chunks_lengths sizes indices Hpos Hlen) as [L1 L2].
    split; [|split; assumption].
    unfold writeOFF. cbn [negb]. rewrite Hvs. cbn [bind].
    unfold numFaces. rewrite (to_int_small (Z.of_nat (length sizes))) by lia.
    rewrite Nat2Z.id.
    pose proof (write_faces_lines indices (Some sizes) sizes O O) as W.
    cbn [Z.of_nat skipn] in W. rewrite W; clear W.
    + cbn [bind]. rewrite Hes. reflexivity.
    + intros k Hk. cbn [Nat.add]. now apply index_nth.
    + exact Hpos.
    + lia.
    + lia.
Qed.

Lemma writeOFF_face_lines_witness :
  writeOFF true [] [0; 1; 2; 2; 1; 3] None [] 0 2 0
  = Ok (text "OFF" ++ LF :: text "0 2 0" ++ LF :: text "3 0 1 2" ++ LF :: text "3 2 1 3" ++ [LF])
  /\ writeOFF true [] [0; 1; 2; 3; 4; 5; 6] (Some [4; 3]) [] 0 2 0
     = Ok (text "OFF" ++ LF :: text "0 2 0" ++ LF :: text "4 0 1 2 3" ++ LF
             :: text "3 4 5 6" ++ [LF]).
Proof.
  split.
  - apply (proj1 writeOFF_face_lines [] [0; 1; 2; 2; 1; 3] [] 0 2 0 [] []);
      try reflexivity; vm_compute; discriminate.
  - apply (proj2 writeOFF_face_lines [] [0; 1; 2; 3; 4; 5; 6] [4; 3] [] 0 0 [] []);
      try reflexivity; try (vm_compute; discriminate).
    repeat constructor; vm_compute; discriminate.
Defined.

End WriteFacts.

(** ** readOFF *)

Module ReadFacts.
Import OFF OFFSpec.

Lemma int_val_in (z : Z) : INT_MIN <= z <= INT_MAX -> int_val z = Ok z.
Proof.
  intros H. unfold int_val, in_int.
  destruct (Z.leb_spec INT_MIN z), (Z.leb_spec z INT_MAX); try lia. reflexivity.
Qed.

Lemma cstr_app_nul (l tail : list ascii) :
  forallb (fun c => negb (Ascii.eqb c NUL)) l = true ->
  cstr (l ++ NUL :: tail) = Ok l.
Proof.
  induction l as [|c l IH]; intros H; [reflexivity|].
  cbn [forallb] in H. apply andb_true_iff in H as [Hc H].
  apply negb_true_iff in Hc. cbn [app cstr]. rewrite Hc, (IH H). reflexivity.
Qed.

(** [readLine] on a line that it accepts. *)
Lemma readLine_accepted (l : list ascii) (file : FILE) (line : linebuf) :
  accepted l = true ->
  exists buf,
    readLine (l :: file) line = Ok (true, Some buf, file)
    /\ line_string (Some buf) = Ok l.
Proof.
  unfold accepted. intros H. apply andb_true_iff in H as [H Hc].
  apply andb_true_iff in H as [Hn Hl].
  eexists. cbn [readLine getline line_string].
  destruct (Z.eqb_spec (Z.of_nat (length l)) 0) as [E|_].
  { apply Z.ltb_lt in Hl. lia. }
  rewrite (cstr_app_nul _ _ Hn). cbn [bind]. rewrite Hl, Hc. cbn [andb].
  split; [reflexivity|]. apply (cstr_app_nul _ _ Hn).
Qed.

Lemma split_lines_nonempty (bytes : list ascii) :
  Forall (fun l => l <> []) (split_lines bytes).
Proof.
  induction bytes as [|c bytes IH]; cbn [split_lines]; [constructor|].
  destruct (Ascii.eqb c LF).
  - constructor; [discriminate|exact IH].
  - destruct (split_lines bytes) as [|l ls].
    + constructor; [discriminate|constructor].
    + inversion IH; subst. constructor; [discriminate|assumption].
Qed.

(** [readLine] never reports a missing line: at the end of the file
    [getline] returns [-1], which the loop condition takes for true. *)
Lemma readLine_true : forall (file : FILE) (line : linebuf) lineOk line' file',
  Forall (fun l => l <> []) file ->
  readLine file line = Ok (lineOk, line', file') -> lineOk = true.
Proof.
  induction file as [|l file IH]; intros line lineOk line' file' Hne H.
  - cbn [readLine getline] in H. cbn [Z.eqb] in H.
    destruct line as [buf|]; [|discriminate].
    destruct (cstr buf) as [s| | | |]; try discriminate. cbn [bind] in H.
    destruct (_ && _); [|discriminate]. now injection H as <- _ _.
  - inversion Hne as [|? ? Hl Hne']; subst.
    cbn [readLine getline] in H.
    destruct (Z.eqb_spec (Z.of_nat (length l)) 0) as [E|_].
    { destruct l; [congruence|cbn [length] in E; lia]. }
    destruct (cstr _) as [s| | | |]; try discriminate. cbn [bind] in H.
    destruct (_ && _).
    + now injection H as <- _ _.
    + eapply IH; [exact Hne'|exact H].
Qed.

(** *** The vertex loop *)

Lemma read_vertices_step (count : nat) (i : Z) (l : list ascii) (file : FILE)
    (line : linebuf) (t : list double) (done : list double) (r : nat) :
  vertex_text l t ->
  Z.of_nat (length done) = 3 * i ->
  0 <= i -> 3 * i + 3 <= INT_MAX ->
  exists line',
    read_vertices (S count) i (l :: file) line
      (map Some done ++ repeat None (S (S (S r))))
    = read_vertices count (i + 1) file line' (map Some (done ++ t) ++ repeat None r).
Proof.
  intros (Hacc & Hlen & n & Hscan) Hdone Hi Hmax.
  destruct (readLine_accepted l file line Hacc) as (buf & Hread & Hstr).
  exists (Some buf). cbn [read_vertices]. rewrite Hread. cbn [bind negb].
  rewrite Hstr. cbn [bind]. rewrite Hscan. cbn [bind].
  destruct t as [|x [|y [|z [|]]]]; try discriminate Hlen.
  rewrite (int_val_in (i * 3)) by ulia. cbn [bind].
  rewrite (int_val_in (i * 3 + 0)) by ulia. cbn [bind].
  replace (i * 3 + 0) with (Z.of_nat (length done)) by lia.
  rewrite store_next_Ok. cbn [bind].
  rewrite (int_val_in (i * 3 + 1)) by ulia. cbn [bind].
  replace (i * 3 + 1) with (Z.of_nat (length (done ++ [x])))
    by (rewrite length_app; cbn [length]; lia).
  rewrite store_next_Ok. cbn [bind].
  rewrite (int_val_in (i * 3 + 2)) by ulia. cbn [bind].
  replace (i * 3 + 2) with (Z.of_nat (length ((done ++ [x]) ++ [y])))
    by (rewrite !length_app; cbn [length]; lia).
  rewrite store_next_Ok. cbn [bind].
  rewrite (int_val_in (i + 1)) by ulia. cbn [bind].
  rewrite <- !app_assoc. reflexivity.
Qed.

Lemma read_vertices_lines : forall (vls : list (list ascii)) (ts : list (list double)),
  Forall2 vertex_text vls ts ->
  forall (file : FILE) (line : linebuf) (done : list double) (i : Z) (r : nat),
    Z.of_nat (length done) = 3 * i ->
    0 <= i -> 3 * (i + Z.of_nat (length vls)) <= INT_MAX ->
    exists line',
      read_vertices (length vls) i (vls ++ file) line
        (map Some done ++ repeat None (3 * length vls + r))
      = Ok (file, line', map Some (done ++ concat ts) ++ repeat None r).
Proof.
  induction 1 as [|l t vls ts Hl _ IH]; intros file line done i r Hdone Hi Hmax.
  - exists line. cbn. now rewrite app_nil_r.
  - cbn [length] in *. cbn [app].
    replace (3 * S (length vls) + r)%nat with (S (S (S (3 * length vls + r)))) by lia.
    destruct (read_vertices_step (length vls) i l (vls ++ file) line t done
                (3 * length vls + r) Hl Hdone Hi) as (line1 & ->); [lia|].
    destruct Hl as (_ & Hlen & _).
    destruct (IH file line1 (done ++ t) (i + 1) r) as (line' & ->).
    + rewrite length_app. lia.
    + lia.
    + lia.
    + exists line'. cbn [concat]. now rewrite app_assoc.
Qed.

(** *** The first loop over the faces *)

Lemma scan_d_in_int (s : list ascii) (n : Z) (rest : list ascii) :
  scan_d s = Converted n rest -> INT_MIN <= n <= INT_MAX.
Proof.
  unfold scan_d. destruct (skip_space s); [discriminate|].
  destruct (scan_sign _) as [neg s1]. destruct (scan_digits s1 0 0) as [[v k] r].
  destruct (k =? 0)%nat; [discriminate|].
  destruct (in_int (if neg then - v else v)) eqn:E; [|discriminate].
  intros H. injection H as <- _. unfold in_int in E.
  apply andb_true_iff in E as [E1 E2]. apply Z.leb_le in E1, E2. lia.
Qed.

Lemma sscanf_d_Ok (s : list ascii) (n : Z) (rest : list ascii) :
  sscanf_d s = Ok (n, rest) -> scan_d s = Converted n rest.
Proof.
  unfold sscanf_d. destruct (scan_d s); try discriminate. now intros [= -> ->].
Qed.

Lemma read_face_sizes_step (count : nat) (i : Z) (l : list ascii) (file : FILE)
    (line : linebuf) (n : Z) (done : list Z) (r : nat) (total : Z) :
  face_text l n ->
  3 <= n ->
  Z.of_nat (length done) = i ->
  i + 1 <= INT_MAX ->
  INT_MIN <= total + n <= INT_MAX ->
  exists line',
    read_face_sizes (S count) i (l :: file) line (map Some done ++ repeat None (S r)) total
    = read_face_sizes count (i + 1) file line' (map Some (done ++ [n]) ++ repeat None r)
        (total + n).
Proof.
  intros (Hacc & rest & Hscan) Hn Hdone Hi Htotal.
  destruct (readLine_accepted l file line Hacc) as (buf & Hread & Hstr).
  exists (Some buf). cbn [read_face_sizes]. rewrite Hread. cbn [bind negb].
  rewrite Hstr. cbn [bind]. unfold sscanf_d. rewrite Hscan. cbn [bind].
  destruct (Z.ltb_spec n 3); [lia|].
  pose proof (scan_d_in_int _ _ _ Hscan) as Hint.
  rewrite u32_small by ulia. rewrite <- Hdone, store_next_Ok. cbn [bind].
  rewrite (int_val_in (total + n)) by lia. cbn [bind].
  rewrite (int_val_in (Z.of_nat (length done) + 1)) by ulia. reflexivity.
Qed.

Lemma sumZ_lower (ns : list Z) : Forall (fun n => 3 <= n) ns -> 0 <= sumZ ns.
Proof. induction 1; unfold sumZ in *; cbn [fold_right]; lia. Qed.

Lemma read_face_sizes_lines : forall (good : list (list ascii)) (ns : list Z),
  Forall2 face_text good ns ->
  Forall (fun n => 3 <= n) ns ->
  forall (count : nat) (file : FILE) (line : linebuf) (done : list Z) (i : Z) (r : nat)
         (total : Z),
    Z.of_nat (length done) = i ->
    i + Z.of_nat (length good) <= INT_MAX ->
    0 <= total -> total + sumZ ns <= INT_MAX ->
    exists line',
      read_face_sizes (length good + count) i (good ++ file) line
        (map Some done ++ repeat None (length good + r)) total
      = read_face_sizes count (i + Z.of_nat (length good)) file line'
          (map Some (done ++ ns) ++ repeat None r) (total + sumZ ns).
Proof.
  induction 1 as [|l n good ns Hl _ IH]; intros Hge count file line done i r total
    Hdone Hi Htotal Hmax.
  - exists line. unfold sumZ. cbn [length Nat.add app fold_right].
    now rewrite app_nil_r, !Z.add_0_r.
  - inversion Hge as [|? ? Hn Hge']; subst.
    pose proof (sumZ_lower ns Hge') as Hsum.
    unfold sumZ in Hmax |- *. cbn [fold_right] in Hmax |- *. fold (sumZ ns) in Hmax |- *.
    cbn [length Nat.add app] in *.
    destruct (read_face_sizes_step (length good + count) (Z.of_nat (length done)) l
                (good ++ file) line n done (length good + r) total Hl Hn eq_refl)
      as (line1 & ->); [lia|ulia|].
    destruct (IH Hge' count file line1 (done ++ [n]) (Z.of_nat (length done) + 1) r
                (total + n)) as (line' & ->).
    + rewrite length_app. cbn [length]. lia.
    + lia.
    + lia.
    + lia.
    + exists line'. rewrite <- app_assoc. cbn [app]. f_equal; lia.
Qed.

(** A face line with fewer than three vertices ends the process. *)
Lemma read_face_sizes_bad (count : nat) (i : Z) (l : list ascii) (file : FILE)
    (line : linebuf) (n : Z) (pFaceSizes : array Z) (total : Z) :
  face_text l n ->
  n < 3 ->
  read_face_sizes (S count) i (l :: file) line pFaceSizes total
  = Fatal "error: invalid vertex count in file".
Proof.
  intros (Hacc & rest & Hscan) Hn.
  destruct (readLine_accepted l file line Hacc) as (buf & Hread & Hstr).
  cbn [read_face_sizes]. rewrite Hread. cbn [bind negb].
  rewrite Hstr. cbn [bind]. unfold sscanf_d. rewrite Hscan. cbn [bind].
  destruct (Z.ltb_spec n 3); [reflexivity|lia].
Qed.

(** Every size that the loop records is at least three. *)
Lemma set_nth_Forall {A : Type} (P : A -> Prop) (a : list A) : forall (i : nat) (v : A) a',
  Forall P a -> P v -> set_nth a i v = Some a' -> Forall P a'.
Proof.
  induction a as [|x a IH]; intros i v a' Ha Hv H; [discriminate|].
  inversion Ha; subst. destruct i as [|i]; cbn [set_nth] in H.
  - injection H as <-. now constructor.
  - destruct (set_nth a i v) as [b|] eqn:E; [|discriminate].
    cbn [option_map] in H. injection H as <-. constructor; [assumption|].
    exact (IH i v b ltac:(assumption) Hv E).
Qed.

Lemma store_Forall {A : Type} (P : option A -> Prop) (a a' : array A) (i : Z) (v : A) :
  Forall P a -> P (Some v) -> store a i v = Ok a' -> Forall P a'.
Proof.
  unfold store. intros Ha Hv H. destruct (i <? 0); [discriminate|].
  destruct (set_nth a (Z.to_nat i) (Some v)) as [b|] eqn:E; [|discriminate].
  injection H as <-. eapply set_nth_Forall; eauto.
Qed.

Lemma read_face_sizes_recorded : forall (count : nat) (i : Z) (file : FILE) (line : linebuf)
    (pFaceSizes : array Z) (total : Z) file' line' pFaceSizes' total',
  read_face_sizes count i file line pFaceSizes total
  = Ok (file', line', pFaceSizes', total') ->
  Forall (fun s => forall n, s = Some n -> 3 <= n) pFaceSizes ->
  Forall (fun s => forall n, s = Some n -> 3 <= n) pFaceSizes'.
Proof.
  induction count as [|count IH]; intros i file line a total file' line' a' total' H Ha.
  - now injection H as _ _ <- _.
  - cbn [read_face_sizes] in H.
    apply bind_Ok_inv in H as ([[lineOk line1] file1] & _ & H).
    destruct (negb lineOk); [discriminate|].
    apply bind_Ok_inv in H as (s & _ & H).
    apply bind_Ok_inv in H as ([n rest] & Hscan & H).
    destruct (Z.ltb_spec n 3); [discriminate|].
    apply bind_Ok_inv in H as (a1 & Hstore & H).
    apply bind_Ok_inv in H as (total1 & _ & H).
    apply bind_Ok_inv in H as (i1 & _ & H).
    apply sscanf_d_Ok, scan_d_in_int in Hscan.
    rewrite u32_small in Hstore by ulia.
    eapply IH; [exact H|].
    eapply store_Forall; [exact Ha| |exact Hstore].
    intros k [= <-]. assumption.
Qed.

Lemma Forall_unwritten {A : Type} (P : option A -> Prop) (n : Z) :
  P None -> Forall P (malloc n).
Proof. intros H. unfold malloc. now apply Forall_repeat. Qed.

(** C7. Every size recorded in the face-size array of a successful
    [readOFF] is at least three; and on a file whose lines are the header,
    the counts, the declared vertex lines and face lines, a face line
    among the declared ones that gives fewer than three vertices (the
    ones before it giving at least three) ends [readOFF] in the first
    loop over the faces with the error message for an invalid vertex
    count. *)
Theorem readOFF_face_sizes_at_least_three :
  (forall contents numVertices0 numFaces0 m,
      readOFF contents numVertices0 numFaces0 = Ok m ->
      Forall (fun s => forall n, s = Some n -> 3 <= n) (pFaceSizes m))
  /\ (forall bytes numVertices0 numFaces0 header counts vlines ts good ns bad n more
             numVertices numFaces,
        fopen bytes = header :: counts :: vlines ++ good ++ bad :: more ->
        accepted header = true ->
        strstr header (text "OFF") <> None ->
        accepted counts = true ->
        sscanf_counts counts numVertices0 numFaces0 = Ok (numVertices, numFaces) ->
        numVertices = Z.of_nat (length vlines) ->
        3 * numVertices <= INT_MAX ->
        Forall2 vertex_text vlines ts ->
        Z.of_nat (length good) < numFaces <= INT_MAX ->
        Forall2 face_text good ns ->
        Forall (fun k => 3 <= k) ns ->
        sumZ ns <= INT_MAX ->
        face_text bad n ->
        n < 3 ->
        readOFF (Some bytes) numVertices0 numFaces0
        = Fatal "error: invalid vertex count in file").
Proof.
  split.
  - intros contents nv0 nf0 m H. unfold readOFF, readOFF_on in H.
    destruct contents as [bytes|]; [|discriminate].
    apply bind_Ok_inv in H as ([[lineOk line1] file1] & _ & H).
    destruct (negb lineOk); [discriminate|].
    apply bind_Ok_inv in H as (s1 & _ & H).
    destruct (strstr s1 _); [|discriminate].
    apply bind_Ok_inv in H as ([[lineOk2 line2] file2] & _ & H).
    destruct (negb lineOk2); [discriminate|].
    apply bind_Ok_inv in H as (s2 & _ & H).
    apply bind_Ok_inv in H as ([nv nf] & _ & H).
    apply bind_Ok_inv in H as ([[file3 line3] verts] & _ & H).
    apply bind_Ok_inv in H as ([[[file4 line4] sizes] total] & Hsizes & H).
    cbn [negb] in H.
    apply bind_Ok_inv in H as ([[file5 line5] indices] & _ & H).
    injection H as <-. cbn [pFaceSizes].
    eapply read_face_sizes_recorded; [exact Hsizes|].
    apply Forall_unwritten. discriminate.
  - intros bytes nv0 nf0 header counts vlines ts good ns bad n more nv nf
      Hfile Hheader HOFF Hcounts Hscan Hnv Hnvmax Hvs Hnf Hgood Hge Hsum Hbad Hn.
    unfold readOFF, readOFF_on. rewrite Hfile.
    destruct (readLine_accepted header (counts :: vlines ++ good ++ bad :: more) None
                Hheader) as (buf1 & -> & Hs1).
    cbn [bind negb]. rewrite Hs1. cbn [bind].
    unfold text in HOFF.
    destruct (strstr header _) as [found|]; [|congruence].
    destruct (readLine_accepted counts (vlines ++ good ++ bad :: more) (Some buf1)
                Hcounts) as (buf2 & -> & Hs2).
    cbn [bind negb]. rewrite Hs2. cbn [bind]. rewrite Hscan. cbn [bind].
    destruct (read_vertices_lines vlines ts Hvs (good ++ bad :: more) (Some buf2) [] 0 O)
      as (line3 & Hverts); [reflexivity|lia|lia|].
    unfold malloc at 1.
    replace (Z.to_nat (nv * 3)) with (3 * length vlines + 0)%nat by lia.
    cbn [map app] in Hverts. rewrite Nat2Z.id || idtac.
    replace (Z.to_nat nv) with (length vlines) by lia.
    rewrite Hverts. cbn [bind].
    rewrite (to_int_small nf) by lia.
    unfold malloc.
    set (k := (Z.to_nat nf - length good - 1)%nat).
    assert (Z.to_nat nf = (length good + S k)%nat) as Hnfeq by lia.
    rewrite !Hnfeq.
    destruct (read_face_sizes_lines good ns Hgood Hge (S k) (bad :: more) line3 [] 0
                (S k) 0) as (line4 & Hsizes);
      [reflexivity|lia|lia|lia|].
    cbn [map app] in Hsizes. rewrite Hsizes.
    rewrite (read_face_sizes_bad _ _ bad more line4 n _ _ Hbad Hn). reflexivity.
Qed.

Lemma readOFF_face_sizes_at_least_three_witness :
  match readOFF (Some (unlines ["OFF"; "3 1 0"; "0 0 0"; "1 0 0"; "1 1 0"; "3 0 1 2"]%string))
          0 0 with
  | Ok m => Forall (fun s => forall n, s = Some n -> 3 <= n) (pFaceSizes m)
  | _ => False
  end
  /\ readOFF (Some (unlines ["OFF"; "3 2 0"; "0 0 0"; "1 0 0"; "1 1 0"; "3 0 1 2";
                              "2 0 1"]%string)) 0 0
     = Fatal "error: invalid vertex count in file".
Proof.
  split.
  - destruct (readOFF (Some (unlines ["OFF"; "3 1 0"; "0 0 0"; "1 0 0"; "1 1 0";
                                       "3 0 1 2"]%string)) 0 0)
      as [m| | | |] eqn:E; try (vm_compute in E; discriminate E).
    exact (proj1 readOFF_face_sizes_at_least_three _ _ _ m E).
  - apply (proj2 readOFF_face_sizes_at_least_three
             (unlines ["OFF"; "3 2 0"; "0 0 0"; "1 0 0"; "1 1 0"; "3 0 1 2"; "2 0 1"]%string)
             0 0 (unlines ["OFF"%string]) (unlines ["3 2 0"%string])
             [unlines ["0 0 0"%string]; unlines ["1 0 0"%string]; unlines ["1 1 0"%string]]
             [[zero; zero; zero]; [one; zero; zero]; [one; one; zero]]
             [unlines ["3 0 1 2"%string]] [3] (unlines ["2 0 1"%string]) 2 [] 3 2).
    + reflexivity.
    + reflexivity.
    + vm_compute. discriminate.
    + reflexivity.
    + reflexivity.
    + reflexivity.
    + vm_compute. discriminate.
    + repeat constructor; eexists; vm_compute; reflexivity.
    + split; [reflexivity|vm_compute; discriminate].
    + repeat constructor. eexists. vm_compute. reflexivity.
    + repeat constructor. vm_compute. discriminate.
    + vm_compute. discriminate.
    + split; [reflexivity|]. eexists. vm_compute. reflexivity.
    + reflexivity.
Defined.

End ReadFacts.

(** ** writeOFF, then readOFF *)

Module Roundtrip.
Import OFF OFFSpec ReadFacts WriteFacts.

(** *** What writeOFF writes *)

Lemma fprintf_f_number (x : double) : is_nan x = false -> fprintf_f x = Ok (print_f x).
Proof. intros H. unfold fprintf_f. now rewrite H. Qed.

Lemma finite_number (v : double * double * double) :
  finite_vertex v = true -> number_vertex v = true.
Proof.
  destruct v as [[x y] z]. unfold finite_vertex, number_vertex. cbn [coords forallb].
  intros H. apply andb_true_iff in H as [Hx H]. apply andb_true_iff in H as [Hy H].
  apply andb_true_iff in H as [Hz _].
  destruct x, y, z; try discriminate; reflexivity.
Qed.

Lemma finite_numbers (vs : list (double * double * double)) :
  forallb finite_vertex vs = true -> forallb number_vertex vs = true.
Proof.
  induction vs as [|v vs IH]; [reflexivity|]. cbn [forallb]. intros H.
  apply andb_true_iff in H as [Hv H]. now rewrite (finite_number v Hv), IH.
Qed.

Lemma write_vertices_lines : forall (vs : list (double * double * double))
    (pre : list double) (i : Z),
  forallb number_vertex vs = true ->
  Z.of_nat (length pre) = 3 * i ->
  0 <= i -> 3 * (i + Z.of_nat (length vs)) <= INT_MAX ->
  write_vertices (length vs) i (pre ++ flat_map coords vs)
  = Ok (flat_map vertex_line vs).
Proof.
  induction vs as [|[[x y] z] vs IH]; intros pre i Hnum Hpre Hi Hmax; [reflexivity|].
  cbn [forallb] in Hnum. apply andb_true_iff in Hnum as [Hv Hnum].
  unfold number_vertex in Hv. cbn [coords forallb] in Hv.
  apply andb_true_iff in Hv as [Hx Hv]. apply andb_true_iff in Hv as [Hy Hv].
  apply andb_true_iff in Hv as [Hz _]. apply negb_true_iff in Hx, Hy, Hz.
  cbn [length] in Hmax. cbn [length write_vertices flat_map coords app].
  rewrite (int_val_in (i * 3)) by ulia. cbn [bind].
  replace (i * 3 + 0) with (Z.of_nat (length pre)) by lia.
  rewrite index_app_here. cbn [bind].
  replace (i * 3 + 1) with (Z.of_nat (length (pre ++ [x])))
    by (rewrite length_app; cbn [length]; lia).
  replace (pre ++ x :: y :: z :: flat_map coords vs)
    with ((pre ++ [x]) ++ y :: z :: flat_map coords vs) at 1
    by (now rewrite <- app_assoc).
  rewrite index_app_here. cbn [bind].
  replace (i * 3 + 2) with (Z.of_nat (length (pre ++ [x; y])))
    by (rewrite length_app; cbn [length]; lia).
  replace (pre ++ x :: y :: z :: flat_map coords vs)
    with ((pre ++ [x; y]) ++ z :: flat_map coords vs) at 1
    by (now rewrite <- app_assoc).
  rewrite index_app_here. cbn [bind].
  rewrite (fprintf_f_number x Hx), (fprintf_f_number y Hy), (fprintf_f_number z Hz).
  cbn [bind].
  replace (pre ++ x :: y :: z :: flat_map coords vs)
    with ((pre ++ [x; y; z]) ++ flat_map coords vs)
    by (now rewrite <- app_assoc).
  rewrite IH.
  - cbn [bind vertex_line]. rewrite <- !app_assoc. cbn [app].
    rewrite <- !app_assoc. cbn [app]. rewrite <- !app_assoc. reflexivity.
  - exact Hnum.
  - rewrite length_app. cbn [length]. lia.
  - lia.
  - lia.
Qed.

(** *** The written lines, as readOFF reads them *)

Lemma index_fields_chars (f : list Z) :
  Forall (fun c => is_body_char c = true) (index_fields f).
Proof.
  induction f as [|v f IH]; [constructor|].
  unfold index_fields in *. cbn [flat_map].
  constructor; [reflexivity|]. apply Forall_app. split; [|exact IH].
  apply num_chars_body. apply print_d_chars.
Qed.

Lemma index_fields_head (f : list Z) :
  exists c rest, index_fields f ++ [LF] = c :: rest /\ is_sep c = true.
Proof.
  destruct f as [|v f].
  - exists LF, []. split; reflexivity.
  - eexists " "%char, _. split; reflexivity.
Qed.

Lemma is_sep_not_digit (c : ascii) : is_sep c = true -> digit_val c = None.
Proof. intros H. now apply is_sep_class in H. Qed.

Lemma face_line_text (f : list Z) :
  Z.of_nat (length f) <= INT_MAX ->
  face_text (face_line f) (Z.of_nat (length f))
  /\ ends_line (face_line f) = true.
Proof.
  intros Hlen. unfold face_line.
  destruct (print_d_chars (Z.of_nat (length f))) as [Hnum (c & tl & E)].
  assert (accepted (print_d (Z.of_nat (length f)) ++ index_fields f ++ [LF]) = true
          /\ ends_line (print_d (Z.of_nat (length f)) ++ index_fields f ++ [LF]) = true)
    as [Hacc Hend].
  { rewrite E in Hnum |- *. inversion Hnum as [|? ? Hc Htl]; subst.
    cbn [app]. rewrite app_assoc. apply written_line; [exact Hc|].
    apply Forall_app. split; [now apply num_chars_body|apply index_fields_chars]. }
  split; [|exact Hend]. split; [exact Hacc|].
  destruct (index_fields_head f) as (c0 & rest & -> & Hsep).
  exists (c0 :: rest). apply scan_d_print_d; [|now apply is_sep_not_digit].
  unfold in_int. apply andb_true_iff. split; apply Z.leb_le; ulia.
Qed.

Lemma vertex_line_text (v : double * double * double) :
  number_vertex v = true ->
  vertex_text (vertex_line v) (map reread (coords v))
  /\ ends_line (vertex_line v) = true.
Proof.
  destruct v as [[x y] z]. unfold number_vertex. cbn [coords forallb map].
  intros H. apply andb_true_iff in H as [Hx H]. apply andb_true_iff in H as [Hy H].
  apply andb_true_iff in H as [Hz _]. apply negb_true_iff in Hx, Hy, Hz.
  destruct (print_f_chars x Hx) as [Nx (c & tl & E)].
  destruct (print_f_chars y Hy) as [Ny _].
  destruct (print_f_chars z Hz) as [Nz _].
  unfold vertex_line.
  assert (accepted (print_f x ++ " "%char :: print_f y ++ " "%char :: print_f z ++ [LF])
          = true
          /\ ends_line (print_f x ++ " "%char :: print_f y ++ " "%char :: print_f z ++ [LF])
             = true) as [Hacc Hend].
  { rewrite E in Nx |- *. inversion Nx as [|? ? Hc Htl]; subst. cbn [app].
    replace (tl ++ " "%char :: print_f y ++ " "%char :: print_f z ++ [LF])
      with ((tl ++ " "%char :: print_f y ++ " "%char :: print_f z) ++ [LF])
      by (rewrite <- !app_assoc; cbn [app]; rewrite <- !app_assoc; reflexivity).
    apply written_line; [exact Hc|].
    apply Forall_app. split; [now apply num_chars_body|].
    constructor; [reflexivity|]. apply Forall_app. split; [now apply num_chars_body|].
    constructor; [reflexivity|]. now apply num_chars_body. }
  split; [|exact Hend]. split; [exact Hacc|]. split; [reflexivity|].
  exists 3. cbn [sscanf_lf].
  rewrite (scan_lf_print_f x " "%char _ Hx eq_refl).
  rewrite scan_lf_space, (scan_lf_print_f y " "%char _ Hy eq_refl).
  rewrite scan_lf_space, (scan_lf_print_f z LF [] Hz eq_refl).
  reflexivity.
Qed.

(** The line of the counts. *)
Lemma counts_line_text (nv nf ne a b : Z) :
  0 <= nv <= INT_MAX -> 0 <= nf <= INT_MAX -> 0 <= ne <= INT_MAX ->
  let l := print_d nv ++ " "%char :: print_d nf ++ " "%char :: print_d ne ++ [LF] in
  accepted l = true /\ ends_line l = true /\ sscanf_counts l a b = Ok (nv, nf).
Proof.
  intros Hnv Hnf Hne l. unfold l.
  destruct (print_d_chars nv) as [Nv (c & tl & E)].
  destruct (print_d_chars nf) as [Nf _].
  destruct (print_d_chars ne) as [Ne _].
  assert (forall z, 0 <= z <= INT_MAX -> in_int z = true) as Hin.
  { intros z Hz. unfold in_int. apply andb_true_iff. split; apply Z.leb_le; ulia. }
  split; [|split].
  - rewrite E in Nv |- *. inversion Nv as [|? ? Hc Htl]; subst. cbn [app].
    replace (tl ++ " "%char :: print_d nf ++ " "%char :: print_d ne ++ [LF])
      with ((tl ++ " "%char :: print_d nf ++ " "%char :: print_d ne) ++ [LF])
      by (rewrite <- !app_assoc; cbn [app]; rewrite <- !app_assoc; reflexivity).
    apply written_line; [exact Hc|].
    apply Forall_app. split; [now apply num_chars_body|].
    constructor; [reflexivity|]. apply Forall_app. split; [now apply num_chars_body|].
    constructor; [reflexivity|]. now apply num_chars_body.
  - rewrite E in Nv |- *. inversion Nv as [|? ? Hc Htl]; subst. cbn [app].
    replace (tl ++ " "%char :: print_d nf ++ " "%char :: print_d ne ++ [LF])
      with ((tl ++ " "%char :: print_d nf ++ " "%char :: print_d ne) ++ [LF])
      by (rewrite <- !app_assoc; cbn [app]; rewrite <- !app_assoc; reflexivity).
    apply written_line; [exact Hc|].
    apply Forall_app. split; [now apply num_chars_body|].
    constructor; [reflexivity|]. apply Forall_app. split; [now apply num_chars_body|].
    constructor; [reflexivity|]. now apply num_chars_body.
  - unfold sscanf_counts.
    rewrite (scan_d_print_d nv " "%char _ (Hin nv Hnv) eq_refl).
    rewrite scan_d_space, (scan_d_print_d nf " "%char _ (Hin nf Hnf) eq_refl).
    rewrite scan_d_space, (scan_d_print_d ne LF [] (Hin ne Hne) eq_refl).
    rewrite !u32_small by ulia. reflexivity.
Qed.

(** *** The second loop over the faces *)

Lemma read_face_indices_fields : forall (f : list Z) (z j : Z) (done : list Z) (r : nat)
    (off : Z),
  Forall (fun v => 0 <= v < UINT32_MOD) f ->
  Z.of_nat (length done) = off + j ->
  off + j + Z.of_nat (length f) <= INT_MAX ->
  read_face_indices (length f) j (print_d z ++ index_fields f ++ [LF]) off
    (map Some done ++ repeat None (length f + r))
  = Ok (map Some (done ++ f) ++ repeat None r).
Proof.
  induction f as [|v f IH]; intros z j done r off Hf Hdone Hmax.
  - cbn [length read_face_indices Nat.add]. now rewrite app_nil_r.
  - inversion Hf as [|? ? Hv Hf']; subst.
    cbn [length read_face_indices Nat.add].
    unfold index_fields. cbn [flat_map]. fold (index_fields f).
    rewrite <- app_assoc. cbn [app].
    rewrite strstr_space by apply print_d_chars. cbn [tl].
    destruct (index_fields_head f) as (c & rest & E & Hsep).
    rewrite E.
    unfold sscanf_d. rewrite scan_d_print_d.
    + cbn [bind]. rewrite int_val_in by ulia. cbn [bind].
      rewrite u32_to_int, u32_small by exact Hv.
      rewrite <- Hdone, store_next_Ok. cbn [bind].
      rewrite <- E. rewrite (IH (to_int v) (j + 1) (done ++ [v]) r off Hf').
      * now rewrite <- app_assoc.
      * rewrite length_app. cbn [length]. lia.
      * cbn [length] in Hmax. lia.
    + pose proof (to_int_range v) as Hr. unfold in_int.
      apply andb_true_iff. split; apply Z.leb_le; lia.
    + now apply is_sep_not_digit.
Qed.

Lemma read_faces_lines : forall (faces : list (list Z)) (file : FILE) (line : linebuf)
    (done : list Z) (i off : Z) (r : nat),
  Forall (Forall (fun v => 0 <= v < UINT32_MOD)) faces ->
  Z.of_nat (length done) = off ->
  off + Z.of_nat (length (concat faces)) <= INT_MAX ->
  0 <= i -> i + Z.of_nat (length faces) <= INT_MAX ->
  exists line',
    read_faces (length faces) i (map face_line faces ++ file) line off
      (map Some done ++ repeat None (length (concat faces) + r))
    = Ok (file, line', map Some (done ++ concat faces) ++ repeat None r).
Proof.
  induction faces as [|f faces IH]; intros file line done i off r Hfs Hdone Hmax Hi Hcount.
  - exists line. cbn. now rewrite app_nil_r.
  - inversion Hfs as [|? ? Hf Hfs']; subst.
    cbn [length concat map app] in *. rewrite length_app in *.
    destruct (face_line_text f ltac:(lia)) as [(Hacc & rest & Hscan) _].
    destruct (readLine_accepted (face_line f) (map face_line faces ++ file) line Hacc)
      as (buf & Hread & Hstr).
    cbn [read_faces]. rewrite Hread. cbn [bind negb]. rewrite Hstr. cbn [bind].
    unfold sscanf_d. rewrite Hscan. cbn [bind]. rewrite Nat2Z.id.
    unfold face_line at 1.
    rewrite <- Nat.add_assoc.
    rewrite (read_face_indices_fields f _ 0 done _ (Z.of_nat (length done)) Hf)
      by lia.
    cbn [bind]. rewrite int_val_in by ulia. cbn [bind].
    rewrite int_val_in by ulia. cbn [bind].
    destruct (IH file (Some buf) (done ++ f) (i + 1)
                (Z.of_nat (length done) + Z.of_nat (length f)) r Hfs')
      as (line' & ->).
    + rewrite length_app. lia.
    + lia.
    + lia.
    + lia.
    + exists line'. now rewrite <- app_assoc.
Qed.

(** *** The round trip *)

Lemma concat_map_coords (g : double -> double) (vs : list (double * double * double)) :
  concat (map (fun v => map g (coords v)) vs) = map g (flat_map coords vs).
Proof.
  induction vs as [|[[x y] z] vs IH]; [reflexivity|].
  cbn [map concat flat_map coords app]. now rewrite IH.
Qed.



Lemma length_le_sum (sizes : list Z) :
  Forall (fun s => 3 <= s) sizes -> Z.of_nat (length sizes) <= sumZ sizes.
Proof. induction 1; unfold sumZ in *; cbn [length fold_right]; lia. Qed.




End Roundtrip.

(** ** readOBJ on given files *)

Module OBJExamples.
Import OBJ.
Local Open Scope string_scope.

(** C9. The file with the lines [v 0 0 0], [v 1 0 0], [v 1 1 0], [f 1 2 3]
    is read without error: three vertices with these coordinates, no
    normals, no texture coordinates, and one face of three vertices with the
    vertex indices 0, 1, 2. *)
Theorem readOBJ_triangle :
  exists st,
    readOBJ (Some (unlines ["v 0 0 0"; "v 1 0 0"; "v 1 1 0"; "f 1 2 3"])) = Ok st
    /\ numVertices st = 3
    /\ pVertices st = Some (map Some [zero; zero; zero; one; zero; zero; one; one; zero])
    /\ numNormals st = 0 /\ pNormals st = None
    /\ numTexcoords st = 0 /\ pTexCoords st = None
    /\ numFaces st = 1
    /\ pFaceSizes st = Some [Some 3]
    /\ pFaceVertexIndices st = Some [Some 0; Some 1; Some 2]
    /\ pFaceVertexTexCoordIndices st = None
    /\ pFaceVertexNormalIndices st = None.
Proof.
  eexists. split; [vm_compute; reflexivity|].
  repeat split.
Qed.

(** C1 fails on the code.  With texture coordinates and normals present,
    the face [f 1/2/1 2/3/1 3/1/1] is stored with the texture-coordinate
    indices 0, 1, 2 and the normal indices 0, 1, 2, which are the vertex
    fields minus one: every element of a face vertex is converted from the
    start of the token.  The fields themselves give 1, 2, 0 and 0, 0, 0. *)
Theorem readOBJ_elements_read_from_token_start :
  exists st,
    readOBJ (Some (unlines ["v 0 0 0"; "v 1 0 0"; "v 1 1 0";
                            "vt 0 0"; "vt 1 0"; "vt 1 1"; "vn 0 0 1";
                            "f 1/2/1 2/3/1 3/1/1"])) = Ok st
    /\ pFaceVertexIndices st = Some [Some 0; Some 1; Some 2]
    /\ pFaceVertexTexCoordIndices st = Some [Some 0; Some 1; Some 2]
    /\ pFaceVertexNormalIndices st = Some [Some 0; Some 1; Some 2].
Proof.
  eexists. split; [vm_compute; reflexivity|].
  repeat split.
Qed.

(** C6 fails on the code.  In a file without texture coordinates the
    second element of a face vertex [a/b] does go to the array of normal
    indices, and the array of texture-coordinate indices is not even
    allocated; but the value stored is not the second subfield.  Every
    element is converted from the start of the token, so the face
    [f 3/1 2/1 1/1] gets the normal indices 2, 1, 0, which are its vertex
    indices, where the second subfields give 0, 0, 0. *)
Theorem readOBJ_normal_read_from_token_start :
  exists st,
    readOBJ (Some (unlines ["v 0 0 0"; "v 1 0 0"; "v 1 1 0"; "vn 0 0 1";
                            "f 3/1 2/1 1/1"])) = Ok st
    /\ numTexcoords st = 0
    /\ numNormals st = 1
    /\ pFaceVertexIndices st = Some [Some 2; Some 1; Some 0]
    /\ pFaceVertexTexCoordIndices st = None
    /\ pFaceVertexNormalIndices st = Some [Some 2; Some 1; Some 0].
Proof.
  eexists. split; [vm_compute; reflexivity|].
  repeat split.
Qed.

End OBJExamples.

(** ** readOFF on given files *)

Module OFFExamples.
Import OFF.
Local Open Scope string_scope.

(** C4 fails on the code.  The file declares three vertices and holds two
    vertex lines; [readOFF] returns normally, the third vertex being read
    a second time from the line left in the buffer. *)
Theorem readOFF_missing_vertex_line :
  readOFF (Some (unlines ["OFF"; "3 0 0"; "0 0 0"; "1 0 0"])) 0 0
  = Ok (Mesh (map Some [zero; zero; zero; one; zero; zero; one; zero; zero]) [] [] 3 0).
Proof. vm_compute. reflexivity. Qed.

End OFFExamples.
(** ** Seam vertex sequences: what a successful decoding returns *)

Module SeamSound.
Import Seam.

Lemma index_Ok_inv {A : Type} (a : list A) (i : Z) (x : A) :
  index a i = Ok x ->
  0 <= i < Z.of_nat (length a) /\ skipn (Z.to_nat i) a = x :: skipn (S (Z.to_nat i)) a.
Proof.
  unfold index. destruct (Z.ltb_spec i 0) as [|Hi]; [discriminate|].
  destruct (nth_error a (Z.to_nat i)) as [y|] eqn:E; [|discriminate].
  intros Hx. injection Hx as ->.
  assert (Hlt : (Z.to_nat i < length a)%nat).
  { apply nth_error_Some. congruence. }
  split; [lia|].
  clear Hi Hlt. revert a E. generalize (Z.to_nat i) as k.
  induction k as [|k IH]; intros [|y a] E; try discriminate.
  - cbn in E. injection E as ->. reflexivity.
  - cbn in E. cbn [skipn]. rewrite (IH a E). reflexivity.
Qed.

Lemma memcpy_Ok_inv {A : Type} (a : list A) (off n : Z) (l : list A) :
  memcpy a off n = Ok l ->
  0 <= off /\ 0 <= n /\ off + n <= Z.of_nat (length a)
  /\ Z.of_nat (length l) = n
  /\ skipn (Z.to_nat off) a = l ++ skipn (Z.to_nat (off + n)) a.
Proof.
  unfold memcpy.
  destruct (Z.leb_spec 0 off); cbn [andb]; [|discriminate].
  destruct (Z.ltb_spec 0 n); cbn [andb]; [|discriminate].
  destruct (Z.leb_spec (off + n) (Z.of_nat (length a))); [|discriminate].
  intros Hx. injection Hx as <-. conjs; try lia.
  - rewrite length_firstn, length_skipn. lia.
  - rewrite Z2Nat.inj_add by lia.
    rewrite <- (firstn_skipn (Z.to_nat n) (skipn (Z.to_nat off) a)) at 1.
    rewrite skipn_skipn. do 2 f_equal. lia.
Qed.

(** The groups that the loop went through lie in the array, one behind
    the other, from the offset at which it started. *)
Lemma sequences_from_sound (n : nat) : forall (arr : list Z) (off : Z) seqs final,
  Z.of_nat (length arr) < UINT32_MOD ->
  0 <= off <= Z.of_nat (length arr) ->
  sequences_from n arr off = Ok (seqs, final) ->
  length seqs = n
  /\ off <= final <= Z.of_nat (length arr)
  /\ skipn (Z.to_nat off) arr
     = flat_map layout_sequence seqs ++ skipn (Z.to_nat final) arr.
Proof.
  induction n as [|n IH]; intros arr off seqs final Hlen Hoff H; cbn [sequences_from] in H.
  - injection H as <- <-. conjs; try lia; reflexivity.
  - apply bind_Ok_inv in H as (size & Hsize & H).
    apply index_Ok_inv in Hsize as [Hr0 Hs0].
    rewrite (u32_small (off + 1)) in H by ulia.
    apply bind_Ok_inv in H as (isLoop & HisLoop & H).
    apply index_Ok_inv in HisLoop as [Hr1 Hs1].
    rewrite (u32_small (off + 1 + 1)) in H by ulia.
    apply bind_Ok_inv in H as (indices & Hcopy & H).
    apply memcpy_Ok_inv in Hcopy as (_ & Hn & Hend & HlenI & Hs2).
    rewrite (u32_small (off + 1 + 1 + size)) in H by ulia.
    apply bind_Ok_inv in H as ([rest final'] & Hrest & H).
    injection H as <- <-.
    apply IH in Hrest as (Hlr & Hfin & Hs3); [|assumption|lia].
    conjs; try lia.
    + cbn [length]. congruence.
    + cbn [flat_map]. unfold layout_sequence at 1. cbn [fst snd].
      rewrite Hs0. replace (S (Z.to_nat off)) with (Z.to_nat (off + 1)) by lia.
      rewrite Hs1. replace (S (Z.to_nat (off + 1))) with (Z.to_nat (off + 1 + 1)) by lia.
      rewrite Hs2, Hs3, HlenI. cbn [app]. rewrite <- app_assoc. reflexivity.
Qed.

(** X1: when the decoding of an array of unsigned 32-bit elements returns,
    the array starts with the documented layout of the sequences it
    returned, and the running offset is the length of that layout. *)
Theorem seam_decoded_is_layout (arr : list Z) (seqs : list sequence) (off : Z) :
  Forall (fun x => 0 <= x < UINT32_MOD) arr ->
  Z.of_nat (length arr) < UINT32_MOD ->
  seamVertexSequences arr = Ok (seqs, off) ->
  arr = layout seqs ++ skipn (Z.to_nat off) arr
  /\ off = Z.of_nat (length (layout seqs)).
Proof.
  intros Hall Hlen H. unfold seamVertexSequences in H.
  apply bind_Ok_inv in H as (num & Hnum & H).
  apply index_Ok_inv in Hnum as [Hr Hs]. cbn [Z.to_nat skipn] in Hs.
  rewrite (u32_small (0 + 1)) in H by ulia.
  apply sequences_from_sound in H as (Hn & Hfin & Hsk); [|assumption|lia].
  assert (Hnum : num = Z.of_nat (length seqs)).
  { rewrite Hn. rewrite Hs in Hall. apply Forall_inv in Hall. lia. }
  assert (Harr : arr = layout seqs ++ skipn (Z.to_nat off) arr).
  { unfold layout. rewrite <- Hnum. cbn [app]. rewrite <- Hsk.
    replace (Z.to_nat (0 + 1)) with 1%nat by lia. exact Hs. }
  split; [exact Harr|].
  apply (f_equal (@length Z)) in Harr. rewrite length_app, length_skipn in Harr. lia.
Qed.

Lemma seam_decoded_is_layout_witness :
  [2; 2; 1; 7; 8; 1; 0; 4; 99] = layout [([7; 8], 1); ([4], 0)] ++ skipn (Z.to_nat 8) [2; 2; 1; 7; 8; 1; 0; 4; 99]
  /\ 8 = Z.of_nat (length (layout [([7; 8], 1); ([4], 0)])).
Proof.
  apply (seam_decoded_is_layout [2; 2; 1; 7; 8; 1; 0; 4; 99]).
  - repeat constructor; unfold UINT32_MOD; lia.
  - vm_compute. reflexivity.
  - reflexivity.
Defined.

End SeamSound.
(** ** Seam files *)

Module SeamFileFacts.
Import Seam SeamFile SeamFileSpec OFF OFFSpec.

Lemma assign_app_here {A : Type} (pre post : list A) (x v : A) :
  assign (pre ++ x :: post) (Z.of_nat (length pre)) v = Ok (pre ++ v :: post).
Proof.
  unfold assign. destruct (Z.ltb_spec (Z.of_nat (length pre)) 0); [lia|].
  rewrite Nat2Z.id, set_nth_app_here. reflexivity.
Qed.

(** The loop over the sequences, as long as [j] does not wrap around. *)
Lemma stub_loop_spec (MC_TRUE : Z) : forall (seqs : list sequence) (done : list Z) (r : nat)
    (indices : list Z) (flags : list ascii),
  Z.of_nat (length done + length seqs) < UINT32_MOD ->
  stub_loop MC_TRUE seqs (Z.of_nat (length done)) (done ++ repeat 0 (length seqs + r))
    indices flags
  = Ok (done ++ map (fun s => u32 (Z.of_nat (length (fst s)))) seqs ++ repeat 0 r,
        indices ++ concat (map fst seqs),
        flags ++ flags_from MC_TRUE (length done) seqs).
Proof.
  induction seqs as [|s seqs IH]; intros done r indices flags Hlen.
  - cbn. rewrite !app_nil_r. reflexivity.
  - cbn [stub_loop length Nat.add repeat]. rewrite assign_app_here. cbn [bind].
    rewrite u32_small by (cbn [length] in Hlen; ulia).
    replace (Z.of_nat (length done) + 1) with (Z.of_nat (length (done ++ [u32 (Z.of_nat (length (fst s)))])))
      by (rewrite length_app; cbn [length]; lia).
    replace (done ++ u32 (Z.of_nat (length (fst s))) :: repeat 0 (length seqs + r))
      with ((done ++ [u32 (Z.of_nat (length (fst s)))]) ++ repeat 0 (length seqs + r))
      by (rewrite <- app_assoc; reflexivity).
    rewrite IH by (rewrite length_app; cbn [length] in *; lia).
    rewrite length_app. cbn [length map concat flags_from].
    replace (length done + 1)%nat with (S (length done)) by lia.
    unfold flag_text. rewrite <- !app_assoc. reflexivity.
Qed.

Lemma chunks_concat : forall (fs : list (list Z)),
  chunks (map (fun f => Z.of_nat (length f)) fs) (concat fs) = fs.
Proof.
  induction fs as [|f fs IH]; [reflexivity|].
  cbn [map chunks concat]. rewrite Nat2Z.id.
  rewrite firstn_app, Nat.sub_diag, firstn_all, firstn_O, app_nil_r.
  rewrite skipn_app, Nat.sub_diag, skipn_all, skipn_O. cbn [app]. rewrite IH. reflexivity.
Qed.

Lemma sumZ_lengths (fs : list (list Z)) :
  sumZ (map (fun f => Z.of_nat (length f)) fs) = Z.of_nat (length (concat fs)).
Proof.
  induction fs as [|f fs IH]; [reflexivity|].
  cbn [map concat]. rewrite length_app. unfold sumZ in *. cbn [fold_right]. lia.
Qed.

Lemma length_print_u_pos (n : Z) : (1 <= length (print_u n))%nat.
Proof. unfold print_u. rewrite length_rev. cbn [digits_rev length]. lia. Qed.

Lemma length_print_d_pos (z : Z) : (1 <= length (print_d z))%nat.
Proof.
  unfold print_d. destruct (z <? 0); cbn [length]; [lia|apply length_print_u_pos].
Qed.

Lemma length_digits_rev (fuel : nat) : forall (n : Z) (d : nat),
  0 <= n < 10 ^ Z.of_nat (S d) -> (length (digits_rev fuel n) <= S d)%nat.
Proof.
  induction fuel as [|fuel IH]; intros n d Hn; [cbn; lia|].
  cbn [digits_rev length].
  destruct (Z.eqb_spec (n / 10) 0) as [|Hq]; [cbn [length]; lia|].
  destruct d as [|d].
  - exfalso. apply Hq. apply Z.div_small. change (10 ^ Z.of_nat 1) with 10 in Hn. lia.
  - apply le_n_S, IH. split; [apply Z.div_pos; lia|].
    apply Z.div_lt_upper_bound; [lia|].
    rewrite (Nat2Z.inj_succ (S d)), Z.pow_succ_r in Hn by lia. lia.
Qed.

Lemma length_print_u_le (n : Z) : 0 <= n < UINT32_MOD -> (length (print_u n) <= 10)%nat.
Proof.
  intros Hn. unfold print_u. rewrite length_rev.
  apply (length_digits_rev _ n 9). change (10 ^ Z.of_nat 10) with 10000000000. ulia.
Qed.

Lemma length_print_d_le (z : Z) : INT_MIN <= z <= INT_MAX -> (length (print_d z) <= 11)%nat.
Proof.
  intros Hz. unfold print_d. destruct (Z.ltb_spec z 0); cbn [length].
  - apply le_n_S, length_print_u_le. ulia.
  - pose proof (length_print_u_le z). assert (0 <= z < UINT32_MOD) by ulia. lia.
Qed.

Lemma length_loop_suffix (MC_TRUE isLoop : Z) : length (loop_suffix MC_TRUE isLoop) = 7%nat.
Proof. unfold loop_suffix. destruct (_ =? _); reflexivity. Qed.

Lemma length_flags_from (MC_TRUE : Z) : forall (seqs : list sequence) (j : nat),
  (11 * length seqs <= length (flags_from MC_TRUE j seqs))%nat
  /\ (Z.of_nat (j + length seqs) <= UINT32_MOD ->
      (length (flags_from MC_TRUE j seqs) <= 20 * length seqs)%nat).
Proof.
  induction seqs as [|s seqs IH]; intros j; [cbn; lia|].
  cbn [flags_from length]. unfold flag_text.
  rewrite !length_app, length_loop_suffix. change (length (text "-id")) with 3%nat.
  destruct (IH (S j)) as [Hlo Hhi]. pose proof (length_print_u_pos (Z.of_nat j)).
  split; [lia|]. intros Hj.
  pose proof (length_print_u_le (Z.of_nat j)).
  assert (0 <= Z.of_nat j < UINT32_MOD) by lia.
  assert (Z.of_nat (S j + length seqs) <= UINT32_MOD) by lia. lia.
Qed.

(** Whatever the loop returns, it has appended at least eleven characters
    for each sequence to [flags_str], and it never aborts. *)
Lemma stub_loop_flags (MC_TRUE : Z) : forall (seqs : list sequence) (j : Z)
    (sizes indices : list Z) (flags : list ascii),
  match stub_loop MC_TRUE seqs j sizes indices flags with
  | Ok (_, _, flags') => (length flags + 11 * length seqs <= length flags')%nat
  | Undefined => True
  | _ => False
  end.
Proof.
  induction seqs as [|s seqs IH]; intros j sizes indices flags; cbn [stub_loop].
  - cbn [length]. lia.
  - unfold assign at 1. destruct (j <? 0); cbn [bind]; [exact I|].
    destruct (set_nth sizes (Z.to_nat j) _) as [sizes'|]; cbn [bind]; [|exact I].
    match goal with |- match stub_loop _ _ ?j' ?s' ?i' ?f' with _ => _ end =>
      specialize (IH j' s' i' f'); destruct (stub_loop MC_TRUE seqs j' s' i' f') as [[[? ?] fl]| | | |]
    end; try exact IH.
    rewrite !length_app, length_loop_suffix in IH.
    change (length (text "-id")) with 3%nat in IH.
    pose proof (length_print_u_pos j). cbn [length]. lia.
Qed.

(** X2: for sequences whose file name fits its buffer, the seam file holds
    the header, the counts [0 n 0], and one line per sequence: the number
    of its vertices, then its vertex indices. *)
Theorem seam_file_lists_sequences (MC_TRUE : Z) (i : Z) (seqs : list sequence) :
  Z.of_nat (length (seam_file_name MC_TRUE i seqs)) < 1024 ->
  Z.of_nat (length (concat (map fst seqs))) <= INT_MAX ->
  seam_file MC_TRUE true i seqs
  = Ok (seam_file_name MC_TRUE i seqs,
        text "OFF" ++ LF ::
        text "0" ++ " "%char :: print_d (Z.of_nat (length seqs)) ++ " "%char :: text "0" ++ LF ::
        flat_map face_line (map fst seqs)).
Proof.
  intros Hname Htotal.
  assert (Hn : (length seqs <= 93)%nat).
  { unfold seam_file_name in Hname. rewrite !length_app in Hname.
    pose proof (proj1 (length_flags_from MC_TRUE seqs 0)). lia. }
  unfold seam_file.
  rewrite u32_small by ulia. rewrite Nat2Z.id.
  pose proof (stub_loop_spec MC_TRUE seqs [] 0 [] []) as Hloop.
  cbn [length app Nat.add Z.of_nat] in Hloop. rewrite Nat.add_0_r in Hloop.
  rewrite Hloop by ulia. clear Hloop. cbn [bind repeat]. rewrite app_nil_r.
  fold (seam_file_name MC_TRUE i seqs).
  unfold sprintf_into. destruct (Z.ltb_spec (Z.of_nat (length (seam_file_name MC_TRUE i seqs))) 1024);
    [|lia]. cbn [bind].
  assert (Hsizes : map (fun s : list Z * Z => u32 (Z.of_nat (length (fst s)))) seqs
                   = map (fun f => Z.of_nat (length f)) (map fst seqs)).
  { rewrite map_map. apply map_ext_in. intros s Hs. apply u32_small.
    split; [lia|]. apply in_split in Hs as (a & b & ->).
    rewrite map_app, concat_app, length_app in Htotal. cbn [map concat] in Htotal.
    rewrite length_app in Htotal. ulia. }
  rewrite Hsizes. set (fs := map fst seqs) in *.
  set (sizes := map (fun f => Z.of_nat (length f)) fs).
  assert (Hlen : length sizes = length seqs).
  { unfold sizes, fs. rewrite !length_map. reflexivity. }
  unfold writeOFF. cbn [negb].
  change (to_int 0) with 0. cbn [Z.to_nat write_vertices write_edges bind].
  rewrite Hlen, u32_small by ulia. rewrite to_int_small by ulia. rewrite Nat2Z.id.
  pose proof (WriteFacts.write_faces_lines (concat fs) (Some sizes) sizes 0 0) as Hw.
  cbn [Z.of_nat Nat.add skipn] in Hw. rewrite Hlen in Hw. rewrite Hw.
  - cbn [bind]. unfold sizes. rewrite chunks_concat. cbn [app].
    change (print_d 0) with (text "0"). rewrite app_nil_r. reflexivity.
  - intros k Hk. apply WriteFacts.index_nth. lia.
  - unfold sizes. apply Forall_forall. intros x Hx. apply in_map_iff in Hx as (f & <- & _). lia.
  - unfold sizes. rewrite sumZ_lengths. lia.
  - unfold sizes. rewrite sumZ_lengths. lia.
Qed.

Lemma seam_file_lists_sequences_witness :
  seam_file 1 true 0 [([7; 8], 1); ([4], 0)]
  = Ok (text "frag-0-seam-vertices-id0_isLOOP-id1_isOPEN.txt",
        text "OFF" ++ LF :: text "0 2 0" ++ LF :: text "2 7 8" ++ LF :: text "1 4" ++ [LF]).
Proof.
  apply (seam_file_lists_sequences 1 0 [([7; 8], 1); ([4], 0)]).
  - vm_compute. reflexivity.
  - vm_compute. discriminate.
Defined.

(** X3: the buffer of 1024 characters that receives the name of the seam
    file holds it for up to 49 sequences, and is overrun for 91 sequences
    or more. *)
Theorem seam_file_name_buffer (MC_TRUE : Z) (writable : bool) (i : Z) (seqs : list sequence) :
  ((length seqs <= 49)%nat -> INT_MIN <= i <= INT_MAX ->
   sprintf_into 1024 (seam_file_name MC_TRUE i seqs) = Ok (seam_file_name MC_TRUE i seqs))
  /\ ((91 <= length seqs)%nat -> seam_file MC_TRUE writable i seqs = Undefined).
Proof.
  split.
  - intros Hn Hi. unfold sprintf_into.
    destruct (Z.ltb_spec (Z.of_nat (length (seam_file_name MC_TRUE i seqs))) 1024) as [|Hge];
      [reflexivity|].
    exfalso. unfold seam_file_name in Hge. rewrite !length_app in Hge.
    pose proof (length_print_d_le i Hi).
    destruct (length_flags_from MC_TRUE seqs 0) as [_ Hhi].
    assert (Z.of_nat (0 + length seqs) <= UINT32_MOD) by ulia.
    specialize (Hhi H0).
    change (length (text "frag-")) with 5%nat in Hge.
    change (length (text "-seam-vertices")) with 14%nat in Hge.
    change (length (text ".txt")) with 4%nat in Hge. lia.
  - intros Hn. unfold seam_file.
    pose proof (stub_loop_flags MC_TRUE seqs 0
                  (repeat 0 (Z.to_nat (u32 (Z.of_nat (length seqs))))) [] []) as Hl.
    destruct (stub_loop MC_TRUE seqs 0 _ [] []) as [[[sizes indices] flags]| | | |];
      try contradiction; [|reflexivity].
    cbn [bind]. unfold sprintf_into. rewrite !length_app.
    pose proof (length_print_d_pos i). cbn [length] in Hl.
    change (length (text "frag-")) with 5%nat.
    change (length (text "-seam-vertices")) with 14%nat.
    change (length (text ".txt")) with 4%nat.
    match goal with |- context [?a <? 1024] => destruct (Z.ltb_spec a 1024) as [Hlt|] end;
      [lia|reflexivity].
Qed.

Lemma seam_file_name_buffer_witness :
  sprintf_into 1024 (seam_file_name 1 3 [([7; 8], 1); ([4], 0)])
  = Ok (seam_file_name 1 3 [([7; 8], 1); ([4], 0)])
  /\ seam_file 1 true 3 (repeat ([], 0) 91) = Undefined.
Proof.
  split.
  - apply (seam_file_name_buffer 1 true 3 [([7; 8], 1); ([4], 0)]).
    + cbn [length]. lia.
    + unfold INT_MIN, INT_MAX. lia.
  - apply (seam_file_name_buffer 1 true 3 (repeat ([], 0) 91)).
    rewrite repeat_length. lia.
Defined.

(** X4: the buffer of 32 characters always holds the name of a fragment
    file, so that the fragment file is what [writeOFF] writes. *)
Theorem fragment_file_name_fits (writable : bool) (i : Z) (vertices : list double)
    (triangleIndices : list Z) (numberOfVertices numberOfTriangles : Z) :
  INT_MIN <= i <= INT_MAX ->
  fragment_file writable i vertices triangleIndices numberOfVertices numberOfTriangles
  = (bytes <- writeOFF writable vertices triangleIndices None []
                numberOfVertices numberOfTriangles 0 ;;
     Ok (text "frag-" ++ print_d i ++ text ".off", bytes)).
Proof.
  intros Hi. unfold fragment_file, sprintf_into. rewrite !length_app.
  pose proof (length_print_d_le i Hi).
  change (length (text "frag-")) with 5%nat. change (length (text ".off")) with 4%nat.
  match goal with |- context [?a <? 32] => destruct (Z.ltb_spec a 32) end; [reflexivity|lia].
Qed.

Lemma fragment_file_name_fits_witness :
  fragment_file true (-2147483648) [] [0; 1; 2] 0 1
  = Ok (text "frag--2147483648.off", text "OFF" ++ LF :: text "0 1 0" ++ LF :: text "3 0 1 2" ++ [LF]).
Proof.
  rewrite (fragment_file_name_fits true (-2147483648) [] [0; 1; 2] 0 1).
  - reflexivity.
  - unfold INT_MIN, INT_MAX. lia.
Defined.

End SeamFileFacts.
(** ** getline: the source's definition against the line-by-line view *)

Module StreamFacts.
Import StreamSpec.

Lemma length_buffer (w old : list ascii) (k : nat) :
  length (buffer w old k) = (length w + (length old - length w) + k)%nat.
Proof.
  unfold buffer. rewrite length_app, length_map, length_app, length_skipn, repeat_length.
  reflexivity.
Qed.

Lemma realloc_buffer (w old : list ascii) (k : nat) (new_size : Z) :
  Z.of_nat (length (buffer w old k)) <= new_size ->
  Stream.realloc (buffer w old k) new_size
  = buffer w old (k + (Z.to_nat new_size - length (buffer w old k))).
Proof.
  intros Hn. unfold Stream.realloc. rewrite firstn_all2 by lia.
  unfold buffer at 1 3. rewrite repeat_app, app_assoc. reflexivity.
Qed.

(** The test that precedes every write leaves room for the character and
    for the [NUL] that ends the line. *)
Lemma grow_buffer (w old : list ascii) (k : nat) (n M : Z) :
  n = Z.of_nat (length (buffer w old k)) ->
  Z.of_nat (length w) <= n ->
  n <= M -> 128 <= M -> 2 * (Z.of_nat (length w) + 1) <= M -> 2 * M < Stream.SIZE_MOD ->
  exists k',
    Stream.grow (buffer w old k) n (Z.of_nat (length w))
    = (buffer w old k', Z.of_nat (length (buffer w old k')))
    /\ Z.of_nat (length w) + 1 < Z.of_nat (length (buffer w old k'))
    /\ Z.of_nat (length (buffer w old k')) <= M.
Proof.
  intros Hn Hw HnM HM HwM HS. unfold Stream.grow.
  rewrite (Z.mod_small (Z.of_nat (length w) + 1)) by lia.
  destruct (Z.leb_spec n (Z.of_nat (length w) + 1)) as [Hle|Hgt].
  - rewrite Z.shiftr_div_pow2 by lia. change (2 ^ 2) with 4.
    assert (0 <= n) by lia.
    assert (0 <= n / 4 <= n) by (Z.div_mod_to_equations; lia).
    rewrite (Z.mod_small (n + n / 4)) by lia.
    set (new_size := if n + n / 4 <? 128 then 128 else n + n / 4).
    assert (Hnew : n <= new_size /\ Z.of_nat (length w) + 1 < new_size /\ new_size <= M).
    { unfold new_size. destruct (Z.ltb_spec (n + n / 4) 128) as [Hs|Hs];
        Z.div_mod_to_equations; lia. }
    exists (k + (Z.to_nat new_size - length (buffer w old k)))%nat.
    rewrite realloc_buffer by lia.
    assert (Hl : Z.of_nat (length (buffer w old (k + (Z.to_nat new_size - length (buffer w old k)))))
                 = new_size).
    { rewrite !length_buffer in *. lia. }
    rewrite Hl. conjs; [reflexivity|lia|lia].
  - exists k. rewrite <- Hn. conjs; [reflexivity|lia|lia].
Qed.

(** A write at the position behind [w]. *)
Lemma store_buffer (w old : list ascii) (k : nat) (c : ascii) :
  (length w < length (buffer w old k))%nat ->
  exists k',
    store (buffer w old k) (Z.of_nat (length w)) c = Ok (buffer (w ++ [c]) old k')
    /\ length (buffer (w ++ [c]) old k') = length (buffer w old k).
Proof.
  intros Hlt. unfold store. destruct (Z.ltb_spec (Z.of_nat (length w)) 0); [lia|].
  rewrite Nat2Z.id. unfold buffer at 1. rewrite map_app, <- app_assoc.
  rewrite length_buffer in Hlt.
  destruct (skipn (length w) old) as [|y tl] eqn:E.
  - assert (length old <= length w)%nat.
    { apply (f_equal (@length ascii)) in E. rewrite length_skipn in E. cbn in E. lia. }
    destruct k as [|k]; [lia|]. exists k.
    cbn [map app repeat].
    rewrite <- (length_map Some w) at 1. rewrite set_nth_app_here.
    split.
    + unfold buffer. rewrite length_app. cbn [length].
      rewrite skipn_all2 by lia. rewrite app_nil_r, map_app, <- app_assoc. reflexivity.
    + rewrite !length_buffer, length_app. cbn [length]. lia.
  - exists k. cbn [map app].
    rewrite <- (length_map Some w) at 1. rewrite set_nth_app_here.
    assert (Htl : skipn (length (w ++ [c])) old = tl).
    { rewrite length_app. cbn [length]. rewrite Nat.add_1_r.
      eapply WriteFacts.skipn_S_tail; eassumption. }
    split.
    + unfold buffer. rewrite Htl, !map_app, <- !app_assoc. reflexivity.
    + unfold buffer. rewrite Htl, E, !length_app, !length_map, !length_app. cbn [length]. lia.
Qed.

(** The loop of [getline] stores the first line of the stream behind [w]
    and stops behind that line. *)
Lemma fill_line : forall (stream : list ascii) (c : ascii) (w old : list ascii) (k : nat)
    (n M : Z),
  n = Z.of_nat (length (buffer w old k)) ->
  Z.of_nat (length w) <= n ->
  n <= M -> 128 <= M -> 2 * Z.of_nat (length w + length stream + 1) <= M ->
  2 * M < Stream.SIZE_MOD ->
  exists l ls rest k',
    split_lines (c :: stream) = l :: ls
    /\ split_lines rest = ls
    /\ Stream.fill c stream (buffer w old k) n (Z.of_nat (length w))
       = Ok (buffer (w ++ l) old k', Z.of_nat (length (buffer (w ++ l) old k')),
             Z.of_nat (length (w ++ l)), rest)
    /\ (length (w ++ l) < length (buffer (w ++ l) old k'))%nat
    /\ Z.of_nat (length (buffer (w ++ l) old k')) <= M.
Proof.
  induction stream as [|c' stream IH]; intros c w old k n M Hn Hw HnM HM HT HS.
  - destruct (grow_buffer w old k n M Hn Hw HnM HM ltac:(cbn [length] in HT; lia) HS)
      as (k1 & Hg & Hroom & HM1).
    destruct (store_buffer w old k1 c ltac:(lia)) as (k2 & Hst & Hlen).
    exists [c], [], [], k2. cbn [Stream.fill]. rewrite Hg, Hst. cbn [bind].
    rewrite Hlen. rewrite (Z.mod_small (Z.of_nat (length w) + 1)) by lia.
    rewrite length_app. cbn [length]. rewrite Nat2Z.inj_add. change (Z.of_nat 1) with 1.
    conjs.
    + cbn [split_lines]. destruct (Ascii.eqb c LF); reflexivity.
    + reflexivity.
    + destruct (Ascii.eqb c LF); reflexivity.
    + lia.
    + lia.
  - destruct (grow_buffer w old k n M Hn Hw HnM HM ltac:(cbn [length] in HT; lia) HS)
      as (k1 & Hg & Hroom & HM1).
    destruct (store_buffer w old k1 c ltac:(lia)) as (k2 & Hst & Hlen).
    destruct (Ascii.eqb c LF) eqn:Ec.
    + exists [c], (split_lines (c' :: stream)), (c' :: stream), k2.
      cbn [Stream.fill]. rewrite Hg, Hst. cbn [bind]. rewrite Ec, Hlen.
      rewrite (Z.mod_small (Z.of_nat (length w) + 1)) by lia.
      rewrite length_app. cbn [length]. rewrite Nat2Z.inj_add. change (Z.of_nat 1) with 1.
      conjs; try lia; try reflexivity.
      change (split_lines (c :: c' :: stream))
        with (if Ascii.eqb c LF then [c] :: split_lines (c' :: stream)
              else match split_lines (c' :: stream) with
                   | [] => [[c]]
                   | l :: ls => (c :: l) :: ls
                   end).
      rewrite Ec. reflexivity.
    + destruct (IH c' (w ++ [c]) old k2 (Z.of_nat (length (buffer (w ++ [c]) old k2))) M)
        as (l & ls & rest & k3 & Hsplit & Hrest & Hfill & Hroom3 & HM3);
        try assumption; try reflexivity.
      * rewrite Hlen, length_app. cbn [length]. lia.
      * rewrite Hlen. lia.
      * rewrite length_app. cbn [length] in *. lia.
      * exists (c :: l), ls, rest, k3.
        replace (w ++ c :: l) with ((w ++ [c]) ++ l) by (rewrite <- app_assoc; reflexivity).
        conjs; try assumption.
        -- change (split_lines (c :: c' :: stream))
             with (if Ascii.eqb c LF then [c] :: split_lines (c' :: stream)
                   else match split_lines (c' :: stream) with
                        | [] => [[c]]
                        | l :: ls => (c :: l) :: ls
                        end).
           rewrite Ec, Hsplit. reflexivity.
        -- cbn [Stream.fill]. rewrite Hg, Hst. cbn [bind]. rewrite Ec.
           rewrite (Z.mod_small (Z.of_nat (length w) + 1)) by lia.
           rewrite Hlen in Hfill.
           replace (Z.of_nat (length w) + 1) with (Z.of_nat (length (w ++ [c])))
             by (rewrite length_app; cbn [length]; lia).
           exact Hfill.
Qed.

(** X5: [getline] as the source defines it, on a buffer whose capacity is
    [*n], agrees with the line-by-line view that the readers are stated
    in: same return value, same bytes in the written part of the buffer,
    the stream left at the start of the next line.  It never writes
    outside the buffer, and [*n] stays the capacity. *)
Theorem getline_refines (lineptr : linebuf) (k : nat) (n : Z) (bytes : list ascii)
    (ret : Z) (line' : linebuf) (file' : FILE) :
  match lineptr with
  | Some old => n = Z.of_nat (length old + k)
  | None => 0 <= n
  end ->
  2 * (n + 2 * Z.of_nat (length bytes) + 128) < Stream.SIZE_MOD ->
  getline lineptr (fopen bytes) = (ret, line', file') ->
  exists (k' : nat) (n' : Z) (rest : list ascii),
    Stream.getline (option_map (fun old => buffer [] old k) lineptr) n bytes
    = Ok (ret, option_map (fun new => buffer [] new k') line', n', rest)
    /\ fopen rest = file'
    /\ match line' with
       | Some new => n' = Z.of_nat (length new + k')
       | None => n' = n
       end.
Proof.
  intros Hcap Hbound Habs. unfold fopen in *.
  destruct bytes as [|c stream].
  - cbn in Habs. injection Habs as <- <- <-.
    exists k, n, []. cbn. conjs; try reflexivity.
    destruct lineptr; [exact Hcap|reflexivity].
  - set (old := match lineptr with Some b => b | None => [] end).
    set (k0 := match lineptr with Some _ => k | None => 128%nat end).
    set (n0 := match lineptr with Some _ => n | None => 128 end).
    assert (Hbuf : (let '(buf, n) := match option_map (fun old => buffer [] old k) lineptr with
                                     | None => (malloc 128, 128)
                                     | Some buf => (buf, n)
                                     end in (buf, n)) = (buffer [] old k0, n0)).
    { destruct lineptr; reflexivity. }
    assert (Hn0 : n0 = Z.of_nat (length (buffer [] old k0))).
    { rewrite length_buffer. cbn [length]. unfold n0, k0, old.
      destruct lineptr; cbn [length]; lia. }
    assert (Hn0' : 0 <= n0) by lia.
    assert (Hn0M : n0 <= n + 128).
    { unfold n0. destruct lineptr; lia. }
    assert (Hnn : 0 <= n) by (destruct lineptr; lia).
    destruct (fill_line stream c [] old k0 n0
                (n + 2 * Z.of_nat (length (c :: stream)) + 128))
      as (l & ls & rest & k1 & Hsplit & Hrest & Hfill & Hroom & HM);
      [exact Hn0|cbn [length]; lia|lia|lia|cbn [length]; lia|exact Hbound|].
    cbn [app] in Hfill, Hroom.
    destruct (store_buffer l old k1 NUL Hroom) as (k2 & Hst & Hlen).
    unfold getline in Habs. rewrite Hsplit in Habs. injection Habs as <- <- <-.
    exists k2, (Z.of_nat (length (buffer l old k1))), rest.
    conjs.
    + unfold Stream.getline.
      destruct (match option_map (fun old0 => buffer [] old0 k) lineptr with
                | Some buf => (buf, n)
                | None => (malloc 128, 128)
                end) as [b m] eqn:Eb.
      injection Hbuf as -> ->. change (Z.of_nat (@length ascii [])) with 0 in Hfill.
      rewrite Hfill. cbn [bind]. rewrite Hst. cbn [bind option_map].
      do 4 f_equal. unfold buffer. cbn [length skipn app].
      rewrite length_app. cbn [length]. rewrite Nat.add_1_r, <- app_assoc. reflexivity.
    + exact Hrest.
    + change (Z.of_nat (length (buffer l old k1))
              = Z.of_nat (length (l ++ NUL :: skipn (S (length l)) old) + k2)).
      rewrite <- Hlen. unfold buffer.
      rewrite length_app, length_map, repeat_length, !length_app. cbn [length].
      rewrite Nat.add_1_r. lia.
Qed.

Lemma getline_refines_witness :
  exists (k' : nat) (n' : Z) (rest : list ascii),
    Stream.getline (option_map (fun old => buffer [] old 1) (Some (text "abcdef")))
      7 (text "xy" ++ LF :: text "z")
    = Ok (3, option_map (fun new => buffer [] new k')
               (Some (text "xy" ++ LF :: NUL :: text "ef")), n', rest)
    /\ fopen rest = [text "z"]
    /\ n' = Z.of_nat (length (text "xy" ++ LF :: NUL :: text "ef") + k').
Proof.
  apply (getline_refines (Some (text "abcdef")) 1 7 (text "xy" ++ LF :: text "z")).
  - reflexivity.
  - vm_compute. reflexivity.
  - reflexivity.
Defined.

End StreamFacts.
(** ** readOFF: error reports, blank lines and comments *)

Module ReadErrors.
Import OFF OFFSpec.

Lemma fatal_in_bind {A B : Type} (P : string -> Prop) (m : outcome A) (k : A -> outcome B) :
  fatal_in P m -> (forall a, m = Ok a -> fatal_in P (k a)) -> fatal_in P (bind m k).
Proof.
  intros Hm Hk msg H. apply bind_Fatal_inv in H as [H|(a & Ha & H)].
  - exact (Hm msg H).
  - exact (Hk a Ha msg H).
Qed.

Lemma fatal_in_weaken {A : Type} (P Q : string -> Prop) (m : outcome A) :
  (forall msg, P msg -> Q msg) -> fatal_in P m -> fatal_in Q m.
Proof. intros HPQ Hm msg H. apply HPQ, (Hm msg H). Qed.

Lemma cstr_silent (P : string -> Prop) (buf : list ascii) : fatal_in P (cstr buf).
Proof.
  induction buf as [|c buf IH]; cbn [cstr]; [discriminate|].
  destruct (Ascii.eqb c NUL); [discriminate|].
  apply fatal_in_bind; [exact IH|discriminate].
Qed.

Lemma line_string_silent (P : string -> Prop) (line : linebuf) : fatal_in P (line_string line).
Proof. destruct line; [apply cstr_silent|discriminate]. Qed.

Lemma int_val_silent (P : string -> Prop) (z : Z) : fatal_in P (int_val z).
Proof. unfold int_val. destruct (in_int z); discriminate. Qed.

Lemma store_silent {A : Type} (P : string -> Prop) (a : array A) (i : Z) (v : A) :
  fatal_in P (store a i v).
Proof. unfold store. destruct (i <? 0); [|destruct (set_nth _ _ _)]; discriminate. Qed.

Lemma sscanf_d_silent (P : string -> Prop) (s : list ascii) : fatal_in P (sscanf_d s).
Proof. unfold sscanf_d. destruct (scan_d s); discriminate. Qed.

Lemma sscanf_lf_silent (P : string -> Prop) (n : nat) : forall s, fatal_in P (sscanf_lf n s).
Proof.
  induction n as [|n IH]; intros s; cbn [sscanf_lf]; [discriminate|].
  destruct (scan_lf s); try discriminate.
  apply fatal_in_bind; [apply IH|]. intros [? ?] _. discriminate.
Qed.

Lemma sscanf_counts_silent (P : string -> Prop) (s : list ascii) (a b : Z) :
  fatal_in P (sscanf_counts s a b).
Proof.
  unfold sscanf_counts.
  destruct (scan_d s) as [v r1| | | |]; try discriminate.
  destruct (scan_d r1) as [f r2| | | |]; try discriminate.
  destruct (scan_d r2); discriminate.
Qed.

Lemma readLine_silent (P : string -> Prop) : forall (file : FILE) (line : linebuf),
  fatal_in P (readLine file line).
Proof.
  induction file as [|l file IH]; intros line; cbn [readLine getline].
  - cbn [Z.eqb]. destruct line as [buf|]; [|discriminate].
    apply fatal_in_bind; [apply cstr_silent|]. intros s _.
    destruct (_ && _); discriminate.
  - destruct (_ =? 0); [discriminate|].
    apply fatal_in_bind; [apply cstr_silent|]. intros s _.
    destruct (_ && _); [discriminate|apply IH].
Qed.

(** What [readLine] leaves of the file is a part of it. *)
Lemma readLine_rest (Q : list ascii -> Prop) : forall (file : FILE) (line : linebuf)
    lineOk line' file',
  readLine file line = Ok (lineOk, line', file') -> Forall Q file -> Forall Q file'.
Proof.
  induction file as [|l file IH]; intros line lineOk line' file' H HQ.
  - cbn [readLine getline] in H. cbn [Z.eqb] in H.
    destruct line as [buf|]; [|discriminate].
    destruct (cstr buf); try discriminate. cbn [bind] in H.
    destruct (_ && _); [|discriminate]. injection H as _ _ <-. constructor.
  - inversion HQ as [|? ? _ HQ']; subst. cbn [readLine getline] in H.
    destruct (_ =? 0); [injection H as _ _ <-; exact HQ'|].
    destruct (cstr _); try discriminate. cbn [bind] in H.
    destruct (_ && _).
    + injection H as _ _ <-. exact HQ'.
    + eapply IH; eassumption.
Qed.

Ltac read_line E :=
  match goal with
  | |- fatal_in _ (bind (readLine ?f ?l) _) =>
      apply fatal_in_bind; [apply readLine_silent|];
      intros [[? ?] ?] E
  end.

Ltac silent_case :=
  exfalso;
  match goal with
  | E : int_val _ = Fatal ?m |- _ => exact (int_val_silent (fun _ => False) _ m E)
  | E : store _ _ _ = Fatal ?m |- _ => exact (store_silent (fun _ => False) _ _ _ m E)
  | E : readLine _ _ = Fatal ?m |- _ => exact (readLine_silent (fun _ => False) _ _ m E)
  | E : line_string _ = Fatal ?m |- _ => exact (line_string_silent (fun _ => False) _ m E)
  | E : sscanf_lf _ _ = Fatal ?m |- _ => exact (sscanf_lf_silent (fun _ => False) _ _ m E)
  end.

Lemma read_vertices_reports (P : string -> Prop) : forall (count : nat) (i : Z) (file : FILE)
    (line : linebuf) (a : array double),
  Forall (fun l => l <> []) file ->
  fatal_in P (read_vertices count i file line a)
  /\ (forall file' line' a',
         read_vertices count i file line a = Ok (file', line', a') ->
         Forall (fun l => l <> []) file').
Proof.
  induction count as [|count IH]; intros i file line a Hne; cbn [read_vertices].
  - split; [discriminate|]. intros ? ? ? H. injection H as <- _ _. exact Hne.
  - destruct (readLine file line) as [[[lineOk line1] file1]| | | |] eqn:ER; cbn [bind];
      try silent_case; try (split; discriminate).
    pose proof (ReadFacts.readLine_true _ _ _ _ _ Hne ER) as ->.
    pose proof (readLine_rest _ _ _ _ _ _ ER Hne) as Hne1. cbn [negb].
    destruct (line_string line1) as [s| | | |] eqn:ES; cbn [bind];
      try silent_case; try (split; discriminate).
    destruct (sscanf_lf 3 s) as [[n xyz]| | | |] eqn:EL; cbn [bind];
      try silent_case; try (split; discriminate).
    destruct xyz as [|x [|y [|z [|]]]]; try (split; discriminate).
    repeat match goal with
    | |- context [bind (int_val ?z) _] =>
        let E := fresh "E" in
        destruct (int_val z) eqn:E; cbn [bind];
        try silent_case; try (split; discriminate)
    | |- context [bind (store ?b ?j ?v) _] =>
        let E := fresh "E" in
        destruct (store b j v) eqn:E; cbn [bind];
        try silent_case; try (split; discriminate)
    end.
    apply IH. exact Hne1.
Qed.

Lemma read_face_sizes_reports : forall (count : nat) (i : Z) (file : FILE)
    (line : linebuf) (a : array Z) (total : Z),
  Forall (fun l => l <> []) file ->
  fatal_in (fun msg => msg = "error: invalid vertex count in file"%string)
    (read_face_sizes count i file line a total).
Proof.
  induction count as [|count IH]; intros i file line a total Hne; cbn [read_face_sizes].
  - discriminate.
  - read_line ER.
    pose proof (ReadFacts.readLine_true _ _ _ _ _ Hne ER) as ->.
    pose proof (readLine_rest _ _ _ _ _ _ ER Hne) as Hne1. cbn [negb].
    apply fatal_in_bind; [apply line_string_silent|]. intros s _.
    apply fatal_in_bind; [apply sscanf_d_silent|]. intros [n rest] _.
    destruct (n <? 3).
    + intros msg H. injection H as <-. reflexivity.
    + apply fatal_in_bind; [apply store_silent|]. intros a1 _.
      apply fatal_in_bind; [apply int_val_silent|]. intros t1 _.
      apply fatal_in_bind; [apply int_val_silent|]. intros i1 _.
      apply IH. exact Hne1.
Qed.

Lemma read_face_indices_silent (P : string -> Prop) : forall (count : nat) (j : Z)
    (s : list ascii) (off : Z) (a : array Z),
  fatal_in P (read_face_indices count j s off a).
Proof.
  induction count as [|count IH]; intros j s off a; cbn [read_face_indices].
  - discriminate.
  - destruct (strstr s _); [|discriminate].
    apply fatal_in_bind; [apply sscanf_d_silent|]. intros [val rest] _.
    apply fatal_in_bind; [apply int_val_silent|]. intros k _.
    apply fatal_in_bind; [apply store_silent|]. intros a1 _. apply IH.
Qed.

Lemma read_faces_silent (P : string -> Prop) : forall (count : nat) (i : Z) (file : FILE)
    (line : linebuf) (off : Z) (a : array Z),
  Forall (fun l => l <> []) file ->
  fatal_in P (read_faces count i file line off a).
Proof.
  induction count as [|count IH]; intros i file line off a Hne; cbn [read_faces].
  - discriminate.
  - read_line ER.
    pose proof (ReadFacts.readLine_true _ _ _ _ _ Hne ER) as ->.
    pose proof (readLine_rest _ _ _ _ _ _ ER Hne) as Hne1. cbn [negb].
    apply fatal_in_bind; [apply line_string_silent|]. intros s _.
    apply fatal_in_bind; [apply sscanf_d_silent|]. intros [n rest] _.
    apply fatal_in_bind; [apply read_face_indices_silent|]. intros a1 _.
    apply fatal_in_bind; [apply int_val_silent|]. intros o1 _.
    apply fatal_in_bind; [apply int_val_silent|]. intros i1 _.
    apply IH. exact Hne1.
Qed.

(** X6: the only error reports of [readOFF] are a file that cannot be
    opened, a header without [OFF], a face with fewer than three vertices,
    and an [fseek] that fails, which is reported only on a stream that
    cannot be moved back to the first face line.  A missing header, count
    line, vertex line or face line is never reported: [readLine] does not
    return [false]. *)
Theorem readOFF_error_reports (seek_ok : bool) (contents : option (list ascii))
    (numVertices0 numFaces0 : Z) (msg : string) :
  readOFF_on seek_ok contents numVertices0 numFaces0 = Fatal msg ->
  (contents = None /\ msg = "error: failed to open"%string)
  \/ (contents <> None
      /\ (msg = "error: unrecognised .off file header"%string
          \/ msg = "error: invalid vertex count in file"%string
          \/ (seek_ok = false /\ msg = "error: fseek failed"%string))).
Proof.
  destruct contents as [bytes|]; cbn [readOFF_on].
  2:{ intros H. injection H as <-. left. split; reflexivity. }
  intros H. right. split; [discriminate|]. revert msg H.
  change (fatal_in (fun msg => msg = "error: unrecognised .off file header"%string
                               \/ msg = "error: invalid vertex count in file"%string
                               \/ (seek_ok = false
                                   /\ msg = "error: fseek failed"%string))
            (readOFF_on seek_ok (Some bytes) numVertices0 numFaces0)).
  cbn [readOFF_on]. pose proof (ReadFacts.split_lines_nonempty bytes) as Hne.
  unfold fopen. set (file := split_lines bytes) in *. clearbody file.
  read_line ER.
  pose proof (ReadFacts.readLine_true _ _ _ _ _ Hne ER) as ->.
  pose proof (readLine_rest _ _ _ _ _ _ ER Hne) as Hne1. cbn [negb].
  apply fatal_in_bind; [apply line_string_silent|]. intros s _.
  destruct (strstr s _).
  2:{ intros msg H. injection H as <-. left. reflexivity. }
  read_line ER2.
  pose proof (ReadFacts.readLine_true _ _ _ _ _ Hne1 ER2) as ->.
  pose proof (readLine_rest _ _ _ _ _ _ ER2 Hne1) as Hne2. cbn [negb].
  apply fatal_in_bind; [apply line_string_silent|]. intros s2 _.
  apply fatal_in_bind; [apply sscanf_counts_silent|]. intros [nv nf] _.
  match goal with |- fatal_in _ (bind (read_vertices ?c ?i ?f ?l ?a) _) =>
    destruct (read_vertices_reports (fun _ => False) c i f l a Hne2) as [Hv Hvf];
    apply fatal_in_bind; [eapply fatal_in_weaken; [|exact Hv]; contradiction|]
  end.
  intros [[file3 line3] pv] EV. apply Hvf in EV.
  apply fatal_in_bind.
  { eapply fatal_in_weaken; [|apply read_face_sizes_reports; exact EV].
    intros m ->. right. left. reflexivity. }
  intros [[[file4 line4] ps] total] _.
  destruct seek_ok; cbn [negb].
  2:{ intros msg H. injection H as <-. right. right. split; reflexivity. }
  apply fatal_in_bind; [apply read_faces_silent; exact EV|].
  intros [[file5 line5] pi] _. discriminate.
Qed.

Lemma readOFF_error_reports_witness :
  (Some (unlines ["OFF"; "0 0 0"]%string) = None
   /\ "error: fseek failed"%string = "error: failed to open"%string)
  \/ (Some (unlines ["OFF"; "0 0 0"]%string) <> None
      /\ ("error: fseek failed"%string = "error: unrecognised .off file header"%string
          \/ "error: fseek failed"%string = "error: invalid vertex count in file"%string
          \/ (false = false /\ "error: fseek failed"%string = "error: fseek failed"%string))).
Proof.
  apply (readOFF_error_reports false (Some (unlines ["OFF"; "0 0 0"]%string)) 0 0).
  reflexivity.
Defined.

(** *** Blank lines and comments *)

Lemma ignored_inv (c : list ascii) :
  ignored c = true ->
  c <> []
  /\ forallb (fun x => negb (Ascii.eqb x NUL)) c = true
  /\ (1 <? Z.of_nat (length c)) && negb (Ascii.eqb (hd NUL c) "#") = false.
Proof.
  unfold ignored. destruct c as [|x c]; [discriminate|]. intros H.
  apply andb_true_iff in H as [Hn Hr]. apply negb_true_iff in Hr.
  conjs; [discriminate|exact Hn|exact Hr].
Qed.

(** [readLine] passes over a blank line or a comment. *)
Lemma readLine_ignored (c : list ascii) (file : FILE) (line : linebuf) :
  ignored c = true ->
  exists buf,
    readLine (c :: file) line = readLine file (Some buf)
    /\ cstr buf = Ok c.
Proof.
  intros H. apply ignored_inv in H as (Hne & Hnul & Hrej).
  eexists. split.
  - cbn [readLine getline].
    destruct (Z.eqb_spec (Z.of_nat (length c)) 0) as [E|_].
    { destruct c; [congruence|cbn [length] in E; lia]. }
    rewrite (ReadFacts.cstr_app_nul _ _ Hnul). cbn [bind]. rewrite Hrej. reflexivity.
  - apply ReadFacts.cstr_app_nul, Hnul.
Qed.





(** [readLine] returns the first line that is not blank and not a
    comment. *)
Lemma readLine_skips (l : list ascii) (rest : FILE) : forall (skipped : FILE) (line : linebuf),
  Forall (fun c => ignored c = true) skipped ->
  accepted l = true ->
  exists buf,
    readLine (skipped ++ l :: rest) line = Ok (true, Some buf, rest)
    /\ line_string (Some buf) = Ok l.
Proof.
  induction skipped as [|c skipped IH]; intros line Hall Hacc.
  - apply ReadFacts.readLine_accepted, Hacc.
  - inversion Hall as [|? ? Hc Hall']; subst. cbn [app].
    destruct (readLine_ignored c (skipped ++ l :: rest) line Hc) as (buf & -> & _).
    apply IH; assumption.
Qed.

(** X8: the header is the first line that is not blank and not a comment;
    when [OFF] does not occur in it, [readOFF] reports an unrecognised
    header, whatever follows. *)
Theorem readOFF_header_without_OFF (bytes : list ascii) (numVertices0 numFaces0 : Z)
    (skipped : FILE) (header : list ascii) (rest : FILE) :
  fopen bytes = skipped ++ header :: rest ->
  Forall (fun c => ignored c = true) skipped ->
  accepted header = true ->
  strstr header (text "OFF") = None ->
  readOFF (Some bytes) numVertices0 numFaces0
  = Fatal "error: unrecognised .off file header".
Proof.
  intros Hfile Hall Hacc Hoff. unfold readOFF. cbn [readOFF_on]. rewrite Hfile.
  destruct (readLine_skips header rest skipped None Hall Hacc) as (buf & -> & Hs).
  cbn [bind negb]. rewrite Hs. cbn [bind]. unfold text in Hoff. rewrite Hoff. reflexivity.
Qed.

Lemma readOFF_header_without_OFF_witness :
  readOFF (Some (unlines ["# exported"; ""; "PLY"; "3 1 0"]%string)) 0 0
  = Fatal "error: unrecognised .off file header".
Proof.
  apply (readOFF_header_without_OFF (unlines ["# exported"; ""; "PLY"; "3 1 0"]%string) 0 0
           [text "# exported" ++ [LF]; [LF]] (text "PLY" ++ [LF]) [text "3 1 0" ++ [LF]]).
  - reflexivity.
  - repeat constructor.
  - reflexivity.
  - reflexivity.
Defined.

End ReadErrors.
(** ** readOFF: the mesh it returns, and files with comments *)

Module ReadMesh.
Import OFF OFFSpec.

(** *** Computations that end the same way *)


Lemma lift_bind_same {A B1 B2 : Type} (S : B1 -> B2 -> Prop)
    (m : outcome A) (k1 : A -> outcome B1) (k2 : A -> outcome B2) :
  (forall a, lift S (k1 a) (k2 a)) -> lift S (bind m k1) (bind m k2).
Proof. intros Hk. destruct m; cbn [lift bind]; auto. Qed.


Lemma lift_Ok_inv {A B : Type} (R : A -> B -> Prop) (m1 : outcome A) (m2 : outcome B) a b :
  lift R m1 m2 -> m1 = Ok a -> m2 = Ok b -> R a b.
Proof. intros H -> ->. exact H. Qed.

(** *** The line buffer and padded files *)

Lemma cstr_tail (l t1 t2 : list ascii) : cstr (l ++ NUL :: t1) = cstr (l ++ NUL :: t2).
Proof.
  induction l as [|c l IH]; cbn [app cstr]; [reflexivity|].
  destruct (Ascii.eqb c NUL); [reflexivity|]. rewrite IH. reflexivity.
Qed.

Lemma padded_refl (f : FILE) : padded f f.
Proof. induction f; constructor; assumption. Qed.

Lemma padded_nil_inv (f2 : FILE) : padded [] f2 -> f2 = [].
Proof.
  intros H. remember [] as f1 eqn:E. induction H; try reflexivity; try discriminate.
  congruence.
Qed.

(** [readLine] reads the same line from a file and from a padded copy of
    it; the contents of the line buffer matter at the end of the file
    only. *)
Lemma readLine_padded (f1 f2 : FILE) :
  padded f1 f2 ->
  forall (l1 l2 : linebuf),
    f1 <> [] \/ same_text l1 l2 ->
    lift (fun r1 r2 =>
            fst (fst r1) = fst (fst r2)
            /\ same_text (snd (fst r1)) (snd (fst r2))
            /\ padded (snd r1) (snd r2))
      (readLine f1 l1) (readLine f2 l2).
Proof.
  induction 1 as [|l f1 f2 Hp IH|c f1 f2 Hc Hne Hp IH]; intros l1 l2 Hor.
  - destruct Hor as [Hne|Ht]; [congruence|].
    cbn [readLine getline]. cbn [Z.eqb].
    unfold same_text, line_string in Ht.
    destruct l1 as [b1|], l2 as [b2|]; cbn [lift].
    + rewrite Ht. apply lift_bind_same. intros s.
      destruct (_ && _); cbn [lift fst snd]; [|exact I].
      conjs; [reflexivity|exact Ht|constructor].
    + rewrite Ht. exact I.
    + rewrite <- Ht. exact I.
    + exact I.
  - cbn [readLine getline].
    destruct (_ =? 0).
    + cbn [lift fst snd]. conjs; [reflexivity| |exact Hp].
      unfold same_text, line_string. apply cstr_tail.
    + match goal with |- lift _ (bind (cstr (l ++ NUL :: ?t1)) _) (bind (cstr (l ++ NUL :: ?t2)) _) =>
        rewrite (cstr_tail l t1 t2); set (tail1 := t1); set (tail2 := t2)
      end.
      apply lift_bind_same. intros s.
      destruct (_ && _).
      * cbn [lift fst snd]. conjs; [reflexivity| |exact Hp].
        unfold same_text, line_string. apply cstr_tail.
      * apply IH. right. unfold same_text, line_string. apply cstr_tail.
  - destruct (ReadErrors.readLine_ignored c f2 l2 Hc) as (buf & -> & _).
    apply IH. left. exact Hne.
Qed.







(** *** The arrays of the mesh *)

Lemma read_vertices_fill : forall (count : nat) (i : Z) (f : FILE) (l : linebuf)
    (done : list double) (r : nat) f' l' a',
  read_vertices count i f l (map Some done ++ repeat None r) = Ok (f', l', a') ->
  Z.of_nat (length done) = 3 * i ->
  exists vs r',
    a' = map Some (done ++ vs) ++ repeat None r'
    /\ length vs = (3 * count)%nat
    /\ r = (3 * count + r')%nat.
Proof.
  induction count as [|count IH]; intros i f l done r f' l' a' H Hdone;
    cbn [read_vertices] in H.
  - injection H as _ _ <-. exists [], r. rewrite app_nil_r. auto.
  - apply bind_Ok_inv in H as ([[b l1] f1] & _ & H).
    destruct (negb b); [discriminate|].
    apply bind_Ok_inv in H as (s & _ & H).
    apply bind_Ok_inv in H as ([n xyz] & _ & H).
    destruct xyz as [|x [|y [|z [|]]]]; try discriminate.
    apply bind_Ok_inv in H as (i3 & E3 & H). apply int_val_Ok in E3 as [-> _].
    apply bind_Ok_inv in H as (i0 & E0 & H). apply int_val_Ok in E0 as [-> _].
    apply bind_Ok_inv in H as (a0 & S0 & H).
    replace (i * 3 + 0) with (Z.of_nat (length done)) in S0 by lia.
    apply store_next in S0 as (r0 & -> & ->).
    apply bind_Ok_inv in H as (i1 & E1 & H). apply int_val_Ok in E1 as [-> _].
    apply bind_Ok_inv in H as (a1 & S1 & H).
    replace (i * 3 + 1) with (Z.of_nat (length (done ++ [x]))) in S1
      by (rewrite length_app; cbn [length]; lia).
    apply store_next in S1 as (r1 & -> & ->).
    apply bind_Ok_inv in H as (i2 & E2 & H). apply int_val_Ok in E2 as [-> _].
    apply bind_Ok_inv in H as (a2 & S2 & H).
    replace (i * 3 + 2) with (Z.of_nat (length ((done ++ [x]) ++ [y]))) in S2
      by (rewrite !length_app; cbn [length]; lia).
    apply store_next in S2 as (r2 & -> & ->).
    apply bind_Ok_inv in H as (i' & E' & H). apply int_val_Ok in E' as [-> _].
    apply IH in H as (vs & r' & -> & Hvs & ->).
    2:{ rewrite !length_app. cbn [length]. lia. }
    exists (x :: y :: z :: vs), r'. rewrite <- !app_assoc. cbn [app length].
    conjs; [reflexivity|lia|lia].
Qed.

Lemma read_face_indices_fill : forall (count : nat) (j : Z) (s : list ascii) (off : Z)
    (d : list Z) (q : nat) a',
  read_face_indices count j s off (map Some d ++ repeat None q) = Ok a' ->
  Z.of_nat (length d) = off + j ->
  exists vals q',
    a' = map Some (d ++ vals) ++ repeat None q'
    /\ length vals = count
    /\ q = (count + q')%nat.
Proof.
  induction count as [|count IH]; intros j s off d q a' H Hd;
    cbn [read_face_indices] in H.
  - injection H as <-. exists [], q. rewrite app_nil_r. auto.
  - destruct (strstr s _) as [found|]; [|discriminate].
    apply bind_Ok_inv in H as ([val rest] & _ & H).
    apply bind_Ok_inv in H as (k & Ek & H). apply int_val_Ok in Ek as [-> _].
    apply bind_Ok_inv in H as (a1 & S1 & H).
    rewrite <- Hd in S1. apply store_next in S1 as (q1 & -> & ->).
    apply IH in H as (vals & q' & -> & Hvals & ->).
    2:{ rewrite length_app. cbn [length]. lia. }
    exists (u32 val :: vals), q'. rewrite <- app_assoc. cbn [app length].
    conjs; [reflexivity|lia|lia].
Qed.

(** The two loops over the faces read the same vertex counts, so that the
    second one fills exactly what the first one made room for. *)
Lemma faces_agree : forall (count : nat) (i1 i2 : Z) (f1 f2 : FILE) (l1 l2 : linebuf)
    (done : list Z) (r : nat) (total : Z) (d : list Z) (q : nat) (off : Z)
    f1' l1' sizes' total' f2' l2' arr',
  padded f1 f2 ->
  f1 <> [] \/ same_text l1 l2 ->
  read_face_sizes count i1 f1 l1 (map Some done ++ repeat None r) total
  = Ok (f1', l1', sizes', total') ->
  read_faces count i2 f2 l2 off (map Some d ++ repeat None q) = Ok (f2', l2', arr') ->
  Z.of_nat (length done) = i1 ->
  Z.of_nat (length d) = off ->
  exists ns vals r' q',
    sizes' = map Some (done ++ ns) ++ repeat None r'
    /\ arr' = map Some (d ++ vals) ++ repeat None q'
    /\ length ns = count
    /\ Z.of_nat (length vals) = sumZ ns
    /\ total' = total + sumZ ns
    /\ Forall (fun n => 3 <= n <= INT_MAX) ns
    /\ r = (count + r')%nat
    /\ q = (length vals + q')%nat.
Proof.
  induction count as [|count IH];
    intros i1 i2 f1 f2 l1 l2 done r total d q off f1' l1' sizes' total' f2' l2' arr'
           Hp Hor H1 H2 Hdone Hd;
    cbn [read_face_sizes] in H1; cbn [read_faces] in H2.
  - injection H1 as _ _ <- <-. injection H2 as _ _ <-.
    exists [], [], r, q. rewrite !app_nil_r. unfold sumZ. cbn [fold_right length].
    conjs; auto; lia.
  - apply bind_Ok_inv in H1 as ([[b1 l1a] f1a] & R1 & H1).
    apply bind_Ok_inv in H2 as ([[b2 l2a] f2a] & R2 & H2).
    pose proof (lift_Ok_inv _ _ _ _ _ (readLine_padded f1 f2 Hp l1 l2 Hor) R1 R2)
      as (Hb & Ht & Hp').
    cbn [fst snd] in Hb, Ht, Hp'. subst b2.
    destruct (negb b1); [discriminate|].
    apply bind_Ok_inv in H1 as (s1 & E1 & H1).
    apply bind_Ok_inv in H2 as (s2 & E2 & H2).
    unfold same_text in Ht. rewrite E1, E2 in Ht. injection Ht as <-.
    apply bind_Ok_inv in H1 as ([n rest] & En & H1).
    rewrite En in H2. cbn [bind] in H2.
    pose proof (ReadFacts.scan_d_in_int _ _ _ (ReadFacts.sscanf_d_Ok _ _ _ En)) as Hn.
    destruct (Z.ltb_spec n 3) as [|Hn3]; [discriminate|].
    apply bind_Ok_inv in H1 as (sz & S1 & H1).
    rewrite <- Hdone in S1. apply store_next in S1 as (r1 & -> & ->).
    rewrite u32_small in H1 by ulia.
    apply bind_Ok_inv in H1 as (t1 & Et & H1). apply int_val_Ok in Et as [-> _].
    apply bind_Ok_inv in H1 as (i1' & Ei & H1). apply int_val_Ok in Ei as [-> _].
    apply bind_Ok_inv in H2 as (a1 & F1 & H2).
    apply read_face_indices_fill in F1 as (vals & q1 & -> & Hvals & ->); [|lia].
    apply bind_Ok_inv in H2 as (o1 & Eo & H2). apply int_val_Ok in Eo as [-> _].
    apply bind_Ok_inv in H2 as (i2' & Ei2 & H2). apply int_val_Ok in Ei2 as [-> _].
    destruct (IH _ _ _ _ _ _ _ _ _ _ _ _ _ _ _ _ _ _ _ Hp'
                (or_intror (eq_trans (eq_trans E1 (eq_sym E2)) eq_refl)) H1 H2)
      as (ns & vals' & r' & q' & -> & -> & Hns & Hv & -> & Hall & -> & ->).
    { rewrite length_app. cbn [length]. lia. }
    { rewrite length_app. lia. }
    exists (n :: ns), (vals ++ vals'), r', q'.
    rewrite <- !app_assoc. cbn [app length]. unfold sumZ in *. cbn [fold_right].
    rewrite length_app. conjs; try reflexivity; try lia.
    constructor; [lia|exact Hall].
Qed.

Lemma readLine_at_end (l : linebuf) b l' f' :
  readLine [] l = Ok (b, l', f') -> l' = l /\ f' = [].
Proof.
  cbn [readLine getline]. cbn [Z.eqb]. destruct l as [buf|]; [|discriminate].
  destruct (cstr buf); try discriminate. cbn [bind].
  destruct (_ && _); [|discriminate]. intros H. injection H as _ <- <-. auto.
Qed.

Lemma read_face_sizes_at_end : forall (count : nat) (i : Z) (l : linebuf) (a : array Z)
    (total : Z) f' l' a' total',
  read_face_sizes count i [] l a total = Ok (f', l', a', total') -> l' = l /\ f' = [].
Proof.
  induction count as [|count IH]; intros i l a total f' l' a' total' H;
    cbn [read_face_sizes] in H.
  - injection H as <- <- _ _. auto.
  - apply bind_Ok_inv in H as ([[b l1] f1] & R & H).
    apply readLine_at_end in R as [-> ->].
    destruct (negb b); [discriminate|].
    apply bind_Ok_inv in H as (s & _ & H).
    apply bind_Ok_inv in H as ([n rest] & _ & H).
    destruct (n <? 3); [discriminate|].
    apply bind_Ok_inv in H as (a1 & _ & H).
    apply bind_Ok_inv in H as (t1 & _ & H).
    apply bind_Ok_inv in H as (i1 & _ & H).
    eapply IH. exact H.
Qed.

Lemma sscanf_counts_range (s : list ascii) (a b nv nf : Z) :
  sscanf_counts s a b = Ok (nv, nf) ->
  (0 <= a < UINT32_MOD -> 0 <= nv < UINT32_MOD)
  /\ (0 <= b < UINT32_MOD -> 0 <= nf < UINT32_MOD).
Proof.
  unfold sscanf_counts.
  destruct (scan_d s) as [v r1| | | |]; try discriminate.
  - destruct (scan_d r1) as [f r2| | | |]; try discriminate.
    + destruct (scan_d r2); try discriminate;
        intros H; injection H as <- <-; split; intros _; apply u32_range.
    + intros H; injection H as <- <-. split; [intros _; apply u32_range|auto].
    + intros H; injection H as <- <-. split; [intros _; apply u32_range|auto].
    + intros H; injection H as <- <-. split; [intros _; apply u32_range|auto].
  - intros H; injection H as <- <-. auto.
  - intros H; injection H as <- <-. auto.
  - intros H; injection H as <- <-. auto.
Qed.

(** The parts of a run of [readOFF] that returns. *)
Lemma readOFF_Ok_inv (bytes : list ascii) (nv0 nf0 : Z) (m : mesh) :
  readOFF (Some bytes) nv0 nf0 = Ok m ->
  exists s nv nf f2 l2 f3 l3 pv f4 l4 ps total f5 l5 pi,
    sscanf_counts s nv0 nf0 = Ok (nv, nf)
    /\ read_vertices (Z.to_nat nv) 0 f2 l2 (malloc (nv * 3)) = Ok (f3, l3, pv)
    /\ read_face_sizes (Z.to_nat (to_int nf)) 0 f3 l3 (malloc nf) 0 = Ok (f4, l4, ps, total)
    /\ read_faces (Z.to_nat (to_int nf)) 0 f3 l4 0 (malloc total) = Ok (f5, l5, pi)
    /\ m = Mesh pv pi ps nv nf.
Proof.
  intros H. unfold readOFF in H. cbn [readOFF_on negb] in H.
  apply bind_Ok_inv in H as ([[b1 l1] f1] & _ & H).
  destruct (negb b1); [discriminate|].
  apply bind_Ok_inv in H as (s1 & _ & H).
  destruct (strstr s1 _); [|discriminate].
  apply bind_Ok_inv in H as ([[b2 l2] f2] & _ & H).
  destruct (negb b2); [discriminate|].
  apply bind_Ok_inv in H as (s & _ & H).
  apply bind_Ok_inv in H as ([nv nf] & Hc & H).
  apply bind_Ok_inv in H as ([[f3 l3] pv] & Hv & H).
  apply bind_Ok_inv in H as ([[[f4 l4] ps] total] & Hs & H).
  apply bind_Ok_inv in H as ([[f5 l5] pi] & Hf & H).
  injection H as <-.
  exists s, nv, nf, f2, l2, f3, l3, pv, f4, l4, ps, total, f5, l5, pi. auto.
Qed.

(** X10: when [readOFF] returns, every element of the vertex array has
    been written, and there are three of them for each vertex counted. *)
Theorem readOFF_vertices_written (contents : option (list ascii)) (numVertices0 numFaces0 : Z)
    (m : mesh) :
  readOFF contents numVertices0 numFaces0 = Ok m ->
  exists vs,
    pVertices m = map Some vs
    /\ length vs = (3 * Z.to_nat (numVertices m))%nat.
Proof.
  destruct contents as [bytes|]; [|discriminate]. intros H.
  apply readOFF_Ok_inv in H
    as (s & nv & nf & f2 & l2 & f3 & l3 & pv & f4 & l4 & ps & total & f5 & l5 & pi
        & _ & Hv & _ & _ & ->).
  cbn [pVertices numVertices].
  unfold malloc in Hv.
  apply (read_vertices_fill _ _ _ _ []) in Hv as (vs & r' & -> & Hvs & Hr); [|reflexivity].
  exists vs. cbn [app]. split; [|exact Hvs].
  assert (r' = 0%nat) as -> by lia. cbn [repeat]. rewrite app_nil_r. reflexivity.
Qed.

Lemma readOFF_vertices_written_witness :
  exists vs,
    pVertices (Mesh (map Some [zero; zero; zero; one; zero; zero; one; zero; zero]) [] [] 3 0)
    = map Some vs
    /\ length vs
       = (3 * Z.to_nat (numVertices
             (Mesh (map Some [zero; zero; zero; one; zero; zero; one; zero; zero]) [] [] 3 0)))%nat.
Proof.
  apply (readOFF_vertices_written
           (Some (unlines ["OFF"; "3 0 0"; "0 0 0"; "1 0 0"]%string)) 0 0).
  reflexivity.
Defined.

(** X11: when [readOFF] returns a mesh whose face count fits an [int],
    every face size has been written and is at least three, every face
    vertex index has been written, and there are as many indices as the
    sizes add up to. *)
Theorem readOFF_faces_written (contents : option (list ascii)) (numVertices0 numFaces0 : Z)
    (m : mesh) :
  readOFF contents numVertices0 numFaces0 = Ok m ->
  0 <= numFaces0 < UINT32_MOD ->
  numFaces m <= INT_MAX ->
  exists sizes indices,
    pFaceSizes m = map Some sizes
    /\ pFaceVertexIndices m = map Some indices
    /\ Z.of_nat (length sizes) = numFaces m
    /\ Forall (fun n => 3 <= n <= INT_MAX) sizes
    /\ Z.of_nat (length indices) = sumZ sizes.
Proof.
  destruct contents as [bytes|]; [|discriminate]. intros H Hnf0 Hmax.
  apply readOFF_Ok_inv in H
    as (s & nv & nf & f2 & l2 & f3 & l3 & pv & f4 & l4 & ps & total & f5 & l5 & pi
        & Hc & _ & Hs & Hf & ->).
  cbn [pFaceSizes pFaceVertexIndices numFaces] in *.
  apply sscanf_counts_range in Hc as [_ Hnf]. specialize (Hnf Hnf0).
  rewrite to_int_small in Hs, Hf by lia.
  assert (Hor : f3 <> [] \/ same_text l3 l4).
  { destruct f3 as [|x f3]; [right|left; discriminate].
    apply read_face_sizes_at_end in Hs as [-> _]. reflexivity. }
  unfold malloc in Hs, Hf.
  destruct (faces_agree _ _ _ _ _ _ _ [] _ _ [] _ _ _ _ _ _ _ _ _ (padded_refl f3) Hor Hs Hf)
    as (ns & vals & r' & q' & -> & -> & Hns & Hvals & -> & Hall & Hr & Hq);
    [reflexivity|reflexivity|].
  exists ns, vals. cbn [app].
  assert (r' = 0%nat) as -> by lia.
  assert (q' = 0%nat) as -> by lia.
  cbn [repeat]. rewrite !app_nil_r. conjs; try reflexivity; try assumption. lia.
Qed.

Lemma readOFF_faces_written_witness :
  exists sizes indices,
    [Some 3; Some 4] = map Some sizes
    /\ [Some 0; Some 1; Some 2; Some 2; Some 1; Some 0; Some 1] = map Some indices
    /\ Z.of_nat (length sizes) = 2
    /\ Forall (fun n => 3 <= n <= INT_MAX) sizes
    /\ Z.of_nat (length indices) = sumZ sizes.
Proof.
  apply (readOFF_faces_written
           (Some (unlines ["OFF"; "0 2 0"; "3 0 1 2"; "4 2 1 0 1"]%string)) 7 7
           (Mesh [] [Some 0; Some 1; Some 2; Some 2; Some 1; Some 0; Some 1]
              [Some 3; Some 4] 0 2)).
  - reflexivity.
  - unfold UINT32_MOD. lia.
  - unfold INT_MAX. cbn. lia.
Defined.

(** X12: a face count that does not fit an [int], such as the one read
    from [-1], is taken as it is: no face line is read, the array of face
    sizes is allocated and left unwritten, and there are no indices. *)
Theorem readOFF_face_count_wraps (contents : option (list ascii)) (numVertices0 numFaces0 : Z)
    (m : mesh) :
  readOFF contents numVertices0 numFaces0 = Ok m ->
  0 <= numFaces0 < UINT32_MOD ->
  INT_MAX < numFaces m ->
  pFaceSizes m = repeat None (Z.to_nat (numFaces m))
  /\ pFaceVertexIndices m = [].
Proof.
  destruct contents as [bytes|]; [|discriminate]. intros H Hnf0 Hmax.
  apply readOFF_Ok_inv in H
    as (s & nv & nf & f2 & l2 & f3 & l3 & pv & f4 & l4 & ps & total & f5 & l5 & pi
        & Hc & _ & Hs & Hf & ->).
  cbn [pFaceSizes pFaceVertexIndices numFaces] in *.
  apply sscanf_counts_range in Hc as [_ Hnf]. specialize (Hnf Hnf0).
  assert (Hneg : Z.to_nat (to_int nf) = 0%nat).
  { unfold to_int. rewrite (u32_small nf) by lia.
    destruct (Z.leb_spec nf INT_MAX); [lia|]. ulia. }
  rewrite Hneg in Hs, Hf. cbn [read_face_sizes] in Hs. injection Hs as _ _ <- <-.
  cbn [read_faces] in Hf. injection Hf as _ _ <-. split; reflexivity.
Qed.

Lemma readOFF_face_count_wraps_witness :
  pFaceSizes (Mesh [] [] (malloc 4294967295) 0 4294967295)
  = repeat None (Z.to_nat (numFaces (Mesh [] [] (malloc 4294967295) 0 4294967295)))
  /\ pFaceVertexIndices (Mesh [] [] (malloc 4294967295) 0 4294967295) = [].
Proof.
  apply (readOFF_face_count_wraps (Some (unlines ["OFF"; "0 -1 0"]%string)) 0 0).
  - lazy -[malloc]. reflexivity.
  - unfold UINT32_MOD. lia.
  - unfold INT_MAX. cbn [numFaces]. lia.
Defined.

End ReadMesh.
(** ** readOBJ: counts and coordinates *)

Module OBJMore.
Import OBJ OBJSpec OBJFacts.

Lemma same_geometry_refl st : same_geometry st st.
Proof. unfold same_geometry. tauto. Qed.

Lemma same_geometry_trans st1 st2 st3 :
  same_geometry st1 st2 -> same_geometry st2 st3 -> same_geometry st1 st3.
Proof. unfold same_geometry. intuition congruence. Qed.

Lemma face_vertex_datum_geometry it token st it' st' :
  face_vertex_datum it token st = Ok (it', st') -> same_geometry st st'.
Proof.
  unfold face_vertex_datum. intros H.
  apply bind_Ok_inv in H as (st1 & E & H). injection H as <- <-.
  repeat match type of E with
         | (if ?b then _ else _) = Ok _ => destruct b
         end;
    try (ok_inv E; subst; unfold same_geometry; cbn; tauto).
  destruct (scan_d token); try discriminate; injection E as <-;
    unfold same_geometry; tauto.
Qed.

Lemma face_vertex_data_geometry fuel : forall buf start it token st st',
  face_vertex_data fuel buf start it token st = Ok st' -> same_geometry st st'.
Proof.
  induction fuel as [|fuel IH]; intros buf start it token st st' H; [discriminate|].
  cbn [face_vertex_data] in H.
  apply bind_Ok_inv in H as ([[buf' tokenElem] save] & _ & H).
  destruct tokenElem as [[off len]|].
  - apply bind_Ok_inv in H as ([it1 st1] & E & H).
    apply face_vertex_datum_geometry in E. apply IH in H.
    eapply same_geometry_trans; eauto.
  - injection H as <-. apply same_geometry_refl.
Qed.

Lemma face_vertices_geometry fuel : forall buf start iter st buf' iter' st',
  face_vertices fuel buf start iter st = Ok (buf', iter', st') -> same_geometry st st'.
Proof.
  induction fuel as [|fuel IH]; intros buf start iter st buf' iter' st' H; [discriminate|].
  cbn [face_vertices] in H.
  apply bind_Ok_inv in H as ([[buf1 token] save] & _ & H).
  destruct token as [[off len]|].
  - destruct (Ascii.eqb _ _).
    + apply IH in H. exact H.
    + apply bind_Ok_inv in H as (iter1 & Ei & H).
      apply bind_Ok_inv in H as (st1 & Ed & H).
      apply bind_Ok_inv in H as (c & Ec & H).
      apply face_vertex_data_geometry in Ed. apply IH in H.
      eapply same_geometry_trans; [exact Ed|].
      unfold same_geometry in *. fields. exact H.
  - injection H as <- <- <-. apply same_geometry_refl.
Qed.

(** *** One line *)

Lemma parse_line_cases p l tail st st' :
  parse_line p (l ++ NUL :: tail) st = Ok st' ->
  exists buf1,
    (line_command l = UNKNOWN /\ st' = with_lineBuf (Some buf1) st)
    \/ (line_command l = command (content l)
        /\ parse_command p buf1 (content l) (with_lineBuf (Some buf1) st) = Ok st').
Proof.
  intros H. destruct (parse_line_stripped p l tail st) as (buf1 & E).
  rewrite E in H. clear E. exists buf1.
  unfold line_command in *.
  destruct (length (content l) =? 0)%nat; [left; split; congruence|].
  destruct (Ascii.eqb (hd NUL (content l)) "#"); [left; split; congruence|].
  right. split; [reflexivity|].
  destruct (command (content l)) eqn:Ec; try exact H.
  unfold parse_command. rewrite Ec. exact H.
Qed.

Ltac delta c :=
  unfold has_command; rewrite c; cbn [cmd_eqb].

(** Every pass counts the commands; none changes the totals it reports. *)
Lemma parse_command_counters p buf s st st' :
  parse_command p buf s st = Ok st' ->
  nVertices st' = nVertices st + (if cmd_eqb (command s) VERTEX then 1 else 0)
  /\ nNormals st' = nNormals st + (if cmd_eqb (command s) NORMAL then 1 else 0)
  /\ nTexCoords st' = nTexCoords st + (if cmd_eqb (command s) TEXCOORD then 1 else 0)
  /\ nFaces st' = nFaces st + (if cmd_eqb (command s) FACE then 1 else 0)
  /\ numVertices st' = numVertices st /\ numNormals st' = numNormals st
  /\ numTexcoords st' = numTexcoords st /\ numFaces st' = numFaces st.
Proof.
  intros H. unfold parse_command in H.
  destruct (command s); cbn [cmd_eqb].
  - apply bind_Ok_inv in H as (n & En & H). apply int_val_Ok in En as [-> _].
    destruct (p =? 1); ok_inv H; fields; conjs; lia.
  - apply bind_Ok_inv in H as (n & En & H). apply int_val_Ok in En as [-> _].
    destruct (p =? 1); ok_inv H; fields; conjs; lia.
  - apply bind_Ok_inv in H as (n & En & H). apply int_val_Ok in En as [-> _].
    destruct (p =? 1); ok_inv H; fields; conjs; lia.
  - apply bind_Ok_inv in H as (n & En & H). apply int_val_Ok in En as [-> _].
    destruct (p =? 1).
    + ok_inv H. fields. conjs; lia.
    + destruct (p =? 2).
      * apply bind_Ok_inv in H as (size & _ & H).
        apply bind_Ok_inv in H as ([[buf1 iter] st1] & Ef & H).
        apply face_vertices_geometry in Ef. unfold same_geometry in Ef. fields.
        destruct (iter =? to_int size); [|discriminate]. injection H as <-. fields.
        destruct Ef as (A & B & C & D & _ & _ & _ & _ & _ & E & F & G & I).
        conjs; lia.
      * injection H as <-. fields. conjs; lia.
  - injection H as <-. conjs; lia.
Qed.

Lemma parse_command_counter_range p buf s st st' :
  parse_command p buf s st = Ok st' ->
  (nVertices st <= INT_MAX -> nVertices st' <= INT_MAX)
  /\ (nNormals st <= INT_MAX -> nNormals st' <= INT_MAX)
  /\ (nTexCoords st <= INT_MAX -> nTexCoords st' <= INT_MAX)
  /\ (nFaces st <= INT_MAX -> nFaces st' <= INT_MAX).
Proof.
  intros H. pose proof (parse_command_counters _ _ _ _ _ H) as (A & B & C & D & _).
  unfold parse_command in H.
  destruct (command s); cbn [cmd_eqb] in *;
    try (apply bind_Ok_inv in H as (n & En & _); apply int_val_Ok in En as [-> Hr]);
    conjs; lia.
Qed.

Lemma has_command_unknown (c : ObjFileCmdType) (l : list ascii) :
  c <> UNKNOWN -> line_command l = UNKNOWN -> has_command c l = false.
Proof. unfold has_command. intros Hc ->. destruct c; try reflexivity. congruence. Qed.

Lemma parse_line_counters p l tail st st' :
  parse_line p (l ++ NUL :: tail) st = Ok st' ->
  nVertices st' = nVertices st + (if has_command VERTEX l then 1 else 0)
  /\ nNormals st' = nNormals st + (if has_command NORMAL l then 1 else 0)
  /\ nTexCoords st' = nTexCoords st + (if has_command TEXCOORD l then 1 else 0)
  /\ nFaces st' = nFaces st + (if has_command FACE l then 1 else 0)
  /\ numVertices st' = numVertices st /\ numNormals st' = numNormals st
  /\ numTexcoords st' = numTexcoords st /\ numFaces st' = numFaces st
  /\ (nVertices st <= INT_MAX -> nVertices st' <= INT_MAX)
  /\ (nNormals st <= INT_MAX -> nNormals st' <= INT_MAX)
  /\ (nTexCoords st <= INT_MAX -> nTexCoords st' <= INT_MAX)
  /\ (nFaces st <= INT_MAX -> nFaces st' <= INT_MAX).
Proof.
  intros H. apply parse_line_cases in H as (buf1 & [[Hu ->]|[Hc H]]).
  - rewrite !has_command_unknown by (assumption || discriminate). fields. conjs; lia.
  - unfold has_command. rewrite Hc.
    pose proof (parse_command_counters _ _ _ _ _ H) as (A & B & C & D & E & F & G & I).
    pose proof (parse_command_counter_range _ _ _ _ _ H) as (J & K & L & M).
    fields. conjs; assumption.
Qed.

Lemma count_lines_cons (c : ObjFileCmdType) (l : list ascii) (file : FILE) :
  count_lines c (l :: file) = (if has_command c l then 1 else 0) + count_lines c file.
Proof.
  unfold count_lines. cbn [filter]. destruct (has_command c l); cbn [length]; lia.
Qed.

Lemma count_lines_nonneg (c : ObjFileCmdType) (file : FILE) : 0 <= count_lines c file.
Proof. unfold count_lines. lia. Qed.

(** Each pass counts the lines of each command. *)
Lemma parse_pass_counters p : forall file st st',
  parse_pass p file st = Ok st' ->
  nVertices st' = nVertices st + count_lines VERTEX file
  /\ nNormals st' = nNormals st + count_lines NORMAL file
  /\ nTexCoords st' = nTexCoords st + count_lines TEXCOORD file
  /\ nFaces st' = nFaces st + count_lines FACE file
  /\ numVertices st' = numVertices st /\ numNormals st' = numNormals st
  /\ numTexcoords st' = numTexcoords st /\ numFaces st' = numFaces st
  /\ (nVertices st <= INT_MAX -> nVertices st' <= INT_MAX)
  /\ (nNormals st <= INT_MAX -> nNormals st' <= INT_MAX)
  /\ (nTexCoords st <= INT_MAX -> nTexCoords st' <= INT_MAX)
  /\ (nFaces st <= INT_MAX -> nFaces st' <= INT_MAX).
Proof.
  induction file as [|l file IH]; intros st st' H.
  - injection H as <-. unfold count_lines. cbn [filter length Z.of_nat]. conjs; auto; lia.
  - destruct (parse_pass_cons p l file st) as (tail & E). rewrite E in H. clear E.
    apply bind_Ok_inv in H as (st1 & Hl & H).
    apply parse_line_counters in Hl as (A & B & C & D & E & F & G & I & J & K & L & M).
    apply IH in H as (A' & B' & C' & D' & E' & F' & G' & I' & J' & K' & L' & M').
    rewrite !count_lines_cons. conjs; try lia; try congruence; auto.
Qed.

(** The first and the third pass leave the arrays of the second alone. *)
Lemma parse_command_arrays_kept p buf s st st' :
  p <> 1 ->
  parse_command p buf s st = Ok st' ->
  pVertices st' = pVertices st /\ pNormals st' = pNormals st
  /\ pTexCoords st' = pTexCoords st /\ pFaceSizes st' = pFaceSizes st
  /\ nFaceIndices st' = nFaceIndices st.
Proof.
  intros Hp H. unfold parse_command in H.
  destruct (Z.eqb_spec p 1) as [|_]; [contradiction|].
  destruct (command s).
  - ok_inv H. fields. tauto.
  - ok_inv H. fields. tauto.
  - ok_inv H. fields. tauto.
  - apply bind_Ok_inv in H as (n & En & H).
    destruct (p =? 2).
    + apply bind_Ok_inv in H as (size & _ & H).
      apply bind_Ok_inv in H as ([[buf1 iter] st1] & Ef & H).
      apply face_vertices_geometry in Ef. unfold same_geometry in Ef. fields.
      destruct (iter =? to_int size); [|discriminate]. injection H as <-. fields.
      tauto.
    + injection H as <-. fields. tauto.
  - injection H as <-. tauto.
Qed.

Lemma parse_pass_arrays_kept p : p <> 1 -> forall file st st',
  parse_pass p file st = Ok st' ->
  pVertices st' = pVertices st /\ pNormals st' = pNormals st
  /\ pTexCoords st' = pTexCoords st /\ pFaceSizes st' = pFaceSizes st
  /\ nFaceIndices st' = nFaceIndices st.
Proof.
  intros Hp. induction file as [|l file IH]; intros st st' H.
  - injection H as <-. tauto.
  - destruct (parse_pass_cons p l file st) as (tail & E). rewrite E in H. clear E.
    apply bind_Ok_inv in H as (st1 & Hl & H).
    apply IH in H as (A & B & C & D & E).
    apply parse_line_cases in Hl as (buf1 & [[Hu ->]|[Hc Hl]]).
    + fields. tauto.
    + apply parse_command_arrays_kept in Hl as (A' & B' & C' & D' & E'); [|exact Hp].
      fields. conjs; congruence.
Qed.

(** The passes of a run of [readOBJ] that returns. *)
Lemma readOBJ_Ok_inv (bytes : list ascii) (st : state) :
  readOBJ (Some bytes) = Ok st ->
  exists st0 st1 st2,
    parse_pass 0 (fopen bytes) (reset_counters initial_state) = Ok st0
    /\ parse_pass 1 (fopen bytes) (reset_counters (after_first_pass st0)) = Ok st1
    /\ after_second_pass st1 = Ok st2
    /\ parse_pass 2 (fopen bytes) (reset_counters st2) = Ok st.
Proof.
  intros H. cbn [readOBJ] in H.
  apply bind_Ok_inv in H as (st0 & H0 & H).
  apply bind_Ok_inv in H as (st1 & H1 & H).
  apply bind_Ok_inv in H as (st2 & H2 & H).
  exists st0, st1, st2. auto.
Qed.

Lemma after_first_pass_counts st :
  numVertices (after_first_pass st) = u32 (nVertices st)
  /\ numNormals (after_first_pass st) = u32 (nNormals st)
  /\ numTexcoords (after_first_pass st) = u32 (nTexCoords st)
  /\ numFaces (after_first_pass st) = u32 (nFaces st).
Proof.
  unfold after_first_pass. cbv zeta.
  destruct (0 <? nVertices st); fields;
    destruct (0 <? nNormals st); fields;
    destruct (0 <? nTexCoords st); fields;
    destruct (0 <? nFaces st); fields; tauto.
Qed.

Lemma after_second_pass_kept st st' :
  after_second_pass st = Ok st' ->
  nFaceIndices st <> 0
  /\ same_geometry st st'.
Proof.
  unfold after_second_pass. destruct (Z.eqb_spec (nFaceIndices st) 0); [discriminate|].
  cbv zeta. intros H. split; [assumption|].
  destruct (0 <? nTexCoords _) eqn:E1; fields;
    destruct (0 <? nNormals _) eqn:E2; fields;
    injection H as <-; unfold same_geometry; fields; tauto.
Qed.

(** X13: when [readOBJ] returns, the four totals it reports are the
    numbers of [v], [vn], [vt] and [f] lines of the file. *)
Theorem readOBJ_totals_count_lines (contents : option (list ascii)) (st : state) :
  readOBJ contents = Ok st ->
  exists bytes,
    contents = Some bytes
    /\ numVertices st = count_lines VERTEX (fopen bytes)
    /\ numNormals st = count_lines NORMAL (fopen bytes)
    /\ numTexcoords st = count_lines TEXCOORD (fopen bytes)
    /\ numFaces st = count_lines FACE (fopen bytes).
Proof.
  destruct contents as [bytes|]; [|discriminate]. intros H. exists bytes.
  split; [reflexivity|].
  apply readOBJ_Ok_inv in H as (st0 & st1 & st2 & H0 & H1 & H2 & H3).
  apply parse_pass_counters in H0 as (A & B & C & D & _ & _ & _ & _ & J & K & L & M).
  apply parse_pass_counters in H1 as (_ & _ & _ & _ & E1 & F1 & G1 & I1 & _).
  apply after_second_pass_kept in H2
    as (_ & _ & _ & _ & _ & _ & _ & _ & _ & _ & E2 & F2 & G2 & I2).
  apply parse_pass_counters in H3 as (_ & _ & _ & _ & E3 & F3 & G3 & I3 & _).
  destruct (after_first_pass_counts st0) as (E0 & F0 & G0 & I0).
  unfold reset_counters, initial_state in *. fields.
  pose proof (count_lines_nonneg VERTEX (fopen bytes)).
  pose proof (count_lines_nonneg NORMAL (fopen bytes)).
  pose proof (count_lines_nonneg TEXCOORD (fopen bytes)).
  pose proof (count_lines_nonneg FACE (fopen bytes)).
  assert (0 <= INT_MAX) by ulia.
  rewrite E3, E2, E1, E0, F3, F2, F1, F0, G3, G2, G1, G0, I3, I2, I1, I0.
  rewrite !u32_small by ulia. conjs; lia.
Qed.

Lemma readOBJ_totals_count_lines_witness :
  exists st,
    readOBJ (Some (unlines ["# cube"; "v 0 0 0"; "v 1 0 0"; "v 1 1 0"; "vn 0 0 1";
                            "f 1 2 3"]%string)) = Ok st
    /\ exists bytes,
        Some (unlines ["# cube"; "v 0 0 0"; "v 1 0 0"; "v 1 1 0"; "vn 0 0 1";
                       "f 1 2 3"]%string) = Some bytes
        /\ numVertices st = count_lines VERTEX (fopen bytes)
        /\ numNormals st = count_lines NORMAL (fopen bytes)
        /\ numTexcoords st = count_lines TEXCOORD (fopen bytes)
        /\ numFaces st = count_lines FACE (fopen bytes).
Proof.
  eexists. split.
  - vm_compute. reflexivity.
  - apply (readOBJ_totals_count_lines
             (Some (unlines ["# cube"; "v 0 0 0"; "v 1 0 0"; "v 1 1 0"; "vn 0 0 1";
                             "f 1 2 3"]%string))).
    vm_compute. reflexivity.
Defined.

(** *** Files without faces *)

Lemma is_face_has_command (l : list ascii) : is_face l = has_command FACE l.
Proof. unfold is_face, has_command. destruct (line_command l); reflexivity. Qed.

Lemma count_faces_count_lines (file : FILE) : count_faces file = count_lines FACE file.
Proof.
  unfold count_faces, count_lines.
  rewrite (filter_ext is_face (has_command FACE) is_face_has_command). reflexivity.
Qed.

Lemma sumZ_nonneg (l : list Z) : Forall (fun s => 0 <= s <= INT_MAX) l -> 0 <= sumZ l.
Proof.
  induction 1 as [|x l Hx _ IH]; unfold sumZ in *; cbn [fold_right]; lia.
Qed.

Lemma readOBJ_Ok_face (contents : option (list ascii)) (st : state) :
  readOBJ contents = Ok st ->
  exists bytes,
    contents = Some bytes
    /\ 0 < count_lines FACE (fopen bytes)
    /\ 0 < nFaceIndices st.
Proof.
  intros H. pose proof (readOBJ_totals _ _ H) as (sizes & _ & Hall & Hsum & _).
  destruct contents as [bytes|]; [|discriminate]. exists bytes.
  split; [reflexivity|].
  apply readOBJ_Ok_inv in H as (st0 & st1 & st2 & H0 & H1 & H2 & H3).
  apply after_second_pass_kept in H2 as (Hne & G).
  apply parse_pass_arrays_kept in H3 as (_ & _ & _ & _ & I3); [|lia].
  unfold reset_counters in I3. fields.
  destruct G as (_ & _ & _ & _ & I2 & _).
  split.
  - rewrite <- count_faces_count_lines.
    pose proof (count_faces_nonneg (fopen bytes)).
    destruct (Z.eq_dec (count_faces (fopen bytes)) 0) as [Hz|]; [exfalso|lia].
    pose proof (parse_pass_counts 0 ltac:(lia) ltac:(lia) _ _ _ H0) as (N0 & I0 & P0).
    unfold reset_counters, initial_state in N0, I0, P0. fields.
    destruct (after_first_pass_faces st0) as [P1 I1].
    rewrite N0, Hz, P0 in P1. cbn in P1.
    apply parse_pass_no_sizes in H1; [|unfold reset_counters; fields; exact P1].
    unfold reset_counters in H1. fields. congruence.
  - pose proof (sumZ_nonneg _ Hall). lia.
Qed.

(** X14: [readOBJ] returns only for a file with at least one [f] line,
    and then the faces have at least one vertex between them. *)
Theorem readOBJ_needs_a_face (contents : option (list ascii)) (st : state) :
  readOBJ contents = Ok st ->
  exists bytes,
    contents = Some bytes
    /\ 0 < count_lines FACE (fopen bytes)
    /\ 0 < nFaceIndices st.
Proof. apply readOBJ_Ok_face. Qed.

Lemma readOBJ_needs_a_face_witness :
  exists st,
    readOBJ (Some (unlines ["v 0 0 0"; "v 1 0 0"; "v 1 1 0"; "f 1 2 3"]%string)) = Ok st
    /\ exists bytes,
        Some (unlines ["v 0 0 0"; "v 1 0 0"; "v 1 1 0"; "f 1 2 3"]%string) = Some bytes
        /\ 0 < count_lines FACE (fopen bytes)
        /\ 0 < nFaceIndices st.
Proof.
  eexists. split.
  - vm_compute. reflexivity.
  - apply (readOBJ_needs_a_face
             (Some (unlines ["v 0 0 0"; "v 1 0 0"; "v 1 1 0"; "f 1 2 3"]%string))).
    vm_compute. reflexivity.
Defined.

Lemma with_lineBuf_twice b b' st : with_lineBuf b (with_lineBuf b' st) = with_lineBuf b st.
Proof. reflexivity. Qed.

(** A pass over lines without command changes the line buffer only. *)
Lemma parse_pass_unknown p : forall file st,
  Forall (fun l => line_command l = UNKNOWN) file ->
  exists b, parse_pass p file st = Ok (with_lineBuf b st).
Proof.
  induction file as [|l file IH]; intros st Hall.
  - exists (lineBuf st). destruct st. reflexivity.
  - inversion Hall as [|? ? Hl Hall']; subst.
    destruct (parse_pass_cons p l file st) as (tail & E). rewrite E. clear E.
    destruct (parse_line_stripped p l tail st) as (buf1 & E). rewrite E, Hl. clear E.
    cbn [bind]. destruct (IH (with_lineBuf (Some buf1) st) Hall') as (b & ->).
    exists b. reflexivity.
Qed.

(** X15: a file in which no line is a [v], [vn], [vt] or [f] command,
    such as an empty file or one of comments, makes [readOBJ] abort with
    the report of an invalid face index count. *)
Theorem readOBJ_without_commands (bytes : list ascii) :
  Forall (fun l => line_command l = UNKNOWN) (fopen bytes) ->
  readOBJ (Some bytes) = Fatal "error: invalid face index count".
Proof.
  intros Hall. cbn [readOBJ].
  destruct (parse_pass_unknown 0 _ (reset_counters initial_state) Hall) as (b0 & ->).
  cbn [bind].
  destruct (parse_pass_unknown 1 _
              (reset_counters (after_first_pass (with_lineBuf b0 (reset_counters initial_state))))
              Hall) as (b1 & ->).
  reflexivity.
Qed.

Lemma readOBJ_without_commands_witness :
  readOBJ (Some (unlines ["# nothing here"; ""; "g group"; "usemtl m"]%string))
  = Fatal "error: invalid face index count".
Proof.
  apply (readOBJ_without_commands
           (unlines ["# nothing here"; ""; "g group"; "usemtl m"]%string)).
  repeat constructor.
Defined.

(** *** The arrays of coordinates *)

Lemma sscanf_lf_count (n : nat) : forall (s : list ascii) (c : Z) (vs : list double),
  sscanf_lf n s = Ok (c, vs) -> c = Z.of_nat (length vs) \/ (vs = [] /\ c = -1).
Proof.
  induction n as [|n IH]; intros s c vs H; cbn [sscanf_lf] in H.
  - injection H as <- <-. left. reflexivity.
  - destruct (scan_lf s) as [v rest| | | |]; try discriminate.
    + apply bind_Ok_inv in H as ([c' vs'] & _ & H).
      change (Ok (1 + Z.of_nat (length vs'), v :: vs') = Ok (c, vs)) in H.
      left. apply (f_equal (fun m => match m with Ok (a, b) => a - Z.of_nat (length b) | _ => 0 end))
        in H. cbn [length] in H. lia.
    + injection H as <- <-. right. auto.
    + injection H as <- <-. left. reflexivity.
Qed.

Lemma map_nth_seq {A : Type} (d : A) (l : list A) :
  map (fun j => nth j l d) (seq 0 (length l)) = l.
Proof.
  induction l as [|a l IH]; [reflexivity|].
  cbn [length seq map nth]. rewrite <- seq_shift, map_map. cbn [nth].
  rewrite IH. reflexivity.
Qed.

Lemma store_components_fill (vals : list double) (base : Z) : forall (k : nat) (i : Z)
    (done : list double) (r : nat) p',
  store_components k base i vals (Some (map Some done ++ repeat None r)) = Ok p' ->
  Z.of_nat (length done) = base + i ->
  0 <= i ->
  exists r',
    p' = Some (map Some (done ++ map (fun j => nth j vals zero) (seq (Z.to_nat i) k))
               ++ repeat None r')
    /\ r = (k + r')%nat.
Proof.
  induction k as [|k IH]; intros i done r p' H Hdone Hi; cbn [store_components] in H.
  - injection H as <-. exists r. cbn [seq map]. rewrite app_nil_r. auto.
  - apply bind_Ok_inv in H as (j & Ej & H). apply int_val_Ok in Ej as [-> _].
    apply bind_Ok_inv in H as (p1 & Es & H).
    unfold store_at in Es. apply bind_Ok_inv in Es as (a1 & Es & E1). injection E1 as <-.
    rewrite <- Hdone in Es. apply store_next in Es as (r1 & -> & ->).
    apply IH in H as (r' & -> & ->); [|rewrite length_app; cbn [length]; lia|lia].
    exists r'. cbn [seq map]. rewrite <- app_assoc. cbn [app].
    replace (Z.to_nat (i + 1)) with (S (Z.to_nat i)) by lia. auto.
Qed.

(** A [v], [vn] or [vt] line of the second pass that does not abort has
    [width] numbers, and they are stored at the next [width] places. *)
Lemma read_components_fill (width : nat) (s : list ascii) (id : Z) (done : list double)
    (r : nat) (msg : string) p' :
  read_components width s id (Some (map Some done ++ repeat None r)) msg = Ok p' ->
  Z.of_nat (length done) = id * Z.of_nat width ->
  exists vals r',
    sscanf_lf width (skipn 2 s) = Ok (Z.of_nat width, vals)
    /\ length vals = width
    /\ p' = Some (map Some (done ++ vals) ++ repeat None r')
    /\ r = (width + r')%nat.
Proof.
  unfold read_components. intros H Hdone.
  apply bind_Ok_inv in H as ([nread vals] & Escan & H).
  apply bind_Ok_inv in H as (base & Eb & H). apply int_val_Ok in Eb as [-> _].
  apply bind_Ok_inv in H as (p1 & Est & H).
  destruct (Z.eqb_spec nread (Z.of_nat width)) as [->|]; [|discriminate].
  injection H as <-.
  assert (Hlen : length vals = width).
  { apply sscanf_lf_count in Escan as [Hc|[_ Hc]]; lia. }
  apply store_components_fill in Est as (r' & -> & ->); [|lia|lia].
  exists vals, r'. subst width. change (Z.to_nat 0) with 0%nat.
  rewrite map_nth_seq. auto.
Qed.

Lemma store_components_null (vals : list double) (base i : Z) (k : nat) p' :
  store_components (S k) base i vals None = Ok p' -> False.
Proof.
  cbn [store_components]. intros H.
  apply bind_Ok_inv in H as (j & _ & H). cbn [store_at bind] in H. discriminate.
Qed.

Lemma has_command_true (c : ObjFileCmdType) (l : list ascii) :
  has_command c l = true -> line_command l = c.
Proof. unfold has_command. destruct (line_command l), c; cbn; congruence. Qed.

Lemma has_command_false (c : ObjFileCmdType) (l : list ascii) :
  has_command c l = false -> line_command l <> c.
Proof. unfold has_command. destruct (line_command l), c; cbn; congruence. Qed.

Section Components.
Variable cmd : ObjFileCmdType.
Variable width : nat.
Variable counter : state -> Z.
Variable arr : state -> option (array double).
Variable msg : string.

Hypothesis cmd_known : cmd <> UNKNOWN.
Hypothesis width_pos : width <> O.
Hypothesis step : forall buf s st st',
  command s = cmd -> parse_command 1 buf s st = Ok st' ->
  exists p', read_components width s (counter st) (arr st) msg = Ok p'
             /\ arr st' = p' /\ counter st' = counter st + 1.
Hypothesis keep : forall buf s st st',
  command s <> cmd -> parse_command 1 buf s st = Ok st' ->
  arr st' = arr st /\ counter st' = counter st.
Hypothesis buffer_apart : forall b st,
  arr (with_lineBuf b st) = arr st /\ counter (with_lineBuf b st) = counter st.
Hypothesis initially : arr initial_state = None.
Hypothesis reset : forall st,
  arr (reset_counters st) = arr st /\ counter (reset_counters st) = 0.
Hypothesis allocated : forall st,
  arr (after_first_pass st)
  = if 0 <? counter st then Some (malloc (counter st * Z.of_nat width)) else arr st.
Hypothesis in_geometry : forall st st', same_geometry st st' -> arr st' = arr st.
Hypothesis kept : forall p file st st',
  p <> 1 -> parse_pass p file st = Ok st' -> arr st' = arr st.
Hypothesis counted : forall p file st st',
  parse_pass p file st = Ok st' -> counter st' = counter st + count_lines cmd file.

(** The second pass appends the numbers of each line of the command. *)
Lemma parse_pass_components : forall file st st' done r,
  parse_pass 1 file st = Ok st' ->
  arr st = Some (map Some done ++ repeat None r) ->
  Z.of_nat (length done) = counter st * Z.of_nat width ->
  exists r',
    arr st'
    = Some (map Some (done ++ flat_map (components width) (filter (has_command cmd) file))
            ++ repeat None r')
    /\ r = (width * length (filter (has_command cmd) file) + r')%nat
    /\ Forall (fun l => length (components width l) = width)
         (filter (has_command cmd) file).
Proof.
  induction file as [|l file IH]; intros st st' done r H Ha Hd.
  - injection H as <-. exists r. cbn [filter flat_map length]. rewrite app_nil_r.
    conjs; [exact Ha|lia|constructor].
  - destruct (parse_pass_cons 1 l file st) as (tail & E). rewrite E in H. clear E.
    apply bind_Ok_inv in H as (st1 & Hl & H).
    apply parse_line_cases in Hl as (buf1 & Hl).
    cbn [filter]. destruct (has_command cmd l) eqn:Hc.
    + apply has_command_true in Hc.
      destruct Hl as [[Hu _]|[Hcc Hl]]; [congruence|].
      apply step in Hl as (p' & Hr & Hp & Hn); [|congruence].
      destruct (buffer_apart (Some buf1) st) as [Eb Ec]. rewrite Eb, Ec, Ha in Hr.
      apply read_components_fill in Hr as (vals & r1 & Hs & Hv & -> & ->); [|exact Hd].
      destruct (IH st1 st' (done ++ vals) r1 H Hp) as (r' & A & B & C).
      { rewrite length_app, Hn, Ec. lia. }
      exists r'. cbn [flat_map length].
      assert (Hcomp : components width l = vals).
      { unfold components. rewrite Hs. reflexivity. }
      rewrite Hcomp, app_assoc. conjs; [exact A|lia|].
      constructor; [congruence|exact C].
    + apply has_command_false in Hc.
      assert (arr st1 = arr st /\ counter st1 = counter st) as [Ea Ec].
      { destruct Hl as [[_ ->]|[Hcc Hl]]; [apply buffer_apart|].
        apply keep in Hl as [Hl1 Hl2]; [|congruence].
        destruct (buffer_apart (Some buf1) st) as [Eb Ec']. split; congruence. }
      apply (IH st1 st' done r H); congruence.
Qed.

(** Without an array, the second pass goes through only if the file has
    no line of the command. *)
Lemma parse_pass_no_components : forall file st st',
  parse_pass 1 file st = Ok st' ->
  arr st = None ->
  arr st' = None /\ filter (has_command cmd) file = [].
Proof.
  induction file as [|l file IH]; intros st st' H Ha.
  - injection H as <-. auto.
  - destruct (parse_pass_cons 1 l file st) as (tail & E). rewrite E in H. clear E.
    apply bind_Ok_inv in H as (st1 & Hl & H).
    apply parse_line_cases in Hl as (buf1 & Hl).
    cbn [filter]. destruct (has_command cmd l) eqn:Hc.
    + exfalso. apply has_command_true in Hc.
      destruct Hl as [[Hu _]|[Hcc Hl]]; [congruence|].
      apply step in Hl as (p' & Hr & _); [|congruence].
      destruct (buffer_apart (Some buf1) st) as [Eb _]. rewrite Eb, Ha in Hr.
      unfold read_components in Hr.
      apply bind_Ok_inv in Hr as ([nread vals] & _ & Hr).
      apply bind_Ok_inv in Hr as (base & _ & Hr).
      apply bind_Ok_inv in Hr as (p1 & Hst & _).
      destruct width as [|k]; [congruence|].
      exact (store_components_null _ _ _ _ _ Hst).
    + apply has_command_false in Hc.
      assert (arr st1 = arr st) as Ea.
      { destruct Hl as [[_ ->]|[Hcc Hl]]; [apply buffer_apart|].
        apply keep in Hl; [|congruence].
        destruct (buffer_apart (Some buf1) st) as [Eb _]. destruct Hl. congruence. }
      apply (IH st1 st' H). congruence.
Qed.

(** The array that [readOBJ] returns for the command. *)
Lemma readOBJ_array (bytes : list ascii) (st : state) :
  readOBJ (Some bytes) = Ok st ->
  let lines := filter (has_command cmd) (fopen bytes) in
  arr st = (if 0 <? count_lines cmd (fopen bytes)
            then Some (map Some (flat_map (components width) lines))
            else None)
  /\ Forall (fun l => length (components width l) = width) lines.
Proof.
  intros H lines.
  apply readOBJ_Ok_inv in H as (st0 & st1 & st2 & H0 & H1 & H2 & H3).
  pose proof (counted _ _ _ _ H0) as C0.
  pose proof (kept 0 _ _ _ ltac:(lia) H0) as K0.
  destruct (reset initial_state) as [R0 R0'].
  rewrite R0' in C0. rewrite R0, initially in K0. cbn [Z.add] in C0.
  pose proof (allocated st0) as A0. rewrite C0, K0 in A0.
  apply after_second_pass_kept in H2 as [_ G2]. apply in_geometry in G2.
  apply kept in H3; [|lia].
  destruct (reset st2) as [R2 _]. destruct (reset (after_first_pass st0)) as [R1 R1'].
  rewrite H3, R2, G2.
  destruct (Z.ltb_spec 0 (count_lines cmd (fopen bytes))) as [Hpos|Hzero].
  - destruct (parse_pass_components _ _ _ [] (Z.to_nat (count_lines cmd (fopen bytes))
                                               * width) H1)
      as (r' & A & B & C).
    { rewrite R1, A0. unfold malloc. cbn [map app]. do 2 f_equal. lia. }
    { rewrite R1'. reflexivity. }
    cbn [app] in A. fold lines in A, B, C.
    assert (r' = O) as ->.
    { unfold count_lines in B. fold lines in B. rewrite Nat2Z.id in B. lia. }
    cbn [repeat] in A. rewrite app_nil_r in A. split; assumption.
  - destruct (parse_pass_no_components _ _ _ H1) as [A B].
    { rewrite R1, A0. reflexivity. }
    fold lines in B. rewrite B. split; [exact A|constructor].
Qed.

End Components.

Lemma geometry_arrays st st' :
  same_geometry st st' ->
  pVertices st' = pVertices st /\ pNormals st' = pNormals st
  /\ pTexCoords st' = pTexCoords st.
Proof. unfold same_geometry. tauto. Qed.

Lemma after_first_pass_arrays st :
  pVertices (after_first_pass st)
  = (if 0 <? nVertices st then Some (malloc (nVertices st * Z.of_nat 3)) else pVertices st)
  /\ pNormals (after_first_pass st)
     = (if 0 <? nNormals st then Some (malloc (nNormals st * Z.of_nat 3)) else pNormals st)
  /\ pTexCoords (after_first_pass st)
     = (if 0 <? nTexCoords st then Some (malloc (nTexCoords st * Z.of_nat 2))
        else pTexCoords st).
Proof.
  unfold after_first_pass. cbv zeta.
  destruct (0 <? nVertices st); fields;
    destruct (0 <? nNormals st); fields;
    destruct (0 <? nTexCoords st); fields;
    destruct (0 <? nFaces st); fields; conjs; reflexivity.
Qed.

Lemma parse_command_vertex buf s st st' :
  parse_command 1 buf s st = Ok st' ->
  (command s = VERTEX ->
   exists p', read_components 3 s (nVertices st) (pVertices st)
                "error: have components for v" = Ok p'
              /\ pVertices st' = p' /\ nVertices st' = nVertices st + 1)
  /\ (command s <> VERTEX -> pVertices st' = pVertices st /\ nVertices st' = nVertices st).
Proof.
  intros H. unfold parse_command in H. cbn [Z.eqb Pos.eqb] in H.
  destruct (command s); (split; [intros Hc; try discriminate Hc|intros Hc; try congruence]).
  - apply bind_Ok_inv in H as (n & En & H). apply int_val_Ok in En as [-> _].
    apply bind_Ok_inv in H as (p' & Hr & H). injection H as <-. fields. eauto.
  - ok_inv H. fields. auto.
  - ok_inv H. fields. auto.
  - ok_inv H. fields. auto.
  - injection H as <-. auto.
Qed.

Lemma parse_command_normal buf s st st' :
  parse_command 1 buf s st = Ok st' ->
  (command s = NORMAL ->
   exists p', read_components 3 s (nNormals st) (pNormals st)
                "error: have components for vn" = Ok p'
              /\ pNormals st' = p' /\ nNormals st' = nNormals st + 1)
  /\ (command s <> NORMAL -> pNormals st' = pNormals st /\ nNormals st' = nNormals st).
Proof.
  intros H. unfold parse_command in H. cbn [Z.eqb Pos.eqb] in H.
  destruct (command s); (split; [intros Hc; try discriminate Hc|intros Hc; try congruence]).
  - ok_inv H. fields. auto.
  - apply bind_Ok_inv in H as (n & En & H). apply int_val_Ok in En as [-> _].
    apply bind_Ok_inv in H as (p' & Hr & H). injection H as <-. fields. eauto.
  - ok_inv H. fields. auto.
  - ok_inv H. fields. auto.
  - injection H as <-. auto.
Qed.

Lemma parse_command_texcoord buf s st st' :
  parse_command 1 buf s st = Ok st' ->
  (command s = TEXCOORD ->
   exists p', read_components 2 s (nTexCoords st) (pTexCoords st)
                "error: have components for vt" = Ok p'
              /\ pTexCoords st' = p' /\ nTexCoords st' = nTexCoords st + 1)
  /\ (command s <> TEXCOORD ->
      pTexCoords st' = pTexCoords st /\ nTexCoords st' = nTexCoords st).
Proof.
  intros H. unfold parse_command in H. cbn [Z.eqb Pos.eqb] in H.
  destruct (command s); (split; [intros Hc; try discriminate Hc|intros Hc; try congruence]).
  - ok_inv H. fields. auto.
  - ok_inv H. fields. auto.
  - apply bind_Ok_inv in H as (n & En & H). apply int_val_Ok in En as [-> _].
    apply bind_Ok_inv in H as (p' & Hr & H). injection H as <-. fields. eauto.
  - ok_inv H. fields. auto.
  - injection H as <-. auto.
Qed.

(** X16: when [readOBJ] returns, the arrays of vertex coordinates, of
    normals and of texture coordinates hold the numbers of the [v], [vn]
    and [vt] lines in file order, three, three and two for each line, and
    every element has been written; an array for which the file has no line
    is not allocated. *)
Theorem readOBJ_coordinates (contents : option (list ascii)) (st : state) :
  readOBJ contents = Ok st ->
  exists bytes,
    contents = Some bytes
    /\ (let lines := filter (has_command VERTEX) (fopen bytes) in
        pVertices st = (if 0 <? count_lines VERTEX (fopen bytes)
                        then Some (map Some (flat_map (components 3) lines)) else None)
        /\ Forall (fun l => length (components 3 l) = 3%nat) lines)
    /\ (let lines := filter (has_command NORMAL) (fopen bytes) in
        pNormals st = (if 0 <? count_lines NORMAL (fopen bytes)
                       then Some (map Some (flat_map (components 3) lines)) else None)
        /\ Forall (fun l => length (components 3 l) = 3%nat) lines)
    /\ (let lines := filter (has_command TEXCOORD) (fopen bytes) in
        pTexCoords st = (if 0 <? count_lines TEXCOORD (fopen bytes)
                         then Some (map Some (flat_map (components 2) lines)) else None)
        /\ Forall (fun l => length (components 2 l) = 2%nat) lines).
Proof.
  destruct contents as [bytes|]; [|discriminate]. intros H. exists bytes.
  split; [reflexivity|]. conjs.
  - apply (readOBJ_array VERTEX 3 nVertices pVertices "error: have components for v");
      try assumption; try discriminate; try reflexivity.
    + intros buf s st1 st1' Hc Hp. apply (proj1 (parse_command_vertex _ _ _ _ Hp) Hc).
    + intros buf s st1 st1' Hc Hp. apply (proj2 (parse_command_vertex _ _ _ _ Hp) Hc).
    + intros b st1. split; reflexivity.
    + intros st1. split; reflexivity.
    + intros st1. apply after_first_pass_arrays.
    + intros st1 st1' G. apply geometry_arrays in G. tauto.
    + intros p file st1 st1' Hp Hpass. apply (parse_pass_arrays_kept p Hp) in Hpass. tauto.
    + intros p file st1 st1' Hpass. apply parse_pass_counters in Hpass. tauto.
  - apply (readOBJ_array NORMAL 3 nNormals pNormals "error: have components for vn");
      try assumption; try discriminate; try reflexivity.
    + intros buf s st1 st1' Hc Hp. apply (proj1 (parse_command_normal _ _ _ _ Hp) Hc).
    + intros buf s st1 st1' Hc Hp. apply (proj2 (parse_command_normal _ _ _ _ Hp) Hc).
    + intros b st1. split; reflexivity.
    + intros st1. split; reflexivity.
    + intros st1. apply after_first_pass_arrays.
    + intros st1 st1' G. apply geometry_arrays in G. tauto.
    + intros p file st1 st1' Hp Hpass. apply (parse_pass_arrays_kept p Hp) in Hpass. tauto.
    + intros p file st1 st1' Hpass. apply parse_pass_counters in Hpass. tauto.
  - apply (readOBJ_array TEXCOORD 2 nTexCoords pTexCoords "error: have components for vt");
      try assumption; try discriminate; try reflexivity.
    + intros buf s st1 st1' Hc Hp. apply (proj1 (parse_command_texcoord _ _ _ _ Hp) Hc).
    + intros buf s st1 st1' Hc Hp. apply (proj2 (parse_command_texcoord _ _ _ _ Hp) Hc).
    + intros b st1. split; reflexivity.
    + intros st1. split; reflexivity.
    + intros st1. apply after_first_pass_arrays.
    + intros st1 st1' G. apply geometry_arrays in G. tauto.
    + intros p file st1 st1' Hp Hpass. apply (parse_pass_arrays_kept p Hp) in Hpass. tauto.
    + intros p file st1 st1' Hpass. apply parse_pass_counters in Hpass. tauto.
Qed.

Lemma readOBJ_coordinates_witness :
  exists st,
    readOBJ (Some (unlines ["v 0 0 0"; "vt 1 0"; "v 1 0 0"; "v 1 1 0"; "f 1 2 3"]%string))
    = Ok st
    /\ exists bytes,
        Some (unlines ["v 0 0 0"; "vt 1 0"; "v 1 0 0"; "v 1 1 0"; "f 1 2 3"]%string)
        = Some bytes
        /\ (let lines := filter (has_command VERTEX) (fopen bytes) in
            pVertices st = (if 0 <? count_lines VERTEX (fopen bytes)
                            then Some (map Some (flat_map (components 3) lines)) else None)
            /\ Forall (fun l => length (components 3 l) = 3%nat) lines)
        /\ (let lines := filter (has_command NORMAL) (fopen bytes) in
            pNormals st = (if 0 <? count_lines NORMAL (fopen bytes)
                           then Some (map Some (flat_map (components 3) lines)) else None)
            /\ Forall (fun l => length (components 3 l) = 3%nat) lines)
        /\ (let lines := filter (has_command TEXCOORD) (fopen bytes) in
            pTexCoords st = (if 0 <? count_lines TEXCOORD (fopen bytes)
                             then Some (map Some (flat_map (components 2) lines)) else None)
            /\ Forall (fun l => length (components 2 l) = 2%nat) lines).
Proof.
  eexists. split.
  - vm_compute. reflexivity.
  - apply (readOBJ_coordinates
             (Some (unlines ["v 0 0 0"; "vt 1 0"; "v 1 0 0"; "v 1 1 0"; "f 1 2 3"]%string))).
    vm_compute. reflexivity.
Defined.

End OBJMore.
(** ** readOBJ: tokens *)

Module OBJTokens.
Import OBJ OBJSpec OBJFacts OBJMore.

(** *** Tokens *)

Lemma tokens_delim (d : ascii) (s : list ascii) : tokens d (d :: s) = tokens d s.
Proof. cbn [tokens]. rewrite Ascii.eqb_refl. reflexivity. Qed.

(** A run of characters other than the delimiter, up to a delimiter or to
    the end, is the first token. *)
Lemma tokens_run (d : ascii) (rest : list ascii) : forall (a : list ascii),
  a <> [] ->
  forallb (fun x => negb (Ascii.eqb x d)) a = true ->
  rest = [] \/ (exists rest', rest = d :: rest') ->
  tokens d (a ++ rest) = a :: tokens d rest.
Proof.
  induction a as [|c a IH]; intros Hne Ha Hrest; [congruence|].
  cbn [forallb] in Ha. apply andb_true_iff in Ha as [Hc Ha]. apply negb_true_iff in Hc.
  cbn [app tokens]. rewrite Hc.
  destruct a as [|c2 a].
  - cbn [app]. destruct Hrest as [->|(rest' & ->)]; [reflexivity|].
    rewrite Ascii.eqb_refl. reflexivity.
  - cbn [app]. assert (Hc2 : Ascii.eqb c2 d = false).
    { cbn [forallb] in Ha. apply andb_true_iff in Ha as [H _]. now apply negb_true_iff in H. }
    rewrite Hc2. change (c2 :: a ++ rest) with ((c2 :: a) ++ rest).
    rewrite IH; [reflexivity|discriminate|exact Ha|exact Hrest].
Qed.

Lemma run_exists (d : ascii) : forall (s : list ascii) (c : ascii),
  Ascii.eqb c d = false ->
  exists a rest,
    c :: s = a ++ rest /\ a <> []
    /\ forallb (fun x => negb (Ascii.eqb x d)) a = true
    /\ (rest = [] \/ exists rest', rest = d :: rest').
Proof.
  induction s as [|c2 s IH]; intros c Hc.
  - exists [c], []. cbn [forallb]. rewrite Hc. conjs; auto. discriminate.
  - destruct (Ascii.eqb c2 d) eqn:Hc2.
    + apply Ascii.eqb_eq in Hc2 as ->. exists [c], (d :: s). cbn [forallb]. rewrite Hc.
      conjs; eauto. discriminate.
    + destruct (IH c2 Hc2) as (a & rest & E & _ & Ha & Hr).
      exists (c :: a), rest. cbn [app forallb]. rewrite E, Hc, Ha.
      conjs; auto. discriminate.
Qed.

Lemma no_nul_app (s1 s2 : list ascii) :
  no_nul (s1 ++ s2) = true -> no_nul s1 = true /\ no_nul s2 = true.
Proof. unfold no_nul. rewrite forallb_app. apply andb_true_iff. Qed.

Lemma run_clean (d : ascii) (a : list ascii) :
  forallb (fun x => negb (Ascii.eqb x d)) a = true ->
  no_nul a = true ->
  forallb (fun x => negb (Ascii.eqb x d) && negb (Ascii.eqb x NUL)) a = true.
Proof.
  unfold no_nul. induction a as [|x a IH]; [reflexivity|]. cbn [forallb].
  intros H1 H2. apply andb_true_iff in H1 as [-> H1]. apply andb_true_iff in H2 as [-> H2].
  cbn [andb]. auto.
Qed.

(** *** strtok on a string inside a buffer *)

Lemma strtok_skip (pre rest : list ascii) (d : ascii) :
  d <> NUL ->
  strtok (pre ++ d :: rest) (length pre) d = strtok (pre ++ d :: rest) (S (length pre)) d.
Proof.
  intros Hd. unfold strtok. rewrite skipn_app_length.
  replace (skipn (S (length pre)) (pre ++ d :: rest)) with rest.
  2:{ replace (pre ++ d :: rest) with ((pre ++ [d]) ++ rest) by (now rewrite <- app_assoc).
      replace (S (length pre)) with (length (pre ++ [d]))
        by (rewrite length_app; cbn [length]; lia).
      now rewrite skipn_app_length. }
  cbn [strspn]. rewrite Ascii.eqb_refl.
  destruct (Ascii.eqb_spec d NUL) as [|_]; [contradiction|]. cbn [negb andb].
  destruct (strspn rest d) as [k| | | |]; cbn [bind]; try reflexivity.
  replace (length pre + S k)%nat with (S (length pre) + k)%nat by lia. reflexivity.
Qed.

(** The three things [strtok] can do at a position of a string: report
    its end, cut a token that a delimiter ends, or cut the last token. *)
Lemma strtok_cases (d : ascii) (tail : list ascii) : d <> NUL ->
  forall (s pre : list ascii),
    no_nul s = true ->
    let buf := pre ++ s ++ NUL :: tail in
    (tokens d s = []
     /\ exists save, strtok buf (length pre) d = Ok (buf, None, save))
    \/ (exists sp a rest,
           s = sp ++ a ++ d :: rest /\ a <> []
           /\ tokens d s = a :: tokens d rest
           /\ strtok buf (length pre) d
              = Ok ((pre ++ sp ++ a ++ [NUL]) ++ rest ++ NUL :: tail,
                    Some (length (pre ++ sp), length a),
                    length (pre ++ sp ++ a ++ [NUL])))
    \/ (exists sp a,
           s = sp ++ a /\ a <> []
           /\ tokens d s = [a]
           /\ strtok buf (length pre) d
              = Ok (buf, Some (length (pre ++ sp), length a), length (pre ++ sp ++ a))).
Proof.
  intros Hd. induction s as [|c s IH]; intros pre Hs buf.
  - left. split; [reflexivity|]. exists (length pre). apply strtok_end.
  - destruct (Ascii.eqb c d) eqn:Hc.
    + apply Ascii.eqb_eq in Hc as ->.
      assert (Hs' : no_nul s = true).
      { unfold no_nul in *. cbn [forallb] in Hs. now apply andb_true_iff in Hs as [_ Hs]. }
      assert (Hbuf : buf = (pre ++ [d]) ++ s ++ NUL :: tail).
      { unfold buf. rewrite <- app_assoc. reflexivity. }
      assert (Hstart : strtok buf (length pre) d = strtok buf (length (pre ++ [d])) d).
      { unfold buf. cbn [app]. rewrite strtok_skip by exact Hd.
        rewrite length_app. cbn [length]. rewrite Nat.add_1_r. reflexivity. }
      rewrite tokens_delim, Hstart, Hbuf.
      destruct (IH (pre ++ [d]) Hs') as [[Ht (save & E)]|[(sp & a & rest & E1 & Ha & Ht & E)
                                                       |(sp & a & E1 & Ha & Ht & E)]].
      * left. split; [exact Ht|]. exists save. exact E.
      * right. left. exists (d :: sp), a, rest.
        rewrite <- !app_assoc in E. cbn [app] in E.
        rewrite <- !app_assoc. cbn [app].
        conjs; [now rewrite E1|exact Ha|exact Ht|exact E].
      * right. right. exists (d :: sp), a.
        rewrite <- !app_assoc in E. cbn [app] in E. rewrite <- !app_assoc. cbn [app].
        conjs; [now rewrite E1|exact Ha|exact Ht|exact E].
    + destruct (run_exists d s c Hc) as (a & rest & E & Ha & Hr & Hrest).
      assert (Hclean : forallb (fun x => negb (Ascii.eqb x d) && negb (Ascii.eqb x NUL)) a
                       = true).
      { rewrite E in Hs. apply no_nul_app in Hs as [Hsa _]. apply run_clean; assumption. }
      right. unfold buf. rewrite E.
      destruct Hrest as [->|(rest' & ->)].
      * right. exists [], a. rewrite app_nil_r. cbn [app].
        conjs; [reflexivity|exact Ha| |].
        -- rewrite <- (app_nil_r a) at 1. apply tokens_run; auto.
        -- rewrite app_nil_r. rewrite strtok_last by assumption.
           rewrite length_app. reflexivity.
      * left. exists [], a, rest'. cbn [app].
        conjs; [reflexivity|exact Ha| |].
        -- rewrite tokens_run by eauto. rewrite tokens_delim. reflexivity.
        -- rewrite <- app_assoc. cbn [app]. rewrite strtok_delimited by assumption.
           rewrite app_nil_r, <- !app_assoc, !length_app. cbn [app length].
           do 3 f_equal. lia.
Qed.

(** *** The second pass: the sizes of the faces *)

Lemma count_face_vertices_tokens (tail : list ascii) : forall (n : nat) (s pre : list ascii)
    (c : Z) (fuel : nat),
  (length s <= n)%nat -> no_nul s = true -> (length s < fuel)%nat ->
  0 <= c < UINT32_MOD ->
  exists buf',
    count_face_vertices fuel (pre ++ s ++ NUL :: tail) (length pre) c
    = Ok (buf', u32 (c + Z.of_nat (length (tokens " " s)))).
Proof.
  induction n as [|n IH]; intros s pre c fuel Hn Hs Hfuel Hc;
    (destruct fuel as [|fuel]; [lia|]); cbn [count_face_vertices];
    destruct (strtok_cases " " tail ltac:(discriminate) s pre Hs)
      as [[Ht (save & E)]|[(sp & a & rest & E1 & Ha & Ht & E)|(sp & a & E1 & Ha & Ht & E)]];
    rewrite E, Ht; cbn [bind length].
  - eexists. rewrite Z.add_0_r, u32_small by exact Hc. reflexivity.
  - exfalso. subst s. rewrite !length_app in Hn. cbn [length] in Hn. lia.
  - exfalso. subst s. rewrite length_app in Hn. destruct a; [congruence|cbn [length] in Hn; lia].
  - eexists. rewrite Z.add_0_r, u32_small by exact Hc. reflexivity.
  - assert (Hrest : no_nul rest = true).
    { subst s. apply no_nul_app in Hs as [_ Hs]. apply no_nul_app in Hs as [_ Hs].
      unfold no_nul in *. cbn [forallb] in Hs. now apply andb_true_iff in Hs as [_ Hs]. }
    assert (Hlen : (length rest < length s)%nat).
    { subst s. rewrite !length_app. cbn [length]. lia. }
    destruct (IH rest (pre ++ sp ++ a ++ [NUL]) (u32 (c + 1)) fuel) as (buf' & ->);
      [lia|exact Hrest|lia|apply u32_range|].
    exists buf'. rewrite u32_add_l. do 3 f_equal. lia.
  - assert (Hlen : (1 <= length s)%nat).
    { subst s. rewrite length_app. destruct a; [congruence|cbn [length]; lia]. }
    replace (pre ++ s ++ NUL :: tail) with ((pre ++ sp ++ a) ++ [] ++ NUL :: tail)
      by (subst s; rewrite <- !app_assoc; reflexivity).
    destruct (IH [] (pre ++ sp ++ a) (u32 (c + 1)) fuel) as (buf' & ->);
      [cbn [length]; lia|reflexivity|cbn [length]; lia|apply u32_range|].
    exists buf'. cbn [tokens length]. rewrite u32_add_l. do 3 f_equal. lia.
Qed.

Lemma content_prefix (tail : list ascii) : forall (l : list ascii),
  exists x tail', l ++ NUL :: tail = content l ++ x :: tail'.
Proof.
  induction l as [|c l IH]; [exists NUL, tail; reflexivity|].
  cbn [app content]. destruct (_ || _).
  - exists c, (l ++ NUL :: tail). reflexivity.
  - destruct IH as (x & tail' & ->). exists x, tail'. reflexivity.
Qed.

Lemma content_no_nul (l : list ascii) : no_nul (content l) = true.
Proof.
  unfold no_nul. induction l as [|c l IH]; [reflexivity|]. cbn [content].
  destruct (Ascii.eqb c NUL) eqn:E; cbn [orb]; [reflexivity|].
  destruct (existsb _ _); [reflexivity|]. cbn [forallb]. rewrite E, IH. reflexivity.
Qed.

(** The buffer that a pass works on: the text of the line, a [NUL], and
    what lay behind the first carriage return or line feed. *)
Lemma parse_line_buffer p l tail st :
  exists x tail',
    l ++ NUL :: tail = content l ++ x :: tail'
    /\ parse_line p (l ++ NUL :: tail) st
       = match line_command l with
         | UNKNOWN => Ok (with_lineBuf (Some (content l ++ NUL :: tail')) st)
         | _ => parse_command p (content l ++ NUL :: tail') (content l)
                  (with_lineBuf (Some (content l ++ NUL :: tail')) st)
         end.
Proof.
  destruct (content_prefix tail l) as (x & tail' & E). exists x, tail'. split; [exact E|].
  destruct (strip_line l tail) as (buf1 & Hn & Hp & Hs).
  rewrite E, poke_app_here in Hp. injection Hp as <-.
  unfold parse_line, line_command.
  rewrite Hn. cbn [bind]. rewrite E, poke_app_here. cbn [bind]. rewrite Hs. cbn [bind].
  destruct (length (content l) =? 0)%nat; [reflexivity|].
  destruct (Ascii.eqb (hd NUL (content l)) "#"); [reflexivity|].
  unfold parse_command. destruct (command (content l)); reflexivity.
Qed.

Lemma command_face (s : list ascii) :
  command s = FACE -> exists s', s = "f"%char :: " "%char :: s'.
Proof.
  unfold command.
  destruct (Ascii.eqb (nth 0 s NUL) "v" && Ascii.eqb (nth 1 s NUL) " "); [discriminate|].
  destruct (Ascii.eqb (nth 0 s NUL) "v" && Ascii.eqb (nth 1 s NUL) "n"
            && Ascii.eqb (nth 2 s NUL) " "); [discriminate|].
  destruct (Ascii.eqb (nth 0 s NUL) "v" && Ascii.eqb (nth 1 s NUL) "t"
            && Ascii.eqb (nth 2 s NUL) " "); [discriminate|].
  destruct (Ascii.eqb (nth 0 s NUL) "f" && Ascii.eqb (nth 1 s NUL) " ") eqn:E;
    [|discriminate].
  intros _. apply andb_true_iff in E as [E0 E1].
  destruct s as [|c0 [|c1 s']]; cbn [nth] in E0, E1; try discriminate.
  apply Ascii.eqb_eq in E0, E1. subst. eauto.
Qed.

(** The size that the second pass records for a face line. *)
Lemma parse_line_face_size l tail st st' :
  has_command FACE l = true ->
  parse_line 1 (l ++ NUL :: tail) st = Ok st' ->
  store_at (pFaceSizes st) (nFaces st) (face_size l) = Ok (pFaceSizes st')
  /\ nFaces st' = nFaces st + 1.
Proof.
  intros Hf H. apply has_command_true in Hf.
  destruct (parse_line_buffer 1 l tail st) as (x & tail' & _ & E). rewrite E, Hf in H.
  clear E. assert (Hc : command (content l) = FACE).
  { unfold line_command in Hf.
    destruct (length (content l) =? 0)%nat; [discriminate|].
    destruct (Ascii.eqb _ _); [discriminate|exact Hf]. }
  unfold parse_command in H. rewrite Hc in H. cbn [Z.eqb Pos.eqb] in H.
  apply bind_Ok_inv in H as (n & En & H). apply int_val_Ok in En as [-> _].
  apply bind_Ok_inv in H as ([buf1 fvc] & Ecount & H).
  apply bind_Ok_inv in H as (a & Estore & H). injection H as <-. fields.
  destruct (command_face _ Hc) as (s' & Es).
  pose proof (content_no_nul l) as Hnn. rewrite Es in Hnn.
  assert (Hs' : no_nul s' = true).
  { unfold no_nul in *. cbn [forallb] in Hnn.
    apply andb_true_iff in Hnn as [_ Hnn]. now apply andb_true_iff in Hnn as [_ Hnn]. }
  destruct (count_face_vertices_tokens tail' (length s') s' ["f"; " "]%char 0
              (S (length (content l ++ NUL :: tail'))))
    as (buf' & Ecount'); [lia|exact Hs'| |ulia|].
  { rewrite Es, length_app. cbn [length]. lia. }
  rewrite Es in Ecount, Ecount'. cbn [app length] in Ecount, Ecount'.
  rewrite Ecount' in Ecount. injection Ecount as <- <-.
  unfold face_size. rewrite Es. cbn [skipn Z.add]. split; [exact Estore|reflexivity].
Qed.

Lemma parse_pass_face_sizes : forall file st st' done r,
  parse_pass 1 file st = Ok st' ->
  pFaceSizes st = Some (map Some done ++ repeat None r) ->
  nFaces st = Z.of_nat (length done) ->
  exists r',
    pFaceSizes st'
    = Some (map Some (done ++ map face_size (filter (has_command FACE) file))
            ++ repeat None r')
    /\ r = (length (filter (has_command FACE) file) + r')%nat.
Proof.
  induction file as [|l file IH]; intros st st' done r H Ha Hn.
  - injection H as <-. exists r. cbn [filter map length]. rewrite app_nil_r. auto.
  - destruct (parse_pass_cons 1 l file st) as (tail & E). rewrite E in H. clear E.
    apply bind_Ok_inv in H as (st1 & Hl & H).
    cbn [filter]. destruct (has_command FACE l) eqn:Hf.
    + apply parse_line_face_size in Hl as [Hs Hn1]; [|exact Hf].
      rewrite Ha, Hn in Hs. unfold store_at in Hs.
      apply bind_Ok_inv in Hs as (a' & Hs & Hs').
      apply store_next in Hs as (r1 & -> & ->). injection Hs' as Hs'.
      destruct (IH st1 st' (done ++ [face_size l]) r1 H) as (r' & A & B).
      { symmetry. exact Hs'. }
      { rewrite Hn1, Hn, length_app. cbn [length]. lia. }
      exists r'. cbn [map length]. rewrite <- app_assoc in A. cbn [app] in A.
      split; [exact A|lia].
    + rewrite <- is_face_has_command in Hf.
      apply parse_line_not_face in Hl as (A & _ & C & _); [|exact Hf].
      apply (IH st1 st' done r H); congruence.
Qed.

(** X18: when [readOBJ] returns, the array of face sizes holds, for each
    [f] line in file order, the number of tokens that follow the command:
    the maximal runs of characters other than a space. *)
Theorem readOBJ_face_sizes (contents : option (list ascii)) (st : state) :
  readOBJ contents = Ok st ->
  exists bytes,
    contents = Some bytes
    /\ pFaceSizes st
       = Some (map Some (map face_size (filter (has_command FACE) (fopen bytes)))).
Proof.
  intros H. destruct (readOBJ_Ok_face _ _ H) as (bytes & -> & Hpos & _).
  exists bytes. split; [reflexivity|].
  apply readOBJ_Ok_inv in H as (st0 & st1 & st2 & H0 & H1 & H2 & H3).
  apply parse_pass_counters in H0 as (_ & _ & _ & N0 & _).
  unfold reset_counters, initial_state in N0. fields. cbn [Z.add] in N0.
  destruct (after_first_pass_faces st0) as [P1 _]. rewrite N0 in P1.
  destruct (Z.ltb_spec 0 (count_lines FACE (fopen bytes))) as [_|]; [|lia].
  destruct (parse_pass_face_sizes _ _ _ [] (Z.to_nat (count_lines FACE (fopen bytes))) H1)
    as (r' & A & B).
  { unfold reset_counters. fields. rewrite P1. reflexivity. }
  { unfold reset_counters. fields. reflexivity. }
  assert (r' = O) as ->.
  { unfold count_lines in B. rewrite Nat2Z.id in B. lia. }
  cbn [app repeat] in A. rewrite app_nil_r in A.
  apply after_second_pass_kept in H2 as [_ G2].
  apply parse_pass_arrays_kept in H3 as (_ & _ & _ & P3 & _); [|lia].
  unfold reset_counters in P3. fields.
  destruct G2 as (_ & _ & _ & _ & _ & _ & _ & _ & P2 & _).
  congruence.
Qed.

Lemma readOBJ_face_sizes_witness :
  exists st,
    readOBJ (Some (unlines ["v 0 0 0"; "v 1 0 0"; "v 1 1 0"; "v 0 1 0"; "f 1 2 3";
                            "f  1 2  3 4 "]%string)) = Ok st
    /\ exists bytes,
        Some (unlines ["v 0 0 0"; "v 1 0 0"; "v 1 1 0"; "v 0 1 0"; "f 1 2 3";
                       "f  1 2  3 4 "]%string) = Some bytes
        /\ pFaceSizes st
           = Some (map Some (map face_size (filter (has_command FACE) (fopen bytes)))).
Proof.
  eexists. split.
  - vm_compute. reflexivity.
  - apply (readOBJ_face_sizes
             (Some (unlines ["v 0 0 0"; "v 1 0 0"; "v 1 1 0"; "v 0 1 0"; "f 1 2 3";
                             "f  1 2  3 4 "]%string))).
    vm_compute. reflexivity.
Defined.

(** *** The third pass: the data elements of a face vertex *)

Lemma bind_ext {A B : Type} (m : outcome A) (k1 k2 : A -> outcome B) :
  (forall a, k1 a = k2 a) -> bind m k1 = bind m k2.
Proof. intros H. destruct m; cbn [bind]; auto. Qed.

(** The loop over the data elements runs its body once for each token
    that the slashes cut from the copy of the face vertex. *)
Lemma face_vertex_data_tokens (token tail : list ascii) : forall (n : nat) (s pre : list ascii)
    (it : Z) (st : state) (fuel : nat),
  (length s <= n)%nat -> no_nul s = true -> (S (length s) < fuel)%nat ->
  face_vertex_data fuel (pre ++ s ++ NUL :: NUL :: tail) (length pre) it token st
  = data_loop (length (tokens "/" s)) it token st.
Proof.
  induction n as [|n IH]; intros s pre it st fuel Hn Hs Hfuel;
    (destruct fuel as [|fuel]; [lia|]); cbn [face_vertex_data];
    destruct (strtok_cases "/" (NUL :: tail) ltac:(discriminate) s pre Hs)
      as [[Ht (save & E)]|[(sp & a & rest & E1 & Ha & Ht & E)|(sp & a & E1 & Ha & Ht & E)]];
    rewrite E, Ht; cbn [bind length data_loop]; try reflexivity.
  - exfalso. subst s. rewrite !length_app in Hn. cbn [length] in Hn. lia.
  - exfalso. subst s. rewrite length_app in Hn. destruct a; [congruence|cbn [length] in Hn; lia].
  - apply bind_ext. intros [it' st'].
    assert (Hrest : no_nul rest = true).
    { subst s. apply no_nul_app in Hs as [_ Hs]. apply no_nul_app in Hs as [_ Hs].
      unfold no_nul in *. cbn [forallb] in Hs. now apply andb_true_iff in Hs as [_ Hs]. }
    assert (Hlen : (length rest < length s)%nat).
    { subst s. rewrite !length_app. cbn [length]. lia. }
    replace (length (pre ++ sp) + length a + 1)%nat with (length (pre ++ sp ++ a ++ [NUL]))
      by (rewrite !length_app; cbn [length]; lia).
    apply IH; [lia|exact Hrest|lia].
  - apply bind_ext. intros [it' st'].
    assert (Hlen : (1 <= length s)%nat).
    { subst s. rewrite length_app. destruct a; [congruence|cbn [length]; lia]. }
    destruct fuel as [|fuel]; [lia|]. cbn [face_vertex_data].
    replace (pre ++ s ++ NUL :: NUL :: tail) with ((pre ++ s ++ [NUL]) ++ NUL :: tail)
      by (rewrite <- !app_assoc; reflexivity).
    replace (length (pre ++ sp) + length a + 1)%nat with (length (pre ++ s ++ [NUL]))
      by (subst s; rewrite !length_app; cbn [length]; lia).
    rewrite strtok_end. reflexivity.
Qed.

Lemma face_vertex_data_corner (token : list ascii) (st : state) :
  no_nul token = true ->
  (length token <= 510)%nat ->
  face_vertex_data 513 (strncpy_512 token) 0 0 token st
  = data_loop (length (tokens "/" token)) 0 token st.
Proof.
  intros Hn Hlen. rewrite (strncpy_512_short token Hlen).
  apply (face_vertex_data_tokens token _ (length token) token []); [lia|exact Hn|lia].
Qed.

(** Behind the third element the body of the loop stores nothing. *)
Lemma data_loop_idle (token : list ascii) (val : Z) (rest : list ascii) :
  sscanf_d token = Ok (val, rest) ->
  forall (n : nat) (it : Z) (st : state), 3 <= it -> data_loop n it token st = Ok st.
Proof.
  intros Hscan. induction n as [|n IH]; intros it st Hit; [reflexivity|].
  cbn [data_loop]. unfold face_vertex_datum.
  destruct (Z.eqb_spec it 1) as [|_]; [lia|]. cbn [andb].
  destruct (Z.eqb_spec it 0) as [|_]; [lia|].
  destruct (Z.eqb_spec it 1) as [|_]; [lia|].
  destruct (Z.eqb_spec it 2) as [|_]; [lia|].
  unfold sscanf_d in Hscan. destruct (scan_d token); try discriminate.
  cbn [bind]. apply IH. lia.
Qed.

Lemma sscanf_d_less_one (token : list ascii) (val : Z) (rest : list ascii) :
  sscanf_d token = Ok (val, rest) -> INT_MIN <= val - 1 -> int_val (val - 1) = Ok (val - 1).
Proof.
  intros Hscan Hmin. apply ReadFacts.sscanf_d_Ok, ReadFacts.scan_d_in_int in Hscan.
  apply ReadFacts.int_val_in. lia.
Qed.

(** X19: what the third pass does with a face vertex that the slashes cut
    into [k] non-empty elements.  The number at the start of the vertex,
    less one, goes to the slot of the vertex in the array of vertex
    indices; to the same slot of the array of texture-coordinate indices
    if a [vt] line has been seen in this pass and [k] is at least two; and
    to the same slot of the array of normal indices if [k] is at least
    three, or at least two when no [vt] line has been seen.  The elements
    themselves are not read, and nothing else changes. *)
Theorem face_vertex_slots (token : list ascii) (st : state) (val : Z) (rest : list ascii)
    (vi ti ni : option (array Z)) :
  let k := length (tokens "/" token) in
  let haveTexCoords := 0 <? nTexCoords st in
  let tex := haveTexCoords && (2 <=? k)%nat in
  let nor := if haveTexCoords then (3 <=? k)%nat else (2 <=? k)%nat in
  let v := u32 (val - 1) in
  no_nul token = true ->
  (length token <= 510)%nat ->
  (1 <= k)%nat ->
  sscanf_d token = Ok (val, rest) ->
  INT_MIN <= val - 1 ->
  store_at (pFaceVertexIndices st) (faceIndicesCounter st) v = Ok vi ->
  (tex = true ->
   store_at (pFaceVertexTexCoordIndices st) (faceIndicesCounter st) v = Ok ti) ->
  (nor = true ->
   store_at (pFaceVertexNormalIndices st) (faceIndicesCounter st) v = Ok ni) ->
  exists st',
    face_vertex_data 513 (strncpy_512 token) 0 0 token st = Ok st'
    /\ pFaceVertexIndices st' = vi
    /\ pFaceVertexTexCoordIndices st'
       = (if tex then ti else pFaceVertexTexCoordIndices st)
    /\ pFaceVertexNormalIndices st'
       = (if nor then ni else pFaceVertexNormalIndices st)
    /\ same_geometry st st'
    /\ faceIndicesCounter st' = faceIndicesCounter st.
Proof.
  intros k haveTexCoords tex nor v Hn Hlen Hk Hscan Hmin Hvi Hti Hni.
  pose proof (sscanf_d_less_one _ _ _ Hscan Hmin) as Hval.
  rewrite (face_vertex_data_corner token st Hn Hlen). fold k.
  unfold tex, nor in *. clearbody k. clear tex nor.
  destruct k as [|k]; [lia|]. clear Hk.
  (* the first element *)
  cbn [data_loop]. unfold face_vertex_datum at 1.
  cbn [Z.eqb andb]. rewrite Hscan. cbn [bind]. rewrite Hval. cbn [bind].
  fold v. rewrite Hvi. cbn [bind Z.add].
  destruct k as [|k].
  { cbn [data_loop]. eexists. split; [reflexivity|]. fields.
    cbn [Nat.leb]. rewrite andb_false_r.
    destruct haveTexCoords; unfold same_geometry; fields; tauto. }
  (* the second element *)
  cbn [data_loop]. unfold face_vertex_datum at 1. fields. fold haveTexCoords.
  cbn [Nat.leb] in Hti, Hni |- *. rewrite andb_true_r in Hti |- *.
  destruct haveTexCoords eqn:Htex; cbn [negb andb Z.eqb Pos.eqb].
  - rewrite Hscan. cbn [bind]. rewrite Hval. cbn [bind].
    fold v. rewrite (Hti eq_refl). cbn [bind Z.add Pos.add].
    destruct k as [|k].
    { cbn [data_loop]. eexists. split; [reflexivity|]. fields.
      unfold same_geometry; fields; tauto. }
    (* the third element *)
    cbn [data_loop]. unfold face_vertex_datum at 1. fields. fold haveTexCoords.
    rewrite Htex. cbn [negb andb Z.eqb Pos.eqb].
    rewrite Hscan. cbn [bind]. rewrite Hval. cbn [bind].
    fold v. rewrite (Hni eq_refl). cbn [bind Z.add Pos.add Pos.succ].
    rewrite (data_loop_idle token val rest Hscan) by lia.
    eexists. split; [reflexivity|]. fields. unfold same_geometry; fields; tauto.
  - rewrite Hscan. cbn [bind]. rewrite Hval. cbn [bind].
    fold v. rewrite (Hni eq_refl). cbn [bind Z.add Pos.add Pos.succ].
    rewrite (data_loop_idle token val rest Hscan) by lia.
    eexists. split; [reflexivity|]. fields. unfold same_geometry; fields; tauto.
Qed.

Lemma face_vertex_slots_witness :
  exists st',
    face_vertex_data 513 (strncpy_512 (text "7//9")) 0 0 (text "7//9")
      (State None 3 0 1 1 0 0 None None None None (Some [None]) (Some [None]) (Some [None])
         0 0 0 0) = Ok st'
    /\ pFaceVertexIndices st' = Some [Some 6]
    /\ pFaceVertexTexCoordIndices st' = Some [Some 6]
    /\ pFaceVertexNormalIndices st' = Some [None]
    /\ same_geometry
         (State None 3 0 1 1 0 0 None None None None (Some [None]) (Some [None]) (Some [None])
            0 0 0 0) st'
    /\ faceIndicesCounter st' = 0.
Proof.
  apply (face_vertex_slots (text "7//9")
           (State None 3 0 1 1 0 0 None None None None (Some [None]) (Some [None])
              (Some [None]) 0 0 0 0)
           7 (text "//9") (Some [Some 6]) (Some [Some 6]) None).
  - reflexivity.
  - cbn. lia.
  - cbn. lia.
  - reflexivity.
  - unfold INT_MIN. lia.
  - reflexivity.
  - intros _. reflexivity.
  - intros H. discriminate H.
Defined.

(** *** The third pass: lines that end with a carriage return *)













End OBJTokens.
(** ** readOBJ: the array of vertex indices *)

Module OBJIndices.
Import OBJ OBJSpec OBJFacts OBJMore OBJTokens.

(** *** The data elements of one face vertex *)

(** Only the first data element of a face vertex goes to the array of
    vertex indices. *)
Lemma face_vertex_datum_later it token st it' st' :
  1 <= it ->
  face_vertex_datum it token st = Ok (it', st') ->
  1 <= it' /\ pFaceVertexIndices st' = pFaceVertexIndices st.
Proof.
  unfold face_vertex_datum. intros Hit H.
  apply bind_Ok_inv in H as (st1 & E & H). injection H as <- <-.
  set (it2 := if (it =? 1) && negb (0 <? nTexCoords st) then 2 else it) in *.
  assert (1 <= it2) by (unfold it2; destruct (_ && _); lia).
  split; [lia|].
  destruct (Z.eqb_spec it2 0); [lia|].
  repeat match type of E with
         | (if ?b then _ else _) = Ok _ => destruct b
         end;
    try (ok_inv E; subst; reflexivity).
  destruct (scan_d token); try discriminate; injection E as <-; reflexivity.
Qed.

Lemma face_vertex_data_later fuel : forall buf start it token st st',
  1 <= it ->
  face_vertex_data fuel buf start it token st = Ok st' ->
  pFaceVertexIndices st' = pFaceVertexIndices st.
Proof.
  induction fuel as [|fuel IH]; intros buf start it token st st' Hit H; [discriminate|].
  cbn [face_vertex_data] in H.
  apply bind_Ok_inv in H as ([[buf' tokenElem] save] & _ & H).
  destruct tokenElem as [[off len]|].
  - apply bind_Ok_inv in H as ([it1 st1] & E & H).
    apply face_vertex_datum_later in E as [Hit1 E]; [|exact Hit].
    apply IH in H; [|exact Hit1]. congruence.
  - injection H as <-. reflexivity.
Qed.

Lemma face_vertex_datum_first token st it' st' :
  face_vertex_datum 0 token st = Ok (it', st') ->
  it' = 1
  /\ exists val rest,
      sscanf_d token = Ok (val, rest)
      /\ store_at (pFaceVertexIndices st) (faceIndicesCounter st) (u32 (val - 1))
         = Ok (pFaceVertexIndices st').
Proof.
  unfold face_vertex_datum. cbn [Z.eqb andb]. intros H.
  apply bind_Ok_inv in H as (st1 & E & H). injection H as <- <-.
  split; [reflexivity|].
  apply bind_Ok_inv in E as ([val rest] & Es & E).
  apply bind_Ok_inv in E as (v & Ev & E). apply int_val_Ok in Ev as [-> _].
  apply bind_Ok_inv in E as (a & Ea & E). injection E as <-. fields.
  exists val, rest. split; [exact Es|exact Ea].
Qed.

Lemma sscanf_d_slash (r : list ascii) : sscanf_d ("/"%char :: r) = Undefined.
Proof. reflexivity. Qed.

(** At a character that is neither the delimiter nor [NUL], [strtok]
    finds a token. *)
Lemma strtok_first_char (c : ascii) (l : list ascii) (d : ascii) :
  Ascii.eqb c d = false -> Ascii.eqb c NUL = false ->
  forall b save, strtok (c :: l) 0 d <> Ok (b, None, save).
Proof.
  intros Hd Hn b save. unfold strtok. cbn [skipn strspn]. rewrite Hd.
  cbn [andb bind Nat.add skipn strcspn existsb]. rewrite Hn, Hd. cbn [orb].
  destruct (strcspn l [d]) as [n| | | |]; cbn [bind]; try discriminate.
  cbn [Nat.eqb]. destruct (Ascii.eqb (nth _ _ _) _); [discriminate|].
  destruct (poke _ _ _); cbn [bind]; discriminate.
Qed.

(** What the loop over the data elements of a face vertex does to the
    array of vertex indices. *)
Lemma face_vertex_data_slot (c : ascii) (r : list ascii) (fuel : nat) (st st' : state) :
  Ascii.eqb c NUL = false ->
  face_vertex_data fuel (strncpy_512 (c :: r)) 0 0 (c :: r) st = Ok st' ->
  match vertex_slot (c :: r) with
  | Some v => store_at (pFaceVertexIndices st) (faceIndicesCounter st) v
  | None => Ok (pFaceVertexIndices st)
  end = Ok (pFaceVertexIndices st').
Proof.
  intros Hc H. destruct fuel as [|fuel]; [discriminate|]. cbn [face_vertex_data] in H.
  apply bind_Ok_inv in H as ([[buf' tokenElem] save] & Et & H).
  destruct tokenElem as [[off len]|].
  - apply bind_Ok_inv in H as ([it1 st1] & Ed & H).
    apply face_vertex_datum_first in Ed as (-> & val & rest & Es & Ea).
    apply face_vertex_data_later in H; [|lia].
    unfold vertex_slot. rewrite Es, H. exact Ea.
  - injection H as <-. destruct (Ascii.eqb c "/") eqn:Hs.
    + apply Ascii.eqb_eq in Hs as ->. unfold vertex_slot. rewrite sscanf_d_slash. reflexivity.
    + exfalso. unfold strncpy_512 in Et. cbn [app] in Et.
      rewrite (firstn_cons 511) in Et.
      exact (strtok_first_char c _ "/" Hs Hc _ _ Et).
Qed.

(** *** The face vertices of one line *)

Lemma token_at (p a q : list ascii) :
  firstn (length a) (skipn (length p) (p ++ a ++ q)) = a.
Proof.
  rewrite skipn_app_length. induction a as [|x a IH]; [reflexivity|].
  cbn [length app firstn]. now rewrite IH.
Qed.

Lemma face_vertices_end (p t : list ascii) (fuel : nat) (iter : Z) (st : state) r :
  face_vertices fuel (p ++ NUL :: t) (length p) iter st = Ok r ->
  r = (p ++ NUL :: t, iter, st).
Proof.
  destruct fuel as [|fuel]; [discriminate|]. cbn [face_vertices].
  rewrite strtok_end. cbn [bind]. congruence.
Qed.

(** One round of the loop over the face vertices, at a token that does
    not start with [NUL]. *)
Lemma face_vertices_step (fuel : nat) (buf buf1 : list ascii) (start off len save : nat)
    (iter : Z) (st : state) (c : ascii) (t : list ascii) r :
  strtok buf start " " = Ok (buf1, Some (off, len), save) ->
  firstn len (skipn off buf1) = c :: t ->
  Ascii.eqb c NUL = false ->
  face_vertices (S fuel) buf start iter st = Ok r ->
  if Ascii.eqb c "f" then face_vertices fuel buf1 (off + len + 1) iter st = Ok r
  else exists st1,
      match vertex_slot (c :: t) with
      | Some v => store_at (pFaceVertexIndices st) (faceIndicesCounter st) v
      | None => Ok (pFaceVertexIndices st)
      end = Ok (pFaceVertexIndices st1)
      /\ faceIndicesCounter st1 = faceIndicesCounter st + 1
      /\ face_vertices fuel buf1 (off + len + 1) (iter + 1) st1 = Ok r.
Proof.
  intros Et Etok Hc H. cbn [face_vertices] in H. rewrite Et in H. cbn [bind] in H.
  rewrite Etok in H.
  assert (Hhd : hd NUL (strncpy_512 (c :: t)) = c).
  { unfold strncpy_512. cbn [app]. rewrite (firstn_cons 511). reflexivity. }
  rewrite Hhd in H. destruct (Ascii.eqb c "f"); [exact H|].
  apply bind_Ok_inv in H as (iter1 & Ei & H). apply int_val_Ok in Ei as [-> _].
  apply bind_Ok_inv in H as (st1 & Ed & H).
  apply bind_Ok_inv in H as (c1 & Ec & H). apply int_val_Ok in Ec as [-> _].
  pose proof (face_vertex_data_frame _ _ _ _ _ _ _ Ed) as [_ Hcount].
  apply face_vertex_data_slot in Ed; [|exact Hc].
  exists (with_faceIndicesCounter (faceIndicesCounter st1 + 1) st1). fields.
  split; [exact Ed|]. split; [lia|exact H].
Qed.

Lemma no_nul_head (c : ascii) (t : list ascii) :
  no_nul (c :: t) = true -> Ascii.eqb c NUL = false.
Proof.
  unfold no_nul. cbn [forallb]. intros H. apply andb_true_iff in H as [H _].
  now apply negb_true_iff in H.
Qed.

(** On the text [s] of a line that two [NUL]s end, the loop over the
    face vertices handles the tokens of [s] that do not start with [f],
    in order: each one is counted in [iter] and has one slot of the
    array of vertex indices. *)
Lemma face_vertices_slots (tail : list ascii) : forall (n : nat) (s pre : list ascii)
    (fuel : nat) (iter : Z) (st : state) buf' iter' st',
  (length s <= n)%nat -> no_nul s = true ->
  face_vertices fuel (pre ++ s ++ NUL :: NUL :: tail) (length pre) iter st
  = Ok (buf', iter', st') ->
  let toks := filter (fun t => negb (Ascii.eqb (hd NUL t) "f")) (tokens " " s) in
  iter' = iter + Z.of_nat (length toks)
  /\ puts (pFaceVertexIndices st) (faceIndicesCounter st) (map vertex_slot toks)
     = Ok (pFaceVertexIndices st').
Proof.
  induction n as [|n IH]; intros s pre fuel iter st buf' iter' st' Hn Hs H;
    (destruct fuel as [|fuel]; [discriminate|]);
    destruct (strtok_cases " " (NUL :: tail) ltac:(discriminate) s pre Hs)
      as [[Ht (save & E)]|[(sp & a & rest & E1 & Ha & Ht & E)|(sp & a & E1 & Ha & Ht & E)]];
    rewrite Ht; cbn zeta.
  - cbn [face_vertices] in H. rewrite E in H. cbn [bind] in H. injection H as _ <- <-.
    cbn [filter map length puts]. split; [lia|reflexivity].
  - exfalso. subst s. rewrite !length_app in Hn. cbn [length] in Hn. lia.
  - exfalso. subst s. rewrite length_app in Hn. destruct a; [congruence|cbn [length] in Hn; lia].
  - cbn [face_vertices] in H. rewrite E in H. cbn [bind] in H. injection H as _ <- <-.
    cbn [filter map length puts]. split; [lia|reflexivity].
  - assert (Hrest : no_nul rest = true).
    { subst s. apply no_nul_app in Hs as [_ Hs]. apply no_nul_app in Hs as [_ Hs].
      unfold no_nul in *. cbn [forallb] in Hs. now apply andb_true_iff in Hs as [_ Hs]. }
    assert (Hlen : (length rest < length s)%nat).
    { subst s. rewrite !length_app. cbn [length]. lia. }
    assert (Hna : no_nul a = true).
    { subst s. apply no_nul_app in Hs as [_ Hs]. now apply no_nul_app in Hs as [Hs _]. }
    destruct a as [|c t]; [congruence|]. apply no_nul_head in Hna.
    assert (Etok : firstn (length (c :: t)) (skipn (length (pre ++ sp))
                     ((pre ++ sp ++ (c :: t) ++ [NUL]) ++ rest ++ NUL :: NUL :: tail))
                   = c :: t).
    { replace ((pre ++ sp ++ (c :: t) ++ [NUL]) ++ rest ++ NUL :: NUL :: tail)
        with ((pre ++ sp) ++ (c :: t) ++ (NUL :: rest ++ NUL :: NUL :: tail))
        by (rewrite <- !app_assoc; reflexivity).
      apply token_at. }
    pose proof (face_vertices_step _ _ _ _ _ _ _ _ _ _ _ _ E Etok Hna H) as Hstep.
    replace (length (pre ++ sp) + length (c :: t) + 1)%nat
      with (length (pre ++ sp ++ (c :: t) ++ [NUL])) in Hstep
      by (rewrite !length_app; cbn [length]; lia).
    cbn [filter hd]. destruct (Ascii.eqb c "f"); cbn [negb].
    + apply IH in Hstep; [exact Hstep|lia|exact Hrest].
    + destruct Hstep as (st1 & Eput & Ecount & Hstep).
      apply IH in Hstep as [Hi Hp]; [|lia|exact Hrest].
      cbn [map length puts]. rewrite Eput. cbn [bind]. rewrite <- Ecount.
      split; [lia|exact Hp].
  - assert (Hna : no_nul a = true).
    { subst s. now apply no_nul_app in Hs as [_ Hs]. }
    destruct a as [|c t]; [congruence|]. apply no_nul_head in Hna.
    assert (Etok : firstn (length (c :: t)) (skipn (length (pre ++ sp))
                     (pre ++ s ++ NUL :: NUL :: tail))
                   = c :: t).
    { replace (pre ++ s ++ NUL :: NUL :: tail)
        with ((pre ++ sp) ++ (c :: t) ++ (NUL :: NUL :: tail))
        by (subst s; rewrite <- !app_assoc; reflexivity).
      apply token_at. }
    pose proof (face_vertices_step _ _ _ _ _ _ _ _ _ _ _ _ E Etok Hna H) as Hstep.
    replace (length (pre ++ sp) + length (c :: t) + 1)%nat
      with (length (pre ++ s ++ [NUL])) in Hstep
      by (subst s; rewrite !length_app; cbn [length]; lia).
    replace (pre ++ s ++ NUL :: NUL :: tail)
      with ((pre ++ s ++ [NUL]) ++ NUL :: tail) in Hstep
      by (rewrite <- !app_assoc; reflexivity).
    cbn [filter hd]. destruct (Ascii.eqb c "f"); cbn [negb].
    + apply face_vertices_end in Hstep. injection Hstep as _ -> ->.
      cbn [map length puts]. split; [lia|reflexivity].
    + destruct Hstep as (st1 & Eput & Ecount & Hstep).
      apply face_vertices_end in Hstep. injection Hstep as _ -> ->.
      cbn [map length puts]. rewrite Eput. cbn [bind]. split; [lia|reflexivity].
Qed.

(** *** The lines of the third pass *)

Lemma tokens_face (s : list ascii) :
  tokens " " ("f"%char :: " "%char :: s) = ["f"%char] :: tokens " " s.
Proof. reflexivity. Qed.

(** A face line that ends with a line feed, with no carriage return and
    no [NUL] before it, in the third pass. *)
Lemma parse_line_face_slots l tail st st' :
  has_command FACE l = true ->
  l = content l ++ [LF] ->
  parse_line 2 (l ++ NUL :: tail) st = Ok st' ->
  exists size,
    load_at (pFaceSizes st) (nFaces st) = Ok size
    /\ Z.of_nat (length (face_vertex_tokens l)) = to_int size
    /\ puts (pFaceVertexIndices st) (faceIndicesCounter st) (face_slots l)
       = Ok (pFaceVertexIndices st')
    /\ faceIndicesCounter st' = faceIndicesCounter st + to_int size
    /\ nFaces st' = nFaces st + 1
    /\ pFaceSizes st' = pFaceSizes st.
Proof.
  intros Hf Hl H. apply has_command_true in Hf.
  destruct (parse_line_buffer 2 l tail st) as (x & tail' & Eb & E). rewrite E, Hf in H.
  clear E. assert (Hc : command (content l) = FACE).
  { unfold line_command in Hf.
    destruct (length (content l) =? 0)%nat; [discriminate|].
    destruct (Ascii.eqb _ _); [discriminate|exact Hf]. }
  unfold face_slots, face_vertex_tokens.
  pose proof (content_no_nul l) as Hnn.
  remember (content l) as c eqn:Ec. rewrite Hl in Eb.
  rewrite <- app_assoc in Eb. cbn [app] in Eb. apply app_inv_head in Eb.
  injection Eb as <- <-.
  unfold parse_command in H. rewrite Hc in H. cbn [Z.eqb Pos.eqb] in H.
  apply bind_Ok_inv in H as (n & En & H). apply int_val_Ok in En as [-> _].
  apply bind_Ok_inv in H as (size & Eload & H).
  apply bind_Ok_inv in H as ([[buf1 iter] st1] & Efill & H).
  destruct (Z.eqb_spec iter (to_int size)) as [Heq|]; [|discriminate].
  injection H as <-. fields.
  pose proof (face_vertices_frame _ _ _ _ _ _ _ _ Efill) as ((F1 & _ & F3 & _) & C & _).
  apply (face_vertices_slots tail (length c) c []) in Efill as [Hi Hp];
    [|lia|exact Hnn].
  fields. destruct (command_face _ Hc) as (s' & Es). rewrite Es in Hi, Hp.
  rewrite tokens_face in Hi, Hp. cbn [filter hd] in Hi, Hp.
  change (negb (Ascii.eqb "f" "f")) with false in Hi, Hp. cbn iota in Hi, Hp.
  rewrite Es. cbn [skipn].
  exists size. conjs; [exact Eload|lia|exact Hp|lia|exact F1|exact F3].
Qed.

Lemma parse_command_other_indices p buf s st st' :
  command s <> FACE ->
  parse_command p buf s st = Ok st' ->
  pFaceVertexIndices st' = pFaceVertexIndices st.
Proof.
  intros Hc H. unfold parse_command in H.
  destruct (command s); try congruence; ok_inv H; reflexivity.
Qed.

Lemma parse_line_not_face_indices p l tail st st' :
  is_face l = false ->
  parse_line p (l ++ NUL :: tail) st = Ok st' ->
  pFaceVertexIndices st' = pFaceVertexIndices st.
Proof.
  intros Hf H. destruct (parse_line_stripped p l tail st) as (buf1 & E).
  rewrite E in H. clear E.
  destruct (line_command_not_face l Hf) as [Hu|[Hc Hn]].
  - rewrite Hu in H. injection H as <-. reflexivity.
  - assert (parse_command p buf1 (content l) (with_lineBuf (Some buf1) st) = Ok st'
            \/ Ok (with_lineBuf (Some buf1) st) = Ok st') as [H'|H'].
    { destruct (line_command l); auto. }
    + apply parse_command_other_indices in H'; [|exact Hn]. exact H'.
    + injection H' as <-. reflexivity.
Qed.

(** *** Filling an array slot by slot *)

Lemma puts_fill : forall (slots written : list (option Z)) (r : nat) p',
  puts (Some (written ++ repeat None r)) (Z.of_nat (length written)) slots = Ok p' ->
  (length slots <= r)%nat ->
  p' = Some (written ++ slots ++ repeat None (r - length slots)).
Proof.
  induction slots as [|slot slots IH]; intros written r p' H Hr.
  - injection H as <-. cbn [app length]. now rewrite Nat.sub_0_r.
  - cbn [length] in Hr. destruct r as [|r]; [lia|].
    cbn [puts repeat] in H. apply bind_Ok_inv in H as (p1 & E & H).
    assert (Hp1 : p1 = Some ((written ++ [slot]) ++ repeat None r)).
    { rewrite <- app_assoc. cbn [app]. destruct slot as [v|].
      - unfold store_at, store in E.
        destruct (Z.ltb_spec (Z.of_nat (length written)) 0); [lia|].
        rewrite Nat2Z.id, set_nth_app_here in E. cbn [bind] in E.
        injection E as <-. reflexivity.
      - congruence. }
    subst p1.
    replace (Z.of_nat (length written) + 1) with (Z.of_nat (length (written ++ [slot])))
      in H by (rewrite length_app; cbn [length]; lia).
    apply IH in H; [|lia]. subst p'. rewrite <- app_assoc. reflexivity.
Qed.

Lemma load_at_here (done rest : list Z) (x : Z) :
  load_at (Some (map Some (done ++ x :: rest))) (Z.of_nat (length done)) = Ok x.
Proof.
  unfold load_at. rewrite map_app. cbn [map].
  rewrite <- (length_map Some done), index_app_here. reflexivity.
Qed.

(** *** The third pass over the file *)

Lemma parse_pass_slots : forall file st st' done written r,
  parse_pass 2 file st = Ok st' ->
  Forall (fun l => l = content l ++ [LF]) (filter (has_command FACE) file) ->
  pFaceSizes st = Some (map Some (done ++ map face_size (filter (has_command FACE) file))) ->
  nFaces st = Z.of_nat (length done) ->
  Forall (fun s => 0 <= s <= INT_MAX) (map face_size (filter (has_command FACE) file)) ->
  pFaceVertexIndices st = Some (written ++ repeat None r) ->
  faceIndicesCounter st = Z.of_nat (length written) ->
  Z.of_nat r = sumZ (map face_size (filter (has_command FACE) file)) ->
  pFaceVertexIndices st'
  = Some (written ++ concat (map face_slots (filter (has_command FACE) file)))
  /\ Forall (fun l => Z.of_nat (length (face_slots l)) = face_size l)
       (filter (has_command FACE) file).
Proof.
  induction file as [|l file IH]; intros st st' done written r H Hlf Hs Hn Hrange Hp Hc Hr.
  - injection H as <-. cbn [filter map sumZ fold_right] in *.
    assert (r = O) as -> by (unfold sumZ in Hr; cbn [fold_right] in Hr; lia).
    cbn [repeat concat] in *. split; [exact Hp|constructor].
  - destruct (parse_pass_cons 2 l file st) as (tail & E). rewrite E in H. clear E.
    apply bind_Ok_inv in H as (st1 & Hl & H).
    cbn [filter] in *. destruct (has_command FACE l) eqn:Hf.
    + cbn [map concat] in *. inversion Hlf as [|? ? Hl1 Hlf']; subst.
      inversion Hrange as [|? ? Hr1 Hrange']; subst.
      apply parse_line_face_slots in Hl
        as (size & Eload & Em & Eput & Ecount & Enf & Esizes); [|exact Hf|exact Hl1].
      rewrite Hs, Hn, load_at_here in Eload. injection Eload as <-.
      rewrite to_int_small in Em, Ecount by exact Hr1.
      pose proof (sumZ_nonneg _ Hrange') as Hnn.
      unfold sumZ in Hr. cbn [fold_right] in Hr. fold (sumZ (map face_size (filter (has_command FACE) file))) in Hr.
      rewrite Hp, Hc in Eput. apply puts_fill in Eput.
      2:{ unfold face_slots. rewrite length_map. lia. }
      assert (Hlen : length (face_slots l) = length (face_vertex_tokens l))
        by (unfold face_slots; now rewrite length_map).
      rewrite app_assoc in Eput.
      destruct (IH st1 st' (done ++ [face_size l]) (written ++ face_slots l)
                  (r - length (face_slots l))%nat H Hlf') as [A B].
      7:{ rewrite A, <- app_assoc. split; [reflexivity|].
          constructor; [lia|exact B]. }
      * rewrite Esizes, Hs, <- app_assoc. reflexivity.
      * rewrite Enf, Hn, length_app. cbn [length]. lia.
      * exact Hrange'.
      * exact Eput.
      * rewrite Ecount, Hc, length_app. lia.
      * lia.
    + rewrite <- is_face_has_command in Hf.
      pose proof (parse_line_not_face_indices _ _ _ _ _ Hf Hl) as Hi.
      apply parse_line_not_face in Hl as (A & _ & C & D); [|exact Hf].
      apply (IH st1 st' done written r H Hlf); congruence.
Qed.

Lemma map_Some_inj {A : Type} : forall (l1 l2 : list A),
  map Some l1 = map Some l2 -> l1 = l2.
Proof.
  induction l1 as [|x l1 IH]; intros [|y l2] H; try discriminate; [reflexivity|].
  cbn [map] in H. injection H as -> H. f_equal. apply IH, H.
Qed.

Lemma after_second_pass_indices st st' :
  after_second_pass st = Ok st' ->
  pFaceVertexIndices st' = Some (malloc (nFaceIndices st)).
Proof.
  unfold after_second_pass. destruct (nFaceIndices st =? 0); [discriminate|].
  intros H. injection H as <-. fields.
  destruct (0 <? nTexCoords st); fields; destruct (0 <? nNormals st); reflexivity.
Qed.

(** The array of face sizes behind the second pass. *)
Lemma second_pass_face_sizes (bytes : list ascii) (st0 st1 : state) :
  parse_pass 0 (fopen bytes) (reset_counters initial_state) = Ok st0 ->
  parse_pass 1 (fopen bytes) (reset_counters (after_first_pass st0)) = Ok st1 ->
  0 < count_lines FACE (fopen bytes) ->
  pFaceSizes st1
  = Some (map Some (map face_size (filter (has_command FACE) (fopen bytes)))).
Proof.
  intros H0 H1 Hpos.
  apply parse_pass_counters in H0 as (_ & _ & _ & N0 & _).
  unfold reset_counters, initial_state in N0. fields. cbn [Z.add] in N0.
  destruct (after_first_pass_faces st0) as [P1 _]. rewrite N0 in P1.
  destruct (Z.ltb_spec 0 (count_lines FACE (fopen bytes))) as [_|]; [|lia].
  destruct (parse_pass_face_sizes _ _ _ [] (Z.to_nat (count_lines FACE (fopen bytes))) H1)
    as (r' & A & B).
  { unfold reset_counters. fields. rewrite P1. reflexivity. }
  { unfold reset_counters. fields. reflexivity. }
  assert (r' = O) as ->.
  { unfold count_lines in B. rewrite Nat2Z.id in B. lia. }
  cbn [app repeat] in A. rewrite app_nil_r in A. exact A.
Qed.

(** The face sizes and the vertex indices of an accepted file whose [f]
    lines each end with a line feed. *)
Lemma readOBJ_faces_filled (bytes : list ascii) (st : state) :
  readOBJ (Some bytes) = Ok st ->
  Forall (fun l => l = content l ++ [LF]) (filter (has_command FACE) (fopen bytes)) ->
  pFaceSizes st
  = Some (map Some (map face_size (filter (has_command FACE) (fopen bytes))))
  /\ pFaceVertexIndices st
     = Some (concat (map face_slots (filter (has_command FACE) (fopen bytes))))
  /\ Forall (fun l => Z.of_nat (length (face_slots l)) = face_size l)
       (filter (has_command FACE) (fopen bytes)).
Proof.
  intros H Hlf.
  destruct (readOBJ_totals _ _ H) as (sizes & Hsizes & Hrange & Hsum & _).
  destruct (readOBJ_Ok_face _ _ H) as (bytes' & Eb & Hpos & _). injection Eb as <-.
  apply readOBJ_Ok_inv in H as (st0 & st1 & st2 & H0 & H1 & H2 & H3).
  pose proof (second_pass_face_sizes bytes st0 st1 H0 H1 Hpos) as P1.
  pose proof (after_second_pass_indices _ _ H2) as I2.
  apply after_second_pass_faces in H2 as (_ & P2 & N2).
  pose proof (parse_pass_arrays_kept 2 ltac:(lia) _ _ _ H3) as (_ & _ & _ & P3 & N3).
  unfold reset_counters in P3, N3. fields.
  assert (sizes = map face_size (filter (has_command FACE) (fopen bytes))) as ->.
  { apply map_Some_inj. congruence. }
  split; [exact Hsizes|].
  apply (parse_pass_slots _ _ _ [] [] (Z.to_nat (nFaceIndices st1)) H3 Hlf).
  - unfold reset_counters. fields. rewrite P2, P1. reflexivity.
  - unfold reset_counters. fields. reflexivity.
  - exact Hrange.
  - unfold reset_counters. fields. rewrite I2. reflexivity.
  - unfold reset_counters. fields. reflexivity.
  - pose proof (sumZ_nonneg _ Hrange). rewrite Z2Nat.id; lia.
Qed.

(** X21: when [readOBJ] returns for a file whose [f] lines each end with a
    line feed, with no carriage return and no [NUL] before it, the array
    of vertex indices has one element for each face vertex, in file
    order: the tokens behind the [f] that do not start with [f].  The
    element is the number at the start of the token, less one; it is left
    unwritten when the token does not start with a number, which is so
    when it is made of slashes only.  Every face has as many elements as
    the size recorded for it. *)
Theorem readOBJ_vertex_indices (bytes : list ascii) (st : state) :
  readOBJ (Some bytes) = Ok st ->
  Forall (fun l => l = content l ++ [LF]) (filter (has_command FACE) (fopen bytes)) ->
  pFaceVertexIndices st
  = Some (concat (map face_slots (filter (has_command FACE) (fopen bytes))))
  /\ Forall (fun l => Z.of_nat (length (face_slots l)) = face_size l)
       (filter (has_command FACE) (fopen bytes)).
Proof.
  intros H Hlf. exact (proj2 (readOBJ_faces_filled bytes st H Hlf)).
Qed.

Lemma readOBJ_vertex_indices_witness :
  exists st,
    readOBJ (Some (unlines ["v 0 0 0"; "v 1 0 0"; "v 1 1 0"; "vn 0 0 1"; "f 1//1 2//1 3//1";
                            "f 3 1 /"]%string)) = Ok st
    /\ pFaceVertexIndices st = Some [Some 0; Some 1; Some 2; Some 2; Some 0; None].
Proof.
  eexists. split.
  - vm_compute. reflexivity.
  - apply (readOBJ_vertex_indices
             (unlines ["v 0 0 0"; "v 1 0 0"; "v 1 1 0"; "vn 0 0 1"; "f 1//1 2//1 3//1";
                       "f 3 1 /"]%string)).
    + vm_compute. reflexivity.
    + repeat constructor.
Defined.

End OBJIndices.
(** ** writeOFF: the whole file *)

Module WriteMore.
Import OFF OFFSpec ReadFacts WriteFacts Roundtrip SeamFileFacts.

Lemma write_edges_lines : forall (es : list (Z * Z)) (pre : list Z) (i : Z),
  Z.of_nat (length pre) = 2 * i ->
  0 <= i -> 2 * (i + Z.of_nat (length es)) <= INT_MAX ->
  write_edges (length es) i (pre ++ flat_map ends es) = Ok (flat_map edge_line es).
Proof.
  induction es as [|[a b] es IH]; intros pre i Hpre Hi Hmax; [reflexivity|].
  cbn [length] in Hmax. cbn [length write_edges flat_map ends app fst snd].
  rewrite (int_val_in (i * 2)) by ulia. cbn [bind].
  replace (i * 2 + 0) with (Z.of_nat (length pre)) by lia.
  rewrite index_app_here. cbn [bind].
  replace (i * 2 + 1) with (Z.of_nat (length (pre ++ [a])))
    by (rewrite length_app; cbn [length]; lia).
  replace (pre ++ a :: b :: flat_map ends es)
    with ((pre ++ [a]) ++ b :: flat_map ends es) at 1
    by (now rewrite <- app_assoc).
  rewrite index_app_here. cbn [bind].
  replace (pre ++ a :: b :: flat_map ends es)
    with ((pre ++ [a; b]) ++ flat_map ends es)
    by (now rewrite <- app_assoc).
  rewrite IH.
  - cbn [bind]. unfold edge_line. cbn [fst snd]. rewrite <- app_assoc. cbn [app].
    rewrite <- app_assoc. reflexivity.
  - rewrite length_app. cbn [length]. lia.
  - lia.
  - lia.
Qed.

Lemma sumZ_lengths_concat (faces : list (list Z)) :
  sumZ (map (fun f => Z.of_nat (length f)) faces) = Z.of_nat (length (concat faces)).
Proof.
  induction faces as [|f faces IH]; [reflexivity|].
  cbn [map concat]. rewrite length_app. unfold sumZ in *. cbn [fold_right]. lia.
Qed.

Lemma writeOFF_layout (vs : list (double * double * double)) (faces : list (list Z))
    (es : list (Z * Z)) :
  forallb number_vertex vs = true ->
  3 * Z.of_nat (length vs) <= INT_MAX ->
  Z.of_nat (length faces) <= INT_MAX ->
  Z.of_nat (length (concat faces)) <= INT_MAX ->
  2 * Z.of_nat (length es) <= INT_MAX ->
  writeOFF true (flat_map coords vs) (concat faces)
    (Some (map (fun f => Z.of_nat (length f)) faces)) (flat_map ends es)
    (Z.of_nat (length vs)) (Z.of_nat (length faces)) (Z.of_nat (length es))
  = Ok (text "OFF" ++ LF ::
        print_d (Z.of_nat (length vs)) ++ " "%char :: print_d (Z.of_nat (length faces))
          ++ " "%char :: print_d (Z.of_nat (length es)) ++ LF ::
        flat_map vertex_line vs ++ flat_map face_line faces ++ flat_map edge_line es).
Proof.
  intros Hnum Hv Hf Hi He. unfold writeOFF. cbn [negb].
  rewrite (to_int_small (Z.of_nat (length vs))) by ulia.
  rewrite (to_int_small (Z.of_nat (length faces))) by ulia.
  rewrite (to_int_small (Z.of_nat (length es))) by ulia.
  rewrite !Nat2Z.id.
  pose proof (write_vertices_lines vs [] 0 Hnum eq_refl ltac:(lia) ltac:(lia)) as Wv.
  cbn [app] in Wv. rewrite Wv. clear Wv. cbn [bind].
  set (sizes := map (fun f => Z.of_nat (length f)) faces).
  pose proof (write_faces_lines (concat faces) (Some sizes) sizes O O) as W.
  assert (Hsizes : length sizes = length faces) by (unfold sizes; apply length_map).
  rewrite Hsizes in W. cbn [Z.of_nat skipn Nat.add] in W.
  rewrite W; clear W.
  - cbn [bind]. unfold sizes. rewrite chunks_concat.
    pose proof (write_edges_lines es [] 0 eq_refl ltac:(lia) ltac:(lia)) as We.
    cbn [app] in We. rewrite We. reflexivity.
  - intros k Hk. apply index_nth. lia.
  - unfold sizes. apply Forall_forall. intros s Hs. apply in_map_iff in Hs as (f & <- & _). lia.
  - unfold sizes. rewrite sumZ_lengths_concat. lia.
  - unfold sizes. rewrite sumZ_lengths_concat. lia.
Qed.

(** X22: the file that [writeOFF] writes for a mesh given by its
    vertices, its faces and its edges, when no coordinate is a NaN and the
    counts are those an [int] holds: the line [OFF], the line of the three
    counts, one line of three [%f] coordinates for each vertex, one line
    for each face with its size and its indices, and one line of two [%u]
    ends for each edge.  What [%f] writes for a NaN is left open. *)
Theorem writeOFF_file (vs : list (double * double * double)) (faces : list (list Z))
    (es : list (Z * Z)) :
  forallb number_vertex vs = true ->
  3 * Z.of_nat (length vs) <= INT_MAX ->
  Z.of_nat (length faces) <= INT_MAX ->
  Z.of_nat (length (concat faces)) <= INT_MAX ->
  2 * Z.of_nat (length es) <= INT_MAX ->
  writeOFF true (flat_map coords vs) (concat faces)
    (Some (map (fun f => Z.of_nat (length f)) faces)) (flat_map ends es)
    (Z.of_nat (length vs)) (Z.of_nat (length faces)) (Z.of_nat (length es))
  = Ok (text "OFF" ++ LF ::
        print_d (Z.of_nat (length vs)) ++ " "%char :: print_d (Z.of_nat (length faces))
          ++ " "%char :: print_d (Z.of_nat (length es)) ++ LF ::
        flat_map vertex_line vs ++ flat_map face_line faces ++ flat_map edge_line es).
Proof. apply writeOFF_layout. Qed.

Lemma writeOFF_file_witness :
  writeOFF true (flat_map coords [(zero, zero, zero); (one, zero, zero); (one, one, zero)])
    (concat [[0; 1; 2]])
    (Some (map (fun f => Z.of_nat (length f)) [[0; 1; 2]]))
    (flat_map ends [(0, 1); (1, 2); (2, 0)])
    (Z.of_nat 3) (Z.of_nat 1) (Z.of_nat 3)
  = Ok (unlines ["OFF"; "3 1 3"; "0.000000 0.000000 0.000000"; "1.000000 0.000000 0.000000";
                 "1.000000 1.000000 0.000000"; "3 0 1 2"; "0 1"; "1 2"; "2 0"]%string).
Proof.
  apply (writeOFF_file [(zero, zero, zero); (one, zero, zero); (one, one, zero)]
           [[0; 1; 2]] [(0, 1); (1, 2); (2, 0)]);
    [reflexivity|vm_compute; discriminate..].
Defined.

(** *** Face sizes that the array of indices does not cover *)

Lemma write_face_indices_past (indices : list Z) (base : nat) :
  forall (count j : nat),
    (base + j <= length indices < base + j + count)%nat ->
    write_face_indices count (Z.of_nat j) indices (Z.of_nat base) = Undefined.
Proof.
  induction count as [|count IH]; intros j H; [lia|].
  cbn [write_face_indices].
  replace (Z.of_nat base + Z.of_nat j) with (Z.of_nat (base + j)) by lia.
  destruct (Nat.eq_dec (base + j) (length indices)) as [E|E].
  - unfold index. destruct (Z.ltb_spec (Z.of_nat (base + j)) 0); [reflexivity|].
    rewrite Nat2Z.id. rewrite (proj2 (nth_error_None indices (base + j))) by lia.
    reflexivity.
  - rewrite index_nth by lia. cbn [bind].
    replace (Z.of_nat j + 1) with (Z.of_nat (S j)) by lia.
    rewrite IH by lia. reflexivity.
Qed.

Lemma write_faces_past (indices all : list Z) :
  forall (sizes : list Z) (i : nat) (base : nat),
    (forall k, (k < length sizes)%nat -> index all (Z.of_nat (i + k)) = Ok (nth k sizes 0)) ->
    Forall (fun s => 0 <= s) sizes ->
    Z.of_nat base <= Z.of_nat (length indices) < Z.of_nat base + sumZ sizes ->
    Z.of_nat base + sumZ sizes <= INT_MAX ->
    write_faces (length sizes) (Z.of_nat i) indices (Some all) (Z.of_nat base) = Undefined.
Proof.
  induction sizes as [|s sizes IH]; intros i base Hsz Hpos Hlen Hmax.
  - unfold sumZ in Hlen. cbn [fold_right] in Hlen. lia.
  - inversion Hpos as [|? ? Hs Hpos']; subst.
    assert (0 <= sumZ sizes) as Hsum.
    { clear -Hpos'. induction Hpos'; unfold sumZ in *; cbn [fold_right]; lia. }
    unfold sumZ in Hlen, Hmax. cbn [fold_right] in Hlen, Hmax. fold (sumZ sizes) in Hlen, Hmax.
    cbn [length write_faces].
    pose proof (Hsz O ltac:(cbn [length]; lia)) as H0.
    rewrite Nat.add_0_r in H0. cbn [nth] in H0. rewrite H0. cbn [bind].
    rewrite (to_int_small s) by lia.
    destruct (Z_lt_le_dec (Z.of_nat (length indices)) (Z.of_nat base + s)) as [Hpast|Hin].
    + pose proof (write_face_indices_past indices base (Z.to_nat s) 0) as Hw.
      rewrite Nat.add_0_r in Hw. cbn [Z.of_nat] in Hw. rewrite Hw by lia. reflexivity.
    + pose proof (write_face_indices_fields indices base (Z.to_nat s) 0) as Hw.
      rewrite Nat.add_0_r in Hw. cbn [Z.of_nat] in Hw. rewrite Hw by lia. clear Hw.
      cbn [bind]. rewrite (to_int_small (Z.of_nat base + s)) by lia.
      replace (Z.of_nat base + s) with (Z.of_nat (base + Z.to_nat s)) by lia.
      replace (Z.of_nat i + 1) with (Z.of_nat (S i)) by lia.
      rewrite IH; try assumption.
      * reflexivity.
      * intros k Hk. specialize (Hsz (S k) ltac:(cbn [length]; lia)).
        replace (i + S k)%nat with (S i + k)%nat in Hsz by lia. exact Hsz.
      * lia.
      * lia.
Qed.

(** X23: when the sizes of the faces add up to more than the array of
    indices holds, [writeOFF] reads behind the end of that array: the
    behaviour is undefined, whatever the vertices and the edges are,
    provided the vertex lines could be written. *)
Theorem writeOFF_reads_past_indices (pVertices : list double) (indices sizes pEdges : list Z)
    (numVertices numEdges : Z) (vs : list ascii) :
  Forall (fun s => 0 <= s) sizes ->
  Z.of_nat (length indices) < sumZ sizes ->
  sumZ sizes <= INT_MAX ->
  Z.of_nat (length sizes) <= INT_MAX ->
  write_vertices (Z.to_nat (to_int numVertices)) 0 pVertices = Ok vs ->
  writeOFF true pVertices indices (Some sizes) pEdges numVertices
    (Z.of_nat (length sizes)) numEdges
  = Undefined.
Proof.
  intros Hpos Hlen Hmax Hcount Hvs. unfold writeOFF. cbn [negb]. rewrite Hvs. cbn [bind].
  rewrite (to_int_small (Z.of_nat (length sizes))) by lia. rewrite Nat2Z.id.
  pose proof (write_faces_past indices sizes sizes O O) as W.
  cbn [Z.of_nat Nat.add] in W. rewrite W.
  - reflexivity.
  - intros k Hk. now apply index_nth.
  - exact Hpos.
  - lia.
  - lia.
Qed.

Lemma writeOFF_reads_past_indices_witness :
  writeOFF true [] [0; 1; 2; 3] (Some [3; 3]) [] 0 (Z.of_nat 2) 0 = Undefined.
Proof.
  apply (writeOFF_reads_past_indices [] [0; 1; 2; 3] [3; 3] [] 0 0 []).
  - repeat constructor; lia.
  - vm_compute. reflexivity.
  - vm_compute. discriminate.
  - vm_compute. discriminate.
  - reflexivity.
Defined.

(** *** Reading back a file with edges *)

Lemma length_in_concat (faces : list (list Z)) (f : list Z) :
  In f faces -> (length f <= length (concat faces))%nat.
Proof.
  induction faces as [|g fs IH]; [contradiction|].
  cbn [concat]. rewrite length_app. intros [->|Hf]; [lia|]. specialize (IH Hf). lia.
Qed.

(** X24: a mesh with edges that [writeOFF] has written is read back by
    [readOFF] like the same mesh without edges: the edge lines, which
    follow the last face line, are never read.  The coordinates are
    finite, the faces have at least three vertices each and the counts
    are those an [int] holds; each coordinate comes back as the double
    nearest to the six-decimal text written for it. *)
Theorem writeOFF_readOFF_with_edges (vs : list (double * double * double))
    (faces : list (list Z)) (es : list (Z * Z)) (numVertices0 numFaces0 : Z) :
  forallb finite_vertex vs = true ->
  3 * Z.of_nat (length vs) <= INT_MAX ->
  Forall (fun f => (3 <= length f)%nat) faces ->
  Z.of_nat (length (concat faces)) <= INT_MAX ->
  Forall (Forall (fun v => 0 <= v < UINT32_MOD)) faces ->
  2 * Z.of_nat (length es) <= INT_MAX ->
  exists bytes,
    writeOFF true (flat_map coords vs) (concat faces)
      (Some (map (fun f => Z.of_nat (length f)) faces)) (flat_map ends es)
      (Z.of_nat (length vs)) (Z.of_nat (length faces)) (Z.of_nat (length es)) = Ok bytes
    /\ readOFF (Some bytes) numVertices0 numFaces0
       = Ok (Mesh (map Some (map reread (flat_map coords vs)))
               (map Some (concat faces))
               (map Some (map (fun f => Z.of_nat (length f)) faces))
               (Z.of_nat (length vs)) (Z.of_nat (length faces))).
Proof.
  intros Hfin Hnv Hthree Hlen Hrange Hne.
  set (nv := Z.of_nat (length vs)). set (nf := Z.of_nat (length faces)).
  set (ne := Z.of_nat (length es)).
  set (sizes := map (fun f => Z.of_nat (length f)) faces).
  assert (Hsizes : Forall (fun s => 3 <= s) sizes).
  { unfold sizes. apply Forall_forall. intros s Hs. apply in_map_iff in Hs as (f & <- & Hf).
    rewrite Forall_forall in Hthree. specialize (Hthree f Hf). lia. }
  assert (Hsum : sumZ sizes = Z.of_nat (length (concat faces)))
    by apply sumZ_lengths_concat.
  assert (Hfl : length sizes = length faces) by (unfold sizes; apply length_map).
  pose proof (length_le_sum sizes Hsizes) as Hnf. rewrite Hfl in Hnf. fold nf in Hnf.
  set (rest := flat_map edge_line es).
  assert (writeOFF true (flat_map coords vs) (concat faces) (Some sizes) (flat_map ends es)
            nv nf ne
          = Ok ((text "OFF" ++ [LF])
                  ++ (print_d nv ++ " "%char :: print_d nf ++ " "%char :: print_d ne ++ [LF])
                  ++ flat_map vertex_line vs ++ flat_map face_line faces ++ rest)) as Hwrite.
  { unfold sizes, nv, nf, ne.
    rewrite writeOFF_layout; [|apply finite_numbers, Hfin|fold nf; lia..].
    f_equal. rewrite <- !app_assoc. cbn [app]. rewrite <- !app_assoc. cbn [app].
    rewrite <- !app_assoc. reflexivity. }
  eexists. split; [exact Hwrite|].
  (* the lines of the file *)
  destruct (counts_line_text nv nf ne numVertices0 numFaces0) as (Hcacc & Hcend & Hcscan);
    [unfold nv; ulia|unfold nf; ulia|unfold ne; ulia|].
  set (counts := print_d nv ++ " "%char :: print_d nf ++ " "%char :: print_d ne ++ [LF]) in *.
  assert (forall v, In v vs -> vertex_text (vertex_line v) (map reread (coords v))
                                /\ ends_line (vertex_line v) = true) as Hvs.
  { intros v Hv. apply vertex_line_text, finite_number.
    rewrite forallb_forall in Hfin. now apply Hfin. }
  assert (forall f, In f faces -> face_text (face_line f) (Z.of_nat (length f))
                                   /\ ends_line (face_line f) = true) as Hfs.
  { intros f Hf. apply face_line_text. pose proof (length_in_concat faces f Hf). lia. }
  unfold readOFF, readOFF_on, fopen.
  rewrite split_lines_line by reflexivity.
  rewrite split_lines_line by exact Hcend.
  rewrite split_lines_lines by (intros v Hv; now apply Hvs).
  rewrite split_lines_lines by (intros f Hf; now apply Hfs).
  set (tail := split_lines rest).
  (* the header and the counts *)
  destruct (readLine_accepted (text "OFF" ++ [LF])
              (counts :: map vertex_line vs ++ map face_line faces ++ tail) None eq_refl)
    as (buf1 & -> & Hs1).
  cbn [bind negb]. rewrite Hs1. cbn [bind].
  change (strstr (text "OFF" ++ [LF]) (list_ascii_of_string "OFF"))
    with (Some (text "OFF" ++ [LF])). cbv iota.
  destruct (readLine_accepted counts (map vertex_line vs ++ map face_line faces ++ tail)
              (Some buf1) Hcacc) as (buf2 & -> & Hs2).
  cbn [bind negb]. rewrite Hs2. cbn [bind]. rewrite Hcscan. cbn [bind].
  (* the vertices *)
  assert (Forall2 vertex_text (map vertex_line vs)
            (map (fun v => map reread (coords v)) vs)) as Hvtext.
  { clear -Hvs. induction vs as [|v vs IH]; cbn [map]; constructor.
    - apply Hvs. now left.
    - apply IH. intros w Hw. apply Hvs. now right. }
  destruct (read_vertices_lines _ _ Hvtext (map face_line faces ++ tail) (Some buf2) [] 0 O)
    as (line3 & Hverts); [reflexivity|lia|rewrite length_map; fold nv; lia|].
  rewrite length_map in Hverts. cbn [map app] in Hverts.
  unfold malloc at 1.
  replace (Z.to_nat (nv * 3)) with (3 * length vs + 0)%nat by (unfold nv; lia).
  replace (Z.to_nat nv) with (length vs) by (unfold nv; lia).
  rewrite Hverts. cbn [bind]. rewrite concat_map_coords. cbn [repeat]. rewrite app_nil_r.
  (* the sizes of the faces *)
  assert (Forall2 face_text (map face_line faces) sizes) as Hftext.
  { unfold sizes. clear -Hfs. induction faces as [|f fs IH]; cbn [map]; constructor.
    - apply Hfs. now left.
    - apply IH. intros g Hg. apply Hfs. now right. }
  rewrite (to_int_small nf) by (unfold nf; ulia).
  destruct (read_face_sizes_lines _ _ Hftext Hsizes O tail line3 [] 0 O 0)
    as (line4 & Hfsizes);
    [reflexivity|rewrite length_map; fold nf; lia|lia|lia|].
  rewrite length_map, !Nat.add_0_r in Hfsizes. cbn [map app repeat] in Hfsizes.
  unfold malloc at 1.
  replace (Z.to_nat nf) with (length faces) by (unfold nf; lia).
  rewrite app_nil_r in Hfsizes.
  rewrite Hfsizes. cbn [read_face_sizes bind].
  (* the indices of the faces *)
  destruct (read_faces_lines faces tail line4 [] 0 0 O) as (line5 & Hfaces);
    [exact Hrange|reflexivity|lia|lia|fold nf; lia|].
  rewrite Nat.add_0_r in Hfaces. cbn [map app repeat] in Hfaces.
  unfold malloc. rewrite Z.add_0_l, Hsum, Nat2Z.id.
  rewrite Hfaces. cbn [bind]. rewrite !app_nil_r. reflexivity.
Qed.

Lemma writeOFF_readOFF_with_edges_witness :
  exists bytes,
    writeOFF true (flat_map coords [(zero, zero, zero); (one, zero, zero); (one, one, zero)])
      (concat [[0; 1; 2]]) (Some (map (fun f => Z.of_nat (length f)) [[0; 1; 2]]))
      (flat_map ends [(0, 1); (1, 2); (2, 0)]) (Z.of_nat 3) (Z.of_nat 1) (Z.of_nat 3)
    = Ok bytes
    /\ readOFF (Some bytes) 0 0
       = Ok (Mesh (map Some (map reread
                    (flat_map coords [(zero, zero, zero); (one, zero, zero); (one, one, zero)])))
               (map Some (concat [[0; 1; 2]]))
               (map Some (map (fun f => Z.of_nat (length f)) [[0; 1; 2]]))
               (Z.of_nat 3) (Z.of_nat 1)).
Proof.
  apply (writeOFF_readOFF_with_edges [(zero, zero, zero); (one, zero, zero); (one, one, zero)]
           [[0; 1; 2]] [(0, 1); (1, 2); (2, 0)] 0 0).
  - reflexivity.
  - vm_compute. discriminate.
  - repeat constructor.
  - vm_compute. discriminate.
  - repeat constructor; vm_compute; try discriminate; reflexivity.
  - vm_compute. discriminate.
Defined.

End WriteMore.

(** ** readOBJ: the face vertices counted and the face vertices stored *)

Module OBJCorners.
Import OBJ OBJSpec OBJFacts OBJTotal OBJMore OBJTokens OBJIndices.

(** *** The length of the array of vertex indices *)

Lemma store_at_length {A : Type} (p p' : option (array A)) (i : Z) (v : A) :
  store_at p i v = Ok p' ->
  option_map (@length _) p' = option_map (@length _) p.
Proof.
  unfold store_at, store. destruct p as [a|]; [|discriminate].
  destruct (i <? 0); [discriminate|].
  destruct (set_nth a (Z.to_nat i) (Some v)) as [a'|] eqn:E; [|discriminate].
  cbn [bind]. intros H. injection H as <-. cbn [option_map].
  f_equal. exact (set_nth_length _ _ _ _ E).
Qed.

Lemma face_vertex_data_length (fuel : nat) (buf : list ascii) (start : nat)
    (token : list ascii) (st st' : state) :
  face_vertex_data fuel buf start 0 token st = Ok st' ->
  option_map (@length _) (pFaceVertexIndices st')
  = option_map (@length _) (pFaceVertexIndices st).
Proof.
  destruct fuel as [|fuel]; [discriminate|]. cbn [face_vertex_data]. intros H.
  apply bind_Ok_inv in H as ([[buf' tokenElem] save] & _ & H).
  destruct tokenElem as [[off len]|].
  - apply bind_Ok_inv in H as ([it1 st1] & E & H).
    apply face_vertex_datum_first in E as (-> & val & rest & _ & E).
    apply store_at_length in E.
    apply face_vertex_data_later in H; [|lia]. congruence.
  - injection H as <-. reflexivity.
Qed.

Lemma face_vertices_length (fuel : nat) : forall buf start iter st buf' iter' st',
  face_vertices fuel buf start iter st = Ok (buf', iter', st') ->
  option_map (@length _) (pFaceVertexIndices st')
  = option_map (@length _) (pFaceVertexIndices st).
Proof.
  induction fuel as [|fuel IH]; intros buf start iter st buf' iter' st' H; [discriminate|].
  cbn [face_vertices] in H.
  apply bind_Ok_inv in H as ([[buf1 token] save] & _ & H).
  destruct token as [[off len]|].
  - destruct (Ascii.eqb (hd NUL _) _).
    + apply IH in H. exact H.
    + apply bind_Ok_inv in H as (iter1 & _ & H).
      apply bind_Ok_inv in H as (st1 & Ed & H).
      apply bind_Ok_inv in H as (c & _ & H).
      apply face_vertex_data_length in Ed. apply IH in H. fields. congruence.
  - injection H as <- <- <-. reflexivity.
Qed.

Lemma parse_command_length buf s st st' :
  parse_command 2 buf s st = Ok st' ->
  option_map (@length _) (pFaceVertexIndices st')
  = option_map (@length _) (pFaceVertexIndices st).
Proof.
  intros H. destruct (command s) eqn:Ec;
    try (rewrite (parse_command_other_indices 2 buf s st st'); [reflexivity| |exact H];
         rewrite Ec; discriminate).
  unfold parse_command in H. rewrite Ec in H. cbn [Z.eqb Pos.eqb] in H.
  apply bind_Ok_inv in H as (n & _ & H).
  apply bind_Ok_inv in H as (size & _ & H).
  apply bind_Ok_inv in H as ([[buf1 iter] st1] & Ef & H).
  apply face_vertices_length in Ef. fields.
  destruct (iter =? to_int size); [|discriminate]. injection H as <-. fields. exact Ef.
Qed.

(** The third pass writes into the array of vertex indices; it never
    changes the number of its elements. *)
Lemma parse_pass_length : forall file st st',
  parse_pass 2 file st = Ok st' ->
  option_map (@length _) (pFaceVertexIndices st')
  = option_map (@length _) (pFaceVertexIndices st).
Proof.
  induction file as [|l file IH]; intros st st' H.
  - injection H as <-. reflexivity.
  - destruct (parse_pass_cons 2 l file st) as (tail & E). rewrite E in H. clear E.
    apply bind_Ok_inv in H as (st1 & Hl & H).
    apply IH in H. rewrite H.
    apply parse_line_cases in Hl as (buf1 & [[Hu ->]|[Hc Hl]]).
    + reflexivity.
    + apply parse_command_length in Hl. fields. exact Hl.
Qed.

(** The array of vertex indices of an accepted file has as many elements
    as the second pass has counted face vertices. *)
Lemma readOBJ_indices_length (bytes : list ascii) (st : state) :
  readOBJ (Some bytes) = Ok st ->
  exists a,
    pFaceVertexIndices st = Some a /\ length a = Z.to_nat (nFaceIndices st).
Proof.
  intros H.
  apply readOBJ_Ok_inv in H as (st0 & st1 & st2 & H0 & H1 & H2 & H3).
  pose proof (after_second_pass_indices _ _ H2) as I2.
  apply after_second_pass_faces in H2 as (_ & _ & N2).
  pose proof (parse_pass_arrays_kept 2 ltac:(lia) _ _ _ H3) as (_ & _ & _ & _ & N3).
  apply parse_pass_length in H3.
  unfold reset_counters in H3, N3. fields. rewrite I2 in H3. cbn [option_map] in H3.
  destruct (pFaceVertexIndices st) as [a|]; [|discriminate].
  injection H3 as H3. exists a. split; [reflexivity|].
  rewrite H3. unfold malloc. rewrite repeat_length. congruence.
Qed.

(** C5. For every file that [readOBJ] accepts, the total accumulated by
    the second pass in [nFaceIndices] is the sum of the recorded face
    sizes; it equals the number of slots the third pass has stepped over
    (the final [faceIndicesCounter]) and the number of elements of the
    array of vertex indices.  When every [f] line of the file ends with a
    line feed, with no carriage return and no [NUL] before it, the size
    recorded for a face is its number of tokens behind the command, and
    the array holds face by face, in file order, one element for each
    token that does not start with [f], as many as the size of the face:
    the number at the start of the token, less one, and no value at all
    where the token does not start with a number.  On a face line of the
    third pass an accepted line has moved [faceIndicesCounter] by exactly
    the size recorded for that face, and when the loop over the face
    vertices ends with another count the process is aborted with an error
    message. *)
Theorem readOBJ_corners :
  (forall contents st,
      readOBJ contents = Ok st ->
      exists sizes a,
        pFaceSizes st = Some (map Some sizes)
        /\ nFaceIndices st = sumZ sizes
        /\ faceIndicesCounter st = sumZ sizes
        /\ pFaceVertexIndices st = Some a
        /\ Z.of_nat (length a) = sumZ sizes)
  /\ (forall bytes st,
        readOBJ (Some bytes) = Ok st ->
        Forall (fun l => l = content l ++ [LF]) (filter (has_command FACE) (fopen bytes)) ->
        pFaceSizes st
        = Some (map Some (map face_size (filter (has_command FACE) (fopen bytes))))
        /\ pFaceVertexIndices st
           = Some (concat (map face_slots (filter (has_command FACE) (fopen bytes))))
        /\ Forall (fun l => Z.of_nat (length (face_slots l)) = face_size l)
             (filter (has_command FACE) (fopen bytes)))
  /\ (forall buf s st st',
        command s = FACE ->
        parse_command 2 buf s st = Ok st' ->
        exists size,
          load_at (pFaceSizes st) (nFaces st) = Ok size
          /\ faceIndicesCounter st' - faceIndicesCounter st = to_int size)
  /\ (forall buf s st n size buf' iter st1,
        command s = FACE ->
        int_val (nFaces st + 1) = Ok n ->
        load_at (pFaceSizes st) (nFaces st) = Ok size ->
        face_vertices (S (length buf)) buf 0 0 (with_nFaces n st) = Ok (buf', iter, st1) ->
        iter <> to_int size ->
        parse_command 2 buf s st = Fatal "error: have vertices when there should be").
Proof.
  split; [|split; [|split]].
  - intros contents st H.
    destruct (readOBJ_totals contents st H) as (sizes & A & R & B & C).
    destruct contents as [bytes|]; [|discriminate H].
    destruct (readOBJ_indices_length bytes st H) as (a & Ea & La).
    exists sizes, a. conjs; auto.
    rewrite La, B. apply Z2Nat.id. apply sumZ_nonneg, R.
  - intros bytes st H Hlf. exact (readOBJ_faces_filled bytes st H Hlf).
  - intros buf s st st' Hc H.
    apply parse_command_face_fill in H as (size & A & B & _); [|exact Hc].
    exists size. split; [exact A|lia].
  - intros buf s st n size buf' iter st1 Hc Hn Hl Hf Hne.
    unfold parse_command. rewrite Hc, Hn. cbn [bind Z.eqb Pos.eqb]. fields.
    rewrite Hl. cbn [bind]. rewrite Hf. cbn [bind].
    destruct (Z.eqb_spec iter (to_int size)); [contradiction|reflexivity].
Qed.

Lemma readOBJ_corners_witness :
  (exists st,
      readOBJ (Some (unlines ["v 0 0 0"; "v 1 0 0"; "v 1 1 0"; "f 1 2 3"; "f 3 2 1"]%string))
      = Ok st
      /\ (exists sizes a,
            pFaceSizes st = Some (map Some sizes)
            /\ nFaceIndices st = sumZ sizes
            /\ faceIndicesCounter st = sumZ sizes
            /\ pFaceVertexIndices st = Some a
            /\ Z.of_nat (length a) = sumZ sizes)
      /\ pFaceSizes st = Some [Some 3; Some 3]
      /\ pFaceVertexIndices st = Some [Some 0; Some 1; Some 2; Some 2; Some 1; Some 0])
  /\ match parse_command 2 (text "f 1 2 3" ++ [NUL; NUL]) (text "f 1 2 3")
             (State None 3 3 0 0 0 0 None None None (Some [Some 3])
                (Some [None; None; None]) None None 3 0 0 1)
     with
     | Ok st' => exists size,
         load_at (Some [Some 3]) 0 = Ok size
         /\ faceIndicesCounter st' - 0 = to_int size
     | _ => False
     end
  /\ parse_command 2 (text "f 1 2 3" ++ [NUL; NUL]) (text "f 1 2 3")
       (State None 4 3 0 0 0 0 None None None (Some [Some 4])
          (Some [None; None; None; None]) None None 3 0 0 1)
     = Fatal "error: have vertices when there should be".
Proof.
  split; [|split].
  - eexists. split; [vm_compute; reflexivity|]. split.
    + apply (proj1 readOBJ_corners
               (Some (unlines ["v 0 0 0"; "v 1 0 0"; "v 1 1 0"; "f 1 2 3";
                               "f 3 2 1"]%string))).
      vm_compute. reflexivity.
    + pose proof (proj1 (proj2 readOBJ_corners)
                    (unlines ["v 0 0 0"; "v 1 0 0"; "v 1 1 0"; "f 1 2 3";
                              "f 3 2 1"]%string)) as P.
      specialize (P _ ltac:(vm_compute; reflexivity)).
      specialize (P ltac:(repeat constructor)).
      destruct P as (A & B & _).
      split; [exact A|exact B].
  - destruct (parse_command 2 (text "f 1 2 3" ++ [NUL; NUL]) (text "f 1 2 3")
                (State None 3 3 0 0 0 0 None None None (Some [Some 3])
                   (Some [None; None; None]) None None 3 0 0 1))
      as [st'| | | |] eqn:E; try (vm_compute in E; discriminate E).
    exact (proj1 (proj2 (proj2 readOBJ_corners)) _ (text "f 1 2 3") _ st' eq_refl E).
  - eapply (proj2 (proj2 (proj2 readOBJ_corners))).
    + reflexivity.
    + reflexivity.
    + reflexivity.
    + vm_compute. reflexivity.
    + vm_compute. discriminate.
Defined.

(** A face vertex that is counted is not always stored.  In the file
    below the face has the three tokens [3], [1] and [/]: its size is 3,
    both totals are 3 and the file is accepted, but the slot of the third
    face vertex has never been written. *)
Lemma readOBJ_corners_counterexample :
  exists st,
    readOBJ (Some (unlines ["v 0 0 0"; "v 1 0 0"; "v 1 1 0"; "f 3 1 /"]%string)) = Ok st
    /\ pFaceSizes st = Some [Some 3]
    /\ nFaceIndices st = 3
    /\ faceIndicesCounter st = 3
    /\ pFaceVertexIndices st = Some [Some 2; Some 0; None].
Proof.
  eexists. split; [vm_compute; reflexivity|].
  repeat split.
Qed.

End OBJCorners.
